(* ===== verification/_CoqProject ===== *)
-Q . S2P
Prelude.v
Coding.v
WriteBatch.v
Wal.v
MemTable.v
LruCache.v
Bloom.v
SSTable.v
Db.v
Raft.v
RaftRpc.v
RaftDurable.v
RaftElection.v
RaftReplication.v
RaftLog.v
RaftTypes.v
RaftReign.v
RaftCommit.v
RaftScenarios.v
RaftLocks.v
Metadata.v
EditLog.v
NameNode.v
Net.v
EventLoop.v
ThreadPool.v
Servers.v
BlockStore.v
DataNode.v
Repair.v
HaServer.v
HaCluster.v
