(* ===== verification/Prelude.v ===== *)
(** * A verified model of the mini HDFS

    The program is a small distributed file system in C++ (src/src): a storage
    engine of the LevelDB family, a Raft consensus node, name nodes that keep the
    name space and place blocks, data nodes that store blocks, and a small event
    loop for the network.  This library translates its code into Gallina function
    by function and proves what the functions guarantee; where the code does not
    do what its comments promise, the library states and proves what it does.

    ** Conventions

    - [std::string], [char*] regions and file contents are [list byte].  Integers
      are [Z]; the wrap-around of the C++ type is written out ([u8], [u32],
      [u64], [int32]).
    - A function with undefined behaviour on some arguments, or that may throw an
      exception nothing catches, returns an [option]; [None] stands for those.
      A returned [false] or an error value is a value of the model.
      The step relations go on from a [Some] only: an execution of theirs is one in
      which the code has not run into such an argument.
    - A loop that is not structural has fuel.  Its callers compute the fuel from
      the state, and the theorems show it is enough: [None] for lack of fuel is
      never the answer on the states the theorems speak of.
    - Mutexes make a method one step; a method that releases its mutex is cut into
      its critical sections.  The mutexes of the Raft node, which its threads take in
      two orders, have a file of their own ([RaftLocks]).
    - How far a write to a disk or a socket gets is an argument of the operation or a
      field of the state.
    - Code outside the repository (sockets, the protobuf codec, clocks, random
      engines) is a parameter; its documented laws are hypotheses of the theorems
      that need them, and their witnesses instantiate them.

    ** The storage engine (src/src/engine)

    - [Coding]: coding.cc.  Fixed-width and varint integers, length-prefixed
      strings, the CRC.  [EncodeVarint32] drops the result of its shift, so it is
      right exactly below 128 ([EncodeVarint32_correct_iff]).
    - [WriteBatch]: db_write_batch.cc; the class of handlers is a type class.
    - [Wal]: log_writer.cc and log_reader.cc over the bytes of the file, with the
      states of the stream: round trip (of records up to 65535 bytes, every write
      succeeding), torn writes, corruption, over-long records.
    - [MemTable]: MemTable.cc, the skip list as nodes in a heap of addresses with
      allocation and deletion; it refines a sorted map.
    - [LruCache]: LruCache.cc, the hash map and the doubly linked list in a heap of
      addresses; it refines a bounded list in order of use.
    - [Bloom]: BloomFilter.h; no false negatives.
    - [SSTable]: SSTableBuilder.cc and SSTableReader.cc over the bytes of the file.
    - [Db]: db.cc, which composes all of the above.  [DB_refines_map] is the
      contract: the database answers as a map and survives one restart, as long as
      the calls come to at most 123 bytes and the disk takes every write; beyond
      that, [FlushMemTable_overrun], [DB_second_restart_loses] and
      [Put_ignores_sync] say what happens.

    ** Consensus (src/src/raft)

    - [Raft]: raft_node.cc, every method; the two files as bytes; callbacks, clock
      and random engine as parameters.  [RaftRpc]: raft_rpc.cc, where a response is
      handled inside the call that sent the request, so that the node re-enters
      itself.  The state file is truncated and written in
      place: the [Disk] of a node says whether a write of it is refused, cut short by
      the death of the process, or whole.
    - [RaftDurable]: the step relation of a node with crashes between two writes of
      the file: the file then mirrors term, vote and log, and a node votes once per
      term; what a restart finds.  A crash inside a write forgets the vote, and the
      node votes twice in one term ([torn_state_forgets_vote]); so the safety
      theorems of a cluster ask for whole writes.
    - [RaftReplication]: what [HandleAppendEntries] and [AdvanceCommitIndex] do on
      every branch; the re-entrant sends terminate, for a call that gets its mutexes.
    - [RaftLocks]: the mutexes each method takes and releases, in its order, and
      threads that run them: the timer and a request can deadlock
      ([election_timer_deadlock]), requests and proposals alone cannot.
    - [RaftElection]: a cluster of nodes with vote messages in flight, lost and
      reordered, crashes between two writes and restarts; at most one leader per
      term ([election_safety]).  [RaftLog]: the same cluster with its append messages;
      an index and a term determine an entry.
    - [RaftReign]: a cluster while one node takes the proposals and sends the append
      messages; the state machine behind the callback is a type class.  Every log is
      a prefix of the leader's, and every state machine is the leader's commands up
      to the node's position ([one_leader_replicates]), as long as no node restarts
      or takes a snapshot; after that it fails, as [RaftDurable] and [RaftScenarios]
      show.  [RaftCommit]: when the
      leader counts answers of its followers, what is committed is in the logs of a
      majority.  [RaftTypes]: every integer stays in
      its type, whatever arrives, so that a state file can always be read back, and
      the one kind of message whose handling is undefined.
    - [RaftScenarios]: executions of a few nodes that end where Raft must not:
      state machines that differ at one index, proposals that are lost.

    ** The name node (src/src/namenode, src/src/common)

    - [Metadata]: metadata_store.cc, datanode_manager.cc, block_manager.cc; the
      iteration order of hash maps is a class, so no theorem depends on it.
      [EditLog]: edit_log.cc, over the bytes of the file and the processes that open
      it one after the other.
    - [NameNode]: namenode_server.cc, every handler and the dispatch; it refines an
      abstract name space ([NameNode_refines_namespace]).  Overlapping allocations
      and what a restart forgets are theorems of their own.
    - [HaServer]: ha_server.cc on top of [Raft] and [Metadata]: replicas that apply
      the same commands agree ([ha_replicas_agree]), unless one of them lacked a
      data node; snapshots; what a client's write is answered.
    - [HaCluster]: [HaServer] as the state machine of [RaftReign]: the servers of a
      cluster under one leader show one history of the name space.
    - [Repair]: replication_monitor.cc, block_replicator.cc, consistency_checker.cc
      and fault_detector.cc, over the name node's tables and any network of data
      nodes; a round of repair restores the replicas when the data nodes serve
      reads and accept copies, and never does against the data nodes of this
      repository ([repair_never_succeeds]).

    ** Data nodes (src/src/datanode)

    - [BlockStore]: block_store.cc over the two directories of a node, with whatever
      the disk answers; it refines a map from identifiers to data and a set of
      damaged blocks, across restarts; what a crash inside a write costs.
    - [DataNode]: pipeline_handler.cc, datanode_server.cc and datanode_client.cc.  A
      node that starts joins a name node ([data_node_joins] is proved against
      [NameNode]); the test of the local write is inverted, and what follows.

    ** The network (src/src/net)

    - [Net]: net_io_helpers.h and the buffers of net_tcp_connection.cc: framing,
      partial reads and writes, delivery in order.
    - [EventLoop]: net_event_loop.cc, net_channel.cpp, net_tcp_server.cc and the life
      of a connection: channels are objects that may die while the loop points at
      them, the listening channel among them.  A message callback may keep its connection or answer at once.  The
      loop mirrors the kernel's interest list and never touches a dead object, except
      in two cases, which have their own theorems: the end of a stream together with
      a writable socket ([close_while_writable]), and an answer that fails inside the
      message callback ([failed_reply_dangles]).
      The task queue of the loop is a step relation of its own.
    - [ThreadPool]: net_thread_pool.cc, as a step relation over the workers with the
      lock and the condition variable, spurious wake-ups included: each task runs
      once, [Stop] drains the queue, and [Stop] can hang.
    - [Servers]: Start, Stop and the destructors of all servers over the threads they
      own, the workers of their pools included, on every answer of their ports and
      whichever threads end when told to; the listening thread of a data node.

    ** How the parts meet

    [Db] composes the files of the engine.  [HaServer] instantiates the callbacks of
    [Raft] with the tables of [Metadata], and [HaCluster] the class of [RaftReign]
    with them; [NameNode] uses [Metadata] and [EditLog];
    [DataNode] uses [BlockStore] and, for joining, [NameNode]; [Repair] uses
    [Metadata] and the handlers of [DataNode].  [Net], [EventLoop] and [ThreadPool]
    stand alone: the servers see a connection as a call that answers or fails, which
    is what [message_whole_or_nothing] and [tcp_delivers_in_order] justify.

    ** Not modelled

    - The protobuf classes are generated; serialising is a parameter whose law is
      the round trip.  zlib's [crc32] is a parameter without laws.
    - Sleeping, and what the calls that make, bind, listen on and connect sockets do:
      their answers are arguments.  One turn of each thread is a definition or a
      step; [Servers] has the life of the threads themselves.
    - Log output, and the printing of reports.
    - Data races on single variables: a read or write of one is one step.
*)
From stdpp Require Export base tactics numbers list option strings gmap sorting pretty.
From coqutil Require Export Byte.
From Stdlib Require Export Strings.Byte Lia ZArith.

#[export] Set Default Goal Selector "!".
#[export] Set Default Proof Using "Type".
#[export] Set Warnings "-clear-no-such-hyp".
#[export] Obligation Tactic := idtac.
#[global] Open Scope Z_scope.

(** * Bytes and strings

    [std::string], [char*] regions and file contents are all lists of bytes;
    a byte is the 256-constructor type of the Standard Library, read as a
    number with [byte.unsigned] and truncated to with [byte.of_Z]
    (a C++ conversion to an 8-bit type). *)

Abbreviation bytes := (list byte).

Definition str (s : string) : bytes := String.list_byte_of_string s.
Arguments str : simpl never.

#[export] Instance byte_eq_dec : EqDecision byte.
Proof. intros a b. apply Byte.byte_eq_dec. Defined.

#[export] Instance byte_inhabited : Inhabited byte := populate x00.

#[export] Instance byte_countable : Countable byte :=
  inj_countable Byte.to_N Byte.of_N Byte.of_to_N.

(** Value of a byte, with its range in the automation. *)
Lemma byte_range (b : byte) : 0 <= byte.unsigned b < 256.
Proof. apply (byte.unsigned_range b). Qed.

Lemma byte_of_unsigned (b : byte) : byte.of_Z (byte.unsigned b) = b.
Proof. apply byte.of_Z_unsigned. Qed.

Lemma byte_unsigned_of_Z (z : Z) : byte.unsigned (byte.of_Z z) = z mod 256.
Proof. rewrite byte.unsigned_of_Z. reflexivity. Qed.

Lemma byte_unsigned_small (z : Z) :
  0 <= z < 256 → byte.unsigned (byte.of_Z z) = z.
Proof. intros ?. rewrite byte_unsigned_of_Z. by apply Z.mod_small. Qed.

#[export] Instance byte_unsigned_inj : Inj (=) (=) byte.unsigned.
Proof. intros a b. apply byte.unsigned_inj. Qed.

(** * Machine integers: unsigned wrap-around at the width of the type. *)

Definition u8 (z : Z) : Z := z mod 2 ^ 8.
Definition u32 (z : Z) : Z := z mod 2 ^ 32.
Definition u64 (z : Z) : Z := z mod 2 ^ 64.

(** The conversion to [int]: the two's complement reading of 32 bits. *)
Definition int32 (z : Z) : Z := (z + 2 ^ 31) mod 2 ^ 32 - 2 ^ 31.

Lemma int32_small z : - 2 ^ 31 <= z < 2 ^ 31 → int32 z = z.
Proof. intros Hz. unfold int32. rewrite Z.mod_small; lia. Qed.

(** [size()] of a [std::string] or of a vector, as a number. *)
Definition zlen {A} (l : list A) : Z := Z.of_nat (length l).

Lemma zlen_nil {A} : zlen (@nil A) = 0.
Proof. done. Qed.
Lemma zlen_cons {A} (x : A) l : zlen (x :: l) = 1 + zlen l.
Proof. unfold zlen. simpl. lia. Qed.
Lemma zlen_app {A} (l k : list A) : zlen (l ++ k) = zlen l + zlen k.
Proof. unfold zlen. rewrite length_app. lia. Qed.
Lemma zlen_nonneg {A} (l : list A) : 0 <= zlen l.
Proof. unfold zlen. lia. Qed.
Lemma zlen_pos {A} (l : list A) : l ≠ [] → 0 < zlen l.
Proof. destruct l; [done|]. intros _. unfold zlen. simpl. lia. Qed.
Lemma zlen_to_nat {A} (l : list A) : Z.to_nat (zlen l) = length l.
Proof. unfold zlen. apply Nat2Z.id. Qed.
Lemma u32_small z : 0 <= z < 2 ^ 32 → u32 z = z.
Proof. apply Z.mod_small. Qed.
Lemma u32_range z : 0 <= u32 z < 2 ^ 32.
Proof. by apply Z.mod_pos_bound. Qed.
Lemma u64_small z : 0 <= z < 2 ^ 64 → u64 z = z.
Proof. apply Z.mod_small. Qed.
Lemma u64_range z : 0 <= u64 z < 2 ^ 64.
Proof. by apply Z.mod_pos_bound. Qed.

(** * The order of [std::string]: [operator<] compares bytes as unsigned
    numbers, lexicographically ([std::char_traits<char>::compare]). *)

Fixpoint bytes_ltb (a b : bytes) : bool :=
  match a, b with
  | _, [] => false
  | [], _ :: _ => true
  | x :: a', y :: b' =>
      if byte.unsigned x <? byte.unsigned y then true
      else if byte.unsigned y <? byte.unsigned x then false
      else bytes_ltb a' b'
  end.

Definition bytes_lt (a b : bytes) : Prop := bytes_ltb a b = true.

Declare Scope ms_scope.
Delimit Scope ms_scope with ms.
Notation "a '<ₛ' b" := (bytes_lt a b) (at level 70) : ms_scope.
#[global] Open Scope ms_scope.

#[export] Instance bytes_lt_dec : RelDecision bytes_lt.
Proof. intros a b. unfold bytes_lt. apply _. Defined.

(** Case analysis on every boolean comparison of integers in sight. *)
Ltac case_Z :=
  repeat match goal with
  | |- context [?a <? ?b] => destruct (Z.ltb_spec a b)
  | |- context [?a <=? ?b] => destruct (Z.leb_spec a b)
  | |- context [?a =? ?b] => destruct (Z.eqb_spec a b)
  | H : context [?a <? ?b] |- _ => destruct (Z.ltb_spec a b)
  | H : context [?a <=? ?b] |- _ => destruct (Z.leb_spec a b)
  | H : context [?a =? ?b] |- _ => destruct (Z.eqb_spec a b)
  end.

Lemma bytes_ltb_irrefl a : bytes_ltb a a = false.
Proof. induction a as [|x a IH]; simpl; [done|]. by rewrite Z.ltb_irrefl. Qed.

#[export] Instance bytes_lt_trans : Transitive bytes_lt.
Proof.
  intros a. unfold bytes_lt.
  induction a as [|x a IH]; intros [|y b] [|z c]; simpl; try done.
  intros H1 H2. case_Z; try done; try lia. by eapply IH.
Qed.

#[export] Instance bytes_lt_strict : StrictOrder bytes_lt.
Proof.
  split; [|apply _]. intros a Ha. unfold bytes_lt in Ha.
  by rewrite bytes_ltb_irrefl in Ha.
Qed.

Lemma bytes_lt_total a b : a <ₛ b ∨ a = b ∨ b <ₛ a.
Proof.
  unfold bytes_lt. revert b.
  induction a as [|x a IH]; intros [|y b]; simpl; auto.
  case_Z; auto; try lia.
  assert (x = y) as -> by (apply (inj byte.unsigned); lia).
  destruct (IH b) as [?|[->|?]]; auto.
Qed.

Lemma bytes_lt_irrefl a : ¬ a <ₛ a.
Proof. apply (irreflexivity bytes_lt). Qed.

Lemma bytes_ltb_false a b : bytes_ltb a b = false → b <ₛ a ∨ a = b.
Proof.
  intros H. destruct (bytes_lt_total a b) as [Hl|[?|?]]; auto.
  unfold bytes_lt in Hl. congruence.
Qed.

(** Arithmetic through wrap-arounds. *)
Ltac wrap_lia :=
  unfold u64, u32, u8 in *;
  change (2 ^ 64) with 18446744073709551616 in *;
  change (2 ^ 32) with 4294967296 in *;
  change (2 ^ 8) with 256 in *;
  Z.to_euclidean_division_equations; lia.

Create HintDb ms.
#[export] Hint Resolve byte_range u32_range u64_range zlen_nonneg : ms.
Create Rewrite HintDb ms_len.
#[export] Hint Rewrite @zlen_app @zlen_cons @zlen_nil : ms_len.

(** * Partial operations

    A C++ operation with undefined behaviour on some arguments (a read or a
    write out of a buffer's bounds, a null dereference, a loop that never
    leaves its buffer) is a function to [option]: [None] stands for every
    such behaviour, [Some] for a normal return. *)

Definition guarded {A} (b : bool) (k : option A) : option A :=
  if b then k else None.

(** Inversion of a partial computation that returned. *)
Ltac inv_some :=
  repeat match goal with
  | H : mbind _ _ = Some _ |- _ =>
      let x := fresh "x" in let Hx := fresh "E" in
      apply bind_Some in H as (x & Hx & H)
  | H : guarded _ _ = Some _ |- _ => unfold guarded in H
  | H : (if ?b then _ else None) = Some _ |- _ => destruct b eqn:?; [|done]
  | H : (if ?b then None else _) = Some _ |- _ => destruct b eqn:?; [done|]
  | H : Some _ = Some _ |- _ => injection H as H
  | p : (_ * _)%type |- _ => destruct p
  end; subst; simpl in *.

(** * Regions of memory and slices *)

(** [slice off len l]: the [len] bytes of [l] from [off], when they are all
    inside [l]. *)
Definition slice (off len : nat) (l : bytes) : option bytes :=
  if (off + len <=? length l)%nat then Some (take len (drop off l)) else None.

Lemma slice_app_mid a b c : slice (length a) (length b) (a ++ b ++ c) = Some b.
Proof.
  unfold slice. rewrite !length_app.
  destruct (Nat.leb_spec (length a + length b)
              (length a + (length b + length c)))%nat; [|lia].
  by rewrite drop_app_length, take_app_length.
Qed.

Lemma slice_length off len l r : slice off len l = Some r → length r = len.
Proof.
  unfold slice. destruct (Nat.leb_spec (off + len) (length l)); [|done].
  intros [= <-]. rewrite length_take, length_drop. lia.
Qed.

(** Overwrite [length w] bytes of [l] from [off] (the target is in range). *)
Definition overwrite (off : nat) (w l : bytes) : bytes :=
  take off l ++ w ++ drop (off + length w) l.

Lemma overwrite_length off w l :
  (off + length w ≤ length l)%nat → length (overwrite off w l) = length l.
Proof.
  intros H. unfold overwrite. rewrite !length_app, length_take, length_drop. lia.
Qed.

Lemma overwrite_app a b c w :
  length w = length b → overwrite (length a) w (a ++ b ++ c) = a ++ w ++ c.
Proof.
  intros H. unfold overwrite. rewrite take_app_length. do 2 f_equal.
  rewrite H. rewrite app_assoc, <- length_app. by rewrite drop_app_length.
Qed.

(** * Input streams *)

(** [std::ifstream]: contents, position, and the fail bit. *)
Record ifstream := mkStream {
  s_content : bytes;
  s_pos : Z;
  s_failed : bool;
}.

(** [seekg(off)]: a position from 2^63 on is negative and fails. *)
Definition seekg (s : ifstream) (off : Z) : ifstream :=
  if s_failed s then s
  else if off <? 2 ^ 63 then mkStream (s_content s) off false
  else mkStream (s_content s) (s_pos s) true.

(** [read(buf, n)] into a buffer of [n] bytes: a short read keeps what it got
    and sets the fail bit. *)
Definition stream_read (s : ifstream) (n : nat) (buf : bytes) : ifstream * bytes :=
  if s_failed s then (s, buf)
  else
    let got := take n (drop (Z.to_nat (s_pos s)) (s_content s)) in
    (mkStream (s_content s) (s_pos s + zlen got) (length got <? n)%nat,
     got ++ drop (length got) buf).

(** [gcount()] of the read that took [s] to [s']. *)
Definition gcount (s s' : ifstream) : Z := s_pos s' - s_pos s.

(** A freshly opened stream. *)
Definition open_stream (content : bytes) : ifstream := mkStream content 0 false.

(** Filters that agree on the elements of the list. *)
Lemma filter_ext_elem {A} (P Q : A → Prop) `{∀ x, Decision (P x), ∀ x, Decision (Q x)} (l : list A) :
  (∀ x, x ∈ l → P x ↔ Q x) → filter P l = filter Q l.
Proof.
  induction l as [|x l IH]; intros HPQ; [done|]. rewrite !filter_cons.
  rewrite IH by (intros y Hy; apply HPQ; by right).
  destruct (decide (P x)), (decide (Q x)); try done; exfalso;
    destruct (HPQ x ltac:(left)); tauto.
Qed.

Lemma filter_all {A} (P : A → Prop) `{∀ x, Decision (P x)} (l : list A) :
  (∀ x, x ∈ l → P x) → filter P l = l.
Proof.
  induction l as [|x l IH]; intros HP; [done|].
  rewrite filter_cons_True by (apply HP; left). f_equal. apply IH. intros y Hy. apply HP. by right.
Qed.

(** * Decimal numbers *)

(** [std::to_string] of an unsigned number. *)
Definition to_string (n : Z) : bytes := str (pretty (Z.to_N n)).

Lemma to_string_no_colon n : x3a ∉ to_string n.
Proof.
  assert (∀ x s, x3a ∉ str s → x3a ∉ str (pretty_N_go x s)) as Hgo.
  { intros x. induction (N.lt_wf_0 x) as [x _ IH]. intros s Hs.
    assert (x = 0 ∨ 0 < x)%N as [->|Hx] by lia; [by rewrite pretty_N_go_0|].
    rewrite pretty_N_go_step by done. apply IH; [by apply N.div_lt|].
    unfold str in *. simpl. apply not_elem_of_cons. split; [|done].
    unfold pretty_N_char. by repeat case_match. }
  unfold to_string, pretty, pretty_N. case_decide.
  { change (str "0") with [x30]. by rewrite list_elem_of_singleton. }
  apply Hgo. apply not_elem_of_nil.
Qed.

Lemma str_inj s1 s2 : str s1 = str s2 → s1 = s2.
Proof.
  intros H. unfold str in H. rewrite <- (String.string_of_list_byte_of_string s1), H.
  apply String.string_of_list_byte_of_string.
Qed.

Lemma to_string_inj a b : 0 <= a → 0 <= b → to_string a = to_string b → a = b.
Proof. intros Ha Hb H%str_inj%(inj pretty). lia. Qed.

(** Splitting at the last occurrence of a separator. *)
Lemma app_sep_inj {A} (sep : A) l1 l2 r1 r2 :
  (sep ∉ r1) → (sep ∉ r2) → l1 ++ sep :: r1 = l2 ++ sep :: r2 → l1 = l2 ∧ r1 = r2.
Proof.
  revert l2. induction l1 as [|x l1 IH]; intros [|y l2] H1 H2 H; simplify_eq/=; [done| | |].
  - exfalso. apply H1. apply elem_of_app. right. left.
  - exfalso. apply H2. apply elem_of_app. right. left.
  - by edestruct IH as [-> ->]; [| |eassumption|].
Qed.


(** * [std::map] with string keys

    An association list in strictly increasing key order. *)

Abbreviation smap V := (list (bytes * V)).

Definition smap_sorted {V} (m : smap V) : Prop := StronglySorted bytes_lt (map fst m).

(** [m[k] = v]. *)
Fixpoint smap_insert {V} (k : bytes) (v : V) (m : smap V) : smap V :=
  match m with
  | [] => [(k, v)]
  | (k', v') :: m' =>
      if bytes_ltb k k' then (k, v) :: m
      else if bytes_ltb k' k then (k', v') :: smap_insert k v m'
      else (k, v) :: m'
  end.

(** [m.lower_bound(k)]: the first binding whose key is not less than [k]. *)
Fixpoint smap_lower_bound {V} (k : bytes) (m : smap V) : option (bytes * V) :=
  match m with
  | [] => None
  | (k', v) :: m => if bytes_ltb k' k then smap_lower_bound k m else Some (k', v)
  end.

Lemma smap_insert_keys {V} k (v : V) m k' :
  k' ∈ map fst (smap_insert k v m) → k' = k ∨ k' ∈ map fst m.
Proof.
  induction m as [|[k1 v1] m IH]; simpl; [by rewrite list_elem_of_singleton; left|].
  destruct (bytes_ltb k k1); simpl; [by intros [->|?]%elem_of_cons; auto|].
  destruct (bytes_ltb k1 k); simpl; intros [->|Hin]%elem_of_cons; auto.
  - right. left.
  - destruct (IH Hin); [by left|right; by right].
  - right. by right.
Qed.

Lemma smap_insert_sorted {V} k (v : V) m :
  smap_sorted m → smap_sorted (smap_insert k v m).
Proof.
  unfold smap_sorted. induction m as [|[k1 v1] m IH]; simpl; intros Hs.
  { repeat constructor. }
  pose proof Hs as [Hs1 H1]%StronglySorted_inv.
  destruct (bytes_ltb k k1) eqn:E1; simpl.
  { constructor; [done|]. constructor; [done|]. eapply Forall_impl; [exact H1|].
    intros x Hx. exact (bytes_lt_trans _ _ _ E1 Hx). }
  destruct (bytes_ltb k1 k) eqn:E2; simpl.
  - constructor; [by apply IH|]. apply Forall_forall. intros x [->|Hx]%smap_insert_keys; [done|].
    rewrite Forall_forall in H1. by apply H1.
  - apply bytes_ltb_false in E1 as [E1|E1]; [unfold bytes_lt in E1; congruence|].
    subst k. by constructor.
Qed.

Lemma smap_insert_map {V} k (v : V) m :
  list_to_map (M := gmap bytes V) (smap_insert k v m) = <[k := v]> (list_to_map m).
Proof.
  induction m as [|[k1 v1] m IH]; simpl; [done|].
  destruct (bytes_ltb k k1) eqn:E1; [done|].
  destruct (bytes_ltb k1 k) eqn:E2; simpl.
  - rewrite IH. apply insert_insert_ne. intros ->. by rewrite bytes_ltb_irrefl in E2.
  - apply bytes_ltb_false in E1 as [E1|<-]; [unfold bytes_lt in E1; congruence|].
    by rewrite insert_insert_eq.
Qed.

Lemma smap_sorted_NoDup {V} (m : smap V) : smap_sorted m → NoDup (map fst m).
Proof.
  unfold smap_sorted. induction m as [|[k v] m IH]; simpl; intros Hs; [constructor|].
  apply StronglySorted_inv in Hs as [Hs Hk]. constructor; [|by apply IH].
  intros Hin. rewrite Forall_forall in Hk. apply (bytes_lt_irrefl k). by apply Hk.
Qed.

Lemma smap_sorted_snoc {V} (m : smap V) k v :
  smap_sorted (m ++ [(k, v)]) → smap_sorted m ∧ Forall (λ kv, fst kv <ₛ k) m.
Proof.
  unfold smap_sorted. rewrite map_app. intros Hs. split; [by eapply StronglySorted_app_1_l|].
  apply Forall_forall. intros kv Hkv.
  eapply (StronglySorted_app_1_elem_of bytes_lt _ _ _ k Hs); [|left].
  by apply list_elem_of_fmap_2.
Qed.

Lemma smap_sorted_lookup {V} (m : smap V) i j a b :
  smap_sorted m → (i < j)%nat → m !! i = Some a → m !! j = Some b → fst a <ₛ fst b.
Proof.
  intros Hs Hij Ha Hb. rewrite <- (take_drop_middle m j b Hb) in Hs.
  unfold smap_sorted in Hs. rewrite map_app in Hs.
  apply (StronglySorted_app_1_elem_of bytes_lt _ _ _ _ Hs); [|left].
  apply list_elem_of_fmap_2. apply (list_elem_of_lookup_2 _ i). by rewrite lookup_take_lt by lia.
Qed.

Lemma smap_sorted_pairs {V} (m : smap V) :
  smap_sorted m → StronglySorted (λ a b, fst a <ₛ fst b) m.
Proof.
  unfold smap_sorted. induction m as [|kv m IH]; simpl; intros Hs; [constructor|].
  apply StronglySorted_inv in Hs as [Hs Hk]. constructor; [by apply IH|].
  by rewrite Forall_map in Hk.
Qed.

(** A map has one sorted list. *)
Lemma smap_ext {V} (m1 m2 : smap V) :
  smap_sorted m1 → smap_sorted m2 →
  list_to_map m1 =@{gmap bytes V} list_to_map m2 → m1 = m2.
Proof.
  intros H1 H2 Heq.
  assert (m1 ≡ₚ m2) as Hp.
  { rewrite <- (map_to_list_to_map (M := gmap bytes) m1), Heq by (by apply smap_sorted_NoDup).
    apply map_to_list_to_map. by apply smap_sorted_NoDup. }
  apply (StronglySorted_unique_strong (λ a b, fst a <ₛ fst b));
    [|by apply smap_sorted_pairs..|done].
  intros a b _ _ Hab Hba. exfalso. apply (bytes_lt_irrefl (fst a)). by etrans.
Qed.

Lemma smap_sorted_filter {V} (P : bytes * V → Prop) `{∀ x, Decision (P x)} (m : smap V) :
  smap_sorted m → smap_sorted (filter P m).
Proof.
  unfold smap_sorted. induction m as [|kv m IH]; intros Hs; [done|]. cbn [map] in Hs.
  apply StronglySorted_inv in Hs as [Hs Hk]. rewrite filter_cons.
  case_decide; [|by apply IH]. cbn [map]. constructor; [by apply IH|].
  rewrite Forall_forall in *. intros k (x & -> & Hx)%list_elem_of_fmap_1.
  apply Hk. apply list_elem_of_filter in Hx as [_ Hx]. by apply list_elem_of_fmap_2.
Qed.

(** ** The digits of a number *)

Definition isdigit (c : byte) : bool :=
  let z := byte.unsigned c in (48 <=? z) && (z <=? 57).

Definition digits_val (acc : Z) (s : bytes) : Z :=
  foldl (λ acc c, 10 * acc + (byte.unsigned c - 48)) acc s.

Lemma pretty_N_char_byte x :
  (x < 10)%N →
  ∃ c, (∀ s, str (String (pretty_N_char x) s) = c :: str s) ∧ isdigit c = true ∧
    byte.unsigned c = 48 + Z.of_N x.
Proof.
  intros Hx.
  assert (x = 0 ∨ x = 1 ∨ x = 2 ∨ x = 3 ∨ x = 4 ∨ x = 5 ∨ x = 6 ∨ x = 7 ∨ x = 8 ∨ x = 9)%N
    as [->|[->|[->|[->|[->|[->|[->|[->|[->| ->]]]]]]]]] by lia;
    (eexists; split; [intros s; reflexivity|by split]).
Qed.

Lemma digits_val_app acc a b : digits_val acc (a ++ b) = digits_val (digits_val acc a) b.
Proof. apply foldl_app. Qed.

Lemma pretty_N_go_digits x s :
  ∃ ds, str (pretty_N_go x s) = ds ++ str s ∧ Forall (λ c, isdigit c = true) ds ∧
    digits_val 0 ds = Z.of_N x ∧
    (∀ k : nat, Z.of_N x < 10 ^ Z.of_nat k → (length ds ≤ k)%nat).
Proof.
  revert s. induction (N.lt_wf_0 x) as [x _ IH]. intros s.
  assert (x = 0 ∨ 0 < x)%N as [->|Hx] by lia.
  { exists []. rewrite pretty_N_go_0. split_and!; [done..|]. simpl. lia. }
  rewrite pretty_N_go_step by done.
  destruct (IH (x `div` 10)%N (N.div_lt x 10 Hx eq_refl) (String (pretty_N_char (x `mod` 10)) s))
    as (ds & -> & Hd & Hv & Hl).
  destruct (pretty_N_char_byte (x `mod` 10)) as (c & -> & Hc & Hu); [by apply N.mod_lt|].
  exists (ds ++ [c]). rewrite <- app_assoc. split_and!; [done| | |].
  - apply Forall_app. split; [done|by constructor].
  - rewrite digits_val_app, Hv. cbn [digits_val foldl]. rewrite Hu.
    rewrite N2Z.inj_div, N2Z.inj_mod. pose proof (Z.div_mod (Z.of_N x) 10). lia.
  - intros [|k] Hk; [simpl in Hk; lia|]. rewrite length_app. simpl.
    enough (length ds ≤ k)%nat by lia. apply Hl. rewrite N2Z.inj_div.
    rewrite Nat2Z.inj_succ, Z.pow_succ_r in Hk by lia. apply Z.div_lt_upper_bound; lia.
Qed.

Lemma to_string_digits n :
  0 <= n →
  Forall (λ c, isdigit c = true) (to_string n) ∧ digits_val 0 (to_string n) = n ∧
  to_string n ≠ [] ∧
  (∀ k : nat, (0 < k)%nat → n < 10 ^ Z.of_nat k → (length (to_string n) ≤ k)%nat).
Proof.
  intros Hn. unfold to_string, pretty, pretty_N. case_decide as H0.
  { assert (n = 0) as -> by lia. split_and!; [by repeat constructor|done|done|simpl; lia]. }
  destruct (pretty_N_go_digits (Z.to_N n) "") as (ds & -> & Hd & Hv & Hl).
  change (str "") with (@nil byte). rewrite app_nil_r. rewrite Z2N.id in Hv, Hl by done.
  split_and!; [done|done| |by auto]. intros ->. simpl in Hv. lia.
Qed.

Lemma digits_val_bound acc s :
  Forall (λ c, isdigit c = true) s →
  acc * 10 ^ zlen s <= digits_val acc s < (acc + 1) * 10 ^ zlen s.
Proof.
  intros Hs. revert acc. induction Hs as [|c s Hc Hs IH]; intros acc.
  { simpl. change (10 ^ zlen (@nil byte)) with 1. lia. }
  cbn [digits_val foldl]. specialize (IH (10 * acc + (byte.unsigned c - 48))).
  unfold digits_val in IH. unfold isdigit in Hc. pose proof (zlen_nonneg s).
  rewrite zlen_cons, Z.pow_add_r by lia. change (10 ^ 1) with 10.
  assert (0 < 10 ^ zlen s) by (apply Z.pow_pos_nonneg; lia). 
  apply andb_true_iff in Hc as [H1 H2]. apply Z.leb_le in H1, H2. nia.
Qed.

(** Numbers of the same width are ordered as their digits. *)
Lemma digits_lt a b :
  Forall (λ c, isdigit c = true) a → Forall (λ c, isdigit c = true) b →
  length a = length b → ∀ acc, digits_val acc a < digits_val acc b → a <ₛ b.
Proof.
  intros Ha. revert b. induction Ha as [|x a Hx Ha IH]; intros [|y b] Hb Hl acc; try done.
  { simpl. lia. }
  apply Forall_cons in Hb as [Hy Hb]. injection Hl as Hl. intros Hv.
  unfold bytes_lt. simpl. case_Z; [done| |].
  - exfalso.
    pose proof (digits_val_bound (10 * acc + (byte.unsigned x - 48)) a Ha) as B1.
    pose proof (digits_val_bound (10 * acc + (byte.unsigned y - 48)) b Hb) as B2.
    unfold zlen in *. rewrite Hl in *. cbn [digits_val foldl] in Hv. unfold digits_val in B1, B2.
    assert (0 < 10 ^ Z.of_nat (length b)) by (apply Z.pow_pos_nonneg; lia). nia.
  - assert (x = y) as -> by (apply (inj byte.unsigned); lia).
    apply (IH b Hb Hl (10 * acc + (byte.unsigned y - 48))). exact Hv.
Qed.

(** * Parsing of strings *)

(** [s.rfind(c)]. *)
Fixpoint rfind (c : byte) (s : bytes) : option nat :=
  match s with
  | [] => None
  | x :: s =>
      match rfind c s with
      | Some i => Some (S i)
      | None => if bool_decide (x = c) then Some O else None
      end
  end.

(** [std::stoi] and [std::stoll]: white space, a sign, at least one digit, and
    the rest is ignored; [None] is an exception. *)
Definition isspace (c : byte) : bool :=
  let z := byte.unsigned c in (z =? 32) || ((9 <=? z) && (z <=? 13)).
Fixpoint skip_space (s : bytes) : bytes :=
  match s with
  | c :: s' => if isspace c then skip_space s' else s
  | [] => []
  end.

Fixpoint read_digits (s : bytes) (acc : Z) : Z :=
  match s with
  | c :: s => if isdigit c then read_digits s (10 * acc + (byte.unsigned c - 48)) else acc
  | [] => acc
  end.

Definition parse_int (bound : Z) (s : bytes) : option Z :=
  let s := skip_space s in
  let '(neg, s) :=
    match s with
    | c :: s' => if bool_decide (c = x2d) then (true, s')
                 else if bool_decide (c = x2b) then (false, s') else (false, s)
    | [] => (false, s)
    end in
  match s with
  | c :: _ =>
      if isdigit c then
        let v := read_digits s 0 in
        let v := if (neg : bool) then - v else v in
        if (- bound <=? v) && (v <? bound) then Some v else None
      else None
  | [] => None
  end.

Definition stoi := parse_int (2 ^ 31).
Definition stoll := parse_int (2 ^ 63).

Lemma rfind_app c a b : (c ∉ b) → rfind c (a ++ c :: b) = Some (length a).
Proof.
  intros Hb. assert (rfind c b = None) as Hn.
  { induction b as [|y b IH]; [done|]. apply not_elem_of_cons in Hb as [Hc Hb]. simpl.
    rewrite IH by done. rewrite bool_decide_eq_false_2; [done|congruence]. }
  induction a as [|x a IH]; simpl.
  - rewrite Hn. by rewrite bool_decide_eq_true_2.
  - by rewrite IH.
Qed.

Lemma digit_ne c d : isdigit d = true → isdigit c = false → d ≠ c.
Proof. intros H1 H2 ->. congruence. Qed.

Lemma digits_not_in c s : Forall (λ c, isdigit c = true) s → isdigit c = false → c ∉ s.
Proof. intros Hs Hc Hin. rewrite Forall_forall in Hs. specialize (Hs c Hin). congruence. Qed.

Lemma read_digits_val s acc :
  Forall (λ c, isdigit c = true) s → read_digits s acc = digits_val acc s.
Proof.
  intros Hs. revert acc. induction Hs as [|c s Hc Hs IH]; intros acc; simpl; [done|].
  rewrite Hc. apply IH.
Qed.

Lemma stoll_digits s :
  Forall (λ c, isdigit c = true) s → s ≠ [] → digits_val 0 s < 2 ^ 63 →
  stoll s = Some (digits_val 0 s).
Proof.
  intros Hs Hne Hv. destruct s as [|c s]; [done|]. pose proof Hs as [Hc _]%Forall_cons.
  unfold stoll, parse_int. simpl skip_space. assert (isspace c = false) as ->.
  { unfold isspace, isdigit in *. apply andb_true_iff in Hc as [H1 H2].
    apply Z.leb_le in H1, H2. destruct (Z.eqb_spec (byte.unsigned c) 32); [lia|].
    destruct (Z.leb_spec (byte.unsigned c) 13); [lia|]. by rewrite andb_false_r. }
  rewrite !bool_decide_eq_false_2 by (by apply digit_ne). rewrite Hc.
  rewrite read_digits_val by done.
  pose proof (digits_val_bound 0 (c :: s) Hs).
  destruct (Z.leb_spec (- 2 ^ 63) (digits_val 0 (c :: s))); [|lia].
  by destruct (Z.ltb_spec (digits_val 0 (c :: s)) (2 ^ 63)); [|lia].
Qed.

(** [snprintf("%06llu")]: at least six digits. *)
Definition format_06llu (n : Z) : bytes :=
  let s := to_string n in replicate (6 - length s) x30 ++ s.

Lemma format_06llu_digits n :
  0 <= n →
  Forall (λ c, isdigit c = true) (format_06llu n) ∧ digits_val 0 (format_06llu n) = n ∧
  (6 <= length (format_06llu n))%nat.
Proof.
  intros Hn. destruct (to_string_digits n Hn) as (Hd & Hv & _ & _). unfold format_06llu. split_and!.
  - apply Forall_app. split; [|done]. by apply Forall_replicate.
  - assert (∀ k, digits_val 0 (replicate k x30) = 0) as Hz by (intros k; by induction k).
    by rewrite digits_val_app, Hz.
  - rewrite length_app, length_replicate. lia.
Qed.

(** [operator<<] of an integer, and [operator>>] into a [w]-bit one: white space,
    a sign, digits; [None] sets the fail bit.  A negative number wraps when the
    type is unsigned. *)
Definition dec (z : Z) : bytes := if z <? 0 then x2d :: to_string (- z) else to_string z.

Fixpoint drop_digits (s : bytes) : bytes :=
  match s with
  | c :: s' => if isdigit c then drop_digits s' else s
  | [] => []
  end.

Definition extract (is_signed : bool) (w : Z) (s : bytes) : option (Z * bytes) :=
  let s := skip_space s in
  let '(neg, s) :=
    match s with
    | c :: s' => if bool_decide (c = x2d) then (true, s')
                 else if bool_decide (c = x2b) then (false, s') else (false, s)
    | [] => (false, s)
    end in
  match s with
  | c :: _ =>
      if isdigit c then
        let v := read_digits s 0 in
        if is_signed then
          let v := if (neg : bool) then - v else v in
          if (- 2 ^ (w - 1) <=? v) && (v <? 2 ^ (w - 1)) then Some (v, drop_digits s) else None
        else if v <? 2 ^ w then Some ((if (neg : bool) then - v else v) mod 2 ^ w, drop_digits s) else None
      else None
  | [] => None
  end.

(** [std::stoull]. *)
Definition stoull (s : bytes) : option Z := fst <$> extract false 64 s.

Lemma isdigit_not_space c : isdigit c = true → isspace c = false.
Proof.
  unfold isspace, isdigit. intros [H1 H2]%andb_true_iff. apply Z.leb_le in H1, H2.
  destruct (Z.eqb_spec (byte.unsigned c) 32); [lia|].
  destruct (Z.leb_spec (byte.unsigned c) 13); [lia|]. by rewrite andb_false_r.
Qed.

Lemma read_digits_app s t acc :
  Forall (λ c, isdigit c = true) s → (∀ c t', t = c :: t' → isdigit c = false) →
  read_digits (s ++ t) acc = digits_val acc s ∧ drop_digits (s ++ t) = t.
Proof.
  intros Hs Ht. revert acc. induction Hs as [|c s Hc Hs IH]; intros acc; simpl.
  - destruct t as [|c t]; [done|]. simpl. by rewrite (Ht c t eq_refl).
  - rewrite Hc. apply IH.
Qed.

(** Reading back a number that something else than a digit follows. *)
Lemma extract_digits (is_signed : bool) w s t :
  Forall (λ c, isdigit c = true) s → s ≠ [] → (∀ c t', t = c :: t' → isdigit c = false) →
  digits_val 0 s < 2 ^ (if is_signed then w - 1 else w) → 
  extract is_signed w (s ++ t) = Some (digits_val 0 s, t).
Proof.
  intros Hs Hne Ht Hv. pose proof (digits_val_bound 0 s Hs) as [Hlo _].
  destruct (read_digits_app s t 0 Hs Ht) as [Hr Hd]. unfold extract.
  destruct s as [|c s]; [done|]. pose proof Hs as [Hc _]%Forall_cons. cbn [app skip_space].
  rewrite isdigit_not_space by done. rewrite !bool_decide_eq_false_2 by (by apply digit_ne).
  rewrite Hc. cbn [app] in *. rewrite Hr, Hd. destruct is_signed.
  - assert (0 <= 2 ^ (w - 1)) by (apply Z.pow_nonneg; lia).
    destruct (Z.leb_spec (- 2 ^ (w - 1)) (digits_val 0 (c :: s))); [|lia].
    by destruct (Z.ltb_spec (digits_val 0 (c :: s)) (2 ^ (w - 1))); [|lia].
  - destruct (Z.ltb_spec (digits_val 0 (c :: s)) (2 ^ w)); [|lia]. rewrite Z.mod_small by lia. done.
Qed.

(** * A codec for any countable type, used by the examples *)

Fixpoint bits (p : positive) : bytes :=
  match p with xH => [] | xO p => x00 :: bits p | xI p => x01 :: bits p end.

Fixpoint of_bits (b : bytes) : option positive :=
  match b with
  | [] => Some xH
  | x :: b => p ← of_bits b;
      match x with x00 => Some (xO p) | x01 => Some (xI p) | _ => None end
  end.

Definition pack {A} `{Countable A} (a : A) : bytes := bits (encode a).
Definition unpack {A} `{Countable A} (b : bytes) : option A := of_bits b ≫= decode.

Lemma unpack_pack {A} `{Countable A} (a : A) : unpack (pack a) = Some a.
Proof.
  unfold unpack, pack. assert (∀ p, of_bits (bits p) = Some p) as ->.
  - intros p. induction p as [p IH|p IH|]; simpl; [by rewrite IH..|done].
  - apply decode_encode.
Qed.

(** A codec given by a table. *)
Definition table_ser {A} `{EqDecision A} (l : list (A * bytes)) (a : A) : option bytes :=
  snd <$> List.find (λ x, bool_decide (fst x = a)) l.
Definition table_par {A} (l : list (A * bytes)) (d : bytes) : option A :=
  fst <$> List.find (λ x, bool_decide (snd x = d)) l.

Lemma table_roundtrip {A} `{EqDecision A} (l : list (A * bytes)) a d :
  NoDup (map snd l) → table_ser l a = Some d → table_par l d = Some a.
Proof.
  unfold table_ser, table_par. induction l as [|[x b] l IH]; intros Hnd; [done|].
  cbn [map fst snd List.find] in *. apply NoDup_cons in Hnd as [Hb Hnd].
  destruct (decide (x = a)) as [->|Hx].
  - rewrite bool_decide_eq_true_2 by done. intros [= ->]. by rewrite bool_decide_eq_true_2.
  - rewrite bool_decide_eq_false_2 by done. intros Hs. specialize (IH Hnd Hs).
    destruct (decide (b = d)) as [->|Hbd]; [|by rewrite bool_decide_eq_false_2].
    exfalso. apply Hb. apply fmap_Some in Hs as ([y e] & Hf & ->). apply find_some in Hf as [Hin _].
    apply (list_elem_of_fmap_2 snd _ (y, e)). by apply list_elem_of_In.
Qed.
