(* ===== verification/Coding.v ===== *)
(** Fixed and variable length integers, length-prefixed strings and the
    table-driven CRC32: src/engine/coding.h and coding.cc.

    An encoder is the list of bytes it stores; a decoder reads from the
    bytes that are readable at its argument pointer and is [None] when it
    would read past them. *)
From S2P Require Import Prelude.
From coqutil Require Import Word.LittleEndianList Z.bitblast.

(** * Definitions *)

(** ** Fixed-width integers, little-endian *)

Definition EncodeFixed32 (value : Z) : bytes :=
  [ byte.of_Z (Z.land value 0xff);
    byte.of_Z (Z.land (Z.shiftr value 8) 0xff);
    byte.of_Z (Z.land (Z.shiftr value 16) 0xff);
    byte.of_Z (Z.land (Z.shiftr value 24) 0xff) ].

Definition DecodeFixed32 (buf : bytes) : option Z :=
  match buf with
  | b0 :: b1 :: b2 :: b3 :: _ =>
      Some (Z.lor (Z.lor (Z.lor (byte.unsigned b0)
                                (Z.shiftl (byte.unsigned b1) 8))
                         (Z.shiftl (byte.unsigned b2) 16))
                  (Z.shiftl (byte.unsigned b3) 24))
  | _ => None
  end.

Definition EncodeFixed64 (value : Z) : bytes :=
  [ byte.of_Z (Z.land value 0xff);
    byte.of_Z (Z.land (Z.shiftr value 8) 0xff);
    byte.of_Z (Z.land (Z.shiftr value 16) 0xff);
    byte.of_Z (Z.land (Z.shiftr value 24) 0xff);
    byte.of_Z (Z.land (Z.shiftr value 32) 0xff);
    byte.of_Z (Z.land (Z.shiftr value 40) 0xff);
    byte.of_Z (Z.land (Z.shiftr value 48) 0xff);
    byte.of_Z (Z.land (Z.shiftr value 56) 0xff) ].

Definition DecodeFixed64 (buf : bytes) : option Z :=
  lo ← DecodeFixed32 buf;
  hi ← DecodeFixed32 (drop 4 buf);
  Some (Z.lor (u64 (Z.shiftl hi 32)) lo).

(** ** Variable-length integers *)

(** The loop of [EncodeVarint32], writing into a buffer with [room] bytes
    left: [None] is a write past the end of the buffer.  The statement
    [value >> 7;] of the loop body computes a value and discards it, so the
    next iteration tests the same [value]. *)
Fixpoint EncodeVarint32 (room : nat) (value : Z) : option bytes :=
  match room with
  | O => None
  | S room' =>
      if 128 <=? value then
        let b := byte.of_Z (Z.lor (Z.land value 0x7f) 0x80) in
        rest ← EncodeVarint32 room' value;
        Some (b :: rest)
      else Some [byte.of_Z (Z.land value 0x7f)]
  end.

(** [DecodeVarint32 buf]: [None] is a read past [buf]; otherwise the return
    value of the function (bytes consumed, or -1) and the decoded [*value]. *)
Fixpoint DecodeVarint32_loop (fuel : nat) (len shift acc : Z) (buf : bytes)
    : option (Z * Z) :=
  match fuel with
  | O => Some (-1, acc)
  | S fuel' =>
      match buf with
      | [] => None
      | b :: buf' =>
          let byte := byte.unsigned b in
          let acc' := Z.lor acc (u32 (Z.shiftl (Z.land byte 0x7f) shift)) in
          if Z.land byte 0x80 =? 0 then Some (len + 1, acc')
          else DecodeVarint32_loop fuel' (len + 1) (shift + 7) acc' buf'
      end
  end.

(** [while(len < 5)]: at most five iterations. *)
Definition DecodeVarint32 (buf : bytes) : option (Z * Z) :=
  DecodeVarint32_loop 5 0 0 0 buf.

(** ** Appending to a string *)

Definition PutFixed32 (dst : bytes) (value : Z) : bytes :=
  dst ++ EncodeFixed32 value.

Definition PutFixed64 (dst : bytes) (value : Z) : bytes :=
  dst ++ EncodeFixed64 value.

(** [char buf[5]; EncodeVarint32(buf, value); dst->append(buf, len)]. *)
Definition PutVarint32 (dst : bytes) (value : Z) : option bytes :=
  buf ← EncodeVarint32 5 value; Some (dst ++ buf).

Definition EncodeString (dst value : bytes) : option bytes :=
  dst ← PutVarint32 dst (u32 (zlen value)); Some (dst ++ value).

Definition PutLengthPrefixedString (dst value : bytes) : option bytes :=
  dst ← PutVarint32 dst (u32 (zlen value)); Some (dst ++ value).

(** [DecodeString(&buf, limit, &value)].  [mem] holds the readable bytes at
    [*buf] and [limit] is the distance from [*buf] to the limit; memory may be
    readable past the limit.  [None] is a read outside [mem]; [Some None] is
    [false]; [Some (Some (value, n))] is [true] with [*buf] advanced by [n]. *)
Definition DecodeString (mem : bytes) (limit : Z) : option (option (bytes * nat)) :=
  '(consumed, len) ← DecodeVarint32 mem;
  if (consumed <? 0) || (limit <? consumed + len) then Some None
  else
    value ← slice (Z.to_nat consumed) (Z.to_nat len) mem;
    Some (Some (value, (Z.to_nat consumed + Z.to_nat len)%nat)).

(** ** CRC32 *)

Definition crctab : list Z :=
  [
   0x00000000; 0x04c11db7; 0x09823b6e; 0x0d4326d9; 0x130476dc; 0x17c56b6b;
   0x1a864db2; 0x1e475005; 0x2608edb8; 0x22c9f00f; 0x2f8ad6d6; 0x2b4bcb61;
   0x350c9b64; 0x31cd86d3; 0x3c8ea00a; 0x384fbdbd; 0x4c11db70; 0x48d0c6c7;
   0x4593e01e; 0x4152fda9; 0x5f15adac; 0x5bd4b01b; 0x569796c2; 0x52568b75;
   0x6a1936c8; 0x6ed82b7f; 0x639b0da6; 0x675a1011; 0x791d4014; 0x7ddc5da3;
   0x709f7b7a; 0x745e66cd; 0x9823b6e0; 0x9ce2ab57; 0x91a18d8e; 0x95609039;
   0x8b27c03c; 0x8fe6dd8b; 0x82a5fb52; 0x8664e6e5; 0xbe2b5b58; 0xbaea46ef;
   0xb7a96036; 0xb3687d81; 0xad2f2d84; 0xa9ee3033; 0xa4ad16ea; 0xa06c0b5d;
   0xd4326d90; 0xd0f37027; 0xddb056fe; 0xd9714b49; 0xc7361b4c; 0xc3f706fb;
   0xceb42022; 0xca753d95; 0xf23a8028; 0xf6fb9d9f; 0xfbb8bb46; 0xff79a6f1;
   0xe13ef6f4; 0xe5ffeb43; 0xe8bccd9a; 0xec7dd02d; 0x34867077; 0x30476dc0;
   0x3d044b19; 0x39c556ae; 0x278206ab; 0x23431b1c; 0x2e003dc5; 0x2ac12072;
   0x128e9dcf; 0x164f8078; 0x1b0ca6a1; 0x1fcdbb16; 0x018aeb13; 0x054bf6a4;
   0x0808d07d; 0x0cc9cdca; 0x7897ab07; 0x7c56b6b0; 0x71159069; 0x75d48dde;
   0x6b93dddb; 0x6f52c06c; 0x6211e6b5; 0x66d0fb02; 0x5e9f46bf; 0x5a5e5b08;
   0x571d7dd1; 0x53dc6066; 0x4d9b3063; 0x495a2dd4; 0x44190b0d; 0x40d816ba;
   0xaca5c697; 0xa864db20; 0xa527fdf9; 0xa1e6e04e; 0xbfa1b04b; 0xbb60adfc;
   0xb6238b25; 0xb2e29692; 0x8aad2b2f; 0x8e6c3698; 0x832f1041; 0x87ee0df6;
   0x99a95df3; 0x9d684044; 0x902b669d; 0x94ea7b2a; 0xe0b41de7; 0xe4750050;
   0xe9362689; 0xedf73b3e; 0xf3b06b3b; 0xf771768c; 0xfa325055; 0xfef34de2;
   0xc6bcf05f; 0xc27dede8; 0xcf3ecb31; 0xcbffd686; 0xd5b88683; 0xd1799b34;
   0xdc3abded; 0xd8fba05a; 0x690ce0ee; 0x6dcdfd59; 0x608edb80; 0x644fc637;
   0x7a089632; 0x7ec98b85; 0x738aad5c; 0x774bb0eb; 0x4f040d56; 0x4bc510e1;
   0x46863638; 0x42472b8f; 0x5c007b8a; 0x58c1663d; 0x558240e4; 0x51435d53;
   0x251d3b9e; 0x21dc2629; 0x2c9f00f0; 0x285e1d47; 0x36194d42; 0x32d850f5;
   0x3f9b762c; 0x3b5a6b9b; 0x0315d626; 0x07d4cb91; 0x0a97ed48; 0x0e56f0ff;
   0x1011a0fa; 0x14d0bd4d; 0x19939b94; 0x1d528623; 0xf12f560e; 0xf5ee4bb9;
   0xf8ad6d60; 0xfc6c70d7; 0xe22b20d2; 0xe6ea3d65; 0xeba91bbc; 0xef68060b;
   0xd727bbb6; 0xd3e6a601; 0xdea580d8; 0xda649d6f; 0xc423cd6a; 0xc0e2d0dd;
   0xcda1f604; 0xc960ebb3; 0xbd3e8d7e; 0xb9ff90c9; 0xb4bcb610; 0xb07daba7;
   0xae3afba2; 0xaafbe615; 0xa7b8c0cc; 0xa379dd7b; 0x9b3660c6; 0x9ff77d71;
   0x92b45ba8; 0x9675461f; 0x8832161a; 0x8cf30bad; 0x81b02d74; 0x857130c3;
   0x5d8a9099; 0x594b8d2e; 0x5408abf7; 0x50c9b640; 0x4e8ee645; 0x4a4ffbf2;
   0x470cdd2b; 0x43cdc09c; 0x7b827d21; 0x7f436096; 0x7200464f; 0x76c15bf8;
   0x68860bfd; 0x6c47164a; 0x61043093; 0x65c52d24; 0x119b4be9; 0x155a565e;
   0x18197087; 0x1cd86d30; 0x029f3d35; 0x065e2082; 0x0b1d065b; 0x0fdc1bec;
   0x3793a651; 0x3352bbe6; 0x3e119d3f; 0x3ad08088; 0x2497d08d; 0x2056cd3a;
   0x2d15ebe3; 0x29d4f654; 0xc5a92679; 0xc1683bce; 0xcc2b1d17; 0xc8ea00a0;
   0xd6ad50a5; 0xd26c4d12; 0xdf2f6bcb; 0xdbee767c; 0xe3a1cbc1; 0xe760d676;
   0xea23f0af; 0xeee2ed18; 0xf0a5bd1d; 0xf464a0aa; 0xf9278673; 0xfde69bc4;
   0x89b8fd09; 0x8d79e0be; 0x803ac667; 0x84fbdbd0; 0x9abc8bd5; 0x9e7d9662;
   0x933eb0bb; 0x97ffad0c; 0xafb010b1; 0xab710d06; 0xa6322bdf; 0xa2f33668;
   0xbcb4666d; 0xb8757bda; 0xb5365d03; 0xb1f740b4].

(** One iteration of the loop of [ValueCRC32]. *)
Definition crc_update (crc : Z) (p : byte) : Z :=
  Z.lxor (Z.land (Z.shiftl crc 8) 0xffffff00)
    (nth (Z.to_nat (Z.lxor (Z.land (Z.shiftr crc 24) 0xff) (byte.unsigned p)))
         crctab 0).

Definition ValueCRC32 (icrc : Z) (data : bytes) : Z :=
  foldl crc_update icrc data.

(** ** Reference definitions the code is measured against *)

(** The LEB128 encoding the header comment describes (1 to 5 bytes). *)
Fixpoint varint_spec (fuel : nat) (value : Z) : bytes :=
  match fuel with
  | O => []
  | S fuel' =>
      if value <? 128 then [byte.of_Z value]
      else byte.of_Z (value mod 128 + 128) :: varint_spec fuel' (value / 128)
  end.

(** CRC-32 with polynomial 0x04c11db7, most significant bit first, one bit at
    a time. *)
Definition crc_bit (x : Z) : Z :=
  let y := Z.land (Z.shiftl x 1) 0xffffffff in
  if Z.testbit x 31 then Z.lxor y 0x04c11db7 else y.

Definition crc_byte_spec (x : Z) (b : byte) : Z :=
  Nat.iter 8 crc_bit (Z.lxor x (Z.shiftl (byte.unsigned b) 24)).

Arguments EncodeFixed32 : simpl never.
Arguments EncodeFixed64 : simpl never.
Arguments DecodeFixed32 : simpl never.
Arguments DecodeFixed64 : simpl never.
Arguments DecodeVarint32 : simpl never.
Arguments DecodeString : simpl never.
Arguments PutVarint32 : simpl never.
Arguments EncodeString : simpl never.
Arguments PutLengthPrefixedString : simpl never.
Arguments ValueCRC32 : simpl never.
Arguments crctab : simpl never.

(** * Lemmas *)

(** ** Fixed-width integers are little-endian byte lists *)

Lemma byte_of_land x : byte.of_Z (Z.land x 0xff) = byte.of_Z x.
Proof.
  apply byte.unsigned_inj. rewrite !byte_unsigned_of_Z.
  change 0xff with (Z.ones 8). rewrite Z.land_ones by lia.
  change (2 ^ 8) with 256. by rewrite Z.mod_mod by lia.
Qed.

Lemma EncodeFixed32_le_split v : EncodeFixed32 v = le_split 4 v.
Proof.
  unfold EncodeFixed32. rewrite !byte_of_land. cbv [le_split].
  by rewrite !Z.shiftr_shiftr by lia.
Qed.

Lemma DecodeFixed32_le_combine b0 b1 b2 b3 rest :
  DecodeFixed32 (b0 :: b1 :: b2 :: b3 :: rest) = Some (le_combine [b0; b1; b2; b3]).
Proof.
  cbv [DecodeFixed32 le_combine]. f_equal.
  rewrite !Z.shiftl_lor, !Z.shiftl_shiftl by lia.
  rewrite Z.shiftl_0_l, Z.lor_0_r. by rewrite <- !Z.lor_assoc.
Qed.

Lemma DecodeFixed32_Encode v rest :
  DecodeFixed32 (EncodeFixed32 v ++ rest) = Some (u32 v).
Proof.
  rewrite EncodeFixed32_le_split.
  pose proof (le_combine_split 4 v) as H. cbv [le_split] in H |- *.
  cbn [app]. rewrite DecodeFixed32_le_combine, H. done.
Qed.
Lemma DecodeFixed64_Encode v rest :
  DecodeFixed64 (EncodeFixed64 v ++ rest) = Some (u64 v).
Proof.
  unfold DecodeFixed64.
  assert (EncodeFixed64 v = EncodeFixed32 v ++ EncodeFixed32 (Z.shiftr v 32)) as ->.
  { unfold EncodeFixed32, EncodeFixed64. simpl app. by rewrite !Z.shiftr_shiftr by lia. }
  rewrite <- app_assoc, DecodeFixed32_Encode. cbn [mbind option_bind].
  rewrite (drop_app_length' _ _ 4) by done.
  rewrite DecodeFixed32_Encode. cbn [mbind option_bind]. f_equal.
  unfold u64, u32. rewrite <- !Z.land_ones by lia. Z.bitblast.
Qed.

Lemma DecodeFixed64_le_combine buf : length buf = 8%nat → DecodeFixed64 buf = Some (le_combine buf).
Proof.
  intros Hl. do 8 (destruct buf as [|? buf]; [done|]). destruct buf; [|done]. unfold DecodeFixed64.
  cbn [drop]. rewrite !DecodeFixed32_le_combine. cbn [mbind option_bind]. f_equal.
  match goal with |- _ = le_combine (?a :: ?b :: ?c :: ?d :: ?l) =>
    rewrite (le_combine_app [a; b; c; d] l : le_combine (a :: b :: c :: d :: l) = _), Z.lor_comm end. f_equal.
  match goal with |- u64 (Z.shiftl (le_combine ?l) _) = _ => pose proof (le_combine_bound l) as Hb end.
  change (Z.of_nat (length _) * 8) with 32. change (2 ^ (8 * Z.of_nat (length _))) with (2 ^ 32) in Hb.
  rewrite Z.shiftl_mul_pow2 by lia. apply Z.mod_small. lia.
Qed.

(** A word of which only the first [n] bytes were read into a zero variable. *)
Lemma DecodeFixed64_torn n v :
  (n <= 8)%nat →
  DecodeFixed64 (take n (EncodeFixed64 v) ++ drop n (EncodeFixed64 0)) = Some (v mod 2 ^ (8 * Z.of_nat n)).
Proof.
  intros Hn. assert (length (EncodeFixed64 v) = 8%nat) as Hl by done.
  rewrite DecodeFixed64_le_combine by (rewrite length_app, length_take, length_drop, Hl; simpl; lia).
  assert (drop n (EncodeFixed64 0) = repeat x00 (8 - n)) as -> by (do 9 (destruct n as [|n]; [done|]); lia).
  rewrite le_combine_app_0, le_combine_firstn. f_equal.
  pose proof (DecodeFixed64_Encode v []) as Hd. rewrite app_nil_r, DecodeFixed64_le_combine in Hd by done.
  injection Hd as ->. unfold u64. rewrite <- !Z.land_ones by lia. rewrite <- Z.land_assoc. f_equal.
  rewrite Z.land_ones by lia. by rewrite Z.ones_mod_pow2 by lia.
Qed.

(** ** Variable-length integers *)

Lemma lor_shiftl_add a c s :
  0 <= s -> 0 <= a < 2 ^ s -> Z.lor a (Z.shiftl c s) = a + c * 2 ^ s.
Proof.
  intros Hs Ha. rewrite <- Z.shiftl_mul_pow2 by lia.
  apply Z.or_to_plus. rewrite <- (Z.mod_small a (2 ^ s)) by lia.
  rewrite <- Z.land_ones by lia. apply Z.bits_inj'. intros n Hn.
  rewrite Z.bits_0, !Z.land_spec, Z.testbit_ones_nonneg by lia.
  destruct (Z.ltb_spec n s).
  - rewrite Z.shiftl_spec_low by lia. by rewrite andb_false_r.
  - by rewrite andb_false_r.
Qed.

Lemma land_7f x : Z.land x 0x7f = x mod 128.
Proof. change 0x7f with (Z.ones 7). by rewrite Z.land_ones by lia. Qed.

Lemma land_80 x : 0 <= x < 256 -> (Z.land x 0x80 =? 0) = (x <? 128).
Proof.
  intros Hx.
  assert (forallb (λ n, Bool.eqb (Z.land (Z.of_nat n) 0x80 =? 0) (Z.of_nat n <? 128)) (seq 0 256) = true) as H by reflexivity.
  rewrite forallb_forall in H. specialize (H (Z.to_nat x)).
  rewrite Z2Nat.id in H by lia. apply Bool.eqb_prop, H, in_seq. lia.
Qed.

Lemma DecodeVarint32_loop_spec fuel len shift acc v rest :
  (0 < fuel)%nat -> 0 <= shift -> 0 <= acc < 2 ^ shift -> 0 <= v < 128 ^ Z.of_nat fuel ->
  v * 2 ^ shift + acc < 2 ^ 32 ->
  DecodeVarint32_loop fuel len shift acc (varint_spec fuel v ++ rest) =
    Some (len + zlen (varint_spec fuel v), acc + v * 2 ^ shift).
Proof.
  revert len shift acc v.
  induction fuel as [|fuel IH]; intros len shift acc v Hf Hs Ha Hv Hb; [lia|].
  assert (0 < 2 ^ shift) by lia.
  cbn [varint_spec]. destruct (Z.ltb_spec v 128) as [Hlt|Hge]; cbn [app DecodeVarint32_loop].
  - rewrite byte_unsigned_small by lia. rewrite land_80, land_7f by lia.
    rewrite Z.mod_small by lia. destruct (Z.ltb_spec v 128); [|lia].
    assert (u32 (v ≪ shift) = v ≪ shift) as ->.
    { rewrite Z.shiftl_mul_pow2 by lia. apply Z.mod_small. nia. }
    rewrite lor_shiftl_add by lia.
    autorewrite with ms_len. do 2 f_equal.
  - pose proof (Z.mod_pos_bound v 128). pose proof (Z.div_mod v 128).
    rewrite byte_unsigned_small by lia. rewrite land_80, land_7f by lia.
    destruct (Z.ltb_spec (v mod 128 + 128) 128); [lia|].
    assert (u32 (((v mod 128 + 128) mod 128) ≪ shift) = (v mod 128) ≪ shift) as ->.
    { replace (v mod 128 + 128) with (v mod 128 + 1 * 128) by lia.
      rewrite Z.mod_add, Z.mod_mod, Z.shiftl_mul_pow2 by lia.
      apply Z.mod_small. assert (0 <= v / 128) by (apply Z.div_pos; lia). nia. }
    rewrite lor_shiftl_add by lia.
    assert (2 ^ (shift + 7) = 2 ^ shift * 128) by (by rewrite Z.pow_add_r by lia).
    assert (0 < v / 128) by (apply Z.div_str_pos; lia).
    assert (0 < fuel)%nat.
    { destruct fuel; [simpl in Hv|]; lia. }
    rewrite IH; try lia.
    + autorewrite with ms_len. f_equal. f_equal; [lia|nia].
    + nia.
    + split; [lia|]. apply Z.div_lt_upper_bound; [lia|].
      replace (128 * 128 ^ Z.of_nat fuel) with (128 ^ Z.of_nat (S fuel)); [lia|].
      rewrite Nat2Z.inj_succ, Z.pow_succ_r by lia. done.
Qed.

(** ** CRC: linearity of one bit step, and the table *)

Lemma crc_bit_lxor a b : crc_bit (Z.lxor a b) = Z.lxor (crc_bit a) (crc_bit b).
Proof.
  unfold crc_bit. rewrite Z.lxor_spec.
  assert (Z.land (Z.shiftl (Z.lxor a b) 1) 0xffffffff =
          Z.lxor (Z.land (Z.shiftl a 1) 0xffffffff) (Z.land (Z.shiftl b 1) 0xffffffff)) as ->.
  { apply Z.bits_inj'. intros n Hn. rewrite Z.shiftl_lxor.
    rewrite !Z.lxor_spec, !Z.land_spec, Z.lxor_spec.
    by destruct (Z.testbit (a ≪ 1) n), (Z.testbit (b ≪ 1) n), (Z.testbit 0xffffffff n). }
  destruct (Z.testbit a 31), (Z.testbit b 31); simpl xorb; cbv match.
  - set (u := Z.land (a ≪ 1) _). set (v := Z.land (b ≪ 1) _).
    rewrite (Z.lxor_comm v), Z.lxor_assoc, <- (Z.lxor_assoc _ _ v).
    by rewrite Z.lxor_nilpotent, Z.lxor_0_l.
  - by rewrite !Z.lxor_assoc, (Z.lxor_comm (Z.land (b ≪ 1) _)).
  - by rewrite Z.lxor_assoc.
  - done.
Qed.

Lemma crc_iter_lxor n a b :
  Nat.iter n crc_bit (Z.lxor a b) = Z.lxor (Nat.iter n crc_bit a) (Nat.iter n crc_bit b).
Proof. induction n as [|n IH]; simpl; [done|]. by rewrite IH, crc_bit_lxor. Qed.

Lemma crc_bit_small x : 0 <= x < 2 ^ 31 → crc_bit x = 2 * x.
Proof.
  intros Hx. unfold crc_bit.
  assert (Z.testbit x 31 = false) as ->.
  { destruct (Z.eq_dec x 0) as [->|]; [done|].
    apply Z.bits_above_log2; [lia|]. apply Z.log2_lt_pow2; lia. }
  change 0xffffffff with (Z.ones 32). rewrite Z.land_ones, Z.shiftl_mul_pow2 by lia.
  rewrite Z.mod_small; lia.
Qed.

Lemma crc_iter_small n x :
  0 <= x → x * 2 ^ Z.of_nat n < 2 ^ 32 → Nat.iter n crc_bit x = x * 2 ^ Z.of_nat n.
Proof.
  intros Hx. induction n as [|n IH]; intros Hb; simpl Nat.iter; [simpl; lia|].
  rewrite Nat2Z.inj_succ, Z.pow_succ_r in * by lia.
  assert (0 < 2 ^ Z.of_nat n) by lia.
  rewrite IH by nia. rewrite crc_bit_small by nia. nia.
Qed.

Lemma crctab_spec k :
  0 <= k < 256 → nth (Z.to_nat k) crctab 0 = Nat.iter 8 crc_bit (Z.shiftl k 24).
Proof.
  intros Hk.
  assert (forallb (λ n, Nat.iter 8 crc_bit (Z.shiftl (Z.of_nat n) 24) =? nth n crctab 0)
            (seq 0 256) = true) as H by (vm_compute; reflexivity).
  rewrite forallb_forall in H. specialize (H (Z.to_nat k)).
  rewrite Z2Nat.id in H by lia. symmetry. apply Z.eqb_eq, H, in_seq. lia.
Qed.

Lemma lxor_range n a b :
  0 <= n → 0 <= a < 2 ^ n → 0 <= b < 2 ^ n → 0 <= Z.lxor a b < 2 ^ n.
Proof.
  intros Hn Ha Hb. rewrite <- (Z.mod_small a (2 ^ n)), <- (Z.mod_small b (2 ^ n)) by lia.
  rewrite <- !Z.land_ones by lia.
  assert (Z.lxor (Z.land a (Z.ones n)) (Z.land b (Z.ones n)) =
          Z.land (Z.lxor a b) (Z.ones n)) as ->.
  { apply Z.bits_inj'. intros i Hi. rewrite !Z.lxor_spec, !Z.land_spec, Z.lxor_spec.
    by destruct (Z.testbit a i), (Z.testbit b i), (Z.testbit (Z.ones n) i). }
  rewrite Z.land_ones by lia. apply Z.mod_pos_bound. lia.
Qed.

(** A 32-bit word as its top byte and its low 24 bits. *)
Lemma word_split x :
  0 <= x < 2 ^ 32 → x = Z.lxor (x mod 2 ^ 24) (Z.shiftl (Z.shiftr x 24) 24).
Proof.
  intros Hx. rewrite Z.shiftr_div_pow2, Z.shiftl_mul_pow2 by lia.
  rewrite <- Z.add_nocarry_lxor; [pose proof (Z.div_mod x (2 ^ 24)); lia|].
  rewrite <- Z.shiftl_mul_pow2, <- Z.land_ones by lia.
  apply Z.bits_inj'. intros n Hn. rewrite Z.bits_0, !Z.land_spec, Z.testbit_ones_nonneg by lia.
  destruct (Z.ltb_spec n 24).
  - rewrite Z.shiftl_spec_low by lia. by rewrite andb_false_r.
  - by rewrite andb_false_r.
Qed.

Lemma crc_update_spec crc b :
  0 <= crc < 2 ^ 32 → crc_update crc b = crc_byte_spec crc b.
Proof.
  intros Hc. unfold crc_update, crc_byte_spec. pose proof (byte_range b) as Hb.
  assert (Z.land (Z.shiftr crc 24) 0xff = Z.shiftr crc 24) as ->.
  { change 0xff with (Z.ones 8). rewrite Z.land_ones, Z.shiftr_div_pow2 by lia.
    apply Z.mod_small. split; [apply Z.div_pos; lia|apply Z.div_lt_upper_bound; lia]. }
  assert (0 <= Z.shiftr crc 24 < 2 ^ 8) as Hhi.
  { rewrite Z.shiftr_div_pow2 by lia.
    split; [apply Z.div_pos; lia|apply Z.div_lt_upper_bound; lia]. }
  rewrite crctab_spec by (apply (lxor_range 8); lia).
  rewrite (word_split crc) at 3 by lia.
  rewrite Z.lxor_assoc, <- Z.shiftl_lxor, crc_iter_lxor. f_equal.
  assert (0 <= crc mod 2 ^ 24 < 2 ^ 24) by (apply Z.mod_pos_bound; lia).
  rewrite crc_iter_small by lia. change (2 ^ Z.of_nat 8) with (2 ^ 8).
  change 0xffffff00 with (Z.shiftl (Z.ones 24) 8).
  rewrite <- Z.shiftl_land, Z.land_ones, Z.shiftl_mul_pow2 by lia. done.
Qed.

Lemma crc_bit_range x : 0 <= crc_bit x < 2 ^ 32.
Proof.
  unfold crc_bit.
  assert (0 <= Z.land (x ≪ 1) 0xffffffff < 2 ^ 32).
  { change 0xffffffff with (Z.ones 32). rewrite Z.land_ones by lia.
    apply Z.mod_pos_bound. lia. }
  destruct (Z.testbit x 31); [|done]. apply (lxor_range 32); lia.
Qed.

Lemma crc_update_range crc b : 0 <= crc < 2 ^ 32 → 0 <= crc_update crc b < 2 ^ 32.
Proof. intros Hc. rewrite crc_update_spec by done. apply crc_bit_range. Qed.

Lemma ValueCRC32_range crc data : 0 <= crc < 2 ^ 32 → 0 <= ValueCRC32 crc data < 2 ^ 32.
Proof.
  revert crc. induction data as [|b data IH]; intros crc Hc; [done|].
  apply IH, crc_update_range, Hc.
Qed.

(** The update is injective in the state and in the byte: the low byte of a
    table entry determines its index. *)
Lemma crc_bit_inj a b :
  0 <= a < 2 ^ 32 → 0 <= b < 2 ^ 32 → crc_bit a = crc_bit b → a = b.
Proof.
  intros Ha Hb H.
  assert (crc_bit (Z.lxor a b) = 0) as H0 by (rewrite crc_bit_lxor, H; apply Z.lxor_nilpotent).
  assert (0 <= Z.lxor a b < 2 ^ 32) as Hx by (apply (lxor_range 32); lia).
  apply Z.lxor_eq. revert Hx H0. generalize (Z.lxor a b) as x. intros x Hx H0.
  unfold crc_bit in H0.
  assert (Z.testbit (Z.land (x ≪ 1) 0xffffffff) 0 = false) as Hbit.
  { rewrite Z.land_spec, Z.shiftl_spec_low by lia. done. }
  destruct (Z.testbit x 31) eqn:E.
  - apply Z.lxor_eq in H0. rewrite H0 in Hbit. done.
  - assert (x < 2 ^ 31).
    { destruct (Z.lt_ge_cases x (2 ^ 31)) as [|Hge]; [done|]. exfalso.
      assert (Z.log2 x = 31) as Hl by (apply Z.log2_unique; lia).
      rewrite <- Hl, Z.bit_log2 in E by lia. done. }
    change 0xffffffff with (Z.ones 32) in H0. rewrite Z.land_ones, Z.shiftl_mul_pow2 in H0 by lia.
    rewrite Z.mod_small in H0; lia.
Qed.

Lemma crc_iter_inj n a b :
  0 <= a < 2 ^ 32 → 0 <= b < 2 ^ 32 → Nat.iter n crc_bit a = Nat.iter n crc_bit b → a = b.
Proof.
  intros Ha Hb. induction n as [|n IH]; simpl; [done|].
  intros H. apply IH. destruct n as [|n]; apply crc_bit_inj in H; simpl in *; auto using crc_bit_range.
Qed.

Lemma crc_update_inj_crc c1 c2 b :
  0 <= c1 < 2 ^ 32 → 0 <= c2 < 2 ^ 32 → crc_update c1 b = crc_update c2 b → c1 = c2.
Proof.
  intros H1 H2. rewrite !crc_update_spec by done. unfold crc_byte_spec. intros H.
  pose proof (byte_range b).
  assert (0 <= Z.shiftl (byte.unsigned b) 24 < 2 ^ 32) by (rewrite Z.shiftl_mul_pow2; lia).
  apply crc_iter_inj in H; [|apply (lxor_range 32); lia..].
  apply (f_equal (λ x, Z.lxor x (Z.shiftl (byte.unsigned b) 24))) in H.
  by rewrite !Z.lxor_assoc, Z.lxor_nilpotent, !Z.lxor_0_r in H.
Qed.

Lemma crc_update_inj_byte c b1 b2 :
  0 <= c < 2 ^ 32 → crc_update c b1 = crc_update c b2 → b1 = b2.
Proof.
  intros Hc. rewrite !crc_update_spec by done. unfold crc_byte_spec. intros H.
  pose proof (byte_range b1). pose proof (byte_range b2).
  assert (∀ b : Z, 0 <= b < 256 → 0 <= Z.shiftl b 24 < 2 ^ 32)
    by (intros; rewrite Z.shiftl_mul_pow2; lia).
  apply crc_iter_inj in H; [|apply (lxor_range 32); [lia|lia|auto]..].
  apply (f_equal (λ x, Z.lxor c x)) in H.
  rewrite <- !Z.lxor_assoc, Z.lxor_nilpotent, !Z.lxor_0_l, !Z.shiftl_mul_pow2 in H by lia.
  apply (inj byte.unsigned). lia.
Qed.

Lemma ValueCRC32_cons crc b data : ValueCRC32 crc (b :: data) = ValueCRC32 (crc_update crc b) data.
Proof. done. Qed.

Lemma ValueCRC32_app crc a b : ValueCRC32 crc (a ++ b) = ValueCRC32 (ValueCRC32 crc a) b.
Proof. apply foldl_app. Qed.

Lemma ValueCRC32_inj_crc data c1 c2 :
  0 <= c1 < 2 ^ 32 → 0 <= c2 < 2 ^ 32 → ValueCRC32 c1 data = ValueCRC32 c2 data → c1 = c2.
Proof.
  revert c1 c2. induction data as [|b data IH]; intros c1 c2 H1 H2 H; [done|].
  apply IH in H; [by eapply crc_update_inj_crc|by apply crc_update_range..].
Qed.

Lemma crc_detects icrc pre b1 b2 post :
  0 <= icrc < 2 ^ 32 → b1 ≠ b2 →
  ValueCRC32 icrc (pre ++ b1 :: post) ≠ ValueCRC32 icrc (pre ++ b2 :: post).
Proof.
  intros Hc Hb. rewrite !ValueCRC32_app, !ValueCRC32_cons. intros H.
  assert (0 <= ValueCRC32 icrc pre < 2 ^ 32) by by apply ValueCRC32_range.
  apply ValueCRC32_inj_crc in H; [|by apply crc_update_range..].
  by apply crc_update_inj_byte in H.
Qed.

(** ** What the encoder does *)

(** A string of fewer than 128 bytes behind its one-byte length. *)
Definition enc_str (v : bytes) : bytes := byte.of_Z (zlen v) :: v.

Lemma EncodeVarint32_small room v :
  0 <= v < 128 → EncodeVarint32 (S room) v = Some [byte.of_Z v].
Proof.
  intros Hv. simpl. destruct (Z.leb_spec 128 v); [lia|].
  do 2 f_equal. rewrite land_7f, Z.mod_small by lia. done.
Qed.

Lemma EncodeVarint32_big room v : 128 <= v → EncodeVarint32 room v = None.
Proof.
  intros Hv. induction room as [|room IH]; [done|]. simpl.
  destruct (Z.leb_spec 128 v); [|lia]. by rewrite IH.
Qed.

Lemma PutVarint32_Some dst v :
  0 <= v < 128 → PutVarint32 dst v = Some (dst ++ [byte.of_Z v]).
Proof. intros Hv. unfold PutVarint32. by rewrite EncodeVarint32_small. Qed.

Lemma PutVarint32_inv dst v out :
  0 <= v → PutVarint32 dst v = Some out → v < 128 ∧ out = dst ++ [byte.of_Z v].
Proof.
  intros Hv H. destruct (Z.lt_ge_cases v 128).
  - rewrite PutVarint32_Some in H by lia. by injection H as <-.
  - unfold PutVarint32 in H. by rewrite EncodeVarint32_big in H.
Qed.

Lemma EncodeString_Some dst v :
  zlen v < 128 → EncodeString dst v = Some (dst ++ enc_str v).
Proof.
  intros Hv. pose proof (zlen_nonneg v). unfold EncodeString.
  rewrite u32_small by lia. rewrite PutVarint32_Some by lia. simpl.
  by rewrite <- app_assoc.
Qed.

Lemma EncodeString_inv dst v out :
  zlen v < 2 ^ 32 → EncodeString dst v = Some out → zlen v < 128 ∧ out = dst ++ enc_str v.
Proof.
  intros Hv H. pose proof (zlen_nonneg v). unfold EncodeString in H.
  rewrite u32_small in H by lia. inv_some.
  apply PutVarint32_inv in E as [? ->]; [|done]. by rewrite <- app_assoc.
Qed.

Lemma PutLengthPrefixedString_EncodeString dst v :
  PutLengthPrefixedString dst v = EncodeString dst v.
Proof. done. Qed.

Lemma enc_str_length v : zlen (enc_str v) = 1 + zlen v.
Proof. unfold enc_str. by autorewrite with ms_len. Qed.
#[export] Hint Rewrite enc_str_length : ms_len.

(** ** What the decoder does *)

Lemma DecodeVarint32_byte v rest :
  0 <= v < 128 → DecodeVarint32 (byte.of_Z v :: rest) = Some (1, v).
Proof.
  intros Hv. pose proof (DecodeVarint32_loop_spec 5 0 0 0 v rest) as H.
  simpl varint_spec in H. destruct (Z.ltb_spec v 128); [|lia].
  cbn [app] in H. unfold DecodeVarint32. rewrite H; [|simpl; lia..].
  do 2 f_equal. lia.
Qed.

Lemma DecodeString_enc_str v rest limit :
  zlen v < 128 → 1 + zlen v <= limit →
  DecodeString (enc_str v ++ rest) limit = Some (Some (v, S (length v))).
Proof.
  intros Hv Hl. pose proof (zlen_nonneg v). unfold DecodeString, enc_str. cbn [app].
  rewrite DecodeVarint32_byte by lia. cbn [mbind option_bind].
  destruct (Z.ltb_spec 1 0); [lia|]. destruct (Z.ltb_spec limit (1 + zlen v)); [lia|].
  cbn [orb]. replace (Z.to_nat (zlen v)) with (length v) by (unfold zlen; lia).
  pose proof (slice_app_mid [byte.of_Z (zlen v)] v rest) as Hs. simpl in Hs.
  change (Z.to_nat 1) with 1%nat. by rewrite Hs.
Qed.

(** The decoder stops at the terminating zero of a [std::string]. *)
Lemma DecodeVarint32_loop_terminated fuel len shift acc s rest :
  0 <= len →
  ∃ n v, DecodeVarint32_loop fuel len shift acc (s ++ x00 :: rest) = Some (n, v) ∧
    (n = -1 ∨ len < n <= len + zlen s + 1) ∧ (0 <= acc → 0 <= v).
Proof.
  revert len shift acc s. induction fuel as [|fuel IH]; intros len shift acc s Hl; simpl.
  { exists (-1), acc. auto. }
  destruct s as [|b s]; simpl.
  - exists (len + 1). eexists. split; [done|]. split; [right; unfold zlen; lia|].
    intros Ha. apply Z.lor_nonneg. split; [done|]. apply u32_range.
  - case_Z.
    + eexists (len + 1), _. split; [done|]. autorewrite with ms_len.
      pose proof (zlen_nonneg s). split; [right; lia|].
      intros Ha. apply Z.lor_nonneg. split; [done|]. apply u32_range.
    + destruct (IH (len + 1) (shift + 7)
        (Z.lor acc (u32 (Z.land (byte.unsigned b) 127 ≪ shift))) s)
        as (n' & v & Hd & Hn & Hv); [lia|].
      exists n', v. split; [done|]. autorewrite with ms_len.
      split; [destruct Hn; [by left|right; lia]|].
      intros Ha. apply Hv, Z.lor_nonneg. split; [done|]. apply u32_range.
Qed.

Lemma DecodeString_terminated s rest :
  ∃ r, DecodeString (s ++ x00 :: rest) (zlen s) = Some r ∧
    match r with
    | None => True
    | Some (v, n) => (0 < n ≤ length s)%nat ∧ (length v < n)%nat
    end.
Proof.
  unfold DecodeString, DecodeVarint32.
  destruct (DecodeVarint32_loop_terminated 5 0 0 0 s rest) as (n & v & -> & Hn & Hv); [lia|].
  cbn [mbind option_bind]. destruct (Z.ltb_spec n 0); [by exists None|].
  destruct (Z.ltb_spec (zlen s) (n + v)); [by exists None|]. cbn [orb].
  specialize (Hv ltac:(lia)). unfold zlen in *.
  destruct (slice (Z.to_nat n) (Z.to_nat v) (s ++ x00 :: rest)) as [val|] eqn:E.
  - apply slice_length in E as Hval. eexists. split; [done|]. simpl. lia.
  - exfalso. unfold slice in E. rewrite length_app in E.
    destruct (Nat.leb_spec (Z.to_nat n + Z.to_nat v) (length s + length (x00 :: rest)))%nat;
      [done|lia].
Qed.

(** * Properties *)

(** The fixed-width codecs round-trip: decoding the four (eight) bytes an
    encoder stored gives the value back, at the width of the type. *)
Theorem fixed_roundtrip (v : Z) (rest : bytes) :
  DecodeFixed32 (EncodeFixed32 v ++ rest) = Some (u32 v) ∧
  DecodeFixed64 (EncodeFixed64 v ++ rest) = Some (u64 v).
Proof. split; [apply DecodeFixed32_Encode|apply DecodeFixed64_Encode]. Qed.

(** C40: [EncodeVarint32] is the encoding its header promises exactly on values
    below 128; on every other value the loop never shifts [value] and writes
    past the end of any buffer it is given. *)
Theorem EncodeVarint32_correct_iff (v : Z) (room : nat) (Hroom : (5 <= room)%nat)
    (Hv : 0 <= v < 2 ^ 32) :
  (EncodeVarint32 room v = Some (varint_spec 5 v) ↔ v < 128) ∧
  (128 <= v → EncodeVarint32 room v = None).
Proof.
  split; [|apply EncodeVarint32_big]. split.
  - intros H. destruct (Z.lt_ge_cases v 128); [done|].
    by rewrite EncodeVarint32_big in H.
  - intros Hs. destruct room as [|room]; [lia|]. rewrite EncodeVarint32_small by lia.
    simpl. destruct (Z.ltb_spec v 128); [done|lia].
Qed.

Lemma EncodeVarint32_correct_iff_witness :
  EncodeVarint32 5 100 = Some (varint_spec 5 100) ∧ EncodeVarint32 5 300 = None.
Proof.
  split.
  - apply (EncodeVarint32_correct_iff 100 5); lia.
  - apply (EncodeVarint32_correct_iff 300 5); lia.
Defined.

(** [DecodeVarint32] inverts the promised 1 to 5 byte encoding of every
    32-bit value, whatever follows it, and reports the bytes consumed. *)
Theorem DecodeVarint32_varint_spec (v : Z) (rest : bytes) (Hv : 0 <= v < 2 ^ 32) :
  DecodeVarint32 (varint_spec 5 v ++ rest) = Some (zlen (varint_spec 5 v), v).
Proof.
  unfold DecodeVarint32. rewrite DecodeVarint32_loop_spec; [|simpl; lia..].
  do 2 f_equal. lia.
Qed.

Lemma DecodeVarint32_varint_spec_witness :
  DecodeVarint32 (varint_spec 5 4294967295 ++ [x7f]) = Some (5, 4294967295).
Proof. apply (DecodeVarint32_varint_spec 4294967295 [x7f]). lia. Defined.

(** On the bytes of a [std::string] (its characters and the terminating
    zero) [DecodeString] never reads outside the string, and when it succeeds
    it consumes at least one byte and no more than the limit allows. *)
Theorem DecodeString_in_bounds (s : bytes) :
  ∃ r, DecodeString (s ++ [x00]) (zlen s) = Some r ∧
    match r with
    | None => True
    | Some (v, n) => (0 < n ≤ length s)%nat ∧ (length v < n)%nat
    end.
Proof. apply DecodeString_terminated. Qed.

(** C39: the table-driven CRC is the bit-serial CRC-32 of polynomial
    0x04c11db7, for every initial value and every input. *)
Theorem ValueCRC32_bit_serial (icrc : Z) (data : bytes) (Hc : 0 <= icrc < 2 ^ 32) :
  ValueCRC32 icrc data = foldl crc_byte_spec icrc data.
Proof.
  revert icrc Hc. induction data as [|b data IH]; intros icrc Hc; [done|].
  rewrite ValueCRC32_cons. simpl. rewrite <- crc_update_spec by done. apply IH, crc_update_range, Hc.
Qed.

Lemma ValueCRC32_bit_serial_witness :
  ValueCRC32 0xffffffff (str "123456789") = 0x0376e6e7.
Proof.
  rewrite (ValueCRC32_bit_serial 0xffffffff (str "123456789")); [reflexivity|lia].
Defined.

(** The checksum detects every corruption of a single byte: two inputs
    that differ in exactly one byte have different CRCs. *)
Theorem ValueCRC32_detects_byte (icrc : Z) (pre post : bytes) (b1 b2 : byte)
    (Hc : 0 <= icrc < 2 ^ 32) (Hb : b1 ≠ b2) :
  ValueCRC32 icrc (pre ++ b1 :: post) ≠ ValueCRC32 icrc (pre ++ b2 :: post).
Proof. by apply crc_detects. Qed.

Lemma ValueCRC32_detects_byte_witness :
  ValueCRC32 0xffffffff (str "data") ≠ ValueCRC32 0xffffffff (str "dbta").
Proof.
  apply (ValueCRC32_detects_byte 0xffffffff (str "d") (str "ta") "a"%byte "b"%byte);
    [lia|discriminate].
Defined.
