(* ===== verification/WriteBatch.v ===== *)
(** The write batch: a sequence of puts and deletes serialized behind a
    12-byte header, src/engine/db_write_batch.h and db_write_batch.cc, with the
    record constants of src/engine/log_format.h.

    A batch is its [rep_] string.  [Iterate] dispatches the operations to a
    handler, which is a typeclass here as it is an abstract class there. *)
From S2P Require Import Prelude Coding.

(** * Definitions *)

(** [enum ValueType]. *)
Definition kTypeDeletion : Z := 0.
Definition kTypeValue : Z := 1.

Definition kBatchHeaderSize : nat := 12.

(** [WriteBatch::Handler]: the callbacks act on the handler's state and may
    have no defined result. *)
Class Handler (St : Type) := {
  handler_Put : St → bytes → bytes → option St;
  handler_Delete : St → bytes → option St;
}.

Definition WriteBatch_Clear : bytes := replicate kBatchHeaderSize x00.

Definition WriteBatch_new : bytes := WriteBatch_Clear.

(** Read the count at offset 8 and store [count + 1] back. *)
Definition bump_count (rep : bytes) : option bytes :=
  if (kBatchHeaderSize <=? length rep)%nat then
    count ← DecodeFixed32 (drop 8 rep);
    Some (overwrite 8 (EncodeFixed32 (u32 (count + 1))) rep)
  else None.

Definition WriteBatch_Put (rep key value : bytes) : option bytes :=
  rep ← bump_count rep;
  let rep := rep ++ [byte.of_Z kTypeValue] in
  rep ← EncodeString rep key;
  EncodeString rep value.

Definition WriteBatch_Delete (rep key : bytes) : option bytes :=
  rep ← bump_count rep;
  let rep := rep ++ [byte.of_Z kTypeDeletion] in
  EncodeString rep key.

(** [int Count() const]. *)
Definition WriteBatch_Count (rep : bytes) : option Z :=
  if (length rep <? kBatchHeaderSize)%nat then Some 0
  else c ← DecodeFixed32 (drop 8 rep); Some (int32 c).

Definition WriteBatch_SetSequence (rep : bytes) (seq : Z) : bytes :=
  if (8 <=? length rep)%nat then overwrite 0 (EncodeFixed64 seq) rep else rep.

Definition WriteBatch_Sequence (rep : bytes) : option Z :=
  if (length rep <? 8)%nat then Some 0 else DecodeFixed64 rep.

Definition WriteBatch_SetContents (rep contents : bytes) : bytes := contents.

Section Iterate.
Context `{H : Handler St}.

(** The loop [while(input < limit)]; [input] holds the bytes from the input
    pointer to the limit, and the string's terminating zero follows them. *)
Fixpoint Iterate_loop (fuel : nat) (st : St) (input : bytes) : option (St * bool) :=
  match fuel with
  | O => None
  | S fuel' =>
      match input with
      | [] => Some (st, true)
      | t :: input =>
          if byte.unsigned t =? kTypeValue then
            r ← DecodeString (input ++ [x00]) (zlen input);
            match r with
            | None => Some (st, false)
            | Some (key, n) =>
                let input := drop n input in
                r ← DecodeString (input ++ [x00]) (zlen input);
                match r with
                | None => Some (st, false)
                | Some (value, n) =>
                    st ← handler_Put st key value;
                    Iterate_loop fuel' st (drop n input)
                end
            end
          else if byte.unsigned t =? kTypeDeletion then
            r ← DecodeString (input ++ [x00]) (zlen input);
            match r with
            | None => Some (st, false)
            | Some (key, n) =>
                st ← handler_Delete st key;
                Iterate_loop fuel' st (drop n input)
            end
          else Some (st, false)
      end
  end.

(** [bool Iterate(Handler *handler) const]: the handler's final state and
    the return value. *)
Definition WriteBatch_Iterate (rep : bytes) (st : St) : option (St * bool) :=
  if (length rep <? kBatchHeaderSize)%nat then Some (st, false)
  else Iterate_loop (length rep) st (drop kBatchHeaderSize rep).
End Iterate.

(** ** The abstract batch *)

Inductive BatchOp :=
  | OpPut (key value : bytes)
  | OpDelete (key : bytes).

Definition op_fits (o : BatchOp) : Prop :=
  match o with
  | OpPut k v => zlen k < 128 ∧ zlen v < 128
  | OpDelete k => zlen k < 128
  end.

Definition add_op (rep : bytes) (o : BatchOp) : option bytes :=
  match o with
  | OpPut k v => WriteBatch_Put rep k v
  | OpDelete k => WriteBatch_Delete rep k
  end.

(** The batch a client builds by a sequence of [Put] and [Delete] calls. *)
Fixpoint add_ops (rep : bytes) (ops : list BatchOp) : option bytes :=
  match ops with
  | [] => Some rep
  | o :: ops => rep ← add_op rep o; add_ops rep ops
  end.

Definition handle_op `{Handler St} (st : St) (o : BatchOp) : option St :=
  match o with
  | OpPut k v => handler_Put st k v
  | OpDelete k => handler_Delete st k
  end.

Fixpoint handle_ops `{Handler St} (st : St) (ops : list BatchOp) : option St :=
  match ops with
  | [] => Some st
  | o :: ops => st ← handle_op st o; handle_ops st ops
  end.

(** * Lemmas *)

(** The bytes of one record, and the shape of a batch. *)
Definition enc_op (o : BatchOp) : bytes :=
  match o with
  | OpPut k v => byte.of_Z kTypeValue :: enc_str k ++ enc_str v
  | OpDelete k => byte.of_Z kTypeDeletion :: enc_str k
  end.

Definition batch_rep (seq : bytes) (count : Z) (ops : list BatchOp) : bytes :=
  seq ++ EncodeFixed32 count ++ concat (map enc_op ops).

Lemma u32_idemp_add a b : u32 (u32 a + b) = u32 (a + b).
Proof. unfold u32. by rewrite Z.add_mod_idemp_l by lia. Qed.

Lemma bump_count_rep seq c body :
  length seq = 8%nat →
  bump_count (seq ++ EncodeFixed32 c ++ body) =
    Some (seq ++ EncodeFixed32 (u32 (c + 1)) ++ body).
Proof.
  intros Hs. unfold bump_count, kBatchHeaderSize.
  rewrite !length_app, Hs. simpl length.
  destruct (Nat.leb_spec 12 (8 + (4 + length body)))%nat; [|lia].
  rewrite (drop_app_length' seq) by done.
  rewrite DecodeFixed32_Encode. cbn [mbind option_bind]. f_equal.
  rewrite <- Hs, overwrite_app by done. by rewrite u32_idemp_add.
Qed.

Lemma add_op_rep seq c ops o :
  length seq = 8%nat → op_fits o →
  add_op (batch_rep seq c ops) o = Some (batch_rep seq (u32 (c + 1)) (ops ++ [o])).
Proof.
  intros Hs Ho. unfold batch_rep. rewrite map_app, concat_app. simpl concat.
  rewrite app_nil_r.
  destruct o as [k v|k]; cbn [op_fits add_op] in Ho |- *;
    unfold WriteBatch_Put, WriteBatch_Delete;
    rewrite bump_count_rep by done; cbn [mbind option_bind].
  - destruct Ho as [Hk Hv]. rewrite EncodeString_Some by done. cbn [mbind option_bind].
    rewrite EncodeString_Some by done. f_equal. rewrite <- !app_assoc. simpl.
    by rewrite <- ?app_assoc.
  - rewrite EncodeString_Some by done. f_equal. rewrite <- !app_assoc. simpl.
    by rewrite <- ?app_assoc.
Qed.

Lemma add_ops_rep seq c ops ops' :
  length seq = 8%nat → Forall op_fits ops' →
  add_ops (batch_rep seq c ops) ops' =
    Some (batch_rep seq (if ops' is [] then c else u32 (c + zlen ops')) (ops ++ ops')).
Proof.
  intros Hs Hf. revert c ops.
  induction Hf as [|o ops' Ho Hf IH]; intros c ops; simpl.
  { by rewrite app_nil_r. }
  rewrite add_op_rep by done. cbn [mbind option_bind]. rewrite IH.
  rewrite <- app_assoc. simpl. do 2 f_equal. autorewrite with ms_len.
  destruct ops' as [|o' ops']; [done|].
  rewrite u32_idemp_add. f_equal. lia.
Qed.

Section IterateLemmas.
Context `{H : Handler St}.

Lemma drop_enc_str v rest : drop (S (length v)) (enc_str v ++ rest) = rest.
Proof. unfold enc_str. simpl. apply drop_app_length. Qed.

Lemma DecodeString_enc_str_app v rest :
  zlen v < 128 →
  DecodeString ((enc_str v ++ rest) ++ [x00]) (zlen (enc_str v ++ rest)) =
    Some (Some (v, S (length v))).
Proof.
  intros Hv. rewrite <- app_assoc. apply DecodeString_enc_str; [done|].
  autorewrite with ms_len. pose proof (zlen_nonneg rest). lia.
Qed.

Lemma Iterate_loop_ops fuel st ops :
  Forall op_fits ops → (length ops < fuel)%nat →
  Iterate_loop fuel st (concat (map enc_op ops)) =
    (st ← handle_ops st ops; Some (st, true)).
Proof.
  intros Hf. revert fuel st.
  induction Hf as [|o ops Ho Hf IH]; intros [|fuel] st Hfuel; simpl in Hfuel; try lia;
    [done|].
  destruct o as [k v|k]; simpl in Ho.
  - destruct Ho as [Hk Hv]. cbn [map enc_op concat app Iterate_loop handle_ops handle_op].
    change (byte.unsigned (byte.of_Z kTypeValue) =? kTypeValue) with true. cbv match.
    rewrite <- app_assoc.
    rewrite DecodeString_enc_str_app by done. cbn [mbind option_bind].
    rewrite drop_enc_str, DecodeString_enc_str_app by done. cbn [mbind option_bind].
    rewrite drop_enc_str. destruct (handler_Put st k v) as [st'|]; [|done].
    cbn [mbind option_bind]. apply IH. lia.
  - cbn [map enc_op concat app Iterate_loop handle_ops handle_op].
    change (byte.unsigned (byte.of_Z kTypeDeletion) =? kTypeValue) with false.
    change (byte.unsigned (byte.of_Z kTypeDeletion) =? kTypeDeletion) with true. cbv match.
    rewrite DecodeString_enc_str_app by done. cbn [mbind option_bind].
    rewrite drop_enc_str. destruct (handler_Delete st k) as [st'|]; [|done].
    cbn [mbind option_bind]. apply IH. lia.
Qed.

Lemma WriteBatch_Iterate_rep seq c ops st :
  length seq = 8%nat → Forall op_fits ops →
  WriteBatch_Iterate (batch_rep seq c ops) st =
    (st ← handle_ops st ops; Some (st, true)).
Proof.
  intros Hs Hf. unfold WriteBatch_Iterate, batch_rep, kBatchHeaderSize.
  rewrite !length_app, Hs. simpl length.
  destruct (Nat.ltb_spec (8 + (4 + length (concat (map enc_op ops)))) 12)%nat; [lia|].
  rewrite app_assoc, (drop_app_length' (seq ++ _)) by (rewrite length_app, Hs; done).
  apply Iterate_loop_ops; [done|].
  assert (length ops ≤ length (concat (map enc_op ops)))%nat; [|lia].
  clear. induction ops as [|o ops IH]; simpl; [lia|].
  rewrite length_app. destruct o; simpl; lia.
Qed.

(** Any input at all: the loop returns, in bounds, within its fuel. *)
Lemma Iterate_loop_total fuel st input :
  (∀ st k v, is_Some (handler_Put st k v)) → (∀ st k, is_Some (handler_Delete st k)) →
  (length input < fuel)%nat → is_Some (Iterate_loop fuel st input).
Proof.
  intros HP HD. revert st input.
  induction fuel as [|fuel IH]; intros st input Hf; [lia|].
  destruct input as [|t input]; simpl in *; [by eexists|].
  destruct (_ =? kTypeValue).
  - destruct (DecodeString_terminated input []) as ([[k n]|] & -> & Hn);
      cbn [mbind option_bind]; [|by eexists].
    destruct (DecodeString_terminated (drop n input) []) as ([[v m]|] & -> & Hm);
      cbn [mbind option_bind]; [|by eexists].
    destruct (HP st k v) as [st' ->]. cbn [mbind option_bind].
    apply IH. rewrite !length_drop. lia.
  - destruct (_ =? kTypeDeletion); [|by eexists].
    destruct (DecodeString_terminated input []) as ([[k n]|] & -> & Hn);
      cbn [mbind option_bind]; [|by eexists].
    destruct (HD st k) as [st' ->]. cbn [mbind option_bind].
    apply IH. rewrite length_drop. lia.
Qed.
End IterateLemmas.

(** The recorder: a handler that lists the operations it receives. *)
#[export] Instance recorder : Handler (list BatchOp) := {
  handler_Put l k v := Some (l ++ [OpPut k v]);
  handler_Delete l k := Some (l ++ [OpDelete k]);
}.

Lemma handle_ops_recorder l ops : handle_ops l ops = Some (l ++ ops).
Proof.
  revert l. induction ops as [|o ops IH]; intros l; simpl; [by rewrite app_nil_r|].
  destruct o; simpl; rewrite IH, <- app_assoc; done.
Qed.

(** * Properties *)

(** A batch built by any sequence of [Put] and [Delete] calls on strings of
    fewer than 128 bytes counts its operations, and [Iterate] hands exactly
    those operations, in order, to any handler. *)
Theorem WriteBatch_roundtrip `{Handler St} (ops : list BatchOp) (st : St)
    (Hops : Forall op_fits ops) (Hlen : zlen ops < 2 ^ 31) :
  ∃ rep, add_ops WriteBatch_new ops = Some rep ∧
    WriteBatch_Count rep = Some (zlen ops) ∧
    WriteBatch_Iterate rep st = (st ← handle_ops st ops; Some (st, true)).
Proof.
  change WriteBatch_new with (batch_rep (replicate 8 x00) 0 []).
  rewrite add_ops_rep by done. eexists. split; [done|]. simpl app. split.
  - unfold WriteBatch_Count, batch_rep. rewrite !length_app. simpl length.
    destruct (Nat.ltb_spec (8 + (4 + length (concat (map enc_op ops)))) kBatchHeaderSize)%nat
      as [Hl|_]; [unfold kBatchHeaderSize in Hl; lia|].
    rewrite (drop_app_length' (replicate 8 x00)) by done.
    rewrite DecodeFixed32_Encode. cbn [mbind option_bind]. f_equal.
    pose proof (zlen_nonneg ops).
    destruct ops as [|o ops]; [done|].
    rewrite !u32_small by (rewrite ?u32_small; lia). unfold int32.
    rewrite Z.mod_small; lia.
  - by apply WriteBatch_Iterate_rep.
Qed.

Lemma WriteBatch_roundtrip_witness :
  ∃ rep, add_ops WriteBatch_new [OpPut (str "k") (str "v"); OpDelete (str "k")] = Some rep ∧
    WriteBatch_Count rep = Some 2 ∧
    WriteBatch_Iterate rep [] = Some ([OpPut (str "k") (str "v"); OpDelete (str "k")], true).
Proof.
  destruct (WriteBatch_roundtrip (St:=list BatchOp)
    [OpPut (str "k") (str "v"); OpDelete (str "k")] []) as (rep & H1 & H2 & H3).
  - repeat constructor; reflexivity.
  - reflexivity.
  - exists rep. split; [exact H1|]. split; [exact H2|]. rewrite H3. reflexivity.
Defined.

(** Replaying any bytes whatever as a batch terminates without reading
    outside them, as long as the handler's callbacks return. *)
Theorem WriteBatch_Iterate_total `{Handler St} (rep : bytes) (st : St)
    (HP : ∀ (st : St) k v, is_Some (handler_Put st k v))
    (HD : ∀ (st : St) k, is_Some (handler_Delete st k)) :
  is_Some (WriteBatch_Iterate rep st).
Proof.
  unfold WriteBatch_Iterate, kBatchHeaderSize.
  destruct (Nat.ltb_spec (length rep) 12); [by eexists|].
  apply Iterate_loop_total; [done..|]. rewrite length_drop. lia.
Qed.

Lemma WriteBatch_Iterate_total_witness :
  is_Some (WriteBatch_Iterate (str "not a batch, only some text") ([] : list BatchOp)).
Proof. apply WriteBatch_Iterate_total; intros; eexists; reflexivity. Defined.

(** The sequence number stored by [SetSequence] reads back, and storing it
    leaves the count and the operations as they were. *)
Theorem WriteBatch_sequence_roundtrip (seq c n : Z) (s : bytes) (ops : list BatchOp)
    (Hs : length s = 8%nat) :
  let rep := WriteBatch_SetSequence (batch_rep s c ops) n in
  WriteBatch_Sequence rep = Some (u64 n) ∧
  rep = batch_rep (EncodeFixed64 n) c ops.
Proof.
  assert (WriteBatch_SetSequence (batch_rep s c ops) n = batch_rep (EncodeFixed64 n) c ops) as Hr.
  { unfold WriteBatch_SetSequence, batch_rep. rewrite length_app, Hs.
    destruct (Nat.leb_spec 8 (8 + length (EncodeFixed32 c ++ concat (map enc_op ops))))%nat; [|lia].
    apply (overwrite_app [] s). by rewrite Hs. }
  cbv zeta. rewrite Hr. split; [|done].
  unfold WriteBatch_Sequence, batch_rep. simpl length.
  apply DecodeFixed64_Encode.
Qed.

Lemma WriteBatch_sequence_roundtrip_witness :
  WriteBatch_Sequence (WriteBatch_SetSequence (batch_rep (replicate 8 x00) 1 [OpDelete (str "k")]) 77)
    = Some 77.
Proof. apply (WriteBatch_sequence_roundtrip 0 1 77 (replicate 8 x00) [OpDelete (str "k")]). reflexivity. Defined.
