(* ===== verification/Wal.v ===== *)
(** The write-ahead log: src/engine/log_format.h, log_writer.h, log_writer.cc,
    log_reader.h and log_reader.cc.

    A log file is a list of bytes.  The writer appends to it; how far a write
    to the stream got is an argument of the operation ([io_result]), so a
    failed or interrupted write leaves any prefix of the record.  The reader
    is the stream (contents, position, failbit) with the two flags of the
    class. *)
From S2P Require Import Prelude Coding.

(** * Definitions *)

Definition kHeaderSize : nat := 7.

(** [enum RecordType]. *)
Definition kZeroType : Z := 0.
Definition kFullType : Z := 1.
Definition kFirstType : Z := 2.
Definition kMiddleType : Z := 3.
Definition kLastType : Z := 4.

(** ** The writer *)

Inductive io_result :=
  | IoOk                (** every byte was written and the stream is good *)
  | IoShort (n : nat).  (** the stream went bad after [n] bytes *)

Record LogWriter := MkLogWriter {
  lw_file : bytes;      (** contents of the file behind [file_], its buffer included *)
  lw_ok : bool;         (** [ok_] *)
  lw_good : bool;       (** [file_.good()] *)
}.

(** [old] is the file's contents before the constructor ([[]] when it did not
    exist), [opened] whether [file_.open] succeeded. *)
Definition LogWriter_new (old : bytes) (truncate opened : bool) : LogWriter :=
  if opened then MkLogWriter (if truncate then [] else old) true true
  else MkLogWriter old false false.

Definition record_header (type : Z) (data : bytes) : bytes :=
  let length := zlen data in
  let h4 := byte.of_Z (Z.land length 0xff) in
  let h5 := byte.of_Z (Z.shiftr length 8) in
  let h6 := byte.of_Z type in
  let crc := ValueCRC32 0xffffffff [h6] in
  let crc := ValueCRC32 crc data in
  EncodeFixed32 crc ++ [h4; h5; h6].

Definition EmitPhysicalRecord (w : LogWriter) (type : Z) (data : bytes)
    (io : io_result) : LogWriter * bool :=
  let rec := record_header type data ++ data in
  if lw_good w then
    match io with
    | IoOk => (MkLogWriter (lw_file w ++ rec) true true, true)
    | IoShort n => (MkLogWriter (lw_file w ++ take n rec) false false, false)
    end
  else (MkLogWriter (lw_file w) false false, false).

Definition AddRecord (w : LogWriter) (data : bytes) (io : io_result) : LogWriter * bool :=
  if lw_ok w then EmitPhysicalRecord w kFullType data io else (w, false).

(** [Sync()]: the bytes of the last record may still be in the buffer of the stream,
    and a flush that fails loses those behind the first [n]; [ok_] is not touched.
    [last] is the record. *)
Definition Sync (w : LogWriter) (last : nat) (io : io_result) : LogWriter * bool :=
  if lw_good w then
    match io with
    | IoOk => (w, true)
    | IoShort n => (MkLogWriter (take (length (lw_file w) - last + n) (lw_file w)) (lw_ok w) false, false)
    end
  else (w, false).

(** ** The reader *)

Record LogReader := MkLogReader {
  lr_file : bytes;      (** contents of the file behind [file_] *)
  lr_pos : nat;         (** its read position *)
  lr_open : bool;       (** [file_.is_open()] *)
  lr_fail : bool;       (** failbit or eofbit of the stream *)
  lr_ok : bool;         (** [ok_] *)
  lr_eof : bool;        (** [eof_] *)
}.

(** [file] is [None] when the file cannot be opened. *)
Definition LogReader_new (file : option bytes) : LogReader :=
  match file with
  | Some f => MkLogReader f 0 true false true false
  | None => MkLogReader [] 0 false true false false
  end.

Definition set_ok (b : bool) (r : LogReader) : LogReader :=
  MkLogReader (lr_file r) (lr_pos r) (lr_open r) (lr_fail r) b (lr_eof r).
Definition set_eof (b : bool) (r : LogReader) : LogReader :=
  MkLogReader (lr_file r) (lr_pos r) (lr_open r) (lr_fail r) (lr_ok r) b.

(** [file_.read(buf, n)]: the bytes read, [gcount()] of them. *)
Definition reader_read (r : LogReader) (n : nat) : LogReader * bytes :=
  if lr_fail r then (r, [])
  else
    let got := take n (drop (lr_pos r) (lr_file r)) in
    (MkLogReader (lr_file r) (lr_pos r + length got) (lr_open r)
       (length got <? n)%nat (lr_ok r) (lr_eof r), got).

(** [bool SkipToOffset(uint64_t offset)]: an offset that is negative as a
    [std::streamoff] makes [seekg] fail. *)
Definition SkipToOffset (r : LogReader) (offset : Z) : LogReader * bool :=
  if lr_open r then
    let good := u64 offset <? 2 ^ 63 in
    (MkLogReader (lr_file r) (if good then Z.to_nat (u64 offset) else lr_pos r)
       (lr_open r) (negb good) (lr_ok r) (lr_eof r), good)
  else (r, false).

(** [ReadPhysicalRecord(&type, &record)]: [None] is [false]. *)
Definition ReadPhysicalRecord (r : LogReader) : LogReader * option (Z * bytes) :=
  let '(r, header) := reader_read r kHeaderSize in
  match header with
  | h0 :: h1 :: h2 :: h3 :: h4 :: h5 :: h6 :: _ =>
      match DecodeFixed32 header with
      | None => (r, None)
      | Some storage_crc =>
          let length := Z.lor (Z.shiftl (byte.unsigned h5) 8) (byte.unsigned h4) in
          let type := byte.unsigned h6 in
          let '(r, result) := reader_read r (Z.to_nat length) in
          if zlen result <? length then (set_ok false r, None)
          else
            let expected_crc := ValueCRC32 0xffffffff [h6] in
            let expected_crc := ValueCRC32 expected_crc result in
            if expected_crc =? storage_crc then (r, Some (type, result))
            else (set_ok false r, None)
      end
  | _ => (r, None)
  end.

(** The loop of [ReadRecord]; the result is the return value with the
    contents of [*record].  [None] only when the fuel runs out. *)
Fixpoint ReadRecord_loop (fuel : nat) (r : LogReader) : option (LogReader * option bytes) :=
  match fuel with
  | O => None
  | S fuel' =>
      match ReadPhysicalRecord r with
      | (r, None) => Some (set_eof true r, None)
      | (r, Some (type, fragment)) =>
          if type =? kFullType then Some (r, Some fragment)
          else if type =? kZeroType then ReadRecord_loop fuel' r
          else Some (set_ok false r, None)
      end
  end.

Definition ReadRecord (r : LogReader) : option (LogReader * option bytes) :=
  if negb (lr_ok r) || lr_eof r then Some (r, None)
  else ReadRecord_loop (S (length (lr_file r))) r.

(** ** Whole logs *)

(** The client's loop [while(reader.ReadRecord(&record))]. *)
Fixpoint read_records (fuel : nat) (r : LogReader) : option (LogReader * list bytes) :=
  match fuel with
  | O => None
  | S fuel' =>
      '(r, res) ← ReadRecord r;
      match res with
      | None => Some (r, [])
      | Some rec => '(r, recs) ← read_records fuel' r; Some (r, rec :: recs)
      end
  end.

Definition read_log (f : bytes) : option (LogReader * list bytes) :=
  read_records (S (length f)) (LogReader_new (Some f)).

(** Appending records through a writer, every write succeeding. *)
Fixpoint add_records (w : LogWriter) (recs : list bytes) : LogWriter :=
  match recs with
  | [] => w
  | d :: recs => add_records (fst (AddRecord w d IoOk)) recs
  end.

(** * Lemmas *)

Definition wal_record (data : bytes) : bytes := record_header kFullType data ++ data.

Lemma record_header_length type data : length (record_header type data) = 7%nat.
Proof. done. Qed.

Lemma wal_record_length data : length (wal_record data) = (7 + length data)%nat.
Proof. unfold wal_record. by rewrite length_app, record_header_length. Qed.

Lemma add_records_file w recs :
  lw_ok w = true → lw_good w = true →
  add_records w recs = MkLogWriter (lw_file w ++ concat (map wal_record recs)) true true.
Proof.
  revert w. induction recs as [|d recs IH]; intros w Hw Hg; simpl.
  - rewrite app_nil_r. destruct w; simpl in *; by subst.
  - unfold AddRecord, EmitPhysicalRecord. rewrite Hw, Hg. simpl. rewrite IH by done. simpl.
    by rewrite <- app_assoc.
Qed.

(** The position of a reader whose stream is healthy. *)
Definition reader_at (f : bytes) (pos : nat) : LogReader :=
  MkLogReader f pos true false true false.

Lemma reader_read_at pre a post :
  reader_read (reader_at (pre ++ a ++ post) (length pre)) (length a) =
    (reader_at (pre ++ a ++ post) (length (pre ++ a)), a).
Proof.
  unfold reader_read, reader_at. cbn [lr_fail lr_file lr_pos lr_open lr_ok lr_eof].
  rewrite drop_app_length, take_app_length, length_app.
  by rewrite (proj2 (Nat.ltb_ge _ _)) by lia.
Qed.

(** The two length bytes of a header, read back. *)
Lemma header_length_bytes n :
  0 <= n < 65536 →
  Z.lor (Z.shiftl (byte.unsigned (byte.of_Z (Z.shiftr n 8))) 8)
        (byte.unsigned (byte.of_Z (Z.land n 0xff))) = n.
Proof.
  intros Hn. change 0xff with (Z.ones 8).
  rewrite Z.land_ones, Z.shiftr_div_pow2 by lia. change (2 ^ 8) with 256.
  pose proof (Z.mod_pos_bound n 256 ltac:(lia)).
  rewrite !byte_unsigned_small; [|lia|].
  - rewrite Z.lor_comm, lor_shiftl_add by lia. pose proof (Z.div_mod n 256). lia.
  - split; [apply Z.div_pos; lia|apply Z.div_lt_upper_bound; lia].
Qed.

Lemma crc_header_u32 data type :
  u32 (ValueCRC32 (ValueCRC32 0xffffffff [type]) data) =
    ValueCRC32 (ValueCRC32 0xffffffff [type]) data.
Proof. apply u32_small, ValueCRC32_range, ValueCRC32_range. lia. Qed.

Lemma record_header_bytes type data :
  ∃ b0 b1 b2 b3,
    record_header type data =
      [b0; b1; b2; b3; byte.of_Z (Z.land (zlen data) 0xff);
       byte.of_Z (Z.shiftr (zlen data) 8); byte.of_Z type] ∧
    ∀ rest, DecodeFixed32 (b0 :: b1 :: b2 :: b3 :: rest) =
      Some (ValueCRC32 (ValueCRC32 0xffffffff [byte.of_Z type]) data).
Proof.
  do 4 eexists. split; [reflexivity|]. intros rest.
  etrans; [apply DecodeFixed32_Encode|]. by rewrite crc_header_u32.
Qed.

(** Reading a header at the current position, whatever data follows. *)
Lemma ReadPhysicalRecord_at pre type data d post :
  length d = length data → zlen data < 65536 → 0 <= type < 256 →
  ReadPhysicalRecord (reader_at (pre ++ record_header type data ++ d ++ post) (length pre)) =
    (let crc := ValueCRC32 0xffffffff [byte.of_Z type] in
     let r := reader_at (pre ++ record_header type data ++ d ++ post)
                (length (pre ++ record_header type data ++ d)) in
     if ValueCRC32 crc d =? ValueCRC32 crc data then (r, Some (type, d))
     else (set_ok false r, None)).
Proof.
  intros Hd Hlen Htype. unfold ReadPhysicalRecord.
  pose proof (reader_read_at pre (record_header type data) (d ++ post)) as Hr.
  rewrite record_header_length in Hr. unfold kHeaderSize. rewrite Hr. clear Hr.
  pose proof (reader_read_at (pre ++ record_header type data) d post) as Hr.
  rewrite <- !app_assoc in Hr.
  set (r1 := reader_at _ (length (pre ++ record_header type data))) in *.
  set (r2 := reader_at _ (length (pre ++ _ ++ d))) in *.
  destruct (record_header_bytes type data) as (b0 & b1 & b2 & b3 & -> & Hdec).
  rewrite Hdec. pose proof (zlen_nonneg data).
  rewrite header_length_bytes by lia.
  replace (Z.to_nat (zlen data)) with (length d) by (unfold zlen; lia). rewrite Hr.
  replace (zlen d) with (zlen data) by (unfold zlen; lia).
  by rewrite Z.ltb_irrefl, byte_unsigned_small by lia.
Qed.

Lemma ReadRecord_reader_at f pos :
  ReadRecord (reader_at f pos) =
    match ReadPhysicalRecord (reader_at f pos) with
    | (r, None) => Some (set_eof true r, None)
    | (r, Some (type, fragment)) =>
        if type =? kFullType then Some (r, Some fragment)
        else if type =? kZeroType then ReadRecord_loop (length f) r
        else Some (set_ok false r, None)
    end.
Proof. done. Qed.

(** Reading a whole record that a writer appended. *)
Lemma ReadRecord_at pre data post :
  zlen data < 65536 →
  ReadRecord (reader_at (pre ++ wal_record data ++ post) (length pre)) =
    Some (reader_at (pre ++ wal_record data ++ post) (length (pre ++ wal_record data)),
          Some data).
Proof.
  intros Hd. rewrite ReadRecord_reader_at. unfold wal_record. rewrite <- !app_assoc.
  rewrite ReadPhysicalRecord_at by (done || unfold kFullType; lia).
  cbv zeta. by rewrite Z.eqb_refl.
Qed.

(** A header that is cut short, or a payload that is, ends the log. *)
Lemma ReadRecord_torn pre data n :
  zlen data < 65536 → (n < length (wal_record data))%nat →
  ∃ r, ReadRecord (reader_at (pre ++ take n (wal_record data)) (length pre)) = Some (r, None) ∧
    lr_eof r = true.
Proof.
  intros Hd Hn. rewrite ReadRecord_reader_at.
  assert (∃ r, ReadPhysicalRecord (reader_at (pre ++ take n (wal_record data)) (length pre)) = (r, None))
    as [r ->]; [|by eexists].
  rewrite wal_record_length in Hn. unfold wal_record, ReadPhysicalRecord, kHeaderSize.
  destruct (Nat.lt_ge_cases n 7) as [Hlt|Hge].
  - rewrite take_app_le by (rewrite record_header_length; lia).
    unfold reader_read at 1. cbn [lr_fail reader_at lr_pos lr_file].
    rewrite drop_app_length, take_take, Nat.min_r by lia.
    pose proof (length_take (record_header kFullType data) n) as Hl.
    rewrite record_header_length in Hl.
    destruct (take n (record_header kFullType data)) as [|? [|? [|? [|? [|? [|? [|? ?]]]]]]];
      simpl in Hl; try (eexists; reflexivity); lia.
  - rewrite take_app_ge, record_header_length by (rewrite record_header_length; lia).
    pose proof (reader_read_at pre (record_header kFullType data) (take (n - 7) data)) as Hr.
    rewrite record_header_length in Hr. rewrite Hr. clear Hr.
    set (f := pre ++ _).
    destruct (record_header_bytes kFullType data) as (b0 & b1 & b2 & b3 & -> & Hdec).
    rewrite Hdec. pose proof (zlen_nonneg data). rewrite header_length_bytes by lia.
    unfold reader_read. cbn [lr_fail reader_at lr_pos lr_file].
    set (got := take _ _).
    assert (zlen got < zlen data).
    { unfold got, f. rewrite app_assoc.
      rewrite (drop_app_length' (pre ++ _))
        by (rewrite !length_app, record_header_length; done).
      unfold zlen. rewrite !length_take. lia. }
    destruct (Z.ltb_spec (zlen got) (zlen data)); [|lia]. by eexists.
Qed.

Lemma ReadRecord_end f : ∃ r, ReadRecord (reader_at f (length f)) = Some (r, None) ∧
  lr_eof r = true ∧ lr_ok r = true.
Proof.
  rewrite ReadRecord_reader_at. unfold ReadPhysicalRecord, reader_read.
  simpl. rewrite drop_all. simpl. by eexists.
Qed.

Lemma read_records_end fuel r : (0 < fuel)%nat →
  (∃ r', ReadRecord r = Some (r', None)) → ∃ r', read_records fuel r = Some (r', []).
Proof. intros Hf [r' H]. destruct fuel; [lia|]. simpl. rewrite H. by eexists. Qed.

Lemma read_records_log pre recs tail fuel :
  Forall (λ d, zlen d < 65536) recs → (length recs < fuel)%nat →
  (∀ pre, ∃ r, ReadRecord (reader_at (pre ++ tail) (length pre)) = Some (r, None)) →
  ∃ r, read_records fuel (reader_at (pre ++ concat (map wal_record recs) ++ tail) (length pre)) =
    Some (r, recs).
Proof.
  intros Hf. revert pre fuel.
  induction Hf as [|d recs Hd Hf IH]; intros pre fuel Hfuel Htail; simpl in Hfuel.
  - cbn [map concat app]. apply read_records_end; [lia|]. apply Htail.
  - destruct fuel as [|fuel]; [lia|]. cbn [read_records map concat].
    rewrite <- !app_assoc, ReadRecord_at by done.
    cbn [mbind option_bind].
    destruct (IH (pre ++ wal_record d) fuel) as [r Hr]; [lia|done|].
    rewrite <- !app_assoc in Hr. rewrite Hr. by eexists.
Qed.

Lemma concat_records_length recs :
  (length recs ≤ length (concat (map wal_record recs)))%nat.
Proof.
  induction recs as [|d recs IH]; cbn [map concat length]; [lia|].
  rewrite length_app, wal_record_length. lia.
Qed.

(** The length a reader accepts fits in sixteen bits. *)
Lemma ReadPhysicalRecord_short r r' type rec :
  ReadPhysicalRecord r = (r', Some (type, rec)) → zlen rec < 65536.
Proof.
  unfold ReadPhysicalRecord. destruct (reader_read r kHeaderSize) as [r1 h] eqn:E1.
  destruct h as [|h0 [|h1 [|h2 [|h3 [|h4 [|h5 [|h6 ?]]]]]]]; try done.
  destruct (DecodeFixed32 _); [|done].
  set (len := Z.lor _ _). destruct (reader_read r1 (Z.to_nat len)) as [r2 got] eqn:E2.
  destruct (zlen got <? len); [done|]. destruct (_ =? _); [|done].
  intros [= <- <- <-].
  assert (0 <= len < 65536).
  { unfold len. pose proof (byte_range h5). pose proof (byte_range h4).
    rewrite Z.lor_comm, lor_shiftl_add by lia. lia. }
  assert (length got ≤ Z.to_nat len)%nat; [|unfold zlen; lia].
  unfold reader_read in E2. destruct (lr_fail r1); injection E2 as <- <-; [simpl; lia|].
  rewrite length_take. lia.
Qed.

Lemma ReadRecord_loop_short fuel r r' rec :
  ReadRecord_loop fuel r = Some (r', Some rec) → zlen rec < 65536.
Proof.
  revert r. induction fuel as [|fuel IH]; intros r; simpl; [done|].
  destruct (ReadPhysicalRecord r) as [r1 [[type frag]|]] eqn:E; [|done].
  destruct (type =? kFullType).
  - intros [= <- <-]. by eapply ReadPhysicalRecord_short.
  - destruct (type =? kZeroType); [apply IH|done].
Qed.

(** Every physical record consumes at least the seven bytes of a header. *)
Lemma reader_read_pos r n r' got :
  reader_read r n = (r', got) →
  lr_file r' = lr_file r ∧ lr_ok r' = lr_ok r ∧ lr_eof r' = lr_eof r ∧
  (lr_pos r' = lr_pos r + length got)%nat ∧
  (length got ≤ length (lr_file r) - lr_pos r)%nat.
Proof.
  unfold reader_read. destruct (lr_fail r); intros [= <- <-]; simpl.
  - repeat split; lia.
  - rewrite length_take, length_drop. repeat split; lia.
Qed.

Lemma ReadPhysicalRecord_pos r r' type rec :
  ReadPhysicalRecord r = (r', Some (type, rec)) →
  lr_file r' = lr_file r ∧ (lr_pos r + 7 ≤ lr_pos r')%nat ∧
  (lr_pos r' ≤ length (lr_file r))%nat.
Proof.
  unfold ReadPhysicalRecord. destruct (reader_read r kHeaderSize) as [r1 h] eqn:E1.
  apply reader_read_pos in E1 as (F1 & _ & _ & P1 & B1).
  destruct h as [|h0 [|h1 [|h2 [|h3 [|h4 [|h5 [|h6 ?]]]]]]]; try done.
  destruct (DecodeFixed32 _); [|done].
  set (len := Z.lor _ _). destruct (reader_read r1 (Z.to_nat len)) as [r2 got] eqn:E2.
  apply reader_read_pos in E2 as (F2 & _ & _ & P2 & B2).
  destruct (zlen got <? len); [done|]. destruct (_ =? _); [|done].
  intros [= <- <- <-]. rewrite F2, F1. simpl in *. rewrite F1 in B2.
  split; [done|]. lia.
Qed.

Lemma ReadRecord_loop_total fuel r :
  (length (lr_file r) - lr_pos r < fuel)%nat → is_Some (ReadRecord_loop fuel r).
Proof.
  revert r. induction fuel as [|fuel IH]; intros r Hf; [lia|]. simpl.
  destruct (ReadPhysicalRecord r) as [r1 [[type frag]|]] eqn:E; [|by eexists].
  apply ReadPhysicalRecord_pos in E as (F & P & B).
  destruct (type =? kFullType); [by eexists|].
  destruct (type =? kZeroType); [|by eexists]. apply IH. rewrite F. lia.
Qed.

Lemma ReadRecord_loop_None fuel r r' :
  ReadRecord_loop fuel r = Some (r', None) → lr_ok r' = false ∨ lr_eof r' = true.
Proof.
  revert r. induction fuel as [|fuel IH]; intros r; simpl; [done|].
  destruct (ReadPhysicalRecord r) as [r1 [[type frag]|]]; [|intros [= <-]; by right].
  destruct (type =? kFullType); [done|]. destruct (type =? kZeroType); [apply IH|].
  intros [= <-]. by left.
Qed.

(** * Properties *)

(** C22: a log of records of at most 65535 bytes each, appended through the writer
    with every write and flush succeeding, reads back as exactly those records in
    order ([wal_torn_write] and [wal_long_record_lost] have the other cases). *)
Theorem wal_roundtrip (recs : list bytes) (Hr : Forall (λ d, zlen d < 65536) recs) :
  ∃ r, read_log (lw_file (add_records (LogWriter_new [] true true) recs)) = Some (r, recs).
Proof.
  rewrite add_records_file by done. cbn [lw_file LogWriter_new app].
  unfold read_log. change (LogReader_new (Some ?f)) with (reader_at f 0).
  destruct (read_records_log [] recs [] (S (length (concat (map wal_record recs)))))
    as [r H]; [done| |intros pre|rewrite app_nil_r in H; by eexists].
  - pose proof (concat_records_length recs). lia.
  - rewrite app_nil_r. destruct (ReadRecord_end pre) as (r & -> & _). by eexists.
Qed.

Lemma wal_roundtrip_witness :
  ∃ r, read_log (lw_file (add_records (LogWriter_new [] true true) [str "one"; str ""; str "three"]))
    = Some (r, [str "one"; str ""; str "three"]).
Proof. apply wal_roundtrip. repeat constructor. Defined.

(** C33: a log whose last write was interrupted anywhere inside the record
    reads back as the records before it: recovery returns the longest
    prefix of complete records. *)
Theorem wal_torn_write (recs : list bytes) (data : bytes) (n : nat)
    (Hr : Forall (λ d, zlen d < 65536) recs) (Hd : zlen data < 65536)
    (Hn : (n < 7 + length data)%nat) :
  let w := add_records (LogWriter_new [] true true) recs in
  let '(w', ok) := AddRecord w data (IoShort n) in
  ok = false ∧ ∃ r, read_log (lw_file w') = Some (r, recs).
Proof.
  rewrite add_records_file by done. cbn [lw_file LogWriter_new app AddRecord lw_ok lw_good EmitPhysicalRecord].
  split; [done|]. unfold read_log. change (LogReader_new (Some ?f)) with (reader_at f 0).
  apply (read_records_log [] recs); [done| |intros pre].
  - rewrite length_app. pose proof (concat_records_length recs). lia.
  - destruct (ReadRecord_torn pre data n) as (r & H & _); [done| |by eexists].
    by rewrite wal_record_length.
Qed.

Lemma wal_torn_write_witness :
  let '(w', ok) := AddRecord (add_records (LogWriter_new [] true true) [str "one"]) (str "two") (IoShort 8) in
  ok = false ∧ ∃ r, read_log (lw_file w') = Some (r, [str "one"]).
Proof. apply (wal_torn_write [str "one"] (str "two") 8); [repeat constructor|reflexivity|simpl; lia]. Defined.

(** Changing one byte of a record's payload on disk makes the reader
    reject the record and flag the log as damaged. *)
Theorem wal_detects_corruption (pre post a b : bytes) (x y : byte)
    (Hlen : zlen (a ++ x :: b) < 65536) (Hxy : x ≠ y) :
  let f := pre ++ record_header kFullType (a ++ x :: b) ++ (a ++ y :: b) ++ post in
  ∃ r, ReadRecord (reader_at f (length pre)) = Some (r, None) ∧ lr_ok r = false.
Proof.
  cbv zeta. rewrite ReadRecord_reader_at, ReadPhysicalRecord_at; [|by rewrite !length_app|done|].
  - cbv zeta. destruct (Z.eqb_spec (ValueCRC32 (ValueCRC32 0xffffffff [byte.of_Z kFullType]) (a ++ y :: b))
      (ValueCRC32 (ValueCRC32 0xffffffff [byte.of_Z kFullType]) (a ++ x :: b))) as [H|_]; [|by eexists].
    exfalso. revert H. apply crc_detects; [|done]. apply ValueCRC32_range. lia.
  - unfold kFullType. lia.
Qed.

Lemma wal_detects_corruption_witness :
  ∃ r, ReadRecord (reader_at ([] ++ record_header kFullType (str "a" ++ "b"%byte :: str "c")
         ++ (str "a" ++ "x"%byte :: str "c") ++ []) (length (@nil byte))) = Some (r, None) ∧ lr_ok r = false.
Proof. apply (wal_detects_corruption [] [] (str "a") (str "c") "b"%byte "x"%byte); [reflexivity|discriminate]. Defined.

(** The length field has sixteen bits, and the writer does not check it:
    appending a longer record reports success, and the reader never returns
    that record, from any state. *)
Theorem wal_long_record_lost (w : LogWriter) (data : bytes)
    (Hw : lw_ok w = true) (Hg : lw_good w = true) (Hd : 65536 <= zlen data) :
  snd (AddRecord w data IoOk) = true ∧
  ∀ r r' rec, ReadRecord r = Some (r', Some rec) → rec ≠ data.
Proof.
  split; [unfold AddRecord, EmitPhysicalRecord; by rewrite Hw, Hg|]. intros r r' rec H ->.
  unfold ReadRecord in H. destruct (negb (lr_ok r) || lr_eof r); [done|].
  apply ReadRecord_loop_short in H. lia.
Qed.

Lemma wal_long_record_lost_witness :
  snd (AddRecord (LogWriter_new [] true true) (replicate (Z.to_nat 65536) x00) IoOk) = true.
Proof.
  apply (wal_long_record_lost (LogWriter_new [] true true) (replicate (Z.to_nat 65536) x00)).
  - reflexivity.
  - reflexivity.
  - unfold zlen. rewrite length_replicate, Z2Nat.id; lia.
Defined.

(** [ReadRecord] returns on every file, and once it has returned [false]
    at the end of a log no later call returns a record, not even after
    [SkipToOffset], which clears the stream's flags but not [eof_]. *)
Theorem ReadRecord_total_and_sticky (r : LogReader) :
  ∃ r' res, ReadRecord r = Some (r', res) ∧
    (res = None → lr_ok r' = false ∨ lr_eof r' = true) ∧
    ∀ off, (lr_ok r' = false ∨ lr_eof r' = true) →
      ReadRecord (fst (SkipToOffset r' off)) = Some (fst (SkipToOffset r' off), None).
Proof.
  assert (∀ r' off, (lr_ok r' = false ∨ lr_eof r' = true) →
    ReadRecord (fst (SkipToOffset r' off)) = Some (fst (SkipToOffset r' off), None)) as Hs.
  { intros r' off H. unfold ReadRecord, SkipToOffset.
    destruct (lr_open r'); cbn [fst lr_ok lr_eof];
      destruct H as [-> | ->]; by rewrite ?orb_true_r. }
  unfold ReadRecord at 1. destruct (negb (lr_ok r) || lr_eof r) eqn:E.
  - exists r, None. split; [done|]. split; [|by auto]. intros _.
    apply orb_prop in E as [E|E]; [left; by apply negb_true_iff|by right].
  - destruct (ReadRecord_loop_total (S (length (lr_file r))) r) as [[r' res] Hr]; [lia|].
    exists r', res. split; [done|]. split; [|by auto].
    intros ->. by eapply ReadRecord_loop_None.
Qed.
