(* ===== verification/MemTable.v ===== *)
(** The in-memory table: a skip list of nodes on a heap, src/engine/MemTable.h
    and MemTable.cc.

    Nodes live in an explicit heap and are linked by pointers, level by level,
    as in the source; reading through a null or freed pointer, or past the end
    of a node's [next] vector, has no result.  The table is related to a finite
    map from keys to values by [mt_rep], and every operation is proved against
    the map. *)
From S2P Require Import Prelude.

(** * Definitions *)

Definition MAX_LEVEL : nat := 16.

(** Pointers to nodes: [None] is [nullptr]. *)
Abbreviation loc := positive.
Abbreviation ptr := (option loc).

Record SkipListNode := mkNode {
  node_key : bytes;
  node_value : bytes;
  node_next : list ptr;
}.

Definition SkipListNode_new (k v : bytes) (level : nat) : SkipListNode :=
  mkNode k v (replicate level None).

Abbreviation heap := (gmap loc SkipListNode).

(** The state of a table.  [rng_] is the state of the Mersenne twister. *)
Record MemTable {Rng : Type} := mkMemTable {
  mt_heap : heap;
  head_ : loc;
  level_count_ : nat;
  count_ : Z;
  size_ : Z;
  rng_ : Rng;
}.
Arguments MemTable : clear implicits.
Arguments mkMemTable {Rng}.

(** Read [p->next[i]]. *)
Definition node_next_at (h : heap) (p : loc) (i : nat) : option ptr :=
  n ← h !! p; node_next n !! i.

(** Write [p->next[i] = q]. *)
Definition set_next (h : heap) (p : loc) (i : nat) (q : ptr) : option heap :=
  n ← h !! p;
  guarded (i <? length (node_next n))%nat
    (Some (<[p := mkNode (node_key n) (node_value n) (<[i := q]> (node_next n))]> h)).

(** [new SkipListNode(key, value, level)]: a pointer not in use. *)
Definition alloc (h : heap) (n : SkipListNode) : loc * heap :=
  let p := fresh (dom h) in (p, <[p := n]> h).

Definition free (h : heap) (p : loc) : option heap :=
  _ ← h !! p; Some (delete p h).

Section MemTable.
Context {Rng : Type}.

(** [dist(rng_) < 0.25]: one draw of the generator, and its next state. *)
Variable dist : Rng → bool * Rng.

Definition MemTable_new (seed : Rng) : MemTable Rng :=
  let (p, h) := alloc ∅ (SkipListNode_new [] [] MAX_LEVEL) in
  mkMemTable h p 1 0 0 seed.

(** [while(dist(rng_) < 0.25 && level < MAX_LEVEL) level++]: the loop leaves at
    the latest at [MAX_LEVEL], the fuel given by [RandomLevel]. *)
Fixpoint RandomLevel_loop (fuel : nat) (level : nat) (rng : Rng) : option (nat * Rng) :=
  match fuel with
  | O => None
  | S fuel =>
      let (b, rng) := dist rng in
      if b && (level <? MAX_LEVEL)%nat then RandomLevel_loop fuel (S level) rng
      else Some (level, rng)
  end.

Definition RandomLevel (rng : Rng) : option (nat * Rng) :=
  RandomLevel_loop MAX_LEVEL 1 rng.

(** [while(cur->next[i] != nullptr && cur->next[i]->key < key) cur = cur->next[i]] *)
Fixpoint advance (fuel : nat) (h : heap) (i : nat) (key : bytes) (cur : loc) : option loc :=
  match fuel with
  | O => None
  | S fuel =>
      q ← node_next_at h cur i;
      match q with
      | None => Some cur
      | Some p =>
          n ← h !! p;
          if bytes_ltb (node_key n) key then advance fuel h i key p else Some cur
      end
  end.

(** [for (int i = level_count_ - 1; i >= 0; --i)]: go down the levels below
    [i], recording the predecessor of each in [update]. *)
Fixpoint descend (h : heap) (i : nat) (key : bytes) (cur : loc) (update : list ptr) :
    option (loc * list ptr) :=
  match i with
  | O => Some (cur, update)
  | S i =>
      cur ← advance (S (size h)) h i key cur;
      descend h i key cur (<[i := Some cur]> update)
  end.

(** [for (int i = new_level - 1; i >= level_count_; --i) update[i] = head_] *)
Definition raise_update (update : list ptr) (head : loc) (lo hi : nat) : list ptr :=
  foldr (λ i u, <[i := Some head]> u) update (seq lo (hi - lo)).

(** [for (int i = 0; i < new_level; ++i)]: link the new node at level [i]. *)
Definition link_level (update : list ptr) (newNode : loc) (i : nat) (h : heap) : option heap :=
  u ← update !! i;
  p ← u;
  q ← node_next_at h p i;
  h ← set_next h newNode i q;
  set_next h p i (Some newNode).

Fixpoint link_levels (update : list ptr) (newNode : loc) (levels : list nat) (h : heap) : option heap :=
  match levels with
  | [] => Some h
  | i :: levels => h ← link_level update newNode i h; link_levels update newNode levels h
  end.

(** [cur != nullptr && cur->key == key]: the node pointed to, if it matches. *)
Definition match_key (h : heap) (cur : ptr) (key : bytes) : option (option (loc * SkipListNode)) :=
  match cur with
  | None => Some None
  | Some p =>
      n ← h !! p;
      Some (if bool_decide (node_key n = key) then Some (p, n) else None)
  end.

(** Case B of [Put]: the key is new. *)
Definition insert_new (m : MemTable Rng) (update : list ptr) (key value : bytes) :
    option (MemTable Rng) :=
  r ← RandomLevel (rng_ m);
  let '(new_level, rng) := r in
  let update :=
    if (level_count_ m <? new_level)%nat
    then raise_update update (head_ m) (level_count_ m) new_level else update in
  let level_count :=
    if (level_count_ m <? new_level)%nat then new_level else level_count_ m in
  let (newNode, h) := alloc (mt_heap m) (SkipListNode_new key value new_level) in
  h ← link_levels update newNode (seq 0 new_level) h;
  Some (mkMemTable h (head_ m) level_count (u64 (count_ m + 1))
          (u64 (size_ m + (zlen key + zlen value))) rng).

(** [void MemTable::Put(key, value)] *)
Definition MemTable_Put (m : MemTable Rng) (key value : bytes) : option (MemTable Rng) :=
  let h := mt_heap m in
  r ← descend h (level_count_ m) key (head_ m) (replicate MAX_LEVEL None);
  let '(cur, update) := r in
  cur ← node_next_at h cur 0;
  hit ← match_key h cur key;
  match hit with
  | Some (p, n) =>
      Some (mkMemTable (<[p := mkNode (node_key n) value (node_next n)]> h) (head_ m)
              (level_count_ m) (count_ m)
              (u64 (u64 (size_ m - zlen (node_value n)) + zlen value)) (rng_ m))
  | None => insert_new m update key value
  end.

(** [bool MemTable::Get(key, value)]: the value found, if any. *)
Definition MemTable_Get (m : MemTable Rng) (key : bytes) : option (option bytes) :=
  let h := mt_heap m in
  r ← descend h (level_count_ m) key (head_ m) (replicate MAX_LEVEL None);
  let '(cur, _) := r in
  cur ← node_next_at h cur 0;
  hit ← match_key h cur key;
  Some (match hit with Some (_, n) => Some (node_value n) | None => None end).

Definition MemTable_Size (m : MemTable Rng) : Z := size_ m.
Definition MemTable_Empty (m : MemTable Rng) : bool := count_ m =? 0.
Definition MemTable_Count (m : MemTable Rng) : Z := count_ m.

(** [while(cur != nullptr) { next = cur->next[0]; delete cur; cur = next; }] *)
Fixpoint delete_chain (fuel : nat) (h : heap) (cur : ptr) : option heap :=
  match cur with
  | None => Some h
  | Some p =>
      match fuel with
      | O => None
      | S fuel => q ← node_next_at h p 0; h ← free h p; delete_chain fuel h q
      end
  end.

(** [for (int i = 0; i < MAX_LEVEL; ++i) head_->next[i] = nullptr] *)
Fixpoint reset_head (levels : list nat) (h : heap) (p : loc) : option heap :=
  match levels with
  | [] => Some h
  | i :: levels => h ← set_next h p i None; reset_head levels h p
  end.

Definition MemTable_Clear (m : MemTable Rng) : option (MemTable Rng) :=
  q ← node_next_at (mt_heap m) (head_ m) 0;
  h ← delete_chain (size (mt_heap m)) (mt_heap m) q;
  h ← reset_head (seq 0 MAX_LEVEL) h (head_ m);
  Some (mkMemTable h (head_ m) 1 0 0 (rng_ m)).

(** [~MemTable]: the heap that remains. *)
Definition MemTable_delete (m : MemTable Rng) : option heap :=
  m ← MemTable_Clear m; free (mt_heap m) (head_ m).

(** ** [MemTable::Iterator] *)

Definition Iterator_new (h : heap) (head : loc) : option ptr := node_next_at h head 0.

Definition MemTable_NewIterator (m : MemTable Rng) : option ptr :=
  Iterator_new (mt_heap m) (head_ m).

Definition Iterator_Valid (current : ptr) : bool := bool_decide (current ≠ None).

Definition Iterator_Next (h : heap) (current : ptr) : option ptr :=
  match current with Some p => node_next_at h p 0 | None => Some None end.

Definition Iterator_Key (h : heap) (current : ptr) : option bytes :=
  p ← current; node_key <$> h !! p.

Definition Iterator_Value (h : heap) (current : ptr) : option bytes :=
  p ← current; node_value <$> h !! p.

(** The loop every user of an iterator writes:
    [for (; iter->Valid(); iter->Next()) use(iter->Key(), iter->Value())]. *)
Fixpoint iterate (fuel : nat) (h : heap) (it : ptr) : option (list (bytes * bytes)) :=
  if Iterator_Valid it then
    match fuel with
    | O => None
    | S fuel =>
        k ← Iterator_Key h it;
        v ← Iterator_Value h it;
        it ← Iterator_Next h it;
        l ← iterate fuel h it;
        Some ((k, v) :: l)
    end
  else Some [].

Definition MemTable_entries (m : MemTable Rng) : option (list (bytes * bytes)) :=
  it ← MemTable_NewIterator m; iterate (size (mt_heap m)) (mt_heap m) it.

End MemTable.

(** * The shape of the list

    A node of the level-0 chain, seen abstractly: its address, its pair, the
    length of its [next] vector and the number of levels it is linked at (equal
    to the length except in the middle of an insertion). *)

Record ent := mkEnt {
  e_loc : loc;
  e_key : bytes;
  e_val : bytes;
  e_height : nat;
  e_linked : nat;
}.

(** The first node of [l] linked at level [i]. *)
Fixpoint succ (i : nat) (l : list ent) : ptr :=
  match l with
  | [] => None
  | e :: l => if (i <? e_linked e)%nat then Some (e_loc e) else succ i l
  end.

(** The node of an entry that [post] follows. *)
Definition node_of (e : ent) (post : list ent) : SkipListNode :=
  mkNode (e_key e) (e_val e)
    (map (λ i, if (i <? e_linked e)%nat then succ i post else None) (seq 0 (e_height e))).

Fixpoint heap_of (l : list ent) : heap :=
  match l with
  | [] => ∅
  | e :: post => <[e_loc e := node_of e post]> (heap_of post)
  end.

Definition head_ent (p : loc) : ent := mkEnt p [] [] MAX_LEVEL MAX_LEVEL.

Definition kv_of (e : ent) : bytes * bytes := (e_key e, e_val e).

Definition ent_bytes (e : ent) : Z := zlen (e_key e) + zlen (e_val e).
Definition ents_bytes (l : list ent) : Z := foldr (λ e s, ent_bytes e + s) 0 l.

Record mt_shape {Rng} (m : MemTable Rng) (l : list ent) : Prop := {
  sh_heap : mt_heap m = heap_of (head_ent (head_ m) :: l);
  sh_nodup : NoDup (map e_loc (head_ent (head_ m) :: l));
  sh_sorted : StronglySorted bytes_lt (map e_key l);
  sh_levels : Forall (λ e, 1 ≤ e_linked e ≤ level_count_ m ∧ e_height e = e_linked e)%nat l;
  sh_level_count : (1 ≤ level_count_ m ≤ MAX_LEVEL)%nat;
  sh_count : count_ m = u64 (zlen l);
  sh_size : size_ m = u64 (ents_bytes l);
}.

(** A table that holds the map [M]. *)
Definition mt_rep {Rng} (m : MemTable Rng) (M : gmap bytes bytes) : Prop :=
  ∃ l, mt_shape m l ∧ list_to_map (map kv_of l) = M.

(** ** The heap of a list *)

Lemma succ_app_congr i l x x' : succ i x = succ i x' → succ i (l ++ x) = succ i (l ++ x').
Proof. intros H. induction l as [|e l IH]; simpl; [done|]. by rewrite IH. Qed.

Lemma succ_low i A x :
  Forall (λ e, e_linked e ≤ i)%nat A → succ i (A ++ x) = succ i x.
Proof.
  induction 1 as [|e A He HA IH]; simpl; [done|].
  destruct (Nat.ltb_spec i (e_linked e)); [lia|done].
Qed.

Lemma succ_split i l :
  (∃ A e B, l = A ++ e :: B ∧ Forall (λ e, e_linked e ≤ i)%nat A ∧ (i < e_linked e)%nat)
  ∨ Forall (λ e, e_linked e ≤ i)%nat l.
Proof.
  induction l as [|e l IH]; [by right|].
  destruct (decide (i < e_linked e)%nat) as [Hi|Hi].
  { left. by exists [], e, l. }
  destruct IH as [(A & e' & B & -> & HA & He)|Hl].
  - left. exists (e :: A), e', B. repeat split; [|done]. constructor; [lia|done].
  - right. constructor; [lia|done].
Qed.

Lemma succ_here i e B : (i < e_linked e)%nat → succ i (e :: B) = Some (e_loc e).
Proof. intros H. simpl. destruct (Nat.ltb_spec i (e_linked e)); [done|lia]. Qed.

Lemma node_of_congr e x x' :
  (∀ i, (i < e_linked e)%nat → succ i x = succ i x') → node_of e x = node_of e x'.
Proof.
  intros H. unfold node_of. f_equal. apply map_ext. intros i.
  destruct (Nat.ltb_spec i (e_linked e)); [by apply H|done].
Qed.

Lemma node_of_next e x i :
  (i < e_linked e)%nat → (e_linked e ≤ e_height e)%nat →
  node_next (node_of e x) !! i = Some (succ i x).
Proof.
  intros Hi Hh. unfold node_of. simpl. rewrite list_lookup_fmap, lookup_seq_lt by lia.
  simpl. by destruct (Nat.ltb_spec i (e_linked e)); [|lia].
Qed.

Lemma node_of_next_length e x : length (node_next (node_of e x)) = e_height e.
Proof. unfold node_of. simpl. by rewrite length_map, length_seq. Qed.

(** A change of the heap below [L] that the nodes of [L] do not see. *)
Lemma heap_of_app (F : heap → heap) L x x' :
  heap_of x' = F (heap_of x) →
  (∀ e i, e ∈ L → (i < e_linked e)%nat → succ i x = succ i x') →
  (∀ e n h, e ∈ L → F (<[e_loc e := n]> h) = <[e_loc e := n]> (F h)) →
  heap_of (L ++ x') = F (heap_of (L ++ x)).
Proof.
  intros Hx Hs HF. induction L as [|e L IH]; simpl; [done|].
  rewrite HF by set_solver. rewrite IH by set_solver. f_equal.
  apply node_of_congr. intros i Hi. symmetry. apply succ_app_congr. set_solver.
Qed.

Lemma heap_of_lookup A e B :
  NoDup (map e_loc (A ++ e :: B)) → heap_of (A ++ e :: B) !! e_loc e = Some (node_of e B).
Proof.
  induction A as [|a A IH]; simpl; intros Hn.
  - by rewrite lookup_insert_eq.
  - apply NoDup_cons in Hn as [Ha Hn]. rewrite lookup_insert_ne; [by apply IH|].
    intros Heq. apply Ha. rewrite Heq. apply list_elem_of_fmap_2. set_solver.
Qed.

Lemma heap_of_dom l : dom (heap_of l) = list_to_set (map e_loc l).
Proof. induction l as [|e l IH]; simpl; [done|]. by rewrite dom_insert_L, IH. Qed.

Lemma heap_of_size l : NoDup (map e_loc l) → size (heap_of l) = length l.
Proof.
  induction l as [|e l IH]; simpl; intros Hn; [done|].
  apply NoDup_cons in Hn as [He Hn]. rewrite map_size_insert_None, IH by
    (done || (apply not_elem_of_dom; rewrite heap_of_dom; set_solver)). done.
Qed.

(** ** Searching *)

(** [e] is the last entry of [pre] linked at level [i]. *)
Definition pred_at (pre : list ent) (i : nat) (p : loc) : Prop :=
  ∃ A e B, pre = A ++ e :: B ∧ (i < e_linked e ≤ e_height e)%nat ∧
    Forall (λ e, e_linked e ≤ i)%nat B ∧ e_loc e = p.

Section Search.
Context (T : list ent) (HT : NoDup (map e_loc T)).
Context (Hh : Forall (λ e, e_linked e ≤ e_height e)%nat T).

Lemma node_next_at_heap A e B i :
  T = A ++ e :: B → (i < e_linked e)%nat →
  node_next_at (heap_of T) (e_loc e) i = Some (succ i B).
Proof using HT Hh.
  intros HTe Hi. unfold node_next_at. rewrite HTe, heap_of_lookup by (by rewrite <- HTe).
  pose proof Hh as Hh'. rewrite HTe, Forall_app, Forall_cons in Hh'.
  destruct Hh' as (_ & ? & _). cbn [mbind option_bind]. by apply node_of_next.
Qed.

Lemma advance_spec key i fuel A e P1 P2 :
  T = A ++ e :: P1 ++ P2 → (i < e_linked e)%nat →
  Forall (λ e, e_key e <ₛ key) P1 → Forall (λ e, ¬ e_key e <ₛ key) P2 →
  (length P1 < fuel)%nat →
  ∃ A' e' B, e :: P1 = A' ++ e' :: B ∧ (i < e_linked e')%nat ∧
    Forall (λ e, e_linked e ≤ i)%nat B ∧
    advance fuel (heap_of T) i key (e_loc e) = Some (e_loc e').
Proof using HT Hh.
  revert A e P1. induction fuel as [|fuel IH]; intros A e P1 HTe Hi H1 H2 Hf; [lia|].
  cbn [advance]. rewrite (node_next_at_heap _ _ _ _ HTe) by done. cbn [mbind option_bind].
  destruct (succ_split i P1) as [(B0 & e1 & P1' & -> & HB0 & He1)|Hlow].
  - rewrite <- !app_assoc, succ_low by done. cbn [app]. rewrite succ_here by done.
    apply Forall_app in H1 as [H1 H1']. apply Forall_cons in H1' as [Hk H1'].
    assert (T = (A ++ e :: B0) ++ e1 :: P1' ++ P2) as HTe'
      by (rewrite HTe; by repeat rewrite <- ?app_assoc; simpl).
    assert (heap_of T !! e_loc e1 = Some (node_of e1 (P1' ++ P2))) as ->
      by (rewrite HTe'; apply heap_of_lookup; by rewrite <- HTe').
    cbn [mbind option_bind node_of node_key]. unfold bytes_lt in Hk. rewrite Hk.
    destruct (IH _ e1 P1' HTe') as (A' & e' & B & Heq & He' & HB & ->);
      [done..|rewrite length_app in Hf; simpl in Hf; lia|].
    exists (e :: B0 ++ A'), e', B. repeat split; [|done..].
    rewrite Heq. simpl. by rewrite <- app_assoc.
  - rewrite succ_low by done. exists [], e, P1. repeat split; [done..|].
    destruct (succ_split i P2) as [(B0 & e1 & P2' & -> & HB0 & He1)|Hlow2].
    + rewrite succ_low, succ_here by done.
      apply Forall_app in H2 as [_ H2]. apply Forall_cons in H2 as [Hk _].
      assert (T = (A ++ e :: P1 ++ B0) ++ e1 :: P2') as HTe'
        by (rewrite HTe; by repeat (rewrite <- ?app_assoc; simpl)).
      assert (heap_of T !! e_loc e1 = Some (node_of e1 P2')) as ->
        by (rewrite HTe'; apply heap_of_lookup; by rewrite <- HTe').
      cbn [mbind option_bind node_of node_key]. unfold bytes_lt in Hk.
      by destruct (bytes_ltb (e_key e1) key).
    + rewrite <- (app_nil_r P2), succ_low by done. done.
Qed.

Lemma descend_spec key i A e P1 P2 upd :
  T = A ++ e :: P1 ++ P2 → (i ≤ e_linked e)%nat → (i ≤ length upd)%nat →
  Forall (λ e, e_key e <ₛ key) P1 → Forall (λ e, ¬ e_key e <ₛ key) P2 →
  ∃ A' e' B upd', e :: P1 = A' ++ e' :: B ∧
    (i = 0%nat ∧ e' = e ∨ (0 < i)%nat ∧ (0 < e_linked e')%nat ∧ Forall (λ e, e_linked e ≤ 0)%nat B) ∧
    descend (heap_of T) i key (e_loc e) upd = Some (e_loc e', upd') ∧
    length upd' = length upd ∧
    (∀ j, (i ≤ j)%nat → upd' !! j = upd !! j) ∧
    (∀ j, (j < i)%nat → ∃ p, upd' !! j = Some (Some p) ∧ pred_at (A ++ e :: P1) j p).
Proof using HT Hh.
  revert A e P1 upd. induction i as [|i IH]; intros A e P1 upd HTe Hi Hu H1 H2.
  { exists [], e, P1, upd. repeat split; auto. lia. }
  cbn [descend].
  destruct (advance_spec key i (S (size (heap_of T))) A e P1 P2)
    as (A1 & e1 & B1 & Heq & He1 & HB1 & ->); [done..| |].
  { rewrite heap_of_size by done. rewrite HTe, length_app. simpl. rewrite length_app. lia. }
  cbn [mbind option_bind].
  assert (T = (A ++ A1) ++ e1 :: B1 ++ P2) as HTe1.
  { rewrite HTe, <- app_assoc. f_equal.
    change (e :: P1 ++ P2) with ((e :: P1) ++ P2). rewrite Heq. by rewrite <- app_assoc. }
  assert (Forall (λ e, e_key e <ₛ key) B1) as H1'.
  { destruct A1 as [|a A1]; simplify_eq/=; [done|].
    by apply Forall_app in H1 as [_ [_ H1]%Forall_cons]. }
  destruct (IH (A ++ A1) e1 B1 (<[i := Some (e_loc e1)]> upd) HTe1)
    as (A' & e' & B & upd' & Heq' & Hlast & -> & Hlen & Hge & Hlt);
    [lia|rewrite length_insert; lia|done..|].
  rewrite length_insert in Hlen.
  exists (A1 ++ A'), e', B, upd'. repeat split.
  - by rewrite Heq, Heq', app_assoc.
  - right. destruct Hlast as [[-> ->]|(? & ? & ?)]; [|by split_and!; [lia|..]].
    split_and!; [lia..|].
    assert (A' = [] ∧ B1 = B) as [_ <-]; [|done].
    destruct A' as [|a A']; [by simplify_eq/=|].
    exfalso. assert (NoDup (map e_loc (e1 :: B1))) as Hnd.
    { pose proof HT as HT'. rewrite HTe1, map_app in HT'. apply NoDup_app in HT' as (_ & _ & HT').
      change (e1 :: B1 ++ P2) with ((e1 :: B1) ++ P2) in HT'. rewrite map_app in HT'.
      by apply NoDup_app in HT' as (? & _ & _). }
    rewrite Heq' in Hnd. simplify_eq/=. apply NoDup_cons in Hnd as [Hnd _]. apply Hnd.
    rewrite map_app. simpl. set_solver.
  - done.
  - intros j Hj. rewrite Hge by lia. by rewrite list_lookup_insert_ne by lia.
  - intros j Hj. destruct (decide (j = i)) as [->|].
    + rewrite Hge by lia. rewrite list_lookup_insert_eq by lia.
      eexists. split; [done|]. exists (A ++ A1), e1, B1. rewrite Heq, app_assoc.
      split_and!; [done|done| |done|done].
      pose proof Hh as Hh'. rewrite HTe1, !Forall_app, Forall_cons in Hh'.
      by destruct Hh' as (_ & ? & _).
    + destruct (Hlt j) as (p & Hp & Hpred); [lia|]. exists p. split; [done|].
      rewrite <- app_assoc in Hpred. by rewrite Heq.
Qed.
End Search.

(** ** Linking a new node *)

(** The new entry, linked below level [j]. *)
Definition new_ent (p : loc) (k v : bytes) (n j : nat) : ent := mkEnt p k v n j.

Lemma list_insert_fmap_seq {A} (f g : nat → A) n j :
  (j < n)%nat → (∀ i, i ≠ j → f i = g i) →
  <[j := g j]> (map f (seq 0 n)) = map g (seq 0 n).
Proof.
  intros Hj Hfg. apply list_eq. intros i.
  destruct (decide (i = j)) as [->|Hi].
  - rewrite list_lookup_insert_eq by (rewrite length_map, length_seq; lia).
    by rewrite list_lookup_fmap, lookup_seq_lt by lia.
  - rewrite list_lookup_insert_ne, !list_lookup_fmap by done.
    destruct (seq 0 n !! i) as [i'|] eqn:E; [|done].
    apply lookup_seq in E as [-> ?]. simpl. by rewrite Hfg by done.
Qed.

Lemma new_ent_link p k v n j R :
  (j < n)%nat →
  mkNode k v (<[j := succ j R]> (node_next (node_of (new_ent p k v n j) R)))
    = node_of (new_ent p k v n (S j)) R.
Proof.
  intros Hj. unfold node_of. cbn [node_next e_key e_val e_height e_linked new_ent]. f_equal.
  rewrite <- (list_insert_fmap_seq (λ i, if (i <? j)%nat then succ i R else None)
    (λ i, if (i <? S j)%nat then succ i R else None) n j Hj).
  - f_equal. destruct (Nat.ltb_spec j (S j)); [done|lia].
  - intros i Hi. destruct (Nat.ltb_spec i j), (Nat.ltb_spec i (S j)); done || lia.
Qed.

Lemma succ_new_ent p k v n j i B R :
  i ≠ j → succ i (B ++ new_ent p k v n j :: R) = succ i (B ++ new_ent p k v n (S j) :: R).
Proof.
  intros Hi. apply succ_app_congr. simpl.
  destruct (Nat.ltb_spec i j), (Nat.ltb_spec i (S j)); done || lia.
Qed.

Lemma pred_link e p k v n j B R :
  (j < e_linked e ≤ e_height e)%nat → Forall (λ e, e_linked e ≤ j)%nat B →
  mkNode (e_key e) (e_val e)
    (<[j := Some p]> (node_next (node_of e (B ++ new_ent p k v n j :: R))))
    = node_of e (B ++ new_ent p k v n (S j) :: R).
Proof.
  intros Hj HB. unfold node_of. cbn [node_next e_key e_val e_height e_linked new_ent]. f_equal.
  rewrite <- (list_insert_fmap_seq
    (λ i, if (i <? e_linked e)%nat then succ i (B ++ new_ent p k v n j :: R) else None)
    (λ i, if (i <? e_linked e)%nat then succ i (B ++ new_ent p k v n (S j) :: R) else None)
    (e_height e) j).
  - f_equal. destruct (Nat.ltb_spec j (e_linked e)); [|lia].
    rewrite succ_low by done. symmetry. apply succ_here. simpl. lia.
  - lia.
  - intros i Hi. by rewrite (succ_new_ent p k v n j) by done.
Qed.

Lemma set_next_Some h p n i q :
  h !! p = Some n → (i < length (node_next n))%nat →
  set_next h p i q =
    Some (<[p := mkNode (node_key n) (node_value n) (<[i := q]> (node_next n))]> h).
Proof.
  intros Hp Hi. unfold set_next. rewrite Hp. cbn [mbind option_bind].
  destruct (Nat.ltb_spec i (length (node_next n))); [done|lia].
Qed.

Lemma NoDup_locs_insert pre x y R :
  e_loc x = e_loc y →
  NoDup (map e_loc (pre ++ x :: R)) → NoDup (map e_loc (pre ++ y :: R)).
Proof. intros Hxy. rewrite !map_app. simpl. by rewrite Hxy. Qed.

(** The addresses of a list of entries cut at two of them. *)
Lemma NoDup_two A e B x R :
  NoDup (map e_loc (A ++ e :: B ++ x :: R)) →
  e_loc e ≠ e_loc x ∧ (∀ a, a ∈ A → e_loc a ≠ e_loc e ∧ e_loc a ≠ e_loc x) ∧ (∀ b, b ∈ B → e_loc b ≠ e_loc x).
Proof.
  intros Hnd. rewrite map_app in Hnd. cbn [map] in Hnd. rewrite map_app in Hnd.
  cbn [map] in Hnd. apply NoDup_app in Hnd as (_ & H1 & [H2 Hnd]%NoDup_cons).
  apply NoDup_app in Hnd as (_ & H3 & _). split_and!.
  - intros Heq. apply H2. rewrite Heq. apply elem_of_app. right. left.
  - intros a Ha. apply (list_elem_of_fmap_2 e_loc) in Ha. apply H1 in Ha.
    split; intros Heq; apply Ha; rewrite Heq; [left|]. right. apply elem_of_app. right. left.
  - intros b Hb Heq. apply (list_elem_of_fmap_2 e_loc) in Hb. apply H3 in Hb. apply Hb. rewrite Heq. left.
Qed.

Lemma link_level_spec pre R p k v n j upd q :
  NoDup (map e_loc (pre ++ new_ent p k v n j :: R)) →
  Forall (λ e, e_linked e ≤ e_height e)%nat (pre ++ new_ent p k v n j :: R) →
  (j < n)%nat → upd !! j = Some (Some q) → pred_at pre j q →
  link_level upd p j (heap_of (pre ++ new_ent p k v n j :: R)) =
    Some (heap_of (pre ++ new_ent p k v n (S j) :: R)).
Proof.
  intros Hnd Hh Hj Hu (A & e & B & -> & He & HB & <-).
  unfold link_level. rewrite Hu. cbn [mbind option_bind].
  repeat rewrite <- app_assoc in *. cbn [app] in *.
  rewrite (node_next_at_heap _ Hnd Hh A e (B ++ new_ent p k v n j :: R) j) by (done || lia).
  cbn [mbind option_bind]. rewrite succ_low by done.
  assert (succ j (new_ent p k v n j :: R) = succ j R) as -> by
    (apply (succ_low j [_]); by repeat constructor).
  set (T := A ++ e :: B ++ new_ent p k v n j :: R) in *.
  assert (T = (A ++ e :: B) ++ new_ent p k v n j :: R) as HT
    by (unfold T; by rewrite <- app_assoc).
  assert (heap_of T !! p = Some (node_of (new_ent p k v n j) R)) as Hp.
  { rewrite HT. apply (heap_of_lookup _ (new_ent p k v n j)). by rewrite <- HT. }
  assert (heap_of T !! e_loc e = Some (node_of e (B ++ new_ent p k v n j :: R))) as He'
    by (apply heap_of_lookup; done).
  destruct (NoDup_two A e B (new_ent p k v n j) R Hnd) as (Hep & HA & HB'). cbn [e_loc new_ent] in Hep, HA, HB'.
  rewrite (set_next_Some _ _ _ _ _ Hp) by (rewrite node_of_next_length; done).
  cbn [mbind option_bind]. cbn [node_key node_value node_of e_key e_val new_ent].
  change (mkNode k v _) with
    (mkNode k v (<[j := succ j R]> (node_next (node_of (new_ent p k v n j) R)))).
  rewrite new_ent_link by done.
  erewrite set_next_Some by
    first [rewrite lookup_insert_ne by done; exact He' | rewrite node_of_next_length; lia].
  f_equal. cbn [node_key node_value node_of]. 
  change (mkNode (e_key e) (e_val e) _) with (mkNode (e_key e) (e_val e)
    (<[j := Some p]> (node_next (node_of e (B ++ new_ent p k v n j :: R))))).
  rewrite pred_link by done. symmetry.
  set (ne := node_of e _). set (nn := node_of (new_ent p k v n (S j)) R).
  apply (heap_of_app (λ h, <[e_loc e := ne]> (<[p := nn]> h))).
  - cbn [heap_of]. rewrite (insert_insert_ne _ p (e_loc e)) by done.
    rewrite insert_insert_eq. f_equal.
    apply (heap_of_app (λ h, <[p := nn]> h)).
    + cbn [heap_of new_ent e_loc]. by rewrite insert_insert_eq.
    + intros b i Hb Hi. apply (succ_new_ent p k v n j i []).
      rewrite Forall_forall in HB. specialize (HB b Hb). lia.
    + intros b nb h Hb. apply insert_insert_ne. intros Heq. by apply (HB' b Hb).
  - intros a i Ha Hi. destruct (decide (i = j)) as [->|Hij].
    + rewrite !succ_here by lia. done.
    + apply (succ_new_ent p k v n j i (e :: B)). done.
  - intros a na h Ha. destruct (HA a Ha).
    rewrite (insert_insert_ne _ p (e_loc a)) by done.
    by rewrite (insert_insert_ne _ (e_loc e) (e_loc a)) by done.
Qed.

Lemma link_levels_spec pre R p k v n upd m j :
  NoDup (map e_loc (pre ++ new_ent p k v n j :: R)) →
  Forall (λ e, e_linked e ≤ e_height e)%nat (pre ++ R) →
  (j + m ≤ n)%nat →
  (∀ i, (j ≤ i < j + m)%nat → ∃ q, upd !! i = Some (Some q) ∧ pred_at pre i q) →
  link_levels upd p (seq j m) (heap_of (pre ++ new_ent p k v n j :: R)) =
    Some (heap_of (pre ++ new_ent p k v n (j + m) :: R)).
Proof.
  revert j. induction m as [|m IH]; intros j Hnd Hh Hm Hu; simpl.
  { by rewrite Nat.add_0_r. }
  destruct (Hu j) as (q & Hq & Hp); [lia|].
  rewrite (link_level_spec _ _ _ _ _ _ _ _ q); [|done| |lia|done..].
  2:{ apply Forall_app in Hh as [??]. rewrite Forall_app, Forall_cons. simpl.
      split_and!; [done|lia|done]. }
  cbn [mbind option_bind]. rewrite IH.
  - by replace (S j + m)%nat with (j + S m)%nat by lia.
  - by eapply NoDup_locs_insert, Hnd.
  - done.
  - lia.
  - intros i Hi. apply Hu. lia.
Qed.

Lemma raise_update_length upd p lo hi : length (raise_update upd p lo hi) = length upd.
Proof.
  unfold raise_update. induction (seq lo (hi - lo)) as [|i l IH]; simpl; [done|].
  by rewrite length_insert.
Qed.

Lemma raise_update_lookup upd p lo hi i :
  (i < length upd)%nat →
  raise_update upd p lo hi !! i =
    if decide (lo ≤ i < hi)%nat then Some (Some p) else upd !! i.
Proof.
  intros Hi. unfold raise_update.
  assert (∀ l, foldr (λ i u, <[i:=Some p]> u) upd l !! i =
    if decide (i ∈ l) then Some (Some p) else upd !! i) as Hl.
  { intros l.
    assert (∀ l, length (foldr (λ i u, <[i:=Some p]> u) upd l) = length upd) as Hlen.
    { clear. intros l. induction l; simpl; [done|]. by rewrite length_insert. }
    induction l as [|x l IH]; simpl; [done|].
    destruct (decide (x = i)) as [->|Hx].
    - rewrite list_lookup_insert_eq by (by rewrite Hlen).
      by rewrite decide_True by set_solver.
    - rewrite list_lookup_insert_ne, IH by done. apply decide_ext.
      rewrite elem_of_cons.
      split; [by right|]. by intros [->|?]. }
  rewrite Hl. apply decide_ext. rewrite elem_of_seq. lia.
Qed.

(** ** Sorted entries and the map *)

Lemma sorted_split l key :
  StronglySorted bytes_lt (map e_key l) →
  ∃ L R, l = L ++ R ∧ Forall (λ e, e_key e <ₛ key) L ∧ Forall (λ e, ¬ e_key e <ₛ key) R.
Proof.
  induction l as [|e l IH]; simpl; intros Hs; [by exists [], []|].
  apply StronglySorted_inv in Hs as [Hs He].
  destruct (decide (e_key e <ₛ key)) as [Hk|Hk].
  - destruct (IH Hs) as (L & R & -> & HL & HR). exists (e :: L), R.
    split_and!; [done|by constructor|done].
  - exists [], (e :: l). split_and!; [done..|]. constructor; [done|].
    rewrite Forall_map in He. eapply Forall_impl; [exact He|].
    intros e' He' Hk'. apply Hk. exact (bytes_lt_trans _ _ _ He' Hk').
Qed.

Lemma sorted_app L R :
  StronglySorted bytes_lt (map e_key (L ++ R)) →
  StronglySorted bytes_lt (map e_key L) ∧ StronglySorted bytes_lt (map e_key R) ∧
  (∀ a b, a ∈ L → b ∈ R → e_key a <ₛ e_key b).
Proof.
  rewrite map_app. induction L as [|e L IH]; simpl; intros Hs.
  { split_and!; [constructor|done|set_solver]. }
  apply StronglySorted_inv in Hs as [Hs He]. destruct (IH Hs) as (H1 & H2 & H3).
  apply Forall_app in He as [He1 He2]. split_and!; [by constructor|done|].
  intros a b [->|Ha]%elem_of_cons Hb; [|by apply H3].
  rewrite Forall_map, Forall_forall in He2. by apply He2.
Qed.

Lemma sorted_app_2 L R :
  StronglySorted bytes_lt (map e_key L) → StronglySorted bytes_lt (map e_key R) →
  (∀ a b, a ∈ L → b ∈ R → e_key a <ₛ e_key b) →
  StronglySorted bytes_lt (map e_key (L ++ R)).
Proof.
  rewrite map_app. induction L as [|e L IH]; simpl; intros HL HR H; [done|].
  apply StronglySorted_inv in HL as [HL He]. constructor.
  - apply IH; [done..|]. intros; apply H; set_solver.
  - apply Forall_app. split; [done|]. apply Forall_map, Forall_forall. set_solver.
Qed.

Definition ents_map (l : list ent) : gmap bytes bytes := list_to_map (map kv_of l).

Lemma ents_map_app_ne L R k :
  Forall (λ e, e_key e ≠ k) L → ents_map (L ++ R) !! k = ents_map R !! k.
Proof.
  unfold ents_map. induction 1 as [|e L He HL IH]; simpl; [done|].
  by rewrite lookup_insert_ne.
Qed.

Lemma ents_map_insert L R k v e :
  e_key e = k → e_val e = v → Forall (λ e, e_key e ≠ k) L →
  ents_map (L ++ e :: R) = <[k := v]> (ents_map (L ++ R)).
Proof.
  intros <- <-. unfold ents_map. induction 1 as [|e' L He HL IH]; simpl; [done|].
  by rewrite IH, insert_insert_ne.
Qed.

Lemma ents_map_None l k : Forall (λ e, e_key e ≠ k) l → ents_map l !! k = None.
Proof. intros H. rewrite <- (app_nil_r l), ents_map_app_ne by done. done. Qed.

Lemma Forall_lt_ne L k : Forall (λ e, e_key e <ₛ k) L → Forall (λ e, e_key e ≠ k) L.
Proof.
  intros H. eapply Forall_impl; [exact H|].
  intros e He Heq. simpl in He. rewrite Heq in He. by apply bytes_lt_irrefl in He.
Qed.

Lemma Forall_lt_ne' L k : Forall (λ e, k <ₛ e_key e) L → Forall (λ e, e_key e ≠ k) L.
Proof.
  intros H. eapply Forall_impl; [exact H|].
  intros e He Heq. simpl in He. rewrite Heq in He. by apply bytes_lt_irrefl in He.
Qed.

Lemma Forall_gt_ne R k :
  StronglySorted bytes_lt (map e_key R) → Forall (λ e, ¬ e_key e <ₛ k) R →
  (∀ e R', R = e :: R' → e_key e ≠ k) →
  Forall (λ e, k <ₛ e_key e) R.
Proof.
  intros Hs Hge Hne. destruct R as [|e R]; [constructor|]. simpl in Hs.
  apply StronglySorted_inv in Hs as [_ He]. apply Forall_cons in Hge as [Hk _].
  specialize (Hne e R eq_refl).
  assert (k <ₛ e_key e) as Hlt by (destruct (bytes_lt_total (e_key e) k) as [|[|]]; done).
  constructor; [done|]. rewrite Forall_map in He. eapply Forall_impl; [exact He|].
  intros e' He'. exact (bytes_lt_trans _ _ _ Hlt He').
Qed.

(** ** The operations on a well-shaped table *)

Section Operations.
Context {Rng : Type}.
Implicit Types m : MemTable Rng.

Lemma mt_shape_linked m l :
  mt_shape m l → Forall (λ e, e_linked e ≤ e_height e)%nat (head_ent (head_ m) :: l).
Proof.
  intros Hm. constructor; [done|]. eapply Forall_impl; [exact (sh_levels _ _ Hm)|].
  simpl. lia.
Qed.

(** What every search finds: the entries before and after the key, the last
    node before it, and its predecessors in [update]. *)
Lemma locate m l key :
  mt_shape m l →
  ∃ L R cur upd, l = L ++ R ∧
    Forall (λ e, e_key e <ₛ key) L ∧ Forall (λ e, ¬ e_key e <ₛ key) R ∧
    descend (mt_heap m) (level_count_ m) key (head_ m) (replicate MAX_LEVEL None) =
      Some (cur, upd) ∧
    length upd = MAX_LEVEL ∧
    (∀ j, (j < level_count_ m)%nat →
      ∃ p, upd !! j = Some (Some p) ∧ pred_at (head_ent (head_ m) :: L) j p) ∧
    node_next_at (mt_heap m) cur 0 = Some (e_loc <$> head R).
Proof.
  intros Hm. pose proof (sh_level_count _ _ Hm) as Hlc.
  destruct (sorted_split l key (sh_sorted _ _ Hm)) as (L & R & Hl & HL & HR).
  set (T := head_ent (head_ m) :: l).
  assert (T = [] ++ head_ent (head_ m) :: L ++ R) as HT by (by rewrite <- Hl).
  pose proof (mt_shape_linked m l Hm) as Hlink.
  destruct (descend_spec T (sh_nodup _ _ Hm) Hlink key (level_count_ m) []
    (head_ent (head_ m)) L R (replicate MAX_LEVEL None) HT)
    as (A & e & B & upd & Heq & Hlast & Hd & Hlen & _ & Hupd);
    [simpl; lia|rewrite length_replicate; lia|done|done|].
  destruct Hlast as [[? _]|(_ & He & HB)]; [lia|].
  exists L, R, (e_loc e), upd. split_and!; [done..| | | |].
  - rewrite (sh_heap _ _ Hm). exact Hd.
  - by rewrite Hlen, length_replicate.
  - exact Hupd.
  - rewrite (sh_heap _ _ Hm).
    rewrite (node_next_at_heap T (sh_nodup _ _ Hm) Hlink A e (B ++ R)); [|rewrite HT|done].
    + f_equal. rewrite succ_low by done. destruct R as [|r R]; [done|].
      pose proof (sh_levels _ _ Hm) as Hlev. rewrite Hl in Hlev.
      apply Forall_app in Hlev as [_ [Hr _]%Forall_cons].
      apply succ_here. lia.
    + change ([] ++ head_ent (head_ m) :: L ++ R) with ((head_ent (head_ m) :: L) ++ R).
      by rewrite Heq, <- app_assoc.
Qed.

Lemma heap_lookup m l A e B :
  mt_shape m l → l = A ++ e :: B →
  mt_heap m !! e_loc e = Some (node_of e B).
Proof.
  intros Hm ->. rewrite (sh_heap _ _ Hm).
  apply (heap_of_lookup (head_ent (head_ m) :: A)). exact (sh_nodup _ _ Hm).
Qed.

(** The test for a hit, after [locate]: the entry at the head of [R], or no
    entry of the table has the key. *)
Lemma match_key_spec m l L R key :
  mt_shape m l → l = L ++ R →
  Forall (λ e, e_key e <ₛ key) L → Forall (λ e, ¬ e_key e <ₛ key) R →
  (∃ e R', R = e :: R' ∧ e_key e = key ∧
     match_key (mt_heap m) (e_loc <$> head R) key = Some (Some (e_loc e, node_of e R')))
  ∨ (Forall (λ e, key <ₛ e_key e) R ∧
     match_key (mt_heap m) (e_loc <$> head R) key = Some None).
Proof.
  intros Hm Hl HL HR.
  pose proof (sh_sorted _ _ Hm) as Hs. rewrite Hl in Hs. apply sorted_app in Hs as (_ & HsR & _).
  destruct R as [|e R]; [by right|]. cbn [head fmap option_fmap option_map match_key].
  rewrite (heap_lookup m l L e R Hm Hl). cbn [mbind option_bind node_of node_key].
  destruct (decide (e_key e = key)) as [Hk|Hk].
  - left. exists e, R. split_and!; [done..|]. by rewrite bool_decide_eq_true_2.
  - right. split; [|by rewrite bool_decide_eq_false_2].
    apply Forall_gt_ne; [done..|]. by intros ?? [= <- _].
Qed.

Lemma MemTable_Get_shape m l key :
  mt_shape m l → MemTable_Get m key = Some (ents_map l !! key).
Proof.
  intros Hm. destruct (locate m l key Hm)
    as (L & R & cur & upd & Hl & HL & HR & Hd & _ & _ & Hcur).
  unfold MemTable_Get. rewrite Hd. cbn [mbind option_bind]. rewrite Hcur.
  cbn [mbind option_bind]. rewrite Hl at 1. rewrite ents_map_app_ne by (by apply Forall_lt_ne).
  destruct (match_key_spec m l L R key Hm Hl HL HR) as [(e & R' & -> & <- & ->)|[Hgt ->]];
    cbn [mbind option_bind node_of node_value]; f_equal.
  - unfold ents_map. simpl. by rewrite lookup_insert_eq.
  - rewrite ents_map_None; [done|]. by apply Forall_lt_ne'.
Qed.

Lemma mt_shape_new seed : mt_shape (MemTable_new seed : MemTable Rng) [].
Proof.
  unfold MemTable_new, alloc. split; simpl; try done.
  - repeat constructor; set_solver.
  - constructor.
  - unfold MAX_LEVEL. lia.
Qed.

Lemma ents_bytes_app A B : ents_bytes (A ++ B) = ents_bytes A + ents_bytes B.
Proof. induction A as [|e A IH]; simpl; [done|]. rewrite IH. lia. Qed.

(** Writing the value of a node in place. *)
Lemma shape_update m L e R v :
  mt_shape m (L ++ e :: R) →
  mt_shape (mkMemTable
      (<[e_loc e := mkNode (e_key e) v (node_next (node_of e R))]> (mt_heap m)) (head_ m)
      (level_count_ m) (count_ m) (u64 (u64 (size_ m - zlen (e_val e)) + zlen v)) (rng_ m))
    (L ++ mkEnt (e_loc e) (e_key e) v (e_height e) (e_linked e) :: R).
Proof.
  intros Hm. set (e' := mkEnt _ _ _ _ _). split; simpl.
  - rewrite (sh_heap _ _ Hm). symmetry.
    apply (heap_of_app (λ h, <[e_loc e := node_of e' R]> h) (head_ent (head_ m) :: L)).
    + simpl. by rewrite insert_insert_eq.
    + intros a i _ _. reflexivity.
    + intros a n h Ha. apply insert_insert_ne. intros Heq.
      pose proof (sh_nodup _ _ Hm) as Hnd.
      change (head_ent (head_ m) :: L ++ e :: R)
        with ((head_ent (head_ m) :: L) ++ e :: R) in Hnd.
      rewrite map_app in Hnd. apply NoDup_app in Hnd as (_ & Hd & _).
      apply (Hd (e_loc a)); [by apply (list_elem_of_fmap_2 e_loc)|]. rewrite <- Heq. left.
  - pose proof (sh_nodup _ _ Hm) as Hnd. simpl in Hnd. rewrite map_app in *. exact Hnd.
  - pose proof (sh_sorted _ _ Hm) as Hs. rewrite map_app in *. exact Hs.
  - pose proof (sh_levels _ _ Hm) as Hl. rewrite Forall_app, Forall_cons in *. exact Hl.
  - apply (sh_level_count _ _ Hm).
  - rewrite (sh_count _ _ Hm). unfold zlen. by rewrite !length_app.
  - rewrite (sh_size _ _ Hm), !ents_bytes_app. simpl. unfold ent_bytes. simpl. wrap_lia.
Qed.

Lemma ents_map_update L e R v k :
  e_key e = k → Forall (λ e, e_key e ≠ k) L →
  ents_map (L ++ mkEnt (e_loc e) (e_key e) v (e_height e) (e_linked e) :: R) =
    <[k := v]> (ents_map (L ++ e :: R)).
Proof.
  intros Hk HL. rewrite (ents_map_insert _ _ k v) by done.
  rewrite (ents_map_insert _ _ k (e_val e)) by done. by rewrite insert_insert_eq.
Qed.

(** The predecessors at the levels a tall new node adds. *)
Lemma raised_preds m l L R upd n :
  mt_shape m l → l = L ++ R → length upd = MAX_LEVEL → (n ≤ MAX_LEVEL)%nat →
  (∀ j, (j < level_count_ m)%nat →
    ∃ p, upd !! j = Some (Some p) ∧ pred_at (head_ent (head_ m) :: L) j p) →
  ∀ j, (j < n)%nat →
    ∃ p, (if (level_count_ m <? n)%nat then raise_update upd (head_ m) (level_count_ m) n
          else upd) !! j = Some (Some p) ∧
      pred_at (head_ent (head_ m) :: L) j p.
Proof.
  intros Hm Hl Hlen Hn Hu j Hj. destruct (Nat.ltb_spec (level_count_ m) n); [|apply Hu; lia].
  rewrite raise_update_lookup by (rewrite Hlen; lia).
  case_decide as Hlo; [|apply Hu; lia].
  eexists. split; [done|]. exists [], (head_ent (head_ m)), L. split_and!; [done|simpl; lia..| |done].
  pose proof (sh_levels _ _ Hm) as Hlev. rewrite Hl in Hlev.
  apply Forall_app in Hlev as [Hlev _]. eapply Forall_impl; [exact Hlev|]. simpl. lia.
Qed.

(** Linking a fresh node between the smaller and the greater keys. *)
Lemma shape_insert m L R p k v n h' lc (rng : Rng) :
  mt_shape m (L ++ R) → p ∉ dom (mt_heap m) → (1 ≤ n ≤ MAX_LEVEL)%nat →
  lc = (if (level_count_ m <? n)%nat then n else level_count_ m) →
  Forall (λ e, e_key e <ₛ k) L → Forall (λ e, k <ₛ e_key e) R →
  h' = heap_of (head_ent (head_ m) :: L ++ new_ent p k v n n :: R) →
  mt_shape (mkMemTable h' (head_ m) lc (u64 (count_ m + 1))
      (u64 (size_ m + (zlen k + zlen v))) rng)
    (L ++ new_ent p k v n n :: R).
Proof.
  intros Hm Hp Hn -> HL HR ->. split; simpl.
  - done.
  - pose proof (sh_nodup _ _ Hm) as Hnd. rewrite (sh_heap _ _ Hm), heap_of_dom in Hp.
    rewrite elem_of_list_to_set in Hp. simpl in Hnd, Hp. rewrite map_app in *. simpl.
    apply (NoDup_Permutation_proper _ (p :: head_ m :: map e_loc L ++ map e_loc R)).
    + etrans; [apply perm_skip; symmetry; apply Permutation_middle|]. apply perm_swap.
    + by constructor.
  - apply sorted_app_2; simpl.
    + by eapply (proj1 (sorted_app L R (sh_sorted _ _ Hm))).
    + constructor; [by eapply (proj2 (sorted_app L R (sh_sorted _ _ Hm)))|].
      by apply Forall_map.
    + rewrite Forall_forall in HL, HR. intros a b Ha [->|Hb]%elem_of_cons; [by apply HL|].
      exact (bytes_lt_trans _ _ _ (HL a Ha) (HR b Hb)).
  - pose proof (sh_levels _ _ Hm) as Hl. pose proof (sh_level_count _ _ Hm).
    apply Forall_app in Hl as [Hl1 Hl2]. destruct (Nat.ltb_spec (level_count_ m) n);
      (apply Forall_app; split; [|constructor; [simpl; lia|]];
       (eapply Forall_impl; [eassumption|]; simpl; lia)).
  - pose proof (sh_level_count _ _ Hm). by destruct (Nat.ltb_spec (level_count_ m) n).
  - rewrite (sh_count _ _ Hm). unfold zlen. rewrite !length_app. simpl. wrap_lia.
  - rewrite (sh_size _ _ Hm), !ents_bytes_app. simpl. unfold ent_bytes. simpl. wrap_lia.
Qed.
Context (dist : Rng → bool * Rng).

Lemma RandomLevel_loop_spec fuel level rng :
  (1 ≤ level ≤ MAX_LEVEL)%nat → (MAX_LEVEL < fuel + level)%nat →
  ∃ n rng', RandomLevel_loop dist fuel level rng = Some (n, rng') ∧ (1 ≤ n ≤ MAX_LEVEL)%nat.
Proof.
  revert level rng. induction fuel as [|fuel IH]; intros level rng Hl Hf; [lia|].
  simpl. destruct (dist rng) as [b rng'].
  destruct (Nat.ltb_spec level MAX_LEVEL); destruct b; simpl; eauto.
  apply IH; lia.
Qed.


Lemma node_of_unlinked p k v n R : node_of (new_ent p k v n 0) R = SkipListNode_new k v n.
Proof.
  unfold node_of, SkipListNode_new. f_equal. simpl.
  generalize 0%nat. induction n as [|n IH]; intros i; simpl; [done|]. by rewrite IH.
Qed.

Lemma insert_new_shape m L R upd k v :
  mt_shape m (L ++ R) → Forall (λ e, e_key e <ₛ k) L → Forall (λ e, k <ₛ e_key e) R →
  length upd = MAX_LEVEL →
  (∀ j, (j < level_count_ m)%nat →
    ∃ p, upd !! j = Some (Some p) ∧ pred_at (head_ent (head_ m) :: L) j p) →
  ∃ m' p n, insert_new dist m upd k v = Some m' ∧ mt_shape m' (L ++ new_ent p k v n n :: R).
Proof.
  intros Hm HL HR Hlen Hupd.
  destruct (RandomLevel_loop_spec MAX_LEVEL 1 (rng_ m)) as (n & rng & Hr & Hn);
    [unfold MAX_LEVEL; lia..|].
  pose proof (raised_preds m _ L R upd n Hm eq_refl Hlen (proj2 Hn) Hupd) as Hpreds.
  unfold insert_new, RandomLevel, alloc. rewrite Hr. cbn [mbind option_bind].
  pose proof (is_fresh (dom (mt_heap m))) as Hp. set (p := fresh (dom (mt_heap m))) in *.
  assert (<[p := SkipListNode_new k v n]> (mt_heap m) =
    heap_of ((head_ent (head_ m) :: L) ++ new_ent p k v n 0 :: R)) as ->.
  { rewrite (sh_heap _ _ Hm). symmetry. apply (heap_of_app (λ h, <[p := _]> h) (_ :: L)).
    - cbn [heap_of]. by rewrite node_of_unlinked.
    - intros a i _ _. reflexivity.
    - intros a na h Ha. apply insert_insert_ne. intros Heq. apply Hp.
      rewrite (sh_heap _ _ Hm), heap_of_dom, elem_of_list_to_set, Heq.
      apply list_elem_of_fmap_2. change (a ∈ (head_ent (head_ m) :: L) ++ R).
      apply elem_of_app. by left. }
  rewrite (link_levels_spec _ _ p k v n _ n 0); [|..|exact (λ i Hi, Hpreds i (proj2 Hi))].
  - cbn [mbind option_bind]. do 3 eexists. split; [done|]. by eapply shape_insert.
  - pose proof (sh_nodup _ _ Hm) as Hnd.
    rewrite (sh_heap _ _ Hm), heap_of_dom, elem_of_list_to_set in Hp.
    change (head_ent (head_ m) :: L ++ R) with ((head_ent (head_ m) :: L) ++ R) in *.
    rewrite map_app in *. simpl map at 2.
    eapply NoDup_Permutation_proper; [symmetry; apply Permutation_middle|]. by constructor.
  - exact (mt_shape_linked m _ Hm).
  - lia.
Qed.

Lemma MemTable_Put_shape m l k v :
  mt_shape m l →
  ∃ m' l', MemTable_Put dist m k v = Some m' ∧ mt_shape m' l' ∧
    ents_map l' = <[k := v]> (ents_map l).
Proof.
  intros Hm. destruct (locate m l k Hm)
    as (L & R & cur & upd & Hl & HL & HR & Hd & Hlen & Hupd & Hcur).
  unfold MemTable_Put. rewrite Hd. cbn [mbind option_bind]. rewrite Hcur.
  cbn [mbind option_bind].
  destruct (match_key_spec m l L R k Hm Hl HL HR) as [(e & R' & -> & Hk & ->)|[Hgt ->]];
    cbn [mbind option_bind].
  - rewrite Hl in *. do 2 eexists. split; [done|].
    split; [by apply shape_update|]. apply ents_map_update; [done|by apply Forall_lt_ne].
  - rewrite Hl in *. destruct (insert_new_shape m L R upd k v Hm HL Hgt Hlen Hupd)
      as (m' & p & n & -> & Hm').
    do 2 eexists. split; [done|]. split; [exact Hm'|].
    apply ents_map_insert; [done..|by apply Forall_lt_ne].
Qed.

(** Walking the chain. *)
Lemma iterate_spec m l A P fuel :
  mt_shape m l → l = A ++ P → (length P ≤ fuel)%nat →
  iterate fuel (mt_heap m) (e_loc <$> head P) = Some (map kv_of P).
Proof.
  intros Hm. revert A fuel. induction P as [|e P IH]; intros A [|fuel] Hl Hf; simpl in Hf; try lia;
    [done..|].
  cbn [head fmap option_fmap option_map iterate].
  change (Iterator_Valid (Some (e_loc e))) with true. cbn match.
  unfold Iterator_Key, Iterator_Value, Iterator_Next.
  cbn [mbind option_bind]. rewrite (heap_lookup m l A e P Hm Hl).
  cbn [fmap option_fmap option_map mbind option_bind].
  rewrite (sh_heap _ _ Hm).
  rewrite (node_next_at_heap _ (sh_nodup _ _ Hm) (mt_shape_linked m l Hm)
    (head_ent (head_ m) :: A) e P 0); [|by rewrite Hl|].
  - cbn [mbind option_bind]. rewrite <- (sh_heap _ _ Hm).
    assert (succ 0 P = e_loc <$> head P) as ->.
    { destruct P as [|e' P]; [done|]. pose proof (sh_levels _ _ Hm) as Hlev.
      rewrite Hl in Hlev. apply Forall_app in Hlev as [_ Hlev].
      apply Forall_cons in Hlev as [_ [He' _]%Forall_cons]. apply succ_here. lia. }
    rewrite (IH (A ++ [e])); [done| |lia]. by rewrite <- app_assoc.
  - pose proof (sh_levels _ _ Hm) as Hlev. rewrite Hl in Hlev.
    apply Forall_app in Hlev as [_ [He _]%Forall_cons]. lia.
Qed.

Lemma head_next m l :
  mt_shape m l → node_next_at (mt_heap m) (head_ m) 0 = Some (e_loc <$> head l).
Proof.
  intros Hm. rewrite (sh_heap _ _ Hm).
  etrans; [apply (node_next_at_heap _ (sh_nodup _ _ Hm) (mt_shape_linked m l Hm) []
    (head_ent (head_ m)) l 0); [done|simpl; unfold MAX_LEVEL; lia]|].
  f_equal. destruct l as [|e l]; [done|].
  pose proof (sh_levels _ _ Hm) as [He _]%Forall_cons. apply succ_here. lia.
Qed.

Lemma shape_size m l : mt_shape m l → size (mt_heap m) = S (length l).
Proof.
  intros Hm. rewrite (sh_heap _ _ Hm), heap_of_size by apply (sh_nodup _ _ Hm). done.
Qed.

Lemma MemTable_entries_shape m l :
  mt_shape m l → MemTable_entries m = Some (map kv_of l).
Proof.
  intros Hm. unfold MemTable_entries, MemTable_NewIterator, Iterator_new.
  rewrite (head_next m l Hm). cbn [mbind option_bind].
  apply (iterate_spec m l []); [done..|]. rewrite (shape_size m l Hm). lia.
Qed.

Lemma delete_chain_spec p n P fuel :
  NoDup (p :: map e_loc P) → Forall (λ e, 0 < e_linked e ≤ e_height e)%nat P →
  (length P ≤ fuel)%nat →
  delete_chain fuel (<[p := n]> (heap_of P)) (e_loc <$> head P) = Some {[p := n]}.
Proof.
  revert fuel. induction P as [|e P IH]; intros [|fuel] Hnd Hl Hf; simpl in Hf; try lia; [done..|].
  cbn [head fmap option_fmap option_map delete_chain].
  apply NoDup_cons in Hnd as [Hp [He Hnd]%NoDup_cons]. apply Forall_cons in Hl as [Hle Hl].
  assert (e_loc e ≠ p) as Hep by (intros Heq; apply Hp; rewrite <- Heq; left).
  assert ((<[p := n]> (heap_of (e :: P))) !! e_loc e = Some (node_of e P)) as Hlk
    by (rewrite lookup_insert_ne by done; apply lookup_insert_eq).
  unfold node_next_at, free. rewrite Hlk. cbn [mbind option_bind].
  rewrite node_of_next by lia. cbn [mbind option_bind].
  rewrite delete_insert_ne by done. cbn [heap_of].
  rewrite delete_insert_id by (apply not_elem_of_dom; rewrite heap_of_dom;
    by rewrite elem_of_list_to_set).
  assert (succ 0 P = e_loc <$> head P) as ->.
  { destruct P as [|e' P]; [done|]. apply Forall_cons in Hl as [? _]. apply succ_here. lia. }
  apply IH; [|done|lia]. constructor; [|done]. intros Hin. apply Hp. by right.
Qed.

Lemma reset_head_spec p k v (a : list ptr) (j w : nat) :
  reset_head (seq j w) {[p := mkNode k v (replicate j None ++ a)]} p =
  (if decide (length a < w)%nat then None
   else Some {[p := mkNode k v (replicate (j + w) None ++ drop w a)]}).
Proof.
  revert j a. induction w as [|w IH]; intros j a; cbn [seq reset_head].
  { rewrite decide_False by lia. by rewrite Nat.add_0_r, drop_0. }
  unfold set_next. rewrite lookup_singleton_eq. cbn [mbind option_bind node_next].
  rewrite length_app, length_replicate. destruct a as [|x a]; simpl length.
  { destruct (Nat.ltb_spec j (j + 0)); [lia|]. cbn [guarded mbind option_bind].
    case_decide; [done|simpl in *; lia]. }
  destruct (Nat.ltb_spec j (j + S (length a))); [|lia]. cbn [guarded mbind option_bind].
  rewrite insert_singleton_eq. cbn [node_key node_value].
  rewrite insert_app_r_alt by (rewrite length_replicate; lia).
  rewrite length_replicate, Nat.sub_diag. cbn [insert list_insert].
  change (None :: a) with ([None] ++ a). rewrite app_assoc.
  change [None : ptr] with (replicate 1 (None : ptr)). rewrite <- replicate_add.
  replace (j + 1)%nat with (S j) by lia. rewrite IH.
  replace (S j + w)%nat with (j + S w)%nat by lia. simpl drop.
  case_decide; case_decide; done || lia.
Qed.

Lemma MemTable_Clear_shape m l :
  mt_shape m l →
  ∃ m', MemTable_Clear m = Some m' ∧ mt_shape m' [] ∧ dom (mt_heap m') = {[head_ m']}.
Proof.
  intros Hm. unfold MemTable_Clear. rewrite (head_next m l Hm). cbn [mbind option_bind].
  rewrite (shape_size m l Hm), (sh_heap _ _ Hm). cbn [heap_of head_ent e_loc].
  rewrite delete_chain_spec; [| | |lia].
  - cbn [mbind option_bind]. unfold node_of at 1. cbn [e_key e_val head_ent].
    pose proof (reset_head_spec (head_ m) [] [] (node_next (node_of (head_ent (head_ m)) l))
      0 MAX_LEVEL) as Hr.
    rewrite decide_False in Hr by (rewrite node_of_next_length; simpl; lia).
    cbn [replicate app] in Hr. unfold node_of in Hr at 1. cbn [node_next] in Hr.
    rewrite Hr. cbn [mbind option_bind].
    eexists. split; [done|]. split; [split|]; simpl; try done.
    + repeat constructor; set_solver.
    + constructor.
    + unfold MAX_LEVEL. lia.
    + by rewrite dom_singleton_L.
  - exact (sh_nodup _ _ Hm).
  - eapply Forall_impl; [exact (sh_levels _ _ Hm)|]. simpl. lia.
Qed.

Lemma mt_rep_new seed : mt_rep (MemTable_new seed : MemTable Rng) ∅.
Proof. exists []. split; [apply mt_shape_new|done]. Qed.

Lemma mt_rep_Put m M k v :
  mt_rep m M → ∃ m', MemTable_Put dist m k v = Some m' ∧ mt_rep m' (<[k := v]> M).
Proof.
  intros (l & Hm & <-). destruct (MemTable_Put_shape m l k v Hm) as (m' & l' & ? & ? & ?).
  exists m'. split; [done|]. by exists l'.
Qed.

Lemma mt_rep_Get m M k : mt_rep m M → MemTable_Get m k = Some (M !! k).
Proof. intros (l & Hm & <-). exact (MemTable_Get_shape m l k Hm). Qed.

Definition kvs_sorted (l : list (bytes * bytes)) : Prop :=
  StronglySorted bytes_lt (map fst l).
Definition kvs_bytes (l : list (bytes * bytes)) : Z :=
  foldr (λ kv s, zlen (fst kv) + zlen (snd kv) + s) 0 l.

Lemma mt_rep_entries m M :
  mt_rep m M →
  ∃ l, MemTable_entries m = Some l ∧ kvs_sorted l ∧ list_to_map l = M ∧
    MemTable_Count m = u64 (zlen l) ∧ MemTable_Size m = u64 (kvs_bytes l).
Proof.
  intros (l & Hm & <-). exists (map kv_of l). split_and!.
  - by apply MemTable_entries_shape.
  - unfold kvs_sorted. rewrite map_map. exact (sh_sorted _ _ Hm).
  - done.
  - unfold MemTable_Count, zlen. rewrite length_map. exact (sh_count _ _ Hm).
  - unfold MemTable_Size. rewrite (sh_size _ _ Hm). f_equal. clear Hm.
    induction l as [|e l IH]; [done|]. simpl. by rewrite IH.
Qed.

Lemma mt_rep_Clear m M :
  mt_rep m M → ∃ m', MemTable_Clear m = Some m' ∧ mt_rep m' ∅.
Proof.
  intros (l & Hm & <-). destruct (MemTable_Clear_shape m l Hm) as (m' & ? & ? & _).
  exists m'. split; [done|]. by exists [].
Qed.

Lemma mt_rep_delete m M : mt_rep m M → MemTable_delete m = Some ∅.
Proof.
  intros (l & Hm & <-). destruct (MemTable_Clear_shape m l Hm) as (m' & Hc & Hs & Hd).
  unfold MemTable_delete. rewrite Hc. cbn [mbind option_bind]. unfold free.
  rewrite (sh_heap _ _ Hs). cbn [heap_of head_ent e_loc]. rewrite lookup_insert_eq.
  cbn [mbind option_bind]. f_equal. by rewrite delete_insert_id.
Qed.

(** A client's calls, on the table and on a map. *)
Inductive MtOp := MPut (k v : bytes) | MClear.

Definition mt_step m (o : MtOp) : option (MemTable Rng) :=
  match o with MPut k v => MemTable_Put dist m k v | MClear => MemTable_Clear m end.

Definition map_step (M : gmap bytes bytes) (o : MtOp) : gmap bytes bytes :=
  match o with MPut k v => <[k := v]> M | MClear => ∅ end.

Fixpoint mt_run m (ops : list MtOp) : option (MemTable Rng) :=
  match ops with
  | [] => Some m
  | o :: ops => m ← mt_step m o; mt_run m ops
  end.

Lemma mt_run_rep m M ops :
  mt_rep m M → ∃ m', mt_run m ops = Some m' ∧ mt_rep m' (foldl map_step M ops).
Proof.
  revert m M. induction ops as [|o ops IH]; intros m M Hm; simpl; [by exists m|].
  assert (∃ m', mt_step m o = Some m' ∧ mt_rep m' (map_step M o)) as (m' & -> & Hm').
  { destruct o; [by apply mt_rep_Put|by eapply mt_rep_Clear]. }
  cbn [mbind option_bind]. by apply IH.
Qed.
End Operations.

(** * Properties *)

(** C19: after any sequence of [Put] and [Clear] calls on a new table, whatever
    heights the generator draws, no pointer has been misused, every [Get]
    answers as the finite map of the puts does, the iterator yields the
    bindings of that map in strictly increasing key order, the counters are
    their number and their size, and the destructor frees every node. *)
Theorem MemTable_implements_map {Rng} (dist : Rng → bool * Rng) (seed : Rng)
    (ops : list MtOp) :
  ∃ m, mt_run dist (MemTable_new seed) ops = Some m ∧
    (∀ k, MemTable_Get m k = Some (foldl map_step ∅ ops !! k)) ∧
    (∃ l, MemTable_entries m = Some l ∧ kvs_sorted l ∧
       list_to_map l = foldl map_step ∅ ops ∧
       MemTable_Count m = u64 (zlen l) ∧ MemTable_Size m = u64 (kvs_bytes l)) ∧
    MemTable_delete m = Some ∅.
Proof.
  destruct (mt_run_rep dist (MemTable_new seed) ∅ ops (mt_rep_new seed)) as (m & Hr & Hm).
  exists m. split_and!; [done| |by apply mt_rep_entries|by eapply mt_rep_delete].
  intros k. by apply mt_rep_Get.
Qed.
