(* ===== verification/LruCache.v ===== *)
(** The block cache: a hash map into a doubly linked list with sentinel nodes,
    src/engine/LruCache.h and LruCache.cc.

    The list is kept as nodes on a heap with [prev] and [next] pointers; the
    cache is related to a list of pairs, most recently used first, by
    [lru_rep]. *)
From S2P Require Import Prelude.

(** * Definitions *)

Abbreviation loc := positive.
Abbreviation ptr := (option loc).

Definition MakeCacheKey (filename : bytes) (offset : Z) : bytes :=
  filename ++ str ":" ++ to_string offset.

Section LruCache.
(** [BolckData]. *)
Context {V : Type}.

Record Node := mkNode {
  n_key : bytes;
  n_data : V;
  n_prev : ptr;
  n_next : ptr;
}.

Abbreviation heap := (gmap loc Node).

Record LRUCache := mkLRU {
  lru_heap : heap;
  capacity_ : Z;
  cache_map_ : gmap bytes loc;
  lru_head_ : loc;
  lru_tail_ : loc;
  hits_ : Z;
  misses_ : Z;
}.

(** Field updates through a pointer; no result through a bad one. *)
Definition upd_node (h : heap) (p : loc) (f : Node → Node) : option heap :=
  n ← h !! p; Some (<[p := f n]> h).
Definition set_prev (h : heap) (p : loc) (q : ptr) : option heap :=
  upd_node h p (λ n, mkNode (n_key n) (n_data n) q (n_next n)).
Definition set_next (h : heap) (p : loc) (q : ptr) : option heap :=
  upd_node h p (λ n, mkNode (n_key n) (n_data n) (n_prev n) q).
Definition set_data (h : heap) (p : loc) (d : V) : option heap :=
  upd_node h p (λ n, mkNode (n_key n) d (n_prev n) (n_next n)).
Definition get_prev (h : heap) (p : loc) : option ptr := n_prev <$> h !! p.
Definition get_next (h : heap) (p : loc) : option ptr := n_next <$> h !! p.

Definition alloc (h : heap) (n : Node) : loc * heap :=
  let p := fresh (dom h) in (p, <[p := n]> h).
Definition free (h : heap) (p : loc) : option heap :=
  _ ← h !! p; Some (delete p h).

(** [explicit LRUCache(size_t capacity)]; [d0] is the empty block. *)
Definition LRUCache_new (d0 : V) (capacity : Z) : option LRUCache :=
  let capacity := if capacity =? 0 then 1 else capacity in
  let (hd, h) := alloc ∅ (mkNode (str "__head__") d0 None None) in
  let (tl, h) := alloc h (mkNode (str "__tail__") d0 None None) in
  h ← set_next h hd (Some tl);
  h ← set_prev h tl (Some hd);
  Some (mkLRU h capacity ∅ hd tl 0 0).

Definition InsertToFront (h : heap) (head node : loc) : option heap :=
  hn ← get_next h head;
  h ← set_next h node hn;
  hn ← get_next h head;
  p ← hn;
  h ← set_prev h p (Some node);
  h ← set_next h head (Some node);
  set_prev h node (Some head).

Definition RemoveFromList (h : heap) (node : loc) : option heap :=
  prv ← get_prev h node; nxt ← get_next h node;
  p ← prv; h ← set_next h p nxt;
  nxt ← get_next h node; prv ← get_prev h node;
  q ← nxt; h ← set_prev h q prv;
  h ← set_next h node None;
  set_prev h node None.

Definition MoveToFront (h : heap) (head node : loc) : option heap :=
  h ← RemoveFromList h node; InsertToFront h head node.

(** [Exict]: drop the node before the tail. *)
Definition Exict (c : LRUCache) : option LRUCache :=
  prv ← get_prev (lru_heap c) (lru_tail_ c);
  lru ← prv;
  if bool_decide (lru = lru_head_ c) then Some c
  else
    h ← RemoveFromList (lru_heap c) lru;
    n ← h !! lru;
    let m := delete (n_key n) (cache_map_ c) in
    h ← free h lru;
    Some (mkLRU h (capacity_ c) m (lru_head_ c) (lru_tail_ c) (hits_ c) (misses_ c)).

(** [bool Get(key, out)]: the data on a hit. *)
Definition LRUCache_Get (c : LRUCache) (key : bytes) : option (LRUCache * option V) :=
  match cache_map_ c !! key with
  | None =>
      Some (mkLRU (lru_heap c) (capacity_ c) (cache_map_ c) (lru_head_ c) (lru_tail_ c)
              (hits_ c) (u64 (misses_ c + 1)), None)
  | Some p =>
      h ← MoveToFront (lru_heap c) (lru_head_ c) p;
      n ← h !! p;
      Some (mkLRU h (capacity_ c) (cache_map_ c) (lru_head_ c) (lru_tail_ c)
              (u64 (hits_ c + 1)) (misses_ c), Some (n_data n))
  end.

Definition LRUCache_Insert (c : LRUCache) (key : bytes) (data : V) : option LRUCache :=
  match cache_map_ c !! key with
  | Some p =>
      h ← set_data (lru_heap c) p data;
      h ← MoveToFront h (lru_head_ c) p;
      Some (mkLRU h (capacity_ c) (cache_map_ c) (lru_head_ c) (lru_tail_ c)
              (hits_ c) (misses_ c))
  | None =>
      c ← (if capacity_ c <=? Z.of_nat (size (cache_map_ c)) then Exict c else Some c);
      let (node, h) := alloc (lru_heap c) (mkNode key data None None) in
      h ← InsertToFront h (lru_head_ c) node;
      Some (mkLRU h (capacity_ c) (<[key := node]> (cache_map_ c)) (lru_head_ c)
              (lru_tail_ c) (hits_ c) (misses_ c))
  end.

Definition LRUCache_Size (c : LRUCache) : Z := Z.of_nat (size (cache_map_ c)).
Definition LRUCache_Capacity (c : LRUCache) : Z := capacity_ c.
Definition LRUCache_Hits (c : LRUCache) : Z := hits_ c.
Definition LRUCache_Misses (c : LRUCache) : Z := misses_ c.

(** [while(cur != tail_) { next = cur->next; delete cur; cur = next; }] *)
Fixpoint delete_nodes (fuel : nat) (h : heap) (tail cur : loc) : option heap :=
  if bool_decide (cur = tail) then Some h
  else
    match fuel with
    | O => None
    | S fuel =>
        nxt ← get_next h cur;
        h ← free h cur;
        nxt ← nxt;
        delete_nodes fuel h tail nxt
    end.

Definition LRUCache_Clear (c : LRUCache) : option LRUCache :=
  nxt ← get_next (lru_heap c) (lru_head_ c);
  cur ← nxt;
  h ← delete_nodes (size (lru_heap c)) (lru_heap c) (lru_tail_ c) cur;
  h ← set_next h (lru_head_ c) (Some (lru_tail_ c));
  h ← set_prev h (lru_tail_ c) (Some (lru_head_ c));
  Some (mkLRU h (capacity_ c) ∅ (lru_head_ c) (lru_tail_ c) 0 0).

(** [~LRUCache]: the heap that remains. *)
Definition LRUCache_delete (c : LRUCache) : option heap :=
  nxt ← get_next (lru_heap c) (lru_head_ c);
  cur ← nxt;
  h ← delete_nodes (size (lru_heap c)) (lru_heap c) (lru_tail_ c) cur;
  h ← free h (lru_head_ c);
  free h (lru_tail_ c).

(** ** The specification: a list of pairs, most recently used first *)

Definition lru_list := list (bytes * V).

Fixpoint spec_lookup (l : lru_list) (k : bytes) : option V :=
  match l with
  | [] => None
  | (k', d) :: l => if bool_decide (k' = k) then Some d else spec_lookup l k
  end.

Fixpoint spec_remove (l : lru_list) (k : bytes) : lru_list :=
  match l with
  | [] => []
  | (k', d) :: l => if bool_decide (k' = k) then spec_remove l k else (k', d) :: spec_remove l k
  end.

Definition spec_Get (l : lru_list) (k : bytes) : lru_list * option V :=
  match spec_lookup l k with
  | Some d => ((k, d) :: spec_remove l k, Some d)
  | None => (l, None)
  end.

(** Drop the last pair: the one used longest ago. *)
Definition spec_evict (l : lru_list) : lru_list := take (pred (length l)) l.

Definition spec_Insert (capacity : Z) (l : lru_list) (k : bytes) (d : V) : lru_list :=
  match spec_lookup l k with
  | Some _ => (k, d) :: spec_remove l k
  | None => (k, d) :: (if capacity <=? zlen l then spec_evict l else l)
  end.
End LruCache.
Arguments Node : clear implicits.
Abbreviation heap V := (gmap loc (Node V)).
Arguments LRUCache : clear implicits.
Arguments lru_list : clear implicits.

(** * The shape of the list *)

Section Shape.
Context {V : Type}.
Implicit Types (h : heap V) (c : LRUCache V).

Record ent := mkEnt { e_loc : loc; e_key : bytes; e_data : V }.

(** The heap of a doubly linked segment whose first node follows [pv]. *)
Fixpoint dll (pv : ptr) (l : list ent) : heap V :=
  match l with
  | [] => ∅
  | e :: l => <[e_loc e := mkNode (e_key e) (e_data e) pv (e_loc <$> head l)]>
                (dll (Some (e_loc e)) l)
  end.

Definition last_loc (pv : ptr) (l : list ent) : ptr :=
  match last l with Some e => Some (e_loc e) | None => pv end.

Lemma dll_dom pv l : dom (dll pv l) = list_to_set (map e_loc l).
Proof.
  revert pv. induction l as [|e l IH]; intros pv; simpl; [done|]. by rewrite dom_insert_L, IH.
Qed.

Lemma dll_not_in pv l p : p ∉ map e_loc l → dll pv l !! p = None.
Proof. intros Hp. apply not_elem_of_dom. by rewrite dll_dom, elem_of_list_to_set. Qed.

Lemma dll_size pv l : NoDup (map e_loc l) → size (dll pv l) = length l.
Proof.
  revert pv. induction l as [|e l IH]; intros pv Hn; simpl; [done|].
  apply NoDup_cons in Hn as [He Hn]. by rewrite map_size_insert_None, IH by (by apply dll_not_in || done).
Qed.

Lemma last_loc_cons pv e A : last_loc pv (e :: A) = last_loc (Some (e_loc e)) A.
Proof. unfold last_loc. rewrite last_cons. by destruct (last A). Qed.

(** A change below a prefix that the prefix does not see. *)
Lemma dll_app (F : heap V → heap V) pv A X X' :
  e_loc <$> head X' = e_loc <$> head X →
  dll (last_loc pv A) X' = F (dll (last_loc pv A) X) →
  (∀ e n h, e ∈ A → F (<[e_loc e := n]> h) = <[e_loc e := n]> (F h)) →
  dll pv (A ++ X') = F (dll pv (A ++ X)).
Proof.
  intros Hh HX HF. revert pv HX. induction A as [|e A IH]; intros pv HX; simpl; [done|].
  rewrite last_loc_cons in HX. rewrite HF by set_solver.
  rewrite (IH ltac:(set_solver) _ HX). do 2 f_equal. by destruct A.
Qed.

Lemma dll_lookup pv A e B :
  e_loc e ∉ map e_loc A →
  dll pv (A ++ e :: B) !! e_loc e =
    Some (mkNode (e_key e) (e_data e) (last_loc pv A) (e_loc <$> head B)).
Proof.
  revert pv. induction A as [|a A IH]; intros pv Hn; simpl in *.
  { by rewrite lookup_insert_eq. }
  apply not_elem_of_cons in Hn as [Hne Hn].
  rewrite lookup_insert_ne, IH by congruence. do 2 f_equal.
  by rewrite last_loc_cons.
Qed.

Ltac heap_lookups :=
  repeat first [rewrite lookup_insert_eq | rewrite lookup_insert_ne by congruence
               | progress cbn [mbind option_bind fmap option_fmap option_map n_key n_data n_prev n_next]].

Ltac heap_eq :=
  apply map_eq; intros ?i; rewrite ?lookup_delete, ?lookup_insert;
  repeat case_decide; subst; try congruence; try done.

Lemma NoDup_locs_mid (A : list ent) x B :
  NoDup (map e_loc (A ++ x :: B)) →
  (e_loc x ∉ map e_loc A) ∧ (e_loc x ∉ map e_loc B) ∧ NoDup (map e_loc (A ++ B)) ∧
  (∀ a, a ∈ A → e_loc a ≠ e_loc x).
Proof.
  intros Hn. rewrite map_app in Hn. simpl in Hn.
  apply (NoDup_Permutation_proper _ _ (symmetry (Permutation_middle _ _ _))) in Hn.
  apply NoDup_cons in Hn as [Hx Hn]. rewrite <- map_app in Hn.
  rewrite elem_of_app in Hx. split_and!; [tauto|tauto|done|].
  intros a Ha Heq. apply Hx. left. rewrite <- Heq. by apply list_elem_of_fmap_2.
Qed.

Lemma RemoveFromList_spec A p e n B :
  NoDup (map e_loc (A ++ p :: e :: n :: B)) →
  RemoveFromList (dll None (A ++ p :: e :: n :: B)) (e_loc e) =
    Some (<[e_loc e := mkNode (e_key e) (e_data e) None None]>
            (dll None (A ++ p :: n :: B))).
Proof.
  intros Hnd. pose proof Hnd as Hnd0.
  apply NoDup_locs_mid in Hnd as (HpA & HpB & Hnd & HA1).
  apply NoDup_locs_mid in Hnd as (HeA & HeB & Hnd & HA2).
  apply NoDup_locs_mid in Hnd as (HnA & HnB & Hnd & HA3).
  simpl in HpB, HeB. rewrite !not_elem_of_cons in HpB. rewrite not_elem_of_cons in HeB.
  destruct HpB as (Hpe & Hpn & HpB). destruct HeB as (Hen & HeB).
  set (h := dll None (A ++ p :: e :: n :: B)).
  assert (h !! e_loc p = Some (mkNode (e_key p) (e_data p) (last_loc None A) (Some (e_loc e)))) as Hp
    by (apply dll_lookup; done).
  assert (h !! e_loc e = Some (mkNode (e_key e) (e_data e) (Some (e_loc p)) (Some (e_loc n)))) as He.
  { unfold h. change (p :: e :: n :: B) with ([p] ++ e :: n :: B).
    rewrite app_assoc, dll_lookup.
    - unfold last_loc. by rewrite last_snoc.
    - rewrite map_app. simpl. rewrite not_elem_of_app, list_elem_of_singleton. auto. }
  assert (h !! e_loc n = Some (mkNode (e_key n) (e_data n) (Some (e_loc e)) (e_loc <$> head B))) as Hn.
  { unfold h. change (p :: e :: n :: B) with ([p; e] ++ n :: B).
    rewrite app_assoc, dll_lookup.
    - unfold last_loc. change [p; e] with ([p] ++ [e]). by rewrite app_assoc, last_snoc.
    - rewrite map_app. simpl. rewrite not_elem_of_app, !not_elem_of_cons, elem_of_nil. auto 6. }
  unfold RemoveFromList, get_prev, get_next, set_next, set_prev, upd_node.
  rewrite He. heap_lookups. rewrite Hp. heap_lookups. rewrite He. heap_lookups.
  rewrite Hn. heap_lookups. rewrite He. heap_lookups. f_equal.
  transitivity (<[e_loc e := mkNode (e_key e) (e_data e) None None]>
    (<[e_loc n := mkNode (e_key n) (e_data n) (Some (e_loc p)) (e_loc <$> head B)]>
    (<[e_loc p := mkNode (e_key p) (e_data p) (last_loc None A) (Some (e_loc n))]> h))).
  { heap_eq. }
  rewrite <- insert_delete_eq. f_equal. symmetry.
  apply (dll_app (λ h, delete (e_loc e) (<[e_loc n := _]> (<[e_loc p := _]> h)))); [done| |].
  - simpl. heap_eq. all: rewrite ?lookup_delete, ?lookup_insert; repeat case_decide; subst;
      try congruence; try done.
    rewrite dll_not_in by done. done.
  - intros a na h' Ha. specialize (HA1 a Ha). specialize (HA2 a Ha). specialize (HA3 a Ha).
    rewrite (insert_insert_ne _ (e_loc p)), (insert_insert_ne _ (e_loc n)) by congruence.
    by rewrite delete_insert_ne by congruence.
Qed.
Lemma RemoveFromList_ends P e Q :
  P ≠ [] → Q ≠ [] → NoDup (map e_loc (P ++ e :: Q)) →
  RemoveFromList (dll None (P ++ e :: Q)) (e_loc e) =
    Some (<[e_loc e := mkNode (e_key e) (e_data e) None None]> (dll None (P ++ Q))).
Proof.
  intros HP HQ. destruct Q as [|n B]; [done|]. destruct P as [|p A _] using rev_ind; [done|].
  rewrite <- !app_assoc. simpl. apply RemoveFromList_spec.
Qed.

Lemma InsertToFront_spec H e n B pe ne :
  NoDup (map e_loc (H :: e :: n :: B)) →
  InsertToFront (<[e_loc e := mkNode (e_key e) (e_data e) pe ne]> (dll None (H :: n :: B)))
      (e_loc H) (e_loc e) =
    Some (dll None (H :: e :: n :: B)).
Proof.
  intros [H1 [H2 [H3 _]%NoDup_cons]%NoDup_cons]%NoDup_cons. simpl in H1, H2.
  rewrite !not_elem_of_cons in H1. rewrite not_elem_of_cons in H2.
  destruct H1 as (? & ? & ?), H2 as (? & ?).
  unfold InsertToFront, get_next, set_next, set_prev, upd_node. simpl dll.
  heap_lookups. f_equal. heap_eq.
Qed.

Lemma MoveToFront_spec H A e B T :
  NoDup (map e_loc (H :: A ++ e :: B ++ [T])) →
  MoveToFront (dll None (H :: A ++ e :: B ++ [T])) (e_loc H) (e_loc e) =
    Some (dll None (H :: e :: A ++ B ++ [T])).
Proof.
  intros Hn. unfold MoveToFront.
  change (H :: A ++ e :: B ++ [T]) with ((H :: A) ++ e :: B ++ [T]) in *.
  rewrite RemoveFromList_ends; [|done|by destruct B|done]. cbn [mbind option_bind].
  assert (NoDup (map e_loc (H :: e :: A ++ B ++ [T]))) as Hn'.
  { rewrite map_app in Hn. simpl in Hn |- *. rewrite map_app.
    eapply NoDup_Permutation_proper; [|exact Hn].
    apply perm_skip. apply Permutation_middle. }
  destruct (A ++ B ++ [T]) as [|n Q] eqn:E.
  - by destruct A, B.
  - simpl. rewrite E. by apply InsertToFront_spec.
Qed.

(** ** Well-shaped caches *)

Record lru_shape c (H T : ent) (ns : list (ent)) : Prop := {
  ls_heap : lru_heap c = dll None (H :: ns ++ [T]);
  ls_head : e_loc H = lru_head_ c;
  ls_tail : e_loc T = lru_tail_ c;
  ls_locs : NoDup (map e_loc (H :: ns ++ [T]));
  ls_keys : NoDup (map e_key ns);
  ls_map : cache_map_ c = list_to_map (map (λ e, (e_key e, e_loc e)) ns);
  ls_cap : zlen ns <= capacity_ c;
  ls_cap_pos : 1 <= capacity_ c;
}.

Definition pair_of (e : ent) : bytes * V := (e_key e, e_data e).

Lemma ls_size c H T ns : lru_shape c H T ns → Z.of_nat (size (cache_map_ c)) = zlen ns.
Proof.
  intros Hc. rewrite (ls_map _ _ _ _ Hc). unfold zlen. f_equal.
  pose proof (ls_keys _ _ _ _ Hc) as Hk. clear Hc. induction ns as [|e ns IH]; simpl in *; [done|].
  apply NoDup_cons in Hk as [He Hk]. rewrite map_size_insert_None, IH; [done..|].
  apply not_elem_of_list_to_map_1. rewrite map_map. exact He.
Qed.

Lemma spec_remove_notin (l : list ent) k :
  k ∉ map e_key l → spec_remove (map pair_of l) k = map pair_of l.
Proof.
  induction l as [|e l IH]; simpl; intros Hn; [done|].
  apply not_elem_of_cons in Hn as [? ?].
  by rewrite bool_decide_eq_false_2, IH by congruence.
Qed.

(** A hit: the node found, and the spec's answer. *)
Lemma ls_find c H T ns k :
  lru_shape c H T ns →
  (∃ A e B, ns = A ++ e :: B ∧ e_key e = k ∧ cache_map_ c !! k = Some (e_loc e) ∧
     spec_lookup (map pair_of ns) k = Some (e_data e) ∧
     spec_remove (map pair_of ns) k = map pair_of (A ++ B))
  ∨ (cache_map_ c !! k = None ∧ spec_lookup (map pair_of ns) k = None ∧
     k ∉ map e_key ns).
Proof.
  intros Hc. rewrite (ls_map _ _ _ _ Hc). pose proof (ls_keys _ _ _ _ Hc) as Hk. clear Hc.
  induction ns as [|e ns IH]; [right; by split_and!; [..|apply not_elem_of_nil]|].
  simpl in Hk. apply NoDup_cons in Hk as [He Hk].
  cbn [map list_to_map foldr pair_of spec_lookup app fst snd].
  destruct (decide (e_key e = k)) as [<-|Hne].
  - left. exists [], e, ns. rewrite lookup_insert_eq, bool_decide_eq_true_2 by done.
    split_and!; [done..|]. simpl. rewrite bool_decide_eq_true_2 by done. by apply spec_remove_notin.
  - rewrite lookup_insert_ne, bool_decide_eq_false_2 by done.
    destruct (IH Hk) as [(A & e' & B & -> & Hk' & Hl & Hs & Hr)|(Hl & Hs & Hn)].
    + left. exists (e :: A), e', B. split_and!; [done..|].
      simpl. rewrite bool_decide_eq_false_2 by done. by rewrite Hr.
    + right. split_and!; [done..|]. rewrite not_elem_of_cons. auto.
Qed.

(** The bookkeeping that survives a reordering of the nodes. *)
Lemma ls_reorder c H T ns h hits misses ns' :
  lru_shape c H T ns → ns ≡ₚ ns' → h = dll None (H :: ns' ++ [T]) →
  lru_shape (mkLRU h (capacity_ c) (cache_map_ c) (lru_head_ c) (lru_tail_ c) hits misses)
    H T ns'.
Proof.
  intros Hc Hp ->. split; simpl; try apply Hc; try done.
  - eapply NoDup_Permutation_proper; [|exact (ls_locs _ _ _ _ Hc)]. simpl. by rewrite Hp.
  - eapply NoDup_Permutation_proper; [|exact (ls_keys _ _ _ _ Hc)]. by rewrite Hp.
  - rewrite (ls_map _ _ _ _ Hc). apply list_to_map_proper; [|by rewrite Hp].
    change (NoDup ((map (λ e, (e_key e, e_loc e)) ns).*1)).
    rewrite <- list_fmap_compose. exact (ls_keys _ _ _ _ Hc).
  - unfold zlen. rewrite <- Hp. exact (ls_cap _ _ _ _ Hc).
Qed.

Lemma ls_move c H T A e B :
  lru_shape c H T (A ++ e :: B) →
  MoveToFront (lru_heap c) (lru_head_ c) (e_loc e) = Some (dll None (H :: e :: A ++ B ++ [T])).
Proof.
  intros Hc. rewrite (ls_heap _ _ _ _ Hc), <- (ls_head _ _ _ _ Hc), <- app_assoc. simpl app at 2.
  apply MoveToFront_spec. pose proof (ls_locs _ _ _ _ Hc) as Hn.
  rewrite <- app_assoc in Hn. exact Hn.
Qed.

Lemma ls_new d0 cap :
  0 <= cap →
  ∃ c H T, LRUCache_new (V:=V) d0 cap = Some c ∧ lru_shape c H T [] ∧
    capacity_ c = Z.max 1 cap ∧ hits_ c = 0 ∧ misses_ c = 0.
Proof.
  intros Hcap. unfold LRUCache_new, alloc.
  set (p := fresh (dom (∅ : heap V))). set (h := <[p := _]> ∅). pose proof (is_fresh (dom h)) as Hq.
  set (q := fresh (dom h)) in *.
  assert (p ≠ q) as Hpq by (intros <-; apply Hq; unfold h; rewrite dom_insert_L; set_solver).
  unfold set_next, set_prev, upd_node. rewrite lookup_insert_ne by done.
  assert (h !! p = Some (mkNode (str "__head__") d0 None None)) as -> by apply lookup_insert_eq.
  heap_lookups.
  eexists _, (mkEnt p (str "__head__") d0), (mkEnt q (str "__tail__") d0).
  split_and!; [done| |simpl; case_Z; lia|done..].
  split; simpl; try done.
  - repeat constructor; [|set_solver]. rewrite list_elem_of_singleton. done.
  - constructor.
  - unfold zlen. simpl. case_Z; lia.
  - case_Z; lia.
Qed.

Lemma LRUCache_Get_shape c H T ns k :
  lru_shape c H T ns →
  ∃ c' ns', LRUCache_Get c k = Some (c', snd (spec_Get (map pair_of ns) k)) ∧
    lru_shape c' H T ns' ∧ map pair_of ns' = fst (spec_Get (map pair_of ns) k) ∧
    capacity_ c' = capacity_ c ∧
    hits_ c' = (if spec_lookup (map pair_of ns) k is Some _
                then u64 (hits_ c + 1) else hits_ c) ∧
    misses_ c' = (if spec_lookup (map pair_of ns) k is Some _
                  then misses_ c else u64 (misses_ c + 1)).
Proof.
  intros Hc. unfold LRUCache_Get, spec_Get.
  destruct (ls_find c H T ns k Hc) as [(A & e & B & -> & <- & -> & -> & ->)|(-> & -> & _)].
  - rewrite (ls_move _ _ _ _ _ _ Hc). cbn [mbind option_bind].
    assert (∀ X, dll None (H :: e :: X) !! e_loc e =
      Some (mkNode (e_key e) (e_data e) (Some (e_loc H)) (e_loc <$> head X)) ∨
      ¬ NoDup (map e_loc (H :: e :: X))) as Hlk.
    { intros X. destruct (decide (e_loc H = e_loc e)) as [Heq|].
      - right. intros [Hn _]%NoDup_cons. apply Hn. rewrite Heq. left.
      - left. simpl. by rewrite lookup_insert_ne, lookup_insert_eq. }
    assert (lru_shape (mkLRU (dll None (H :: (e :: A ++ B) ++ [T])) (capacity_ c) (cache_map_ c)
      (lru_head_ c) (lru_tail_ c) (u64 (hits_ c + 1)) (misses_ c)) H T (e :: A ++ B)) as Hs.
    { eapply ls_reorder; [done| |done]. symmetry. apply Permutation_middle. }
    simpl in Hs. rewrite <- app_assoc in Hs.
    destruct (Hlk (A ++ B ++ [T])) as [->|Hn].
    + cbn [mbind option_bind n_data]. do 2 eexists. split; [done|]. by split.
    + exfalso. apply Hn. pose proof (ls_locs _ _ _ _ Hs) as Hl. simpl in Hl. by rewrite <- app_assoc in Hl.
  - do 2 eexists. split; [done|]. split; [|by split_and!].
    destruct Hc. by split.
Qed.

(** A new node at the front. *)
Lemma ls_push c H T ns k d :
  lru_shape c H T ns → k ∉ map e_key ns → zlen ns + 1 <= capacity_ c →
  ∃ h, InsertToFront (<[fresh (dom (lru_heap c)) := mkNode k d None None]> (lru_heap c))
        (lru_head_ c) (fresh (dom (lru_heap c))) = Some h ∧
    lru_shape (mkLRU h (capacity_ c) (<[k := fresh (dom (lru_heap c))]> (cache_map_ c))
      (lru_head_ c) (lru_tail_ c) (hits_ c) (misses_ c)) H T
      (mkEnt (fresh (dom (lru_heap c))) k d :: ns).
Proof.
  intros Hc Hk Hcap. pose proof (is_fresh (dom (lru_heap c))) as Hp.
  set (p := fresh (dom (lru_heap c))) in *. set (e := mkEnt p k d).
  rewrite (ls_heap _ _ _ _ Hc), dll_dom, elem_of_list_to_set in Hp.
  assert (NoDup (map e_loc (H :: e :: ns ++ [T]))) as Hn.
  { pose proof (ls_locs _ _ _ _ Hc) as Hn. simpl in Hn, Hp |- *.
    rewrite not_elem_of_cons in Hp. destruct Hp as [Hp1 Hp2].
    apply NoDup_cons in Hn as [Hn1 Hn2]. constructor; [|by constructor].
    rewrite not_elem_of_cons. by split. }
  exists (dll None (H :: e :: ns ++ [T])). split.
  - rewrite (ls_heap _ _ _ _ Hc), <- (ls_head _ _ _ _ Hc).
    destruct (ns ++ [T]) as [|n B] eqn:E; [by destruct ns|].
    exact (InsertToFront_spec H e n B None None Hn).
  - split; simpl; try apply Hc; try done.
    + constructor; [done|apply Hc].
    + by rewrite (ls_map _ _ _ _ Hc).
    + autorewrite with ms_len. lia.
Qed.

Lemma Exict_shape c H T ns e :
  lru_shape c H T (ns ++ [e]) →
  ∃ c', Exict c = Some c' ∧ lru_shape c' H T ns ∧ capacity_ c' = capacity_ c ∧
    hits_ c' = hits_ c ∧ misses_ c' = misses_ c.
Proof.
  intros Hc. pose proof (ls_locs _ _ _ _ Hc) as Hn. rewrite <- app_assoc in Hn.
  change (H :: ns ++ [e] ++ [T]) with ((H :: ns) ++ e :: [T]) in Hn.
  pose proof Hn as Hmid. apply NoDup_locs_mid in Hmid as (HeA & HeB & Hn' & _).
  assert (lru_heap c = dll None ((H :: ns) ++ e :: [T])) as Hh
    by (rewrite (ls_heap _ _ _ _ Hc); by rewrite <- app_assoc).
  unfold Exict, get_prev.
  assert (lru_heap c !! lru_tail_ c =
    Some (mkNode (e_key T) (e_data T) (Some (e_loc e)) None)) as ->.
  { rewrite <- (ls_tail _ _ _ _ Hc), (ls_heap _ _ _ _ Hc).
    change (H :: (ns ++ [e]) ++ [T]) with ((H :: ns ++ [e]) ++ T :: []).
    rewrite dll_lookup.
    - unfold last_loc. change (H :: ns ++ [e]) with ((H :: ns) ++ [e]). by rewrite last_snoc.
    - pose proof (ls_locs _ _ _ _ Hc) as Hd.
      change (H :: (ns ++ [e]) ++ [T]) with ((H :: ns ++ [e]) ++ T :: []) in Hd.
      by apply NoDup_locs_mid in Hd as (? & _). }
  cbn [fmap option_fmap option_map mbind option_bind n_prev].
  rewrite bool_decide_eq_false_2
    by (rewrite <- (ls_head _ _ _ _ Hc); intros Heq; apply HeA; rewrite Heq; left).
  rewrite Hh, RemoveFromList_ends by done. cbn [mbind option_bind].
  rewrite lookup_insert_eq. cbn [mbind option_bind n_key]. unfold free.
  rewrite lookup_insert_eq. cbn [mbind option_bind].
  rewrite delete_insert_id by (apply dll_not_in; rewrite map_app, not_elem_of_app; by split).
  eexists. split; [done|]. split; [|done].
  pose proof (ls_keys _ _ _ _ Hc) as Hks. rewrite map_app in Hks.
  apply NoDup_app in Hks as (Hks & Hek & _).
  split; simpl; try apply Hc; try done.
  - rewrite (ls_map _ _ _ _ Hc), map_app. cbn [map]. rewrite list_to_map_snoc.
    + rewrite delete_insert_id; [done|]. apply not_elem_of_list_to_map_1.
      rewrite map_map. intros Hin. apply (Hek _ Hin). left.
    + rewrite map_map. intros Hin. apply (Hek _ Hin). left.
  - pose proof (ls_cap _ _ _ _ Hc) as Hcap. autorewrite with ms_len in Hcap. lia.
Qed.

Lemma spec_evict_snoc (l : list (bytes * V)) x : spec_evict (l ++ [x]) = l.
Proof.
  unfold spec_evict. rewrite length_app. simpl. rewrite Nat.add_1_r. apply take_app_length.
Qed.

Lemma set_data_shape c H T A e B d :
  lru_shape c H T (A ++ e :: B) →
  set_data (lru_heap c) (e_loc e) d =
    Some (dll None (H :: (A ++ mkEnt (e_loc e) (e_key e) d :: B) ++ [T])).
Proof.
  intros Hc. pose proof (ls_locs _ _ _ _ Hc) as Hn. rewrite (ls_heap _ _ _ _ Hc).
  assert (∀ x, H :: (A ++ x :: B) ++ [T] = (H :: A) ++ x :: B ++ [T]) as Hx
    by (intros x; simpl; by rewrite <- app_assoc).
  rewrite !Hx in *. apply NoDup_locs_mid in Hn as (He & _ & _ & HA).
  unfold set_data, upd_node. rewrite dll_lookup by done. cbn [mbind option_bind n_key n_prev n_next].
  f_equal. symmetry. apply (dll_app (λ h, <[e_loc e := _]> h)); [done| |].
  - simpl. by rewrite insert_insert_eq.
  - intros a n h Ha. apply insert_insert_ne. intros Heq. by apply (HA a Ha).
Qed.

Lemma LRUCache_Insert_shape c H T ns k d :
  lru_shape c H T ns →
  ∃ c' ns', LRUCache_Insert c k d = Some c' ∧ lru_shape c' H T ns' ∧
    map pair_of ns' = spec_Insert (capacity_ c) (map pair_of ns) k d ∧
    capacity_ c' = capacity_ c ∧ hits_ c' = hits_ c ∧ misses_ c' = misses_ c.
Proof.
  intros Hc. unfold LRUCache_Insert, spec_Insert.
  destruct (ls_find c H T ns k Hc) as [(A & e & B & -> & <- & -> & -> & ->)|(-> & -> & Hk)].
  - set (e' := mkEnt (e_loc e) (e_key e) d).
    rewrite (set_data_shape _ _ _ _ _ _ d Hc). cbn [mbind option_bind]. fold e'.
    assert (lru_shape (mkLRU (dll None (H :: (A ++ e' :: B) ++ [T])) (capacity_ c) (cache_map_ c)
      (lru_head_ c) (lru_tail_ c) (hits_ c) (misses_ c)) H T (A ++ e' :: B)) as Hs.
    { split; simpl; try apply Hc; try done.
      - pose proof (ls_locs _ _ _ _ Hc) as Hn. simpl in Hn.
        rewrite <- app_assoc, map_app in *. exact Hn.
      - pose proof (ls_keys _ _ _ _ Hc) as Hn. rewrite map_app in *. exact Hn.
      - rewrite (ls_map _ _ _ _ Hc), !map_app. done.
      - pose proof (ls_cap _ _ _ _ Hc) as Hcap. autorewrite with ms_len in *. lia. }
    pose proof (ls_move _ _ _ _ _ _ Hs) as Hm. cbn [lru_heap lru_head_] in Hm.
    change (e_loc e) with (e_loc e'). rewrite Hm. cbn [mbind option_bind].
    exists (mkLRU (dll None (H :: e' :: A ++ B ++ [T])) (capacity_ c) (cache_map_ c)
      (lru_head_ c) (lru_tail_ c) (hits_ c) (misses_ c)), (e' :: A ++ B).
    split; [done|]. split; [|done].
    refine (ls_reorder _ _ _ _ _ _ _ (e' :: A ++ B) Hs _ _).
    + symmetry. apply Permutation_middle.
    + simpl. by rewrite <- app_assoc.
  - rewrite (ls_size c H T ns Hc).
    assert (zlen (map pair_of ns) = zlen ns) as -> by (unfold zlen; by rewrite length_map).
    assert (∃ c1 ns1, (if capacity_ c <=? zlen ns then Exict c else Some c) = Some c1 ∧
      lru_shape c1 H T ns1 ∧ (k ∉ map e_key ns1) ∧ zlen ns1 + 1 <= capacity_ c1 ∧
      map pair_of ns1 =
        (if capacity_ c <=? zlen ns then spec_evict (map pair_of ns) else map pair_of ns) ∧
      capacity_ c1 = capacity_ c ∧ hits_ c1 = hits_ c ∧ misses_ c1 = misses_ c)
      as (c1 & ns1 & -> & Hc1 & Hk1 & Hz & Hmap & E1 & E2 & E3).
    { pose proof (ls_cap _ _ _ _ Hc) as Hcap. pose proof (ls_cap_pos _ _ _ _ Hc).
      destruct (Z.leb_spec (capacity_ c) (zlen ns)); [|by exists c, ns; split_and!; [..|lia| | | |]].
      destruct ns as [|e ns1 _] using rev_ind; [unfold zlen in *; simpl in *; lia|].
      destruct (Exict_shape c H T ns1 e Hc) as (c1 & -> & Hc1 & E1 & E2 & E3).
      exists c1, ns1. rewrite map_app, not_elem_of_app in Hk.
      autorewrite with ms_len in Hcap. rewrite E1.
      split_and!; [done|done|tauto|lia| |done..]. rewrite map_app. symmetry. apply spec_evict_snoc. }
    cbn [mbind option_bind]. destruct (ls_push c1 H T ns1 k d Hc1 Hk1 Hz) as (h & Hi & Hs).
    unfold alloc. rewrite Hi. cbn [mbind option_bind].
    do 2 eexists. split; [done|]. split; [exact Hs|]. split; [|done].
    simpl. by rewrite Hmap.
Qed.

Lemma delete_nodes_spec p nH pv P T fuel cur :
  NoDup (p :: map e_loc (P ++ [T])) → (length P ≤ fuel)%nat →
  e_loc <$> head (P ++ [T]) = Some cur →
  delete_nodes fuel (<[p := nH]> (dll pv (P ++ [T]))) (e_loc T) cur =
    Some (<[p := nH]> {[e_loc T := mkNode (e_key T) (e_data T) (last_loc pv P) None]}).
Proof.
  revert pv fuel cur. induction P as [|e P IH]; intros pv fuel cur Hnd Hf Hcur; simpl in Hcur;
    injection Hcur as <-.
  { by destruct fuel; simpl; rewrite bool_decide_eq_true_2. }
  destruct fuel as [|fuel]; [simpl in Hf; lia|]. simpl in Hnd, Hf.
  apply NoDup_cons in Hnd as [Hp [He Hnd]%NoDup_cons].
  rewrite not_elem_of_cons in Hp. destruct Hp as [Hpe Hp].
  cbn [delete_nodes app dll].
  rewrite bool_decide_eq_false_2
    by (intros Heq; apply He; rewrite Heq, map_app; apply elem_of_app; right; left).
  unfold get_next, free. rewrite lookup_insert_ne, lookup_insert_eq by done.
  cbn [fmap option_fmap option_map mbind option_bind n_next].
  rewrite delete_insert_ne, delete_insert_id by (done || by apply dll_not_in).
  destruct (e_loc <$> head (P ++ [T])) as [nx|] eqn:Hnx; [|by destruct P].
  cbn [mbind option_bind]. rewrite (last_loc_cons pv e P).
  apply IH; [by constructor|lia|done].
Qed.

Lemma ls_delete_nodes c H T ns :
  lru_shape c H T ns →
  ∃ cur n, get_next (lru_heap c) (lru_head_ c) = Some (Some cur) ∧
    delete_nodes (size (lru_heap c)) (lru_heap c) (lru_tail_ c) cur =
      Some (<[lru_head_ c := mkNode (e_key H) (e_data H) None (Some cur)]> {[lru_tail_ c := n]}) ∧
    n_key n = e_key T ∧ n_data n = e_data T ∧ n_next n = None ∧ lru_head_ c ≠ lru_tail_ c.
Proof.
  intros Hc. pose proof (ls_locs _ _ _ _ Hc) as Hn.
  destruct (e_loc <$> head (ns ++ [T])) as [cur|] eqn:Hcur; [|by destruct ns].
  assert (lru_heap c = <[lru_head_ c := mkNode (e_key H) (e_data H) None (Some cur)]>
    (dll (Some (e_loc H)) (ns ++ [T]))) as Hh.
  { rewrite (ls_heap _ _ _ _ Hc). simpl. by rewrite Hcur, (ls_head _ _ _ _ Hc). }
  exists cur. eexists. split_and!.
  - unfold get_next. rewrite Hh, lookup_insert_eq. done.
  - rewrite (ls_heap _ _ _ _ Hc) at 1. rewrite dll_size by done. rewrite Hh.
    rewrite <- (ls_tail _ _ _ _ Hc). apply delete_nodes_spec; [|simpl; rewrite length_app; lia|done].
    rewrite <- (ls_head _ _ _ _ Hc). exact Hn.
  - done.
  - done.
  - done.
  - rewrite <- (ls_tail _ _ _ _ Hc), <- (ls_head _ _ _ _ Hc). intros Heq.
    simpl in Hn. apply NoDup_cons in Hn as [Hn _]. apply Hn. rewrite Heq, map_app. apply elem_of_app. right. left.
Qed.

Lemma LRUCache_Clear_shape c H T ns :
  lru_shape c H T ns →
  ∃ c', LRUCache_Clear c = Some c' ∧ lru_shape c' H T [] ∧
    capacity_ c' = capacity_ c ∧ hits_ c' = 0 ∧ misses_ c' = 0.
Proof.
  intros Hc. destruct (ls_delete_nodes c H T ns Hc)
    as (cur & n & Hg & Hd & Hk & Hdt & Hnx & Hne).
  unfold LRUCache_Clear. rewrite Hg. cbn [mbind option_bind]. rewrite Hd. cbn [mbind option_bind].
  unfold set_next, set_prev, upd_node. rewrite lookup_insert_eq. cbn [mbind option_bind].
  rewrite !lookup_insert_ne, lookup_singleton_eq by done. cbn [mbind option_bind].
  eexists. split; [done|]. split; [|done].
  split; simpl; try apply Hc; try done.
  - rewrite Hk, Hdt, Hnx, (ls_head _ _ _ _ Hc), (ls_tail _ _ _ _ Hc).
    apply map_eq. intros j. rewrite <- insert_empty, !lookup_insert.
    repeat case_decide; subst; try congruence; done.
  - rewrite (ls_head _ _ _ _ Hc), (ls_tail _ _ _ _ Hc).
    repeat constructor; [|set_solver]. by rewrite list_elem_of_singleton.
  - constructor.
  - pose proof (ls_cap_pos _ _ _ _ Hc). unfold zlen. simpl. lia.
Qed.

Lemma LRUCache_delete_shape c H T ns : lru_shape c H T ns → LRUCache_delete c = Some ∅.
Proof.
  intros Hc. destruct (ls_delete_nodes c H T ns Hc)
    as (cur & n & Hg & Hd & _ & _ & _ & Hne).
  unfold LRUCache_delete. rewrite Hg. cbn [mbind option_bind]. rewrite Hd. cbn [mbind option_bind].
  unfold free. rewrite lookup_insert_eq. cbn [mbind option_bind].
  rewrite delete_insert_id by (by apply lookup_singleton_ne).
  rewrite lookup_singleton_eq. cbn [mbind option_bind]. by rewrite delete_singleton_eq.
Qed.

(** ** Clients *)

Inductive LruOp := LGet (key : bytes) | LInsert (key : bytes) (data : V) | LClear.

(** A call and its answer. *)
Definition lru_step c (o : LruOp) : option (LRUCache V * option V) :=
  match o with
  | LGet k => LRUCache_Get c k
  | LInsert k d => c ← LRUCache_Insert c k d; Some (c, None)
  | LClear => c ← LRUCache_Clear c; Some (c, None)
  end.

(** The same on the specification: pairs, hits and misses. *)
Definition spec_state : Type := lru_list V * Z * Z.

Definition spec_step (cap : Z) (s : spec_state) (o : LruOp) : spec_state * option V :=
  let '(l, hits, misses) := s in
  match o with
  | LGet k =>
      let (l', r) := spec_Get l k in
      (if r is Some _ then (l', u64 (hits + 1), misses) else (l', hits, u64 (misses + 1)), r)
  | LInsert k d => ((spec_Insert cap l k d, hits, misses), None)
  | LClear => (([], 0, 0), None)
  end.

Fixpoint lru_run c (ops : list LruOp) : option (LRUCache V * list (option V)) :=
  match ops with
  | [] => Some (c, [])
  | o :: ops =>
      r ← lru_step c o; let (c, out) := (r : LRUCache V * option V) in
      r ← lru_run c ops; let (c, outs) := (r : LRUCache V * list (option V)) in
      Some (c, out :: outs)
  end.

Fixpoint spec_run (cap : Z) (s : spec_state) (ops : list LruOp) : spec_state * list (option V) :=
  match ops with
  | [] => (s, [])
  | o :: ops =>
      let (s, out) := spec_step cap s o in
      let (s, outs) := spec_run cap s ops in
      (s, out :: outs)
  end.

Definition lru_rep c (cap : Z) (s : spec_state) : Prop :=
  ∃ H T ns, lru_shape c H T ns ∧ capacity_ c = cap ∧
    s = (map pair_of ns, hits_ c, misses_ c).

Lemma lru_step_rep c cap s o :
  lru_rep c cap s →
  ∃ c', lru_step c o = Some (c', snd (spec_step cap s o)) ∧
    lru_rep c' cap (fst (spec_step cap s o)).
Proof.
  intros (H & T & ns & Hc & <- & ->). destruct o as [k|k d|]; simpl.
  - destruct (LRUCache_Get_shape c H T ns k Hc) as (c' & ns' & -> & Hc' & Hl & Hcap & Hh & Hm).
    exists c'. unfold spec_Get in *.
    destruct (spec_lookup (map pair_of ns) k) as [d|]; simpl in *; (split; [done|]);
      (exists H, T, ns'; split_and!; [done|congruence|by rewrite Hl, Hh, Hm]).
  - destruct (LRUCache_Insert_shape c H T ns k d Hc) as (c' & ns' & -> & Hc' & Hl & Hcap & Hh & Hm).
    exists c'. split; [done|]. exists H, T, ns'. split_and!; [done|done|by rewrite Hl, Hh, Hm].
  - destruct (LRUCache_Clear_shape c H T ns Hc) as (c' & -> & Hc' & Hcap & Hh & Hm).
    exists c'. split; [done|]. exists H, T, []. split_and!; [done|done|by rewrite Hh, Hm].
Qed.

Lemma lru_run_rep c cap s ops :
  lru_rep c cap s →
  ∃ c', lru_run c ops = Some (c', snd (spec_run cap s ops)) ∧
    lru_rep c' cap (fst (spec_run cap s ops)).
Proof.
  revert c s. induction ops as [|o ops IH]; intros c s Hc; simpl; [by exists c|].
  destruct (lru_step_rep c cap s o Hc) as (c1 & -> & Hc1). cbn [mbind option_bind].
  destruct (spec_step cap s o) as [s1 out]. simpl in *.
  destruct (IH c1 s1 Hc1) as (c2 & -> & Hc2). cbn [mbind option_bind].
  destruct (spec_run cap s1 ops) as [s2 outs]. simpl in *. by exists c2.
Qed.
End Shape.
Arguments ent : clear implicits.
Arguments LruOp : clear implicits.

(** ** A cache of correct data

    What a client needs: if every pair inserted satisfies [ok], so does every
    hit. *)

Section Coherence.
Context {V : Type} (ok : bytes → V → Prop).

Definition cache_coherent (c : LRUCache V) : Prop :=
  ∃ cap l hits misses, lru_rep c cap (l, hits, misses) ∧ Forall (λ kd, ok (fst kd) (snd kd)) l.

Lemma spec_lookup_ok (l : lru_list V) k d :
  Forall (λ kd, ok (fst kd) (snd kd)) l → spec_lookup l k = Some d → ok k d.
Proof.
  induction 1 as [|[k' d'] l Hk Hl IH]; simpl; [done|].
  case_bool_decide; [|done]. subst. by intros [= ->].
Qed.

Lemma spec_remove_ok (l : lru_list V) k :
  Forall (λ kd, ok (fst kd) (snd kd)) l →
  Forall (λ kd, ok (fst kd) (snd kd)) (spec_remove l k).
Proof.
  induction 1 as [|[k' d'] l Hk Hl IH]; simpl; [done|]. case_bool_decide; [done|by constructor].
Qed.

Lemma cache_new_coherent d0 cap :
  0 <= cap → ∃ c, LRUCache_new d0 cap = Some c ∧ cache_coherent c.
Proof.
  intros Hcap. destruct (ls_new d0 cap Hcap) as (c & H & T & Hn & Hs & Hc & Hh & Hm).
  exists c. split; [done|]. exists (capacity_ c), [], (hits_ c), (misses_ c). split; [|done].
  by exists H, T, [].
Qed.

Lemma cache_get_coherent c k :
  cache_coherent c →
  ∃ c' res, LRUCache_Get c k = Some (c', res) ∧ cache_coherent c' ∧
    (∀ d, res = Some d → ok k d).
Proof.
  intros (cap & l & h & m & Hc & Hl).
  destruct (lru_step_rep c cap _ (LGet k) Hc) as (c' & Hs & Hc'). simpl in Hs, Hc'.
  unfold spec_Get in *.
  destruct (spec_lookup l k) as [d|] eqn:E; simpl in *; do 2 eexists; (split; [exact Hs|]).
  - split.
    + do 4 eexists. split; [exact Hc'|]. constructor; [by eapply spec_lookup_ok|].
      by apply spec_remove_ok.
    + intros d' [= <-]. by eapply spec_lookup_ok.
  - split; [|done]. do 4 eexists. by split.
Qed.

Lemma cache_insert_coherent c k d :
  cache_coherent c → ok k d → ∃ c', LRUCache_Insert c k d = Some c' ∧ cache_coherent c'.
Proof.
  intros (cap & l & h & m & Hc & Hl) Hd.
  destruct (lru_step_rep c cap _ (LInsert k d) Hc) as (c' & Hs & Hc'). simpl in Hs, Hc'.
  destruct (LRUCache_Insert c k d) as [c1|]; simplify_eq/=. exists c'. split; [done|].
  do 4 eexists. split; [exact Hc'|]. unfold spec_Insert.
  destruct (spec_lookup l k); constructor; try done; [by apply spec_remove_ok|].
  case_Z; [|done]. unfold spec_evict. by apply Forall_take.
Qed.

End Coherence.

(** A cleared cache is correct for any purpose. *)
Lemma cache_clear_coherent_nil {V} (c : LRUCache V) :
  (∃ ok, cache_coherent ok c) →
  ∃ c', LRUCache_Clear c = Some c' ∧ ∀ ok, cache_coherent ok c'.
Proof.
  intros (ok & cap & l & h & m & Hc & Hl).
  destruct (lru_step_rep c cap _ LClear Hc) as (c' & Hs & Hc'). simpl in Hs, Hc'.
  destruct (LRUCache_Clear c) as [c1|]; simplify_eq/=. exists c'. split; [done|].
  intros ok'. do 4 eexists. split; [exact Hc'|]. done.
Qed.

(** * Properties *)

(** C21: whatever sequence of calls a cache serves, no pointer is misused, every
    [Get] answers as the list of pairs ordered by last use does, the capacity
    is never exceeded, the pair dropped at a full insertion is the one used
    longest ago, the counters count the hits and the misses, and the destructor
    frees every node. *)
Theorem LRUCache_implements_lru_list {V} (d0 : V) (capacity : Z) (ops : list (LruOp V))
    (Hcap : 0 <= capacity) :
  ∃ c0 c, LRUCache_new d0 capacity = Some c0 ∧
    let '(l, hits, misses, outs) := spec_run (Z.max 1 capacity) ([], 0, 0) ops in
    lru_run c0 ops = Some (c, outs) ∧
    LRUCache_Size c = zlen l ∧ zlen l <= LRUCache_Capacity c ∧
    LRUCache_Capacity c = Z.max 1 capacity ∧ NoDup (map fst l) ∧
    LRUCache_Hits c = hits ∧ LRUCache_Misses c = misses ∧
    LRUCache_delete c = Some ∅.
Proof.
  destruct (ls_new d0 capacity Hcap) as (c0 & H & T & Hnew & Hs & Hc & Hh & Hm).
  destruct (lru_run_rep c0 (Z.max 1 capacity) ([], 0, 0) ops) as (c & Hrun & Hrep).
  { exists H, T, []. by rewrite Hh, Hm. }
  exists c0, c. split; [done|].
  destruct (spec_run (Z.max 1 capacity) ([], 0, 0) ops) as [[[l hits] misses] outs].
  destruct Hrep as (H' & T' & ns & Hs' & Hcap' & [= -> -> ->]).
  pose proof (ls_cap _ _ _ _ Hs') as Hle. pose proof (ls_keys _ _ _ _ Hs').
  unfold LRUCache_Capacity, LRUCache_Size. rewrite (ls_size _ _ _ _ Hs').
  unfold zlen in *. rewrite length_map.
  split_and!; try done. { by rewrite map_map. }
  by eapply LRUCache_delete_shape.
Qed.

Lemma LRUCache_implements_lru_list_witness :
  ∃ c0 c, LRUCache_new 0%nat 2 = Some c0 ∧
    lru_run c0 [LInsert (str "a") 1%nat; LInsert (str "b") 2%nat; LGet (str "a");
                LInsert (str "c") 3%nat; LGet (str "b"); LGet (str "a")] =
      Some (c, [None; None; Some 1%nat; None; None; Some 1%nat]) ∧
    LRUCache_Hits c = 2 ∧ LRUCache_delete c = Some ∅.
Proof.
  destruct (LRUCache_implements_lru_list 0%nat 2
    [LInsert (str "a") 1%nat; LInsert (str "b") 2%nat; LGet (str "a");
     LInsert (str "c") 3%nat; LGet (str "b"); LGet (str "a")] ltac:(lia))
    as (c0 & c & Hn & Hr & _ & _ & _ & _ & Hh & _ & Hd).
  exists c0, c. split; [exact Hn|]. split; [exact Hr|]. split; [exact Hh|exact Hd].
Defined.

(** No two blocks share a cache key: the file name and the offset are both
    read back from "name:offset", colons in the name included. *)
Theorem MakeCacheKey_inj (f1 f2 : bytes) (o1 o2 : Z)
    (H1 : 0 <= o1) (H2 : 0 <= o2) (H : MakeCacheKey f1 o1 = MakeCacheKey f2 o2) :
  f1 = f2 ∧ o1 = o2.
Proof.
  unfold MakeCacheKey in H. change (str ":") with [x3a] in H. simpl in H.
  apply app_sep_inj in H as [-> Ho]; [|apply to_string_no_colon..].
  split; [done|]. by apply to_string_inj.
Qed.

Lemma MakeCacheKey_inj_witness :
  let k := MakeCacheKey (str "./data/a:1.sst") 4096 in
  MakeCacheKey (str "./data/a:1.sst") 4096 = k ∧
  (str "./data/a:1.sst", 4096) = (str "./data/a:1.sst", 4096).
Proof.
  intros k. split; [reflexivity|].
  destruct (MakeCacheKey_inj (str "./data/a:1.sst") (str "./data/a:1.sst") 4096 4096) as [E1 E2];
    [lia|lia|reflexivity|]. f_equal; assumption.
Defined.
