(* ===== verification/Bloom.v ===== *)
(** The Bloom filter of an SSTable: src/engine/BloomFilter.h. *)
From S2P Require Import Prelude Coding.

(** * Definitions *)

Record BloomFilter := mkBloom {
  bits_ : Z;
  num_hashes_ : Z;
  data_ : bytes;
}.

(** [BloomFilter(int entries, int bits_per_key)].  The product is an [int]; it
    has no result when it overflows.  [0.69 * bits_per_key] is written as a
    truncated quotient, which is exact for 10, the only value the program
    uses. *)
Definition BloomFilter_new (entries bits_per_key : Z) : option BloomFilter :=
  let p := entries * bits_per_key in
  guarded ((- 2 ^ 31 <=? p) && (p <? 2 ^ 31))
    (let bits := u64 p in
     let bits := if bits <? 64 then 64 else bits in
     let bits := u64 (bits + 7) / 8 * 8 in
     let n := Z.quot (69 * bits_per_key) 100 in
     Some (mkBloom bits (if n <? 1 then 1 else n)
             (replicate (Z.to_nat (bits / 8)) x00))).

(** [BloomFilter(const std::string &raw_data)]. *)
Definition BloomFilter_restore (raw_data : bytes) : BloomFilter :=
  match raw_data with
  | [] => mkBloom 0 1 []
  | n :: data => mkBloom (zlen data * 8) (byte.unsigned n) data
  end.

(** [data_[bit_pos / 8] |= (1 << (bit_pos % 8))], with [bit_pos = h % bits_]:
    no result on a division by zero or outside the vector. *)
Definition set_bit (bf : BloomFilter) (h : Z) : option BloomFilter :=
  guarded (negb (bits_ bf =? 0))
    (let bit_pos := h mod bits_ bf in
     let i := Z.to_nat (bit_pos / 8) in
     b ← data_ bf !! i;
     let b := byte.of_Z (Z.lor (byte.unsigned b) (Z.shiftl 1 (bit_pos mod 8))) in
     Some (mkBloom (bits_ bf) (num_hashes_ bf) (<[i := b]> (data_ bf)))).

Definition test_bit (bf : BloomFilter) (h : Z) : option bool :=
  guarded (negb (bits_ bf =? 0))
    (let bit_pos := u32 (h mod bits_ bf) in
     b ← data_ bf !! Z.to_nat (bit_pos / 8);
     Some (negb (Z.land (byte.unsigned b) (Z.shiftl 1 (bit_pos mod 8)) =? 0))).

(** [for (int i = 0; i < num_hashes_; ++i)] of [Add] and of [MayContain]. *)
Fixpoint Add_loop (n : nat) (bf : BloomFilter) (h : Z) (key : bytes) : option BloomFilter :=
  match n with
  | O => Some bf
  | S n => bf ← set_bit bf h; Add_loop n bf (ValueCRC32 h key) key
  end.

Fixpoint MayContain_loop (n : nat) (bf : BloomFilter) (h : Z) (key : bytes) : option bool :=
  match n with
  | O => Some true
  | S n =>
      b ← test_bit bf h;
      if (b : bool) then MayContain_loop n bf (ValueCRC32 h key) key else Some false
  end.

Definition BloomFilter_Add (bf : BloomFilter) (key : bytes) : option BloomFilter :=
  Add_loop (Z.to_nat (num_hashes_ bf)) bf (ValueCRC32 0 key) key.

Definition BloomFilter_MayContain (bf : BloomFilter) (key : bytes) : option bool :=
  if bool_decide (data_ bf = []) then Some true
  else MayContain_loop (Z.to_nat (num_hashes_ bf)) bf (ValueCRC32 0 key) key.

Definition BloomFilter_RawData (bf : BloomFilter) : bytes := data_ bf.
Definition BloomFilter_NumHashes (bf : BloomFilter) : Z := num_hashes_ bf.

Definition BloomFilter_Add_all (bf : BloomFilter) (keys : list bytes) : option BloomFilter :=
  foldl (λ bf k, bf ← bf; BloomFilter_Add bf k) (Some bf) keys.

(** * Lemmas *)

(** The filter's shape: a whole number of bytes, addressable in 32 bits. *)
Definition bloom_wf (bf : BloomFilter) : Prop :=
  bits_ bf = zlen (data_ bf) * 8 ∧ 0 < bits_ bf ∧ 0 <= num_hashes_ bf < 256.

Definition bit_at (bf : BloomFilter) (h : Z) : bool :=
  match data_ bf !! Z.to_nat (h mod bits_ bf / 8) with
  | Some b => Z.testbit (byte.unsigned b) ((h mod bits_ bf) mod 8)
  | None => false
  end.

Lemma bloom_index bf h :
  bloom_wf bf → is_Some (data_ bf !! Z.to_nat (h mod bits_ bf / 8)).
Proof.
  intros (Hb & Hp & _). apply lookup_lt_is_Some_2.
  pose proof (Z.mod_pos_bound h (bits_ bf) Hp).
  enough (h mod bits_ bf / 8 < zlen (data_ bf)) by (unfold zlen in *; lia).
  apply Z.div_lt_upper_bound; lia.
Qed.

Lemma land_pow2_testbit b k :
  0 <= k → negb (Z.land b (Z.shiftl 1 k) =? 0) = Z.testbit b k.
Proof.
  intros Hk. rewrite Z.shiftl_1_l.
  destruct (Z.testbit b k) eqn:E.
  - apply negb_true_iff, Z.eqb_neq. intros H0.
    assert (Z.testbit (Z.land b (2 ^ k)) k = false) as Ht by (rewrite H0; apply Z.bits_0).
    rewrite Z.land_spec, E, Z.pow2_bits_true in Ht by done. done.
  - apply negb_false_iff, Z.eqb_eq, Z.bits_inj'. intros j Hj.
    rewrite Z.land_spec, Z.bits_0, Z.pow2_bits_eqb by done.
    destruct (Z.eqb_spec k j) as [->|]; [by rewrite E|apply andb_false_r].
Qed.

Lemma test_bit_spec bf h :
  bloom_wf bf → bits_ bf < 2 ^ 32 → test_bit bf h = Some (bit_at bf h).
Proof.
  intros Hwf H32. destruct (bloom_index bf h Hwf) as [b Hb].
  destruct Hwf as (_ & Hp & _). pose proof (Z.mod_pos_bound h (bits_ bf) Hp).
  unfold test_bit, bit_at. destruct (Z.eqb_spec (bits_ bf) 0); [lia|].
  rewrite u32_small by lia. cbn [negb guarded]. rewrite Hb. cbn [mbind option_bind].
  rewrite land_pow2_testbit; [done|]. apply Z.mod_pos_bound. lia.
Qed.

Lemma byte_lor_testbit b k j :
  0 <= k < 8 → 0 <= j < 8 →
  Z.testbit (byte.unsigned (byte.of_Z (Z.lor (byte.unsigned b) (Z.shiftl 1 k)))) j =
    (j =? k) || Z.testbit (byte.unsigned b) j.
Proof.
  intros Hk Hj. rewrite byte_unsigned_of_Z. change 256 with (2 ^ 8).
  rewrite Z.mod_pow2_bits_low by lia. rewrite Z.lor_spec, Z.shiftl_1_l, Z.pow2_bits_eqb by lia.
  rewrite orb_comm. f_equal. apply Z.eqb_sym.
Qed.

Lemma set_bit_spec bf h :
  bloom_wf bf →
  ∃ bf', set_bit bf h = Some bf' ∧ bloom_wf bf' ∧ bits_ bf' = bits_ bf ∧
    num_hashes_ bf' = num_hashes_ bf ∧ bit_at bf' h = true ∧
    (∀ h', bit_at bf h' = true → bit_at bf' h' = true).
Proof.
  intros Hwf. destruct (bloom_index bf h Hwf) as [b Hb]. pose proof Hwf as (Hbits & Hp & Hn).
  unfold set_bit. destruct (Z.eqb_spec (bits_ bf) 0); [lia|]. cbn [negb guarded].
  rewrite Hb. cbn [mbind option_bind]. eexists. split; [done|].
  pose proof (lookup_lt_Some _ _ _ Hb) as Hlt.
  pose proof (Z.mod_pos_bound h (bits_ bf) Hp). pose proof (Z.mod_pos_bound (h mod bits_ bf) 8).
  split_and!; [|done|done| |].
  - unfold bloom_wf. simpl. unfold zlen in *. rewrite length_insert. lia.
  - unfold bit_at. simpl. rewrite list_lookup_insert_eq by done.
    rewrite byte_lor_testbit, Z.eqb_refl by lia. done.
  - intros h'. unfold bit_at. simpl.
    destruct (decide (Z.to_nat (h mod bits_ bf / 8) = Z.to_nat (h' mod bits_ bf / 8))) as [Heq|Hne].
    + rewrite <- Heq, list_lookup_insert_eq, Hb by done. intros Ht.
      pose proof (Z.mod_pos_bound (h' mod bits_ bf) 8).
      rewrite byte_lor_testbit, Ht by lia. apply orb_true_r.
    + by rewrite list_lookup_insert_ne.
Qed.

(** The positions [Add] sets and [MayContain] tests. *)
Fixpoint probes (n : nat) (h : Z) (key : bytes) : list Z :=
  match n with O => [] | S n => h :: probes n (ValueCRC32 h key) key end.

Definition all_set (bf : BloomFilter) (key : bytes) : Prop :=
  Forall (λ h, bit_at bf h = true)
    (probes (Z.to_nat (num_hashes_ bf)) (ValueCRC32 0 key) key).

Lemma Add_loop_spec n bf h key :
  bloom_wf bf →
  ∃ bf', Add_loop n bf h key = Some bf' ∧ bloom_wf bf' ∧ bits_ bf' = bits_ bf ∧
    num_hashes_ bf' = num_hashes_ bf ∧ Forall (λ h, bit_at bf' h = true) (probes n h key) ∧
    (∀ h', bit_at bf h' = true → bit_at bf' h' = true).
Proof.
  revert bf h. induction n as [|n IH]; intros bf h Hwf; simpl.
  { exists bf. split_and!; try done. }
  destruct (set_bit_spec bf h Hwf) as (bf1 & -> & Hwf1 & Hb1 & Hn1 & Hh & Hmono).
  cbn [mbind option_bind].
  destruct (IH bf1 (ValueCRC32 h key) Hwf1) as (bf2 & -> & Hwf2 & Hb2 & Hn2 & Hall & Hmono2).
  exists bf2. split_and!; [done|done|congruence|congruence| |by auto].
  constructor; [by apply Hmono2|done].
Qed.

Lemma MayContain_loop_spec n bf h key :
  bloom_wf bf → bits_ bf < 2 ^ 32 →
  Forall (λ h, bit_at bf h = true) (probes n h key) →
  MayContain_loop n bf h key = Some true.
Proof.
  intros Hwf H32. revert h. induction n as [|n IH]; intros h Hall; simpl in *; [done|].
  apply Forall_cons in Hall as [Hh Hall]. rewrite test_bit_spec by done.
  cbn [mbind option_bind]. rewrite Hh. by apply IH.
Qed.

Lemma BloomFilter_Add_all_spec bf keys :
  bloom_wf bf →
  ∃ bf', BloomFilter_Add_all bf keys = Some bf' ∧ bloom_wf bf' ∧ bits_ bf' = bits_ bf ∧
    num_hashes_ bf' = num_hashes_ bf ∧ Forall (all_set bf') keys ∧
    (∀ h', bit_at bf h' = true → bit_at bf' h' = true).
Proof.
  unfold BloomFilter_Add_all. revert bf. induction keys as [|k keys IH]; intros bf Hwf; simpl.
  { exists bf. split_and!; try done. }
  unfold BloomFilter_Add at 2.
  destruct (Add_loop_spec (Z.to_nat (num_hashes_ bf)) bf (ValueCRC32 0 k) k Hwf)
    as (bf1 & -> & Hwf1 & Hb1 & Hn1 & Hk & Hmono).
  destruct (IH bf1 Hwf1) as (bf2 & -> & Hwf2 & Hb2 & Hn2 & Hall & Hmono2).
  exists bf2. split_and!; [done|done|congruence|congruence| |by auto].
  constructor; [|done]. unfold all_set. rewrite Hn2, Hn1.
  eapply Forall_impl; [exact Hk|]. auto.
Qed.

Lemma BloomFilter_MayContain_set bf key :
  bloom_wf bf → bits_ bf < 2 ^ 32 → all_set bf key →
  BloomFilter_MayContain bf key = Some true.
Proof.
  intros Hwf H32 Hall. unfold BloomFilter_MayContain. case_bool_decide; [done|].
  by apply MayContain_loop_spec.
Qed.

Lemma MayContain_loop_total n bf h key :
  bloom_wf bf → bits_ bf < 2 ^ 32 → is_Some (MayContain_loop n bf h key).
Proof.
  intros Hwf H32. revert h. induction n as [|n IH]; intros h; simpl; [by eexists|].
  rewrite test_bit_spec by done. cbn [mbind option_bind].
  destruct (bit_at bf h); [apply IH|by eexists].
Qed.

Lemma BloomFilter_MayContain_total bf key :
  bloom_wf bf → bits_ bf < 2 ^ 32 → is_Some (BloomFilter_MayContain bf key).
Proof.
  intros Hwf H32. unfold BloomFilter_MayContain. case_bool_decide; [by eexists|].
  by apply MayContain_loop_total.
Qed.

Lemma BloomFilter_new_spec entries :
  0 <= entries → entries * 10 < 2 ^ 31 →
  ∃ bf, BloomFilter_new entries 10 = Some bf ∧ bloom_wf bf ∧ bits_ bf < 2 ^ 32 ∧
    num_hashes_ bf = 6.
Proof.
  intros H0 H1. unfold BloomFilter_new.
  destruct (Z.leb_spec (- 2 ^ 31) (entries * 10)); [|lia].
  destruct (Z.ltb_spec (entries * 10) (2 ^ 31)); [|lia]. cbn [andb guarded].
  rewrite (u64_small (entries * 10)) by lia.
  set (b := if entries * 10 <? 64 then 64 else entries * 10).
  assert (64 <= b < 2 ^ 31) as Hb by (unfold b; case_Z; lia).
  rewrite (u64_small (b + 7)) by lia.
  eexists. split; [done|]. unfold bloom_wf. simpl.
  assert (((b + 7) / 8 * 8) / 8 = (b + 7) / 8) as -> by (by rewrite Z.div_mul).
  unfold zlen. rewrite length_replicate.
  pose proof (Z.div_mod (b + 7) 8). pose proof (Z.mod_pos_bound (b + 7) 8).
  split_and!; first [lia | done].
Qed.

(** What the builder writes is the filter the reader restores. *)
Definition bloom_raw (bf : BloomFilter) : bytes :=
  byte.of_Z (BloomFilter_NumHashes bf) :: BloomFilter_RawData bf.

Lemma BloomFilter_restore_raw bf : bloom_wf bf → BloomFilter_restore (bloom_raw bf) = bf.
Proof.
  intros (Hb & _ & Hn). destruct bf as [b n d]. simpl in *.
  by rewrite byte_unsigned_small, Hb by lia.
Qed.

(** * Properties *)

(** C38: the filter has no false negatives: for any number of keys whose bits
    an [int] counts, adding them succeeds, and the filter restored from the
    bytes the builder writes answers that each of them may be present. *)
Theorem BloomFilter_no_false_negative (keys : list bytes) (Hn : zlen keys * 10 < 2 ^ 31) :
  ∃ bf0 bf, BloomFilter_new (zlen keys) 10 = Some bf0 ∧
    BloomFilter_Add_all bf0 keys = Some bf ∧
    ∀ k, k ∈ keys → BloomFilter_MayContain (BloomFilter_restore (bloom_raw bf)) k = Some true.
Proof.
  destruct (BloomFilter_new_spec (zlen keys) (zlen_nonneg _) Hn) as (bf0 & Hnew & Hwf & H32 & _).
  destruct (BloomFilter_Add_all_spec bf0 keys Hwf) as (bf & Hadd & Hwf' & Hb & _ & Hall & _).
  exists bf0, bf. split_and!; [done..|]. intros k Hk.
  rewrite BloomFilter_restore_raw by done.
  apply BloomFilter_MayContain_set; [done|lia|]. rewrite Forall_forall in Hall. by apply Hall.
Qed.

Lemma BloomFilter_no_false_negative_witness :
  ∃ bf0 bf, BloomFilter_new 2 10 = Some bf0 ∧
    BloomFilter_Add_all bf0 [str "a"; str "b"] = Some bf ∧
    ∀ k, k ∈ [str "a"; str "b"] →
      BloomFilter_MayContain (BloomFilter_restore (bloom_raw bf)) k = Some true.
Proof. apply (BloomFilter_no_false_negative [str "a"; str "b"]). reflexivity. Defined.
