(* ===== verification/SSTable.v ===== *)
(** Sorted-string tables: src/engine/SSTableBuilder.{h,cc} and
    SSTableReader.{h,cc}.

    A table file is [DataBlock... | Bloom filter | index block | footer], every
    block followed by its CRC-32.  The builder's writes to its stream are taken
    to succeed; the reader works on the bytes of the file through a stream whose
    fail bit sticks, as that of [std::ifstream] does. *)
From S2P Require Import Prelude Coding Bloom LruCache.

(** * The builder *)

Record SSTableBuilder := mkBuilder {
  b_file_ : bytes;
  b_is_open : bool;
  keys_ : list bytes;
  buffer_ : bytes;
  num_entries_ : Z;
  offset_ : Z;
  index_block_ : bytes;
  last_key_ : bytes;
}.

Definition SSTableBuilder_new : SSTableBuilder := mkBuilder [] true [] [] 0 0 [] [].

Definition FlushDataBlock (b : SSTableBuilder) : option SSTableBuilder :=
  if bool_decide (buffer_ b = []) then Some b
  else
    let crc := ValueCRC32 0xffffffff (buffer_ b) in
    index ← PutLengthPrefixedString (index_block_ b) (last_key_ b);
    index ← PutVarint32 index (u32 (offset_ b));
    index ← PutVarint32 index (u32 (zlen (buffer_ b) + 4));
    let file := b_file_ b ++ buffer_ b ++ EncodeFixed32 crc in
    Some (mkBuilder file (b_is_open b) (keys_ b) [] (num_entries_ b)
            (u64 (offset_ b + (zlen (buffer_ b) + 4))) index (last_key_ b)).

Definition SSTableBuilder_Add (b : SSTableBuilder) (key value : bytes) : option SSTableBuilder :=
  buffer ← PutLengthPrefixedString (buffer_ b) key;
  buffer ← PutLengthPrefixedString buffer value;
  let b := mkBuilder (b_file_ b) (b_is_open b) (keys_ b) buffer (u32 (num_entries_ b + 1))
             (offset_ b) (index_block_ b) key in
  b ← (if 4096 <=? zlen buffer then FlushDataBlock b else Some b);
  Some (mkBuilder (b_file_ b) (b_is_open b) (keys_ b ++ [key]) (buffer_ b) (num_entries_ b)
          (offset_ b) (index_block_ b) (last_key_ b)).

Definition SSTableBuilder_FileSize (b : SSTableBuilder) : Z := offset_ b.

Definition SSTableBuilder_Finish (b : SSTableBuilder) : option (SSTableBuilder * bool) :=
  b ← (if bool_decide (buffer_ b = []) then Some b else FlushDataBlock b);
  bf ← BloomFilter_new (int32 (zlen (keys_ b))) 10;
  bf ← BloomFilter_Add_all bf (keys_ b);
  let filter_offset := offset_ b in
  let bf_data := BloomFilter_RawData bf in
  let num_hashes_byte := byte.of_Z (BloomFilter_NumHashes bf) in
  let file := b_file_ b ++ [num_hashes_byte] ++ bf_data in
  let filter_size := u32 (1 + zlen bf_data) in
  let index_offset := u64 (offset_ b + filter_size) in
  let index_crc := ValueCRC32 0xffffffff (index_block_ b) in
  let file := file ++ index_block_ b ++ EncodeFixed32 index_crc in
  let index_block_size := u32 (zlen (index_block_ b) + 4) in
  let footer := EncodeFixed64 index_offset ++ EncodeFixed32 index_block_size ++
                EncodeFixed64 filter_offset ++ EncodeFixed32 filter_size in
  Some (mkBuilder (file ++ footer) false [] (buffer_ b) (num_entries_ b)
          (u64 (u64 (index_offset + index_block_size) + 24)) (index_block_ b) (last_key_ b), true).

(** [~SSTableBuilder]: a table still open is finished. *)
Definition SSTableBuilder_delete (b : SSTableBuilder) : option SSTableBuilder :=
  if b_is_open b then r ← SSTableBuilder_Finish b; Some (fst r) else Some b.

(** The loop of every client: [for (...) builder.Add(key, value)]. *)
Fixpoint SSTableBuilder_Add_all (b : SSTableBuilder) (kvs : list (bytes * bytes)) :
    option SSTableBuilder :=
  match kvs with
  | [] => Some b
  | (k, v) :: kvs => b ← SSTableBuilder_Add b k v; SSTableBuilder_Add_all b kvs
  end.

(** Build a whole table: the bytes of its file. *)
Definition build_table (kvs : list (bytes * bytes)) : option bytes :=
  b ← SSTableBuilder_Add_all SSTableBuilder_new kvs;
  r ← SSTableBuilder_Finish b;
  Some (b_file_ (fst r)).

(** * The reader *)

(** [BolckData]: the pairs of a block. *)
Abbreviation BlockData := (list (bytes * bytes)).

Record BlockHandle := mkHandle { h_offset : Z; h_size : Z }.

Record SSTableReader := mkReader {
  filename_ : bytes;
  r_file_ : ifstream;
  filter_ : option BloomFilter;
  index_ : smap BlockHandle;
}.

(** Step 5 of [Open]: [while(p < limit)] over the index entries.  [mem] is the
    memory readable from [p] and [left] is [limit - p]. *)
Fixpoint parse_index (fuel : nat) (mem : bytes) (left : Z) (index : smap BlockHandle) :
    option (smap BlockHandle) :=
  match fuel with
  | O => None
  | S fuel =>
      if left <=? 0 then Some index
      else
        r ← DecodeString mem left;
        match r with
        | None => Some index
        | Some (max_string, n) =>
            let mem := drop n mem in
            '(n1, offset) ← DecodeVarint32 mem;
            if n1 <=? 0 then Some index
            else
              let mem := drop (Z.to_nat n1) mem in
              '(n2, size) ← DecodeVarint32 mem;
              if n2 <=? 0 then Some index
              else
                parse_index fuel (drop (Z.to_nat n2) mem) (left - Z.of_nat n - n1 - n2)
                  (smap_insert max_string (mkHandle offset size) index)
        end
  end.

(** [bool Open()] on the bytes of the file, [None] when there is no file; the
    result is the reader and the return value. *)
Definition SSTableReader_Open (filename : bytes) (file : option bytes) :
    option (SSTableReader * bool) :=
  match file with
  | None => Some (mkReader filename (mkStream [] 0 true) None [], false)
  | Some content =>
      let s := mkStream content 0 false in
      let file_size := zlen content in
      if file_size <? 24 then Some (mkReader filename (mkStream content file_size false) None [], false)
      else
        let '(s, footer_buf) := stream_read (seekg s (file_size - 24)) 24 (replicate 24 x00) in
        index_offset ← DecodeFixed64 footer_buf;
        total_index_size ← DecodeFixed32 (drop 8 footer_buf);
        filter_offset ← DecodeFixed64 (drop 12 footer_buf);
        filter_size ← DecodeFixed32 (drop 20 footer_buf);
        let '(s, filter) :=
          if 0 <? filter_size then
            let n := Z.to_nat filter_size in
            let '(s, filter_data) := stream_read (seekg s filter_offset) n (replicate n x00) in
            (s, Some (BloomFilter_restore filter_data))
          else (s, None) in
        let n := Z.to_nat total_index_size in
        let '(s, full_index_data) := stream_read (seekg s index_offset) n (replicate n x00) in
        let index_data_size := u32 (total_index_size - 4) in
        saved_crc ← DecodeFixed32 (drop (Z.to_nat index_data_size) (full_index_data ++ [x00]));
        let actual_crc :=
          ValueCRC32 0xffffffff (take (Z.to_nat index_data_size) full_index_data) in
        if negb (saved_crc =? actual_crc) then Some (mkReader filename s filter [], false)
        else
          index ← parse_index (S n) (full_index_data ++ [x00]) index_data_size [];
          Some (mkReader filename s filter index, true)
  end.

(** Step 4 of [ReadDataBlock]: [while(p < limit)] over the pairs. *)
Fixpoint parse_block (fuel : nat) (mem : bytes) (left : Z) (out : BlockData) : option BlockData :=
  match fuel with
  | O => None
  | S fuel =>
      if left <=? 0 then Some out
      else
        r ← DecodeString mem left;
        match r with
        | None => Some out
        | Some (k, n) =>
            let mem := drop n mem in
            let left := left - Z.of_nat n in
            r ← DecodeString mem left;
            match r with
            | None => Some out
            | Some (v, n) =>
                parse_block fuel (drop n mem) (left - Z.of_nat n) (out ++ [(k, v)])
            end
        end
  end.

(** Steps 2 to 4 of [ReadDataBlock]: read a block from the file, check its CRC
    and parse it; the pairs on [true]. *)
Definition read_block_file (s : ifstream) (offset size : Z) :
    option (ifstream * option BlockData) :=
  let n := Z.to_nat size in
  let '(s, full_block_data) := stream_read (seekg s offset) n (replicate n x00) in
  let block_data_size := u32 (size - 4) in
  saved_crc ← DecodeFixed32 (drop (Z.to_nat block_data_size) (full_block_data ++ [x00]));
  let actual_crc :=
    ValueCRC32 0xffffffff (take (Z.to_nat block_data_size) full_block_data) in
  if negb (saved_crc =? actual_crc) then Some (s, None)
  else
    out ← parse_block (S n) (full_block_data ++ [x00]) block_data_size [];
    Some (s, Some out).

Definition set_file (r : SSTableReader) (s : ifstream) : SSTableReader :=
  mkReader (filename_ r) s (filter_ r) (index_ r).

(** The cache a reader is given, or [nullptr]. *)
Abbreviation cache_ptr := (option (LRUCache BlockData)).

(** [bool ReadDataBlock(offset, size, out)], [*out] empty at the call. *)
Definition ReadDataBlock (r : SSTableReader) (cache_ : cache_ptr) (offset size : Z) :
    option (SSTableReader * cache_ptr * option BlockData) :=
  let cache_key := MakeCacheKey (filename_ r) offset in
  '(cache_, hit) ← (match cache_ with
                    | None => Some (None, None)
                    | Some c => '(c, hit) ← LRUCache_Get c cache_key; Some (Some c, hit)
                    end);
  match hit with
  | Some out => Some (r, cache_, Some out)
  | None =>
      '(s, res) ← read_block_file (r_file_ r) offset size;
      match res with
      | None => Some (set_file r s, cache_, None)
      | Some out =>
          cache_ ← (match cache_ with
                    | None => Some None
                    | Some c => c ← LRUCache_Insert c cache_key out; Some (Some c)
                    end);
          Some (set_file r s, cache_, Some out)
      end
  end.

(** The linear scan of a block. *)
Fixpoint scan (key : bytes) (entries : BlockData) : option bytes :=
  match entries with
  | [] => None
  | (k, v) :: entries => if bool_decide (key = k) then Some v else scan key entries
  end.

(** [bool Get(key, value)]: the value on [true]. *)
Definition SSTableReader_Get (r : SSTableReader) (cache_ : cache_ptr) (key : bytes) :
    option (SSTableReader * cache_ptr * option bytes) :=
  may ← (match filter_ r with
         | Some bf => BloomFilter_MayContain bf key
         | None => Some true
         end);
  if negb may then Some (r, cache_, None)
  else
    match smap_lower_bound key (index_ r) with
    | None => Some (r, cache_, None)
    | Some (_, h) =>
        '(r, cache_, res) ← ReadDataBlock r cache_ (h_offset h) (h_size h);
        match res with
        | None => Some (r, cache_, None)
        | Some entries => Some (r, cache_, scan key entries)
        end
    end.

(** [for (const auto &[max_key, handle] : index_)] of [NewIterator]. *)
Fixpoint read_blocks (r : SSTableReader) (cache_ : cache_ptr) (hs : list (bytes * BlockHandle))
    (entries : BlockData) : option (SSTableReader * cache_ptr * BlockData) :=
  match hs with
  | [] => Some (r, cache_, entries)
  | (_, h) :: hs =>
      '(r, cache_, res) ← ReadDataBlock r cache_ (h_offset h) (h_size h);
      read_blocks r cache_ hs
        (match res with Some block_entries => entries ++ block_entries | None => entries end)
  end.

(** ** [SSTableReader::Iterator] *)

Record SSTIterator := mkIter { entries_ : BlockData; pos_ : nat }.

Definition SSTableReader_NewIterator (r : SSTableReader) (cache_ : cache_ptr) :
    option (SSTableReader * cache_ptr * SSTIterator) :=
  '(r, cache_, entries) ← read_blocks r cache_ (index_ r) [];
  Some (r, cache_, mkIter entries 0).

Definition SeekToFirst (it : SSTIterator) : SSTIterator := mkIter (entries_ it) 0.

(** [while(lo < hi)] of [Seek]. *)
Fixpoint Seek_loop (fuel : nat) (entries : BlockData) (target : bytes) (lo hi : nat) : option nat :=
  match fuel with
  | O => None
  | S fuel =>
      if (lo <? hi)%nat then
        let mid := ((lo + hi) / 2)%nat in
        e ← entries !! mid;
        if bytes_ltb (fst e) target then Seek_loop fuel entries target (S mid) hi
        else Seek_loop fuel entries target lo mid
      else Some lo
  end.

Definition Seek (it : SSTIterator) (target : bytes) : option SSTIterator :=
  pos ← Seek_loop (S (length (entries_ it))) (entries_ it) target 0 (length (entries_ it));
  Some (mkIter (entries_ it) pos).

Definition SSTIterator_Valid (it : SSTIterator) : bool := (pos_ it <? length (entries_ it))%nat.

Definition SSTIterator_Next (it : SSTIterator) : SSTIterator :=
  if SSTIterator_Valid it then mkIter (entries_ it) (S (pos_ it)) else it.

Definition SSTIterator_Key (it : SSTIterator) : option bytes := fst <$> entries_ it !! pos_ it.
Definition SSTIterator_Value (it : SSTIterator) : option bytes := snd <$> entries_ it !! pos_ it.

(** A sequence of lookups through one reader and one cache. *)
Fixpoint get_all (r : SSTableReader) (c : cache_ptr) (keys : list bytes) :
    option (SSTableReader * cache_ptr * list (option bytes)) :=
  match keys with
  | [] => Some (r, c, [])
  | key :: keys =>
      '(r, c, v) ← SSTableReader_Get r c key;
      '(r, c, vs) ← get_all r c keys;
      Some (r, c, v :: vs)
  end.

(** * What the builder writes *)

Definition enc_kv (kv : bytes * bytes) : bytes := enc_str (fst kv) ++ enc_str (snd kv).
Definition enc_kvs (kvs : list (bytes * bytes)) : bytes := concat (map enc_kv kvs).

(** Keys and values whose lengths a [uint32_t] holds. *)
Definition kv32 (kv : bytes * bytes) : Prop := zlen (fst kv) < 2 ^ 32 ∧ zlen (snd kv) < 2 ^ 32.

(** The data of a block has to leave room for the CRC in a one-byte length:
    [EncodeVarint32] writes past its buffer from 128 on. *)
Definition max_block : Z := 123.

Lemma FlushDataBlock_big b :
  max_block < zlen (buffer_ b) < 2 ^ 32 - 4 → FlushDataBlock b = None.
Proof.
  unfold max_block. intros Hb. unfold FlushDataBlock. case_bool_decide as He.
  { rewrite He in Hb. change (zlen (@nil byte)) with 0 in Hb. lia. }
  destruct (PutLengthPrefixedString _ _) as [i1|]; [|done]. cbn [mbind option_bind].
  destruct (PutVarint32 i1 _) as [i2|]; [|done]. cbn [mbind option_bind].
  unfold PutVarint32. rewrite EncodeVarint32_big; [done|]. rewrite u32_small; lia.
Qed.

(** One [Add]: what it needs and what it does while no block is full. *)
Lemma SSTableBuilder_Add_Some b k v :
  zlen k < 128 → zlen v < 128 → zlen (buffer_ b ++ enc_kv (k, v)) < 4096 →
  SSTableBuilder_Add b k v =
    Some (mkBuilder (b_file_ b) (b_is_open b) (keys_ b ++ [k]) (buffer_ b ++ enc_kv (k, v))
            (u32 (num_entries_ b + 1)) (offset_ b) (index_block_ b) k).
Proof.
  intros Hk Hv Hb. unfold SSTableBuilder_Add. rewrite !PutLengthPrefixedString_EncodeString.
  rewrite EncodeString_Some by done. cbn [mbind option_bind].
  rewrite PutLengthPrefixedString_EncodeString, EncodeString_Some by done. cbn [mbind option_bind].
  rewrite <- app_assoc. change (enc_str k ++ enc_str v) with (enc_kv (k, v)).
  destruct (Z.leb_spec 4096 (zlen (buffer_ b ++ enc_kv (k, v)))); [lia|]. done.
Qed.

Lemma SSTableBuilder_Add_inv b k v b' :
  kv32 (k, v) → zlen (buffer_ b) < 4096 → SSTableBuilder_Add b k v = Some b' →
  zlen k < 128 ∧ zlen v < 128 ∧ zlen (buffer_ b ++ enc_kv (k, v)) < 4096.
Proof.
  intros [Hk Hv] Hb H. unfold SSTableBuilder_Add in H. simpl in Hk, Hv.
  rewrite !PutLengthPrefixedString_EncodeString in H.
  apply bind_Some in H as (b1 & H1 & H). apply EncodeString_inv in H1 as [Hk' ->]; [|done].
  apply bind_Some in H as (b2 & H2 & H). rewrite PutLengthPrefixedString_EncodeString in H2.
  apply EncodeString_inv in H2 as [Hv' ->]; [|done].
  rewrite <- app_assoc in H. change (enc_str k ++ enc_str v) with (enc_kv (k, v)) in H.
  split_and!; [done..|].
  destruct (Z.leb_spec 4096 (zlen (buffer_ b ++ enc_kv (k, v)))); [|done].
  rewrite FlushDataBlock_big in H; [done|]. simpl. unfold max_block, enc_kv in *. simpl in *.
  autorewrite with ms_len in *. lia.
Qed.

Definition last_key (k : bytes) (kvs : list (bytes * bytes)) : bytes :=
  match last kvs with Some kv => fst kv | None => k end.

Lemma Add_all_Some b kvs :
  zlen (buffer_ b ++ enc_kvs kvs) < 4096 →
  Forall (λ kv, zlen (fst kv) < 128 ∧ zlen (snd kv) < 128) kvs →
  SSTableBuilder_Add_all b kvs =
    Some (mkBuilder (b_file_ b) (b_is_open b) (keys_ b ++ map fst kvs) (buffer_ b ++ enc_kvs kvs)
            (if kvs is [] then num_entries_ b else u32 (num_entries_ b + zlen kvs)) (offset_ b)
            (index_block_ b) (last_key (last_key_ b) kvs)).
Proof.
  intros Hb Hf. revert b Hb. induction Hf as [|[k v] kvs [Hk Hv] Hf IH]; intros b Hb.
  { simpl. unfold enc_kvs. simpl. rewrite !app_nil_r. by destruct b. }
  cbn [SSTableBuilder_Add_all]. unfold enc_kvs in *. cbn [map concat] in *.
  pose proof (zlen_nonneg (concat (map enc_kv kvs))).
  rewrite SSTableBuilder_Add_Some; [|done..|autorewrite with ms_len in *; lia].
  cbn [mbind option_bind]. rewrite IH by (simpl; by rewrite <- app_assoc). simpl.
  rewrite <- !app_assoc. do 2 f_equal.
  - unfold enc_kv, enc_str. simpl. by rewrite <- app_assoc.
  - destruct kvs as [|kv kvs]; [done|]. autorewrite with ms_len. wrap_lia.
  - unfold last_key. rewrite last_cons. by destruct (last kvs).
Qed.

Lemma Add_all_inv b kvs b' :
  Forall kv32 kvs → zlen (buffer_ b) < 4096 → SSTableBuilder_Add_all b kvs = Some b' →
  Forall (λ kv, zlen (fst kv) < 128 ∧ zlen (snd kv) < 128) kvs ∧
  zlen (buffer_ b ++ enc_kvs kvs) < 4096.
Proof.
  intros Hf. revert b. induction Hf as [|[k v] kvs Hkv Hf IH]; intros b Hb H.
  { unfold enc_kvs. simpl. by rewrite app_nil_r. }
  cbn [SSTableBuilder_Add_all] in H. apply bind_Some in H as (b1 & H1 & H).
  pose proof (SSTableBuilder_Add_inv _ _ _ _ Hkv Hb H1) as (Hk & Hv & Hb1).
  rewrite SSTableBuilder_Add_Some in H1 by done. injection H1 as <-.
  apply IH in H as [Hall Hlen]; [|done]. simpl in Hlen. rewrite <- app_assoc in Hlen.
  split; [by constructor|done].
Qed.

(** ** The whole file *)

Definition with_crc (data : bytes) : bytes :=
  data ++ EncodeFixed32 (ValueCRC32 0xffffffff data).

Definition block_bytes (kvs : list (bytes * bytes)) : bytes :=
  if kvs is [] then [] else with_crc (enc_kvs kvs).

Definition index_bytes (kvs : list (bytes * bytes)) : bytes :=
  if kvs is [] then []
  else enc_str (last_key [] kvs) ++ [byte.of_Z 0; byte.of_Z (zlen (enc_kvs kvs) + 4)].

Definition table_bytes (kvs : list (bytes * bytes)) (bf : BloomFilter) : bytes :=
  block_bytes kvs ++ bloom_raw bf ++ with_crc (index_bytes kvs) ++
  EncodeFixed64 (zlen (block_bytes kvs) + zlen (bloom_raw bf)) ++
  EncodeFixed32 (zlen (index_bytes kvs) + 4) ++
  EncodeFixed64 (zlen (block_bytes kvs)) ++ EncodeFixed32 (zlen (bloom_raw bf)).

(** The filter of a table: all its keys, in a small vector. *)
Definition table_filter (kvs : list (bytes * bytes)) (bf : BloomFilter) : Prop :=
  bloom_wf bf ∧ bits_ bf < 2 ^ 12 ∧ Forall (all_set bf) (map fst kvs).

Lemma enc_kv_length kv : zlen (enc_kv kv) = 2 + zlen (fst kv) + zlen (snd kv).
Proof. unfold enc_kv. autorewrite with ms_len. lia. Qed.

Lemma enc_kvs_cons kv kvs : enc_kvs (kv :: kvs) = enc_kv kv ++ enc_kvs kvs.
Proof. done. Qed.

Lemma enc_kvs_bounds kvs :
  2 * zlen kvs <= zlen (enc_kvs kvs) ∧
  Forall (λ kv, zlen (fst kv) <= zlen (enc_kvs kvs) - 2 ∧
                zlen (snd kv) <= zlen (enc_kvs kvs) - 2) kvs.
Proof.
  induction kvs as [|kv kvs [IH1 IH2]]; [by split|]. rewrite enc_kvs_cons.
  autorewrite with ms_len. rewrite enc_kv_length.
  pose proof (zlen_nonneg (fst kv)). pose proof (zlen_nonneg (snd kv)).
  pose proof (zlen_nonneg (enc_kvs kvs)). pose proof (zlen_nonneg kvs).
  split; [lia|]. constructor; [lia|]. eapply Forall_impl; [exact IH2|]. simpl. lia.
Qed.

Lemma last_key_bound kvs :
  kvs ≠ [] → zlen (last_key [] kvs) <= zlen (enc_kvs kvs) - 2.
Proof.
  intros Hne. unfold last_key. destruct (last kvs) as [kv|] eqn:E.
  - pose proof (proj2 (enc_kvs_bounds kvs)) as Hf. rewrite Forall_forall in Hf.
    apply last_Some_elem_of in E. by apply Hf.
  - by apply last_None in E.
Qed.

Lemma enc_kvs_nil kvs : enc_kvs kvs = [] → kvs = [].
Proof.
  intros H. pose proof (proj1 (enc_kvs_bounds kvs)) as Hb. rewrite H in Hb.
  destruct kvs as [|kv kvs]; [done|]. autorewrite with ms_len in Hb.
  pose proof (zlen_nonneg kvs). lia.
Qed.

Lemma EncodeFixed32_length v : length (EncodeFixed32 v) = 4%nat.
Proof. done. Qed.
Lemma EncodeFixed64_length v : length (EncodeFixed64 v) = 8%nat.
Proof. done. Qed.
Lemma EncodeFixed32_zlen v : zlen (EncodeFixed32 v) = 4.
Proof. done. Qed.
Lemma EncodeFixed64_zlen v : zlen (EncodeFixed64 v) = 8.
Proof. done. Qed.
#[local] Hint Rewrite EncodeFixed32_zlen EncodeFixed64_zlen enc_kv_length : ms_len.

Lemma index_bytes_length kvs :
  zlen (enc_kvs kvs) <= max_block → zlen (index_bytes kvs) <= 126.
Proof.
  intros Hm. unfold index_bytes, max_block in *. destruct kvs as [|kv kvs]; [done|].
  pose proof (last_key_bound (kv :: kvs) ltac:(done)). autorewrite with ms_len. lia.
Qed.

Lemma block_bytes_length kvs :
  zlen (enc_kvs kvs) <= max_block → zlen (block_bytes kvs) <= 127.
Proof.
  intros Hm. unfold block_bytes, with_crc, max_block in *. destruct kvs; [done|].
  autorewrite with ms_len. lia.
Qed.

Lemma bloom_raw_length kvs bf :
  table_filter kvs bf → 2 <= zlen (bloom_raw bf) <= 513.
Proof.
  intros ((Hb & Hp & _) & Hs & _). unfold bloom_raw, BloomFilter_RawData.
  autorewrite with ms_len. lia.
Qed.

(** The filter [Finish] builds. *)
Lemma Finish_filter kvs :
  zlen (enc_kvs kvs) <= max_block →
  ∃ bf0 bf, BloomFilter_new (int32 (zlen (map fst kvs))) 10 = Some bf0 ∧
    BloomFilter_Add_all bf0 (map fst kvs) = Some bf ∧ table_filter kvs bf.
Proof.
  unfold max_block. intros Hm. pose proof (proj1 (enc_kvs_bounds kvs)) as Hb.
  assert (zlen (map fst kvs) = zlen kvs) as -> by (unfold zlen; by rewrite length_map).
  pose proof (zlen_nonneg kvs). rewrite int32_small by lia.
  destruct (BloomFilter_new_spec (zlen kvs)) as (bf0 & Hnew & Hwf & _ & _); [lia..|].
  destruct (BloomFilter_Add_all_spec bf0 (map fst kvs) Hwf) as (bf & Hadd & Hwf' & Hb' & _ & Hall & _).
  exists bf0, bf. split_and!; [done..|]. split_and!; [done| |done].
  rewrite Hb'. unfold BloomFilter_new in Hnew. unfold guarded in Hnew.
  destruct (_ && _); [|done]. injection Hnew as <-. simpl.
  rewrite (u64_small (zlen kvs * 10)) by lia.
  assert (64 <= (if zlen kvs * 10 <? 64 then 64 else zlen kvs * 10) <= 610) by (case_Z; lia).
  generalize dependent (if zlen kvs * 10 <? 64 then 64 else zlen kvs * 10). clear.
  intros x Hx. rewrite u64_small by lia. wrap_lia.
Qed.

Lemma build_table_Some kvs :
  zlen (enc_kvs kvs) <= max_block →
  ∃ bf, build_table kvs = Some (table_bytes kvs bf) ∧ table_filter kvs bf.
Proof.
  intros Hm. pose proof (enc_kvs_bounds kvs) as [Hlen Hf]. unfold build_table.
  pose proof (zlen_nonneg (enc_kvs kvs)).
  rewrite Add_all_Some; [|simpl; unfold max_block in *; lia|].
  2:{ eapply Forall_impl; [exact Hf|]. simpl. unfold max_block in *. lia. }
  cbn [mbind option_bind SSTableBuilder_new b_file_ b_is_open keys_ buffer_ offset_ index_block_ last_key_ app].
  destruct (Finish_filter kvs Hm) as (bf0 & bf & Hnew & Hadd & Hbf).
  exists bf. split; [|done]. unfold SSTableBuilder_Finish. cbn [buffer_].
  pose proof (bloom_raw_length kvs bf Hbf) as Hraw.
  pose proof (index_bytes_length kvs Hm) as Hidx. pose proof (block_bytes_length kvs Hm) as Hblk.
  pose proof (zlen_nonneg (index_bytes kvs)). pose proof (zlen_nonneg (block_bytes kvs)).
  assert (∃ b', (if bool_decide (enc_kvs kvs = []) then Some _ else FlushDataBlock _) = Some b' ∧
    b_file_ b' = block_bytes kvs ∧ keys_ b' = map fst kvs ∧ index_block_ b' = index_bytes kvs ∧
    offset_ b' = zlen (block_bytes kvs)) as (b' & -> & Ef & Ek & Ei & Eo).
  { case_bool_decide as He.
    - apply enc_kvs_nil in He as ->. eexists. by split_and!.
    - unfold FlushDataBlock. cbn [buffer_ index_block_ last_key_ b_file_ offset_ b_is_open keys_ num_entries_].
      rewrite bool_decide_eq_false_2 by done. rewrite PutLengthPrefixedString_EncodeString.
      destruct kvs as [|kv kvs]; [by destruct He|].
      pose proof (last_key_bound (kv :: kvs) ltac:(done)). unfold max_block in *.
      rewrite EncodeString_Some by lia. cbn [mbind option_bind app].
      rewrite PutVarint32_Some by (rewrite u32_small by lia; lia). cbn [mbind option_bind].
      rewrite PutVarint32_Some by (rewrite u32_small by lia; lia). cbn [mbind option_bind].
      eexists. split; [done|]. cbn [b_file_ keys_ index_block_ offset_].
      split_and!; [done|done| |].
      + unfold index_bytes. rewrite <- app_assoc. by rewrite !u32_small by lia.
      + unfold block_bytes, with_crc. autorewrite with ms_len. rewrite u64_small; lia. }
  cbn [mbind option_bind]. rewrite Ef, Ek, Ei, Eo, Hnew. cbn [mbind option_bind]. rewrite Hadd.
  cbn [mbind option_bind fst b_file_]. f_equal. unfold table_bytes, with_crc, bloom_raw in *.
  unfold BloomFilter_RawData in *. autorewrite with ms_len in *.
  rewrite (u32_small (1 + _)), (u64_small), (u32_small (_ + 4)) by lia.
  change (?x :: data_ bf) with ([x] ++ data_ bf). by rewrite <- !app_assoc.
Qed.

Lemma build_table_inv kvs file :
  Forall kv32 kvs → build_table kvs = Some file → zlen (enc_kvs kvs) <= max_block.
Proof.
  intros Hf H. unfold build_table in H. apply bind_Some in H as (b & Hadd & H).
  pose proof Hadd as Hadd'. apply Add_all_inv in Hadd' as [Hall Hlen]; [|done..].
  simpl in Hlen. rewrite Add_all_Some in Hadd by done. injection Hadd as <-.
  apply bind_Some in H as ([b' ok] & H & _). unfold SSTableBuilder_Finish in H. simpl in H.
  destruct (Z.le_gt_cases (zlen (enc_kvs kvs)) max_block); [done|]. exfalso.
  case_bool_decide as He.
  - rewrite He in *. unfold max_block in *. change (zlen (@nil byte)) with 0 in *. lia.
  - rewrite FlushDataBlock_big in H; [done|]. simpl. lia.
Qed.

(** * What the reader reads *)

Lemma stream_read_mid pre mid post buf :
  zlen pre < 2 ^ 63 → length buf = length mid →
  ∀ s, s_content s = pre ++ mid ++ post → s_failed s = false →
  stream_read (seekg s (zlen pre)) (length mid) buf =
    (mkStream (pre ++ mid ++ post) (zlen pre + zlen mid) false, mid).
Proof.
  intros Hp Hb [c p f]. simpl. intros -> ->. unfold seekg, stream_read. simpl.
  destruct (Z.ltb_spec (zlen pre) (2 ^ 63)); [|lia]. simpl.
  replace (Z.to_nat (zlen pre)) with (length pre) by (unfold zlen; lia).
  rewrite drop_app_length, take_app_length, Nat.ltb_irrefl.
  by rewrite drop_ge, app_nil_r by lia.
Qed.

(** A reader on a well-formed table. *)
Record reader_ok (r : SSTableReader) (name : bytes) (kvs : list (bytes * bytes))
    (bf : BloomFilter) : Prop := {
  ro_name : filename_ r = name;
  ro_content : s_content (r_file_ r) = table_bytes kvs bf;
  ro_good : s_failed (r_file_ r) = false;
  ro_filter : filter_ r = Some bf;
  ro_index : index_ r =
    if kvs is [] then [] else [(last_key [] kvs, mkHandle 0 (zlen (enc_kvs kvs) + 4))];
}.

Lemma parse_index_table kvs fuel :
  zlen (enc_kvs kvs) <= max_block → (1 < fuel)%nat →
  ∀ tail, parse_index fuel (with_crc (index_bytes kvs) ++ tail) (zlen (index_bytes kvs)) [] =
    Some (if kvs is [] then [] else [(last_key [] kvs, mkHandle 0 (zlen (enc_kvs kvs) + 4))]).
Proof.
  intros Hm Hf tail. destruct fuel as [|[|fuel]]; [lia..|].
  unfold index_bytes. destruct kvs as [|kv kvs]; [done|].
  set (l := kv :: kvs) in *. pose proof (last_key_bound l ltac:(done)) as Hl.
  unfold max_block in Hm. pose proof (zlen_nonneg (last_key [] l)).
  cbn [parse_index]. autorewrite with ms_len.
  destruct (Z.leb_spec (1 + zlen (last_key [] l) + (1 + (1 + 0))) 0); [lia|].
  unfold with_crc. rewrite <- !app_assoc.
  rewrite DecodeString_enc_str by lia. cbn [mbind option_bind].
  rewrite (drop_app_length' (enc_str _)) by done. cbn [app].
  rewrite DecodeVarint32_byte by lia. cbn [mbind option_bind].
  change (1 <=? 0) with false. cbv match.
  assert (∀ (a : byte) l, drop (Z.to_nat 1) (a :: l) = l) as Hd by done. rewrite !Hd.
  rewrite DecodeVarint32_byte by lia. cbn [mbind option_bind].
  change (1 <=? 0) with false. cbv match.
  replace (1 + zlen (last_key [] l) + (1 + (1 + 0)) - Z.of_nat (S (length (last_key [] l))) - 1 - 1)
    with 0 by (unfold zlen; lia).
  done.
Qed.

(** The fields of the footer, and the checksum behind the index block. *)
Lemma footer_fields a b c d (G := EncodeFixed64 a ++ EncodeFixed32 b ++ EncodeFixed64 c ++ EncodeFixed32 d) :
  DecodeFixed64 G = Some (u64 a) ∧ DecodeFixed32 (drop 8 G) = Some (u32 b) ∧
  DecodeFixed64 (drop 12 G) = Some (u64 c) ∧ DecodeFixed32 (drop 20 G) = Some (u32 d).
Proof.
  split_and!.
  - apply DecodeFixed64_Encode.
  - exact (DecodeFixed32_Encode _ (EncodeFixed64 c ++ EncodeFixed32 d)).
  - exact (DecodeFixed64_Encode _ (EncodeFixed32 d)).
  - exact (DecodeFixed32_Encode _ []).
Qed.

Lemma with_crc_parts (b rest : bytes) :
  DecodeFixed32 (drop (length b) (with_crc b ++ rest)) = Some (ValueCRC32 0xffffffff b) ∧
  take (length b) (with_crc b) = b.
Proof.
  unfold with_crc. split; [|apply take_app_length]. rewrite <- app_assoc, drop_app_length, DecodeFixed32_Encode.
  rewrite u32_small; [done|]. apply ValueCRC32_range. lia.
Qed.

Lemma Open_table name kvs bf :
  zlen (enc_kvs kvs) <= max_block → table_filter kvs bf →
  ∃ r, SSTableReader_Open name (Some (table_bytes kvs bf)) = Some (r, true) ∧
    reader_ok r name kvs bf.
Proof.
  intros Hm Hbf. pose proof (bloom_raw_length kvs bf Hbf) as Hraw.
  pose proof (index_bytes_length kvs Hm) as Hidx. pose proof (block_bytes_length kvs Hm) as Hblk.
  pose proof (zlen_nonneg (index_bytes kvs)). pose proof (zlen_nonneg (block_bytes kvs)).
  set (A := block_bytes kvs) in *. set (F := bloom_raw bf) in *.
  set (I := with_crc (index_bytes kvs)).
  assert (zlen I = zlen (index_bytes kvs) + 4) as HI
    by (unfold I, with_crc; by autorewrite with ms_len).
  set (G := EncodeFixed64 (zlen A + zlen F) ++ EncodeFixed32 (zlen (index_bytes kvs) + 4) ++
    EncodeFixed64 (zlen A) ++ EncodeFixed32 (zlen F)).
  assert (table_bytes kvs bf = A ++ F ++ I ++ G) as Hc by done.
  destruct (footer_fields (zlen A + zlen F) (zlen (index_bytes kvs) + 4) (zlen A) (zlen F)) as (D1 & D2 & D3 & D4).
  fold G in D1, D2, D3, D4. destruct (with_crc_parts (index_bytes kvs) [x00]) as [E1 E2]. fold I in E1, E2.
  pose proof (λ fuel Hf, parse_index_table kvs fuel Hm Hf [x00]) as E3. fold I in E3.
  unfold SSTableReader_Open. rewrite Hc.
  assert (zlen (A ++ F ++ I ++ G) = zlen A + zlen F + zlen I + 24) as Hsz
    by (autorewrite with ms_len; unfold G; autorewrite with ms_len; lia).
  destruct (Z.ltb_spec (zlen (A ++ F ++ I ++ G)) 24); [lia|].
  replace (zlen (A ++ F ++ I ++ G) - 24) with (zlen (A ++ F ++ I)) by (autorewrite with ms_len in *; lia).
  change 24%nat with (length G).
  rewrite (stream_read_mid (A ++ F ++ I) G []);
    [|autorewrite with ms_len; lia|done|cbn [s_content]; by rewrite app_nil_r, <- !app_assoc|done].
  rewrite D1. cbn [mbind option_bind]. rewrite D2. cbn [mbind option_bind].
  rewrite D3. cbn [mbind option_bind]. rewrite D4. cbn [mbind option_bind].
  rewrite !u64_small, !u32_small by lia.
  destruct (Z.ltb_spec 0 (zlen F)); [|lia].
  replace (Z.to_nat (zlen F)) with (length F) by (unfold zlen; lia).
  rewrite (stream_read_mid A F (I ++ G)); [|lia|by rewrite length_replicate|cbn [s_content]|done].
  2:{ by rewrite app_nil_r, <- !app_assoc. }
  rewrite <- HI. replace (Z.to_nat (zlen I)) with (length I) by (unfold zlen; lia).
  replace (zlen A + zlen F) with (zlen (A ++ F)) by by autorewrite with ms_len.
  rewrite (stream_read_mid (A ++ F) I G);
    [|autorewrite with ms_len; lia|by rewrite length_replicate|cbn [s_content]; by rewrite <- !app_assoc|done].
  replace (zlen I - 4) with (zlen (index_bytes kvs)) by lia.
  replace (Z.to_nat (zlen (index_bytes kvs))) with (length (index_bytes kvs)) by (unfold zlen; lia).
    rewrite E1, E2. cbn [mbind option_bind]. rewrite Z.eqb_refl. cbn [negb].
  rewrite E3 by (unfold I, with_crc; rewrite length_app; simpl; lia).
  cbn [mbind option_bind]. eexists. split; [done|].
  split; simpl; [done| |done| |done].
  - by rewrite Hc, <- !app_assoc.
  - f_equal. apply BloomFilter_restore_raw, Hbf.
Qed.

Lemma parse_block_enc kvs fuel out tail :
  Forall (λ kv, zlen (fst kv) < 128 ∧ zlen (snd kv) < 128) kvs → (length kvs < fuel)%nat →
  parse_block fuel (enc_kvs kvs ++ tail) (zlen (enc_kvs kvs)) out = Some (out ++ kvs).
Proof.
  intros Hf. revert fuel out. induction Hf as [|[k v] kvs [Hk Hv] Hf IH]; intros [|fuel] out Hfu;
    simpl in Hfu; try lia.
  { simpl. by rewrite app_nil_r. }
  rewrite enc_kvs_cons. unfold enc_kv. cbn [parse_block fst snd].
  pose proof (zlen_nonneg k). pose proof (zlen_nonneg v). pose proof (zlen_nonneg (enc_kvs kvs)).
  simpl in Hk, Hv. autorewrite with ms_len.
  destruct (Z.leb_spec (1 + zlen k + (1 + zlen v) + zlen (enc_kvs kvs)) 0); [lia|].
  rewrite <- !app_assoc. rewrite DecodeString_enc_str by lia. cbn [mbind option_bind].
  rewrite (drop_app_length' (enc_str k)) by done.
  rewrite DecodeString_enc_str by (unfold zlen in *; lia). cbn [mbind option_bind].
  rewrite (drop_app_length' (enc_str v)) by done.
  replace (1 + zlen k + (1 + zlen v) + zlen (enc_kvs kvs) - Z.of_nat (S (length k)) -
    Z.of_nat (S (length v))) with (zlen (enc_kvs kvs)) by (unfold zlen; lia).
  rewrite IH by lia. by rewrite <- app_assoc.
Qed.

Lemma read_block_table s kvs bf :
  kvs ≠ [] → zlen (enc_kvs kvs) <= max_block →
  s_content s = table_bytes kvs bf → s_failed s = false →
  ∃ s', read_block_file s 0 (zlen (enc_kvs kvs) + 4) = Some (s', Some kvs) ∧
    s_content s' = table_bytes kvs bf ∧ s_failed s' = false.
Proof.
  intros Hne Hm Hc Hs. pose proof (enc_kvs_bounds kvs) as [Hlen Hf].
  pose proof (zlen_nonneg (enc_kvs kvs)).
  set (B := with_crc (enc_kvs kvs)).
  assert (zlen B = zlen (enc_kvs kvs) + 4) as HB
    by (unfold B, with_crc; by autorewrite with ms_len).
  assert (∃ post, table_bytes kvs bf = [] ++ B ++ post) as [post Hpost].
  { eexists. unfold table_bytes, block_bytes. destruct kvs; [done|]. reflexivity. }
  unfold read_block_file. rewrite <- HB.
  replace (Z.to_nat (zlen B)) with (length B) by (unfold zlen; lia).
  change 0 with (zlen (@nil byte)) at 1. rewrite Hpost in Hc.
  rewrite (stream_read_mid [] B post); [|done|by rewrite length_replicate|done..].
  unfold max_block in Hm. rewrite HB, u32_small by lia.
  replace (zlen (enc_kvs kvs) + 4 - 4) with (zlen (enc_kvs kvs)) by lia.
  replace (Z.to_nat (zlen (enc_kvs kvs))) with (length (enc_kvs kvs)) by (unfold zlen; lia).
  assert (B ++ [x00] = enc_kvs kvs ++ EncodeFixed32 (ValueCRC32 0xffffffff (enc_kvs kvs)) ++ [x00])
    as HB' by (unfold B, with_crc; by rewrite <- app_assoc).
  rewrite HB', drop_app_length, DecodeFixed32_Encode. cbn [mbind option_bind].
  assert (take (length (enc_kvs kvs)) B = enc_kvs kvs) as -> by apply take_app_length.
  rewrite u32_small by (apply ValueCRC32_range; lia). rewrite Z.eqb_refl. cbn [negb].
  rewrite parse_block_enc.
  - eexists. split; [done|]. simpl. by rewrite Hpost.
  - eapply Forall_impl; [exact Hf|]. simpl. lia.
  - unfold zlen in *. lia.
Qed.

(** ** Reading through the cache *)

Section Reader.
(** What the pairs cached under a key have to be. *)
Context (ok : bytes → BlockData → Prop).

Definition cache_ok (c : cache_ptr) : Prop :=
  match c with Some c => cache_coherent ok c | None => True end.

(** A read keeps the cache correct, and no cache stays no cache. *)
Definition cache_step (c c' : cache_ptr) : Prop := cache_ok c' ∧ (c = None ↔ c' = None).

(** The cache may hold the block of the table [name], and nothing else under
    its key. *)
Definition block_ok (name : bytes) (kvs : list (bytes * bytes)) : Prop :=
  ∀ d, ok (MakeCacheKey name 0) d ↔ d = kvs.

Lemma ReadDataBlock_table r c name kvs bf :
  reader_ok r name kvs bf → cache_ok c → block_ok name kvs →
  kvs ≠ [] → zlen (enc_kvs kvs) <= max_block →
  ∃ r' c', ReadDataBlock r c 0 (zlen (enc_kvs kvs) + 4) = Some (r', c', Some kvs) ∧
    reader_ok r' name kvs bf ∧ cache_step c c'.
Proof.
  intros Hr Hc Hok Hne Hm. unfold ReadDataBlock. rewrite (ro_name _ _ _ _ Hr).
  destruct (read_block_table (r_file_ r) kvs bf Hne Hm (ro_content _ _ _ _ Hr) (ro_good _ _ _ _ Hr))
    as (s' & Hs & Hs1 & Hs2).
  assert (reader_ok (set_file r s') name kvs bf) as Hr' by (destruct Hr; by split).
  destruct c as [c|]; cbn [mbind option_bind].
  - destruct (cache_get_coherent ok c (MakeCacheKey name 0) Hc) as (c1 & res & -> & Hc1 & Hres).
    cbn [mbind option_bind]. destruct res as [d|].
    + specialize (Hres d eq_refl). apply Hok in Hres as ->. by exists r, (Some c1).
    + rewrite Hs. cbn [mbind option_bind].
      destruct (cache_insert_coherent ok c1 (MakeCacheKey name 0) kvs Hc1) as (c2 & -> & Hc2);
        [by apply Hok|].
      cbn [mbind option_bind]. by exists (set_file r s'), (Some c2).
  - rewrite Hs. cbn [mbind option_bind]. by exists (set_file r s'), None.
Qed.

Lemma scan_map key kvs : scan key kvs = (list_to_map kvs : gmap bytes bytes) !! key.
Proof.
  induction kvs as [|[k v] kvs IH]; simpl; [done|]. case_bool_decide as Hk.
  - subst. by rewrite lookup_insert_eq.
  - by rewrite lookup_insert_ne.
Qed.

Lemma sorted_last_key kvs key v :
  smap_sorted kvs → (list_to_map kvs : gmap bytes bytes) !! key = Some v →
  ¬ last_key [] kvs <ₛ key.
Proof.
  intros Hs Hl Hlt. apply elem_of_list_to_map_2 in Hl. unfold last_key in Hlt.
  destruct kvs as [|kv kvs _] using rev_ind; [by apply elem_of_nil in Hl|].
  rewrite last_snoc in Hlt. destruct kv as [k' v']. apply smap_sorted_snoc in Hs as [_ Hs].
  rewrite Forall_forall in Hs. simpl in Hlt. apply elem_of_app in Hl as [Hl|Hl].
  - specialize (Hs _ Hl). simpl in Hs. apply (bytes_lt_irrefl key). by etrans.
  - apply list_elem_of_singleton in Hl as [= -> ->]. by apply bytes_lt_irrefl in Hlt.
Qed.

Lemma SSTableReader_Get_table r c name kvs bf key :
  reader_ok r name kvs bf → cache_ok c → block_ok name kvs → table_filter kvs bf →
  smap_sorted kvs → zlen (enc_kvs kvs) <= max_block →
  ∃ r' c', SSTableReader_Get r c key =
      Some (r', c', (list_to_map kvs : gmap bytes bytes) !! key) ∧
    reader_ok r' name kvs bf ∧ cache_step c c'.
Proof.
  intros Hr Hc Hok (Hwf & Hsz & Hall) Hs Hm. unfold SSTableReader_Get.
  rewrite (ro_filter _ _ _ _ Hr).
  destruct (BloomFilter_MayContain_total bf key Hwf) as [may Hmay]; [lia|].
  rewrite Hmay. cbn [mbind option_bind]. destruct may; cbn [negb].
  - rewrite (ro_index _ _ _ _ Hr). destruct kvs as [|kv kvs]; [by exists r, c|].
    set (l := kv :: kvs) in *. cbn [smap_lower_bound].
    destruct (bytes_ltb (last_key [] l) key) eqn:Elt.
    + exists r, c. split; [|done]. do 2 f_equal.
      destruct (_ !! key) as [v|] eqn:El; [|done].
      by apply (sorted_last_key l key v) in El.
    + destruct (ReadDataBlock_table r c name l bf) as (r' & c' & Hrd & Hr' & Hc'); try done.
      cbn [h_offset h_size]. rewrite Hrd. cbn [mbind option_bind].
      exists r', c'. by rewrite scan_map.
  - exists r, c. split; [|done]. do 2 f_equal. symmetry.
    destruct (_ !! key) as [v|] eqn:El; [|done]. exfalso.
    apply elem_of_list_to_map_2, (list_elem_of_fmap_2 fst) in El.
    rewrite Forall_forall in Hall. specialize (Hall _ El).
    rewrite BloomFilter_MayContain_set in Hmay; [done..|lia|done].
Qed.

Lemma get_all_table r c name kvs bf keys :
  reader_ok r name kvs bf → cache_ok c → block_ok name kvs → table_filter kvs bf →
  smap_sorted kvs → zlen (enc_kvs kvs) <= max_block →
  ∃ r' c', get_all r c keys =
      Some (r', c', map (λ key, (list_to_map kvs : gmap bytes bytes) !! key) keys) ∧
    reader_ok r' name kvs bf ∧ cache_ok c'.
Proof.
  intros Hr Hc Hok Hbf Hs Hm. revert r c Hr Hc.
  induction keys as [|key keys IH]; intros r c Hr Hc; simpl; [by exists r, c|].
  destruct (SSTableReader_Get_table r c name kvs bf key) as (r1 & c1 & -> & Hr1 & Hc1 & _);
    [done..|].
  cbn [mbind option_bind]. destruct (IH r1 c1 Hr1 Hc1) as (r2 & c2 & -> & Hr2 & Hc2).
  cbn [mbind option_bind]. by exists r2, c2.
Qed.

Lemma NewIterator_table r c name kvs bf :
  reader_ok r name kvs bf → cache_ok c → block_ok name kvs →
  zlen (enc_kvs kvs) <= max_block →
  ∃ r' c', SSTableReader_NewIterator r c = Some (r', c', mkIter kvs 0) ∧
    reader_ok r' name kvs bf ∧ cache_ok c'.
Proof.
  intros Hr Hc Hok Hm. unfold SSTableReader_NewIterator. rewrite (ro_index _ _ _ _ Hr).
  destruct kvs as [|kv kvs]; [by exists r, c|]. set (l := kv :: kvs) in *.
  destruct (ReadDataBlock_table r c name l bf) as (r' & c' & Hrd & Hr' & Hc' & _); try done.
  cbn [read_blocks h_offset h_size]. rewrite Hrd. cbn [mbind option_bind read_blocks app].
  by exists r', c'.
Qed.
End Reader.

(** ** Walking and seeking *)

Fixpoint iter_all (fuel : nat) (it : SSTIterator) : option BlockData :=
  if SSTIterator_Valid it then
    match fuel with
    | O => None
    | S fuel =>
        k ← SSTIterator_Key it;
        v ← SSTIterator_Value it;
        l ← iter_all fuel (SSTIterator_Next it);
        Some ((k, v) :: l)
    end
  else Some [].

Lemma iter_all_spec l n fuel :
  (length l ≤ n + fuel)%nat → iter_all fuel (mkIter l n) = Some (drop n l).
Proof.
  revert n. induction fuel as [|fuel IH]; intros n Hn; cbn [iter_all];
    unfold SSTIterator_Valid; simpl; destruct (Nat.ltb_spec n (length l)); try lia.
  - by rewrite drop_ge by lia.
  - destruct (lookup_lt_is_Some_2 l n) as [[k v] Hl]; [done|].
    unfold SSTIterator_Key, SSTIterator_Value, SSTIterator_Next, SSTIterator_Valid. simpl.
    rewrite Hl. cbn [fmap option_fmap option_map mbind option_bind fst snd].
    destruct (Nat.ltb_spec n (length l)); [|lia]. rewrite IH by lia. cbn [mbind option_bind].
    by rewrite (drop_S l (k, v) n Hl).
  - by rewrite drop_ge by lia.
Qed.

(** The binary search keeps everything before [lo] below the target and
    everything from [hi] on at or above it. *)
Lemma Seek_loop_spec (l : BlockData) target fuel lo hi :
  smap_sorted l → (lo ≤ hi ≤ length l)%nat → (hi - lo < fuel)%nat →
  (∀ i e, (i < lo)%nat → l !! i = Some e → fst e <ₛ target) →
  (∀ i e, (hi ≤ i)%nat → l !! i = Some e → ¬ fst e <ₛ target) →
  ∃ p, Seek_loop fuel l target lo hi = Some p ∧ (p ≤ length l)%nat ∧
    (∀ i e, (i < p)%nat → l !! i = Some e → fst e <ₛ target) ∧
    (∀ i e, (p ≤ i)%nat → l !! i = Some e → ¬ fst e <ₛ target).
Proof.
  intros Hs. revert lo hi. induction fuel as [|fuel IH]; intros lo hi Hlh Hf Hlo Hhi; [lia|].
  cbn [Seek_loop]. destruct (Nat.ltb_spec lo hi) as [Hlt|Hge].
  - set (mid := ((lo + hi) / 2)%nat).
    assert (lo ≤ mid < hi)%nat as Hmid.
    { unfold mid. pose proof (Nat.div_mod (lo + hi) 2). pose proof (Nat.mod_upper_bound (lo + hi) 2).
      lia. }
    destruct (lookup_lt_is_Some_2 l mid) as [e He]; [lia|]. rewrite He. cbn [mbind option_bind].
    destruct (bytes_ltb (fst e) target) eqn:Ek.
    + apply IH; [lia|lia| |done]. intros i e' Hi He'.
      destruct (decide (i = mid)) as [Heq|]; [rewrite Heq, He in He'; by injection He' as <-|].
      pose proof (smap_sorted_lookup l i mid e' e Hs ltac:(lia) He' He) as Hlt'.
      exact (bytes_lt_trans _ _ _ Hlt' Ek).
    + apply IH; [lia|lia|done|]. intros i e' Hi He' Hk.
      destruct (decide (i = mid)) as [Heq|].
      { rewrite Heq, He in He'. injection He' as <-. unfold bytes_lt in Hk. congruence. }
      pose proof (smap_sorted_lookup l mid i e e' Hs ltac:(lia) He He') as Hlt'.
      pose proof (bytes_lt_trans _ _ _ Hlt' Hk) as Hc. unfold bytes_lt in Hc. congruence.
  - exists lo. assert (hi = lo) as -> by lia. split_and!; [done|lia|done|done].
Qed.

(** * Properties *)

(** C20: the builder returns exactly on the tables whose pairs fit in 123
    encoded bytes (on others it writes past its 5-byte buffer); a table it
    returns is opened by the reader, and then, whatever is asked in whatever
    order and through a cache of any capacity, [Get] answers as the map of the
    pairs and the iterator yields the pairs in order. *)
Theorem SSTable_roundtrip (name : bytes) (kvs : list (bytes * bytes)) (capacity : Z)
    (Hs : smap_sorted kvs) (H32 : Forall kv32 kvs) (Hcap : 0 <= capacity) :
  (is_Some (build_table kvs) ↔ zlen (enc_kvs kvs) <= 123) ∧
  ∀ file, build_table kvs = Some file →
    ∃ r c, SSTableReader_Open name (Some file) = Some (r, true) ∧
      LRUCache_new [] capacity = Some c ∧
      ∀ keys, ∃ r1 c1 r2 c2 it,
        get_all r (Some c) keys =
          Some (r1, c1, map (λ key, (list_to_map kvs : gmap bytes bytes) !! key) keys) ∧
        SSTableReader_NewIterator r1 c1 = Some (r2, c2, it) ∧
        iter_all (length kvs) it = Some kvs.
Proof.
  split.
  { split; [intros [file Hb]; by eapply build_table_inv|].
    intros Hm. destruct (build_table_Some kvs Hm) as (bf & -> & _). by eexists. }
  intros file Hb. pose proof (build_table_inv kvs file H32 Hb) as Hm.
  destruct (build_table_Some kvs Hm) as (bf & Hb' & Hbf).
  rewrite Hb' in Hb. injection Hb as <-.
  destruct (Open_table name kvs bf Hm Hbf) as (r & Ho & Hr).
  set (ok := λ k d, k = MakeCacheKey name 0 ∧ d = kvs).
  assert (block_ok ok name kvs) as Hok by (intros d; split; [by intros [_ ?]|by split]).
  destruct (cache_new_coherent ok [] capacity Hcap) as (c & Hc & Hcc).
  exists r, c. split_and!; [done..|]. intros keys.
  destruct (get_all_table ok r (Some c) name kvs bf keys Hr Hcc Hok Hbf Hs Hm)
    as (r1 & c1 & Hg & Hr1 & Hc1).
  destruct (NewIterator_table ok r1 c1 name kvs bf Hr1 Hc1 Hok Hm) as (r2 & c2 & Hi & _).
  exists r1, c1, r2, c2, (mkIter kvs 0). split_and!; [done..|]. by rewrite iter_all_spec by lia.
Qed.

Lemma SSTable_roundtrip_witness :
  let kvs := [(str "a", str "1"); (str "b", []); (str "c", str "3")] in
  ∃ file r c r1 c1, build_table kvs = Some file ∧
    SSTableReader_Open (str "000001.sst") (Some file) = Some (r, true) ∧
    LRUCache_new [] 128 = Some c ∧
    get_all r (Some c) [str "c"; str "x"; str "b"] =
      Some (r1, c1, [Some (str "3"); None; Some []]).
Proof.
  intros kvs.
  destruct (SSTable_roundtrip (str "000001.sst") kvs 128) as [[_ Hb] Hr].
  - repeat constructor.
  - repeat constructor.
  - discriminate.
  - destruct Hb as [file Hf]; [vm_compute; discriminate|].
    destruct (Hr file Hf) as (r & c & Ho & Hc & Hg).
    destruct (Hg [str "c"; str "x"; str "b"]) as (r1 & c1 & r2 & c2 & it & Hg1 & _).
    exists file, r, c, r1, c1. split; [exact Hf|]. split; [exact Ho|]. split; [exact Hc|].
    exact Hg1.
Defined.

(** On sorted entries [Seek] returns within its fuel and never reads
    outside the vector; the position it leaves splits the entries into those
    below the target and those at or above it. *)
Theorem Seek_lower_bound (entries : BlockData) (pos : nat) (target : bytes)
    (Hs : smap_sorted entries) :
  ∃ it, Seek (mkIter entries pos) target = Some it ∧ entries_ it = entries ∧
    (pos_ it ≤ length entries)%nat ∧
    (∀ i e, (i < pos_ it)%nat → entries !! i = Some e → fst e <ₛ target) ∧
    (∀ i e, (pos_ it ≤ i)%nat → entries !! i = Some e → ¬ fst e <ₛ target).
Proof.
  destruct (Seek_loop_spec entries target (S (length entries)) 0 (length entries) Hs)
    as (p & Hp & H1 & H2 & H3); [lia|lia|lia| |].
  - intros i e Hi He. apply lookup_lt_Some in He. lia.
  - exists (mkIter entries p). unfold Seek. cbn [entries_]. by rewrite Hp.
Qed.

Lemma Seek_lower_bound_witness :
  let entries := [(str "a", []); (str "c", []); (str "e", [])] in
  ∃ it, Seek (mkIter entries 0) (str "b") = Some it ∧ pos_ it = 1%nat.
Proof.
  intros entries.
  destruct (Seek_lower_bound entries 0 (str "b")) as (it & H1 & _ & _ & _ & _).
  - repeat constructor.
  - exists it. split; [exact H1|]. vm_compute in H1. injection H1 as <-. reflexivity.
Defined.
