(* ===== verification/Db.v ===== *)
(** The storage engine: src/engine/db.h and db.cc.

    A [DB] owns a memory table, a log writer, a block cache and the list of its
    table files; the files are a map from paths to contents ([db_fs]).  Opening,
    creating and removing files succeed; how far a write to the log gets is an
    argument of [Put] and [Delete].  The mutex makes each operation one step. *)
From S2P Require Import Prelude Coding WriteBatch Wal MemTable LruCache Bloom SSTable.

(** * Definitions *)

Abbreviation filesystem := (gmap bytes bytes).

Record Options := mkOptions {
  write_buffer_size : Z;
  db_path : bytes;
  max_sstable_count : Z;
  block_cache_size : Z;
}.

(** ** File names *)

Definition join_path (dir name : bytes) : bytes := dir ++ str "/" ++ name.

(** [strip dir p]: the name of [p] when it is an entry of the directory. *)
Fixpoint strip_prefix (pre p : bytes) : option bytes :=
  match pre, p with
  | [], _ => Some p
  | x :: pre, y :: p => if bool_decide (x = y) then strip_prefix pre p else None
  | _ :: _, [] => None
  end.

Definition entry_name (dir p : bytes) : option bytes :=
  name ← strip_prefix (dir ++ str "/") p;
  if bool_decide (x2f ∈ name ∨ name = []) then None else Some name.

(** [directory_iterator(dir)]: the paths of the entries of [dir], in the order
    of the map; the code sorts them. *)
Definition directory_entries (fs : filesystem) (dir : bytes) : list bytes :=
  filter (λ p, is_Some (entry_name dir p)) (map fst (map_to_list fs)).

(** [path::extension()] and [path::stem()] of a file name: a leading dot starts
    no extension, and ["."] and [".."] have none. *)
Definition name_split (name : bytes) : bytes * bytes :=
  if bool_decide (name = str "." ∨ name = str "..") then (name, [])
  else
    match rfind x2e name with
    | Some (S i) => (take (S i) name, drop (S i) name)
    | _ => (name, [])
    end.
Definition name_extension (name : bytes) : bytes := snd (name_split name).
Definition name_stem (name : bytes) : bytes := fst (name_split name).

(** ** The state *)

Section DB.
Context {Rng : Type} (dist : Rng → bool * Rng).

Record DB := mkDB {
  db_fs : filesystem;
  options_ : Options;
  next_log_id_ : Z;
  next_sst_id_ : Z;
  mem_table_ : MemTable Rng;
  log_write_ : LogWriter;
  block_cache_ : LRUCache BlockData;
  sst_files_ : list bytes;
}.

Definition set_mem (db : DB) (m : MemTable Rng) : DB :=
  mkDB (db_fs db) (options_ db) (next_log_id_ db) (next_sst_id_ db) m (log_write_ db)
    (block_cache_ db) (sst_files_ db).
Definition set_cache (db : DB) (c : LRUCache BlockData) : DB :=
  mkDB (db_fs db) (options_ db) (next_log_id_ db) (next_sst_id_ db) (mem_table_ db)
    (log_write_ db) c (sst_files_ db).

(** [MemTableInserter]: replay of a batch into a table. *)
#[local] Instance MemTableInserter : Handler (MemTable Rng) := {
  handler_Put m key value := MemTable_Put dist m key value;
  handler_Delete m key := MemTable_Put dist m key [];
}.

Definition GenerateLogFilename (o : Options) : bytes := db_path o ++ str "/current.log".

(** The path and the next number. *)
Definition GenerateSSTableFilename (o : Options) (next_sst_id : Z) : bytes * Z :=
  (db_path o ++ str "/" ++ (format_06llu next_sst_id ++ str ".sst"), u64 (next_sst_id + 1)).

(** [std::sort] on paths. *)
Definition path_le (a b : bytes) : Prop := ¬ b <ₛ a.
#[local] Instance path_le_dec : RelDecision path_le.
Proof. intros a b. unfold path_le. apply _. Defined.

(** [LoadSSTableList()]: the sorted list of table files and the next number. *)
Definition LoadSSTableList (fs : filesystem) (o : Options) : list bytes * Z :=
  let found := filter (λ p, name_extension (default [] (entry_name (db_path o) p)) = str ".sst")
                 (directory_entries fs (db_path o)) in
  let sst_files := merge_sort path_le found in
  let next := foldl (λ next f,
      match stoll (name_stem (default [] (entry_name (db_path o) f))) with
      | Some v => let id := u64 v in if next <=? id then u64 (id + 1) else next
      | None => next
      end) 1 sst_files in
  (sst_files, next).

(** [while(reader.ReadRecord(&record))] of [Recover]. *)
Fixpoint Recover_loop (fuel : nat) (r : LogReader) (m : MemTable Rng) : option (MemTable Rng) :=
  match fuel with
  | O => None
  | S fuel =>
      '(r, record) ← ReadRecord r;
      match record with
      | None => Some m
      | Some record =>
          let batch := WriteBatch_SetContents WriteBatch_new record in
          '(m, _) ← WriteBatch_Iterate batch m;
          Recover_loop fuel r m
      end
  end.

Definition Recover (fs : filesystem) (o : Options) (m : MemTable Rng) : option (MemTable Rng) :=
  match fs !! GenerateLogFilename o with
  | None => Some m
  | Some content => Recover_loop (S (length content)) (LogReader_new (Some content)) m
  end.

(** [new LogWriter(GenerateLogFilename(), true)]: the file is emptied. *)
Definition new_log (fs : filesystem) (o : Options) : filesystem * LogWriter :=
  let w := LogWriter_new (default [] (fs !! GenerateLogFilename o)) true true in
  (<[GenerateLogFilename o := lw_file w]> fs, w).

(** [DB(const Options &)] on the files of its directory. *)
Definition DB_new (fs : filesystem) (o : Options) (seed : Rng) : option DB :=
  let m := MemTable_new seed in
  c ← LRUCache_new [] (block_cache_size o);
  let '(sst_files, next) := LoadSSTableList fs o in
  m ← Recover fs o m;
  let (fs, w) := new_log fs o in
  Some (mkDB fs o 0 next m w c sst_files).

(** ** Compaction *)

(** [for (...; iter->Valid(); iter->Next()) merged[iter->Key()] = iter->Value()]. *)
Definition merge_entries (entries : BlockData) (merged : smap bytes) : smap bytes :=
  foldl (λ m kv, smap_insert (fst kv) (snd kv) m) merged entries.

(** Step 1 of [DoCompaction]: the tables from the oldest to the newest. *)
Fixpoint merge_tables (fs : filesystem) (files : list bytes) (merged : smap bytes) :
    option (smap bytes) :=
  match files with
  | [] => Some merged
  | f :: files =>
      '(reader, ok) ← SSTableReader_Open f (fs !! f);
      if (ok : bool) then
        '(_, _, it) ← SSTableReader_NewIterator reader None;
        merge_tables fs files (merge_entries (entries_ (SeekToFirst it)) merged)
      else merge_tables fs files merged
  end.

Definition DoCompaction (db : DB) : option DB :=
  if (length (sst_files_ db) <=? 1)%nat then Some db
  else
    merged ← merge_tables (db_fs db) (sst_files_ db) [];
    let (new_sst_name, next) := GenerateSSTableFilename (options_ db) (next_sst_id_ db) in
    let live := filter (λ kv, snd kv ≠ []) merged in
    file ← build_table live;
    c ← LRUCache_Clear (block_cache_ db);
    let fs := foldl (λ fs f, delete f fs) (<[new_sst_name := file]> (db_fs db)) (sst_files_ db) in
    Some (mkDB fs (options_ db) (next_log_id_ db) next (mem_table_ db) (log_write_ db) c
            [new_sst_name]).

Definition Compaction (db : DB) : option DB := DoCompaction db.

Definition MaybeScheduleCompaction (db : DB) : option DB :=
  if max_sstable_count (options_ db) <=? int32 (zlen (sst_files_ db)) then DoCompaction db
  else Some db.

(** ** Writing *)

Definition FlushMemTable (db : DB) : option DB :=
  if MemTable_Empty (mem_table_ db) then Some db
  else
    let (sst_name, next) := GenerateSSTableFilename (options_ db) (next_sst_id_ db) in
    entries ← MemTable_entries (mem_table_ db);
    file ← build_table entries;
    m ← MemTable_Clear (mem_table_ db);
    let fs := <[sst_name := file]> (db_fs db) in
    let fs := delete (GenerateLogFilename (options_ db)) fs in
    let (fs, w) := new_log fs (options_ db) in
    MaybeScheduleCompaction
      (mkDB fs (options_ db) (next_log_id_ db) next m w (block_cache_ db)
         (sst_files_ db ++ [sst_name])).

(** How far the write of a record and the flush behind it get. *)
Record LogIo := mkLogIo { io_add : io_result; io_sync : io_result }.
Definition log_good : LogIo := mkLogIo IoOk IoOk.

(** [log_write_->AddRecord(data)] and, when it succeeds, [Sync()], whose result nobody
    looks at. *)
Definition log_add (db : DB) (data : bytes) (io : LogIo) : DB * bool :=
  let (w, ok) := AddRecord (log_write_ db) data (io_add io) in
  let w := if ok then fst (Sync w (length (wal_record data)) (io_sync io)) else w in
  (mkDB (<[GenerateLogFilename (options_ db) := lw_file w]> (db_fs db)) (options_ db)
     (next_log_id_ db) (next_sst_id_ db) (mem_table_ db) w (block_cache_ db) (sst_files_ db), ok).

(** [bool Put(key, value)]. *)
Definition DB_Put (db : DB) (key value : bytes) (io : LogIo) : option (DB * bool) :=
  batch ← WriteBatch_Put WriteBatch_new key value;
  let (db, ok) := log_add db batch io in
  if negb ok then Some (db, false)
  else
    m ← MemTable_Put dist (mem_table_ db) key value;
    let db := set_mem db m in
    if write_buffer_size (options_ db) <=? MemTable_Size m then
      db ← FlushMemTable db; Some (db, true)
    else Some (db, true).

(** [bool Delete(key)]. *)
Definition DB_Delete (db : DB) (key : bytes) (io : LogIo) : option (DB * bool) :=
  batch ← WriteBatch_Delete WriteBatch_new key;
  let (db, ok) := log_add db batch io in
  if negb ok then Some (db, false)
  else
    m ← MemTable_Put dist (mem_table_ db) key [];
    Some (set_mem db m, true).

(** ** Reading *)

(** [for (int i = sst_files_.size() - 1; i >= 0; --i)]: [files] is the list
    from the newest table. *)
Fixpoint search_tables (fs : filesystem) (c : LRUCache BlockData) (files : list bytes)
    (key : bytes) : option (LRUCache BlockData * option bytes) :=
  match files with
  | [] => Some (c, None)
  | f :: files =>
      '(reader, ok) ← SSTableReader_Open f (fs !! f);
      if (ok : bool) then
        '(_, c', v) ← SSTableReader_Get reader (Some c) key;
        c ← c';
        match v with
        | Some v => Some (c, if bool_decide (v = []) then None else Some v)
        | None => search_tables fs c files key
        end
      else search_tables fs c files key
  end.

Definition GetFromSSTables (db : DB) (key : bytes) : option (DB * option bytes) :=
  '(c, v) ← search_tables (db_fs db) (block_cache_ db) (reverse (sst_files_ db)) key;
  Some (set_cache db c, v).

(** [bool Get(key, value)]: the value on [true]. *)
Definition DB_Get (db : DB) (key : bytes) : option (DB * option bytes) :=
  v ← MemTable_Get (mem_table_ db) key;
  match v with
  | Some v => Some (db, if bool_decide (v = []) then None else Some v)
  | None => GetFromSSTables db key
  end.
End DB.
Arguments DB : clear implicits.

(** * Lemmas *)

(** ** File names *)

Lemma format_06llu_spec n :
  0 <= n < 10 ^ 6 →
  length (format_06llu n) = 6%nat ∧ Forall (λ c, isdigit c = true) (format_06llu n) ∧
  digits_val 0 (format_06llu n) = n.
Proof.
  intros Hn. destruct (format_06llu_digits n) as (Hd & Hv & _); [lia|]. split; [|done].
  destruct (to_string_digits n) as (_ & _ & _ & Hl); [lia|].
  specialize (Hl 6%nat ltac:(lia) ltac:(simpl; lia)). unfold format_06llu.
  rewrite length_app, length_replicate. lia.
Qed.

Lemma format_06llu_lt a b : 0 <= a → a < b → b < 10 ^ 6 → format_06llu a <ₛ format_06llu b.
Proof.
  intros Ha Hab Hb. destruct (format_06llu_spec a) as (L1 & D1 & V1); [lia|].
  destruct (format_06llu_spec b) as (L2 & D2 & V2); [lia|].
  apply (digits_lt _ _ D1 D2 ltac:(congruence) 0). lia.
Qed.

Lemma bytes_lt_app_l p a b : a <ₛ b → p ++ a <ₛ p ++ b.
Proof.
  unfold bytes_lt. intros H. induction p as [|x p IH]; simpl; [done|].
  by rewrite Z.ltb_irrefl.
Qed.

Lemma bytes_lt_app_r a b p : length a = length b → a <ₛ b → a ++ p <ₛ b ++ p.
Proof.
  unfold bytes_lt. revert b. induction a as [|x a IH]; intros [|y b] Hl H; simpl in *; try done.
  case_Z; try done. apply IH; [congruence|done].
Qed.

Definition sst_path (o : Options) (n : Z) : bytes :=
  db_path o ++ str "/" ++ (format_06llu n ++ str ".sst").

Lemma sst_path_lt o a b : 0 <= a → a < b → b < 10 ^ 6 → sst_path o a <ₛ sst_path o b.
Proof.
  intros Ha Hab Hb. unfold sst_path. do 2 apply bytes_lt_app_l. apply bytes_lt_app_r.
  - destruct (format_06llu_spec a) as (-> & _); [lia|].
    by destruct (format_06llu_spec b) as (-> & _); [lia|].
  - by apply format_06llu_lt.
Qed.

Lemma strip_prefix_app pre p : strip_prefix pre (pre ++ p) = Some p.
Proof. induction pre as [|x pre IH]; simpl; [done|]. by rewrite bool_decide_eq_true_2. Qed.

Lemma entry_name_join dir name :
  (x2f ∉ name) → name ≠ [] → entry_name dir (dir ++ str "/" ++ name) = Some name.
Proof.
  intros H1 H2. unfold entry_name. rewrite app_assoc, strip_prefix_app. cbn [mbind option_bind].
  by rewrite bool_decide_eq_false_2 by tauto.
Qed.


(** A generated name, taken apart. *)
Lemma sst_name_facts o n :
  0 <= n < 10 ^ 6 →
  ∃ name, entry_name (db_path o) (sst_path o n) = Some name ∧
    name_extension name = str ".sst" ∧ stoll (name_stem name) = Some n.
Proof.
  intros Hn. destruct (format_06llu_spec n Hn) as (Hl & Hd & Hv).
  exists (format_06llu n ++ str ".sst"). split.
  - apply entry_name_join.
    + rewrite not_elem_of_app. split; [by apply digits_not_in|].
      apply (bool_decide_unpack _). reflexivity.
    + by destruct (format_06llu n).
  - unfold name_extension, name_stem, name_split.
    rewrite bool_decide_eq_false_2.
    2:{ intros [H|H]; apply (f_equal length) in H; rewrite length_app, Hl in H; done. }
    change (str ".sst") with (x2e :: str "sst"). rewrite rfind_app.
    2:{ apply (bool_decide_unpack _). reflexivity. }
    rewrite Hl. split; [by rewrite <- Hl, drop_app_length|].
    cbn [fst]. rewrite <- Hl, take_app_length. rewrite <- Hv at 2. apply stoll_digits; [done| |lia].
    by destruct (format_06llu n).
Qed.

Lemma log_name_facts o :
  entry_name (db_path o) (GenerateLogFilename o) = Some (str "current.log") ∧
  name_extension (str "current.log") ≠ str ".sst".
Proof.
  split; [|done]. apply (entry_name_join _ (str "current.log")); [|done].
  apply (bool_decide_unpack _). reflexivity.
Qed.

(** ** Tables, newest first *)

(** A table: its path and its pairs. *)
Abbreviation table := (bytes * BlockData)%type.

Definition kvs_map (kvs : BlockData) : gmap bytes bytes := list_to_map kvs.

(** The newest binding of a key. *)
Fixpoint tlookup (T : list table) (k : bytes) : option bytes :=
  match T with
  | [] => None
  | (_, kvs) :: T => match kvs_map kvs !! k with Some v => Some v | None => tlookup T k end
  end.

(** An empty value is a tombstone. *)
Definition live (v : option bytes) : option bytes :=
  match v with Some [] => None | _ => v end.

Lemma live_live v : live (live v) = live v.
Proof. by destruct v as [[|]|]. Qed.

Lemma live_bool_decide v : (if bool_decide (v = []) then None else Some v) = live (Some v).
Proof. by destruct v. Qed.

Lemma tlookup_app A B k :
  tlookup (A ++ B) k = match tlookup A k with Some v => Some v | None => tlookup B k end.
Proof.
  induction A as [|[n kvs] A IH]; simpl; [done|]. by destruct (kvs_map kvs !! k).
Qed.

Definition table_ok (fs : filesystem) (t : table) : Prop :=
  ∃ bf, fs !! fst t = Some (table_bytes (snd t) bf) ∧ table_filter (snd t) bf ∧
    smap_sorted (snd t) ∧ zlen (enc_kvs (snd t)) <= max_block.

(** What may be cached: the block of a table. *)
Definition cached (T : list table) (key : bytes) (d : BlockData) : Prop :=
  ∃ t, t ∈ T ∧ key = MakeCacheKey (fst t) 0 ∧ d = snd t.

Lemma cached_block_ok T t :
  NoDup (map fst T) → t ∈ T → block_ok (cached T) (fst t) (snd t).
Proof.
  intros Hnd Ht d. split.
  - intros (t' & Ht' & Hk & ->). f_equal. unfold MakeCacheKey in Hk. apply app_inv_tail in Hk.
    destruct t as [n kvs], t' as [n' kvs']. simpl in *. subst n'.
    assert (kvs_eq : (list_to_map T : gmap bytes BlockData) !! n = Some kvs)
      by (by apply elem_of_list_to_map_1).
    assert ((list_to_map T : gmap bytes BlockData) !! n = Some kvs')
      by (by apply elem_of_list_to_map_1). congruence.
  - intros ->. by exists t.
Qed.

Lemma coherent_mono {V} (P Q : bytes → V → Prop) c :
  (∀ k d, P k d → Q k d) → cache_coherent P c → cache_coherent Q c.
Proof.
  intros HPQ (cap & l & h & m & Hc & Hl). exists cap, l, h, m. split; [done|].
  eapply Forall_impl; [exact Hl|]. auto.
Qed.

Lemma search_tables_spec fs T c A k :
  NoDup (map fst T) → Forall (table_ok fs) T → A ⊆ T → cache_coherent (cached T) c →
  ∃ c', search_tables fs c (map fst A) k = Some (c', live (tlookup A k)) ∧
    cache_coherent (cached T) c'.
Proof.
  intros Hnd HT. revert c. induction A as [|[n kvs] A IH]; intros c HA Hc; simpl; [by exists c|].
  assert ((n, kvs) ∈ T) as Hin by (apply HA; left).
  rewrite Forall_forall in HT. destruct (HT _ Hin) as (bf & Hfs & Hbf & Hs & Hm). simpl in *.
  rewrite Hfs. destruct (Open_table n kvs bf Hm Hbf) as (r & -> & Hr).
  cbn [mbind option_bind].
  destruct (SSTableReader_Get_table (cached T) r (Some c) n kvs bf k Hr Hc
    (cached_block_ok T (n, kvs) Hnd Hin) Hbf Hs Hm) as (r' & c' & -> & Hr' & Hc').
  cbn [mbind option_bind].
  destruct Hc' as [Hc' Hsome]. destruct c' as [c1|]; [|discriminate (proj2 Hsome eq_refl)].
  clear Hsome. cbn [mbind option_bind]. unfold kvs_map. destruct (_ !! k) as [v|].
  - exists c1. by rewrite live_bool_decide.
  - apply IH; [set_solver|done].
Qed.

Lemma merge_entries_lookup e m k :
  NoDup (map fst e) →
  kvs_map (merge_entries e m) !! k = match kvs_map e !! k with Some v => Some v | None => kvs_map m !! k end.
Proof.
  unfold merge_entries, kvs_map. revert m.
  induction e as [|[k1 v1] e IH]; intros m Hnd; simpl in *; [done|].
  apply NoDup_cons in Hnd as [Hk1 Hnd]. rewrite IH by done. rewrite smap_insert_map.
  destruct (decide (k1 = k)) as [->|Hne].
  - rewrite !lookup_insert_eq. by rewrite (not_elem_of_list_to_map_1 e k Hk1).
  - by rewrite !lookup_insert_ne.
Qed.

Lemma enc_kvs_insert k v m :
  zlen (enc_kvs (smap_insert k v m)) <= zlen (enc_kvs m) + 2 + zlen k + zlen v.
Proof.
  induction m as [|[k1 v1] m IH]; simpl.
  - rewrite enc_kvs_cons, zlen_app, enc_kv_length. simpl. change (zlen (enc_kvs [])) with 0. lia.
  - destruct (bytes_ltb k k1); [|destruct (bytes_ltb k1 k)];
      rewrite !enc_kvs_cons, !zlen_app, !enc_kv_length; simpl;
      pose proof (zlen_nonneg k1); pose proof (zlen_nonneg v1); lia.
Qed.

Lemma merge_entries_sorted e m : smap_sorted m → smap_sorted (merge_entries e m).
Proof.
  unfold merge_entries. revert m. induction e as [|[k v] e IH]; intros m Hm; simpl; [done|].
  apply IH. by apply smap_insert_sorted.
Qed.

Lemma merge_entries_size e m :
  zlen (enc_kvs (merge_entries e m)) <= zlen (enc_kvs e) + zlen (enc_kvs m).
Proof.
  unfold merge_entries. revert m. induction e as [|[k v] e IH]; intros m; simpl.
  - change (zlen (enc_kvs [])) with 0. lia.
  - specialize (IH (smap_insert k v m)). pose proof (enc_kvs_insert k v m).
    rewrite enc_kvs_cons, zlen_app, enc_kv_length. simpl. lia.
Qed.

Definition tables_bytes (T : list table) : Z := foldr (λ t s, zlen (enc_kvs (snd t)) + s) 0 T.

Lemma tables_bytes_nonneg T : 0 <= tables_bytes T.
Proof. induction T as [|t T IH]; simpl; [lia|]. pose proof (zlen_nonneg (enc_kvs (snd t))). lia. Qed.

Lemma merge_tables_spec fs T m :
  Forall (table_ok fs) T → smap_sorted m →
  ∃ m', merge_tables fs (map fst T) m = Some m' ∧ smap_sorted m' ∧
    zlen (enc_kvs m') <= zlen (enc_kvs m) + tables_bytes T ∧
    ∀ k, kvs_map m' !! k = match tlookup (reverse T) k with Some v => Some v | None => kvs_map m !! k end.
Proof.
  intros HT. revert m. induction HT as [|[n kvs] T (bf & Hfs & Hbf & Hs & Hm) HT IH]; intros m Hsm.
  { exists m. split_and!; [done..|simpl; lia|done]. }
  simpl in *. rewrite Hfs. destruct (Open_table n kvs bf Hm Hbf) as (r & -> & Hr).
  cbn [mbind option_bind].
  destruct (NewIterator_table (λ _ d, d = kvs) r None n kvs bf Hr I ltac:(done) Hm)
    as (r' & c' & -> & _).
  cbn [mbind option_bind SeekToFirst entries_].
  destruct (IH (merge_entries kvs m)) as (m' & -> & Hs' & Hsz & Hl); [by apply merge_entries_sorted|].
  exists m'. split_and!; [done..| |].
  - pose proof (merge_entries_size kvs m). lia.
  - intros k. rewrite Hl, reverse_cons, tlookup_app. simpl.
    rewrite merge_entries_lookup by (by apply smap_sorted_NoDup).
    destruct (tlookup (reverse T) k); [done|]. by destruct (kvs_map kvs !! k).
Qed.

(** ** The invariant of a running database *)

Section Invariant.
Context {Rng : Type} (dist : Rng → bool * Rng).
#[local] Existing Instance MemTableInserter.

Definition sst_table (o : Options) (ikvs : Z * BlockData) : table :=
  (sst_path o (fst ikvs), snd ikvs).

Definition next_id (I : list (Z * BlockData)) : Z :=
  match last I with Some ikvs => fst ikvs + 1 | None => 1 end.

(** The tables on disk are [I] (numbers and pairs, oldest first), the memory
    table holds [l]; [budget] bounds the bytes written so far and, with them,
    the numbers used for tables. *)
Record db_inv (db : DB Rng) (I : list (Z * BlockData)) (l : smap bytes) (budget : Z) : Prop := {
  di_files : sst_files_ db = map fst (map (sst_table (options_ db)) I);
  di_ids : StronglySorted Z.lt (map fst I) ∧ Forall (λ i, 1 <= i) (map fst I);
  di_next : next_sst_id_ db = next_id I;
  di_tables : Forall (table_ok (db_fs db)) (map (sst_table (options_ db)) I);
  di_dom : dom (db_fs db) =
    list_to_set (GenerateLogFilename (options_ db) :: map fst (map (sst_table (options_ db)) I));
  di_mem : mt_rep (mem_table_ db) (kvs_map l);
  di_mem_sorted : smap_sorted l;
  di_cache : cache_coherent (cached (map (sst_table (options_ db)) I)) (block_cache_ db);
  di_bytes : zlen (enc_kvs l) + tables_bytes (map (sst_table (options_ db)) I) <= budget;
  di_budget : next_id I + zlen I + (if l is [] then 0 else 2) <= 1 + budget;
  di_small : 0 <= budget <= max_block;
  di_log_ok : lw_ok (log_write_ db) = true;
  di_log_good : lw_good (log_write_ db) = true;
  di_log_file : db_fs db !! GenerateLogFilename (options_ db) = Some (lw_file (log_write_ db));
}.

(** The map a database stands for. *)
Definition db_map (I : list (Z * BlockData)) (l : smap bytes) (o : Options) (k : bytes) :
    option bytes :=
  live (match kvs_map l !! k with
        | Some v => Some v
        | None => tlookup (reverse (map (sst_table o) I)) k
        end).

Lemma next_id_bound db I l b :
  db_inv db I l b → 1 <= next_id I <= 1 + max_block ∧ Forall (λ i, 1 <= i < next_id I) (map fst I).
Proof.
  intros H. pose proof (di_small _ _ _ _ H). pose proof (di_budget _ _ _ _ H).
  destruct (di_ids _ _ _ _ H) as [Hs Hp]. pose proof (zlen_nonneg I).
  assert (1 <= next_id I ∧ Forall (λ i, i < next_id I) (map fst I)) as [Hn1 Hn2].
  { unfold next_id. destruct I as [|[i kvs] I _] using rev_ind; [by split|].
    rewrite last_snoc. simpl. rewrite map_app in *. simpl in *.
    apply Forall_app in Hp as [Hp1 Hp2]. apply Forall_cons in Hp2 as [Hp2 _].
    split; [lia|]. apply Forall_app. split; [|constructor; [lia|done]].
    apply Forall_forall. intros j Hj.
    pose proof (StronglySorted_app_1_elem_of Z.lt _ _ j i Hs Hj ltac:(left)). lia. }
  split; [destruct l; lia|]. rewrite Forall_forall in *. intros i Hi. split; auto.
Qed.

Lemma ids_NoDup (o : Options) (I : list (Z * BlockData)) :
  StronglySorted Z.lt (map fst I) → Forall (λ i, 1 <= i < 10 ^ 6) (map fst I) →
  StronglySorted bytes_lt (map fst (map (sst_table o) I)).
Proof.
  rewrite map_map. simpl. induction I as [|[i kvs] I IH]; simpl; intros Hs Hf; [constructor|].
  apply StronglySorted_inv in Hs as [Hs Hi]. apply Forall_cons in Hf as [Hf1 Hf].
  constructor; [by apply IH|]. apply Forall_map. rewrite Forall_map in Hi, Hf.
  rewrite Forall_forall in *. intros x Hx. apply sst_path_lt; [lia| |].
  - by apply Hi.
  - by apply Hf.
Qed.

Lemma names_sorted db I l b :
  db_inv db I l b → StronglySorted bytes_lt (map fst (map (sst_table (options_ db)) I)).
Proof.
  intros H. destruct (next_id_bound db I l b H) as [Hn Hf].
  apply ids_NoDup; [apply (di_ids _ _ _ _ H)|].
  eapply Forall_impl; [exact Hf|]. simpl. unfold max_block in *. lia.
Qed.

Lemma names_NoDup db I l b : db_inv db I l b → NoDup (map fst (map (sst_table (options_ db)) I)).
Proof.
  intros H. apply smap_sorted_NoDup. exact (names_sorted db I l b H).
Qed.

Lemma sst_path_ne_log o n : 0 <= n < 10 ^ 6 → sst_path o n ≠ GenerateLogFilename o.
Proof.
  intros Hn Heq. destruct (sst_name_facts o n Hn) as (name & H1 & H2 & _).
  destruct (log_name_facts o) as [H3 H4]. rewrite Heq, H3 in H1. congruence.
Qed.

Lemma name_fresh db I l b :
  db_inv db I l b →
  sst_path (options_ db) (next_id I) ∉ map fst (map (sst_table (options_ db)) I).
Proof.
  intros H. destruct (next_id_bound db I l b H) as [Hn Hf]. rewrite map_map.
  intros ([i kvs] & Heq & Hin)%list_elem_of_fmap_1. simpl in Heq.
  rewrite Forall_map, Forall_forall in Hf. specialize (Hf _ Hin). simpl in Hf.
  pose proof (sst_path_lt (options_ db) i (next_id I)) as Hlt.
  rewrite <- Heq in Hlt. unfold max_block in *. apply (bytes_lt_irrefl _ (Hlt ltac:(lia) ltac:(lia) ltac:(lia))).
Qed.

Lemma log_not_table db I l b :
  db_inv db I l b →
  GenerateLogFilename (options_ db) ∉ map fst (map (sst_table (options_ db)) I).
Proof.
  intros H. destruct (next_id_bound db I l b H) as [Hn Hf]. rewrite map_map.
  intros ([i kvs] & Heq & Hin)%list_elem_of_fmap_1. simpl in Heq.
  rewrite Forall_map, Forall_forall in Hf. specialize (Hf _ Hin). simpl in Hf.
  symmetry in Heq. revert Heq. apply sst_path_ne_log. unfold max_block in *. lia.
Qed.

(** *** Reading *)

Lemma DB_Get_spec db I l b k :
  db_inv db I l b →
  ∃ db', DB_Get db k = Some (db', db_map I l (options_ db) k) ∧ db_inv db' I l b ∧
    db_fs db' = db_fs db ∧ options_ db' = options_ db ∧ log_write_ db' = log_write_ db.
Proof.
  intros H. unfold DB_Get, db_map. rewrite (mt_rep_Get _ _ k (di_mem _ _ _ _ H)).
  cbn [mbind option_bind]. destruct (kvs_map l !! k) as [v|].
  - exists db. by rewrite live_bool_decide.
  - unfold GetFromSSTables. rewrite (di_files _ _ _ _ H).
    assert (reverse (map fst (map (sst_table (options_ db)) I)) =
      map fst (reverse (map (sst_table (options_ db)) I))) as -> by (symmetry; apply fmap_reverse).
    destruct (search_tables_spec (db_fs db) (map (sst_table (options_ db)) I) (block_cache_ db)
      (reverse (map (sst_table (options_ db)) I)) k) as (c' & -> & Hc').
    + by eapply names_NoDup.
    + exact (di_tables _ _ _ _ H).
    + intros x. by rewrite elem_of_reverse.
    + exact (di_cache _ _ _ _ H).
    + cbn [mbind option_bind]. eexists. split; [done|]. split; [|done].
      destruct H. by split.
Qed.

(** *** Compaction *)

Lemma kvs_map_filter (m : BlockData) k :
  NoDup (map fst m) → kvs_map (filter (λ kv, snd kv ≠ []) m) !! k = live (kvs_map m !! k).
Proof.
  unfold kvs_map. induction m as [|[k1 v1] m IH]; intros Hnd; [done|]. cbn [map fst] in Hnd.
  apply NoDup_cons in Hnd as [Hk1 Hnd]. rewrite filter_cons. cbn [snd].
  destruct (decide (k1 = k)) as [->|Hne].
  - cbn [list_to_map foldr fst snd uncurry]. rewrite lookup_insert_eq. case_decide as Hv.
    + cbn [list_to_map foldr fst snd uncurry]. rewrite lookup_insert_eq. by destruct v1.
    + rewrite Hv. rewrite IH by done.
      by rewrite (not_elem_of_list_to_map_1 m k Hk1).
  - cbn [list_to_map foldr fst snd uncurry]. rewrite lookup_insert_ne by done.
    case_decide; [|by apply IH].
    cbn [list_to_map foldr fst snd uncurry]. rewrite lookup_insert_ne by done. by apply IH.
Qed.

Lemma enc_kvs_filter (P : bytes * bytes → Prop) `{∀ x, Decision (P x)} m :
  zlen (enc_kvs (filter P m)) <= zlen (enc_kvs m).
Proof.
  induction m as [|kv m IH]; [done|]. rewrite filter_cons. rewrite (enc_kvs_cons kv m), zlen_app.
  pose proof (zlen_nonneg (enc_kv kv)).
  case_decide; [rewrite enc_kvs_cons, zlen_app|]; lia.
Qed.

Lemma delete_all_lookup (fs : filesystem) files f :
  foldl (λ fs f, delete f fs) fs files !! f = if decide (f ∈ files) then None else fs !! f.
Proof.
  revert fs. induction files as [|g files IH]; intros fs; cbn [foldl].
  { rewrite decide_False; [done|]. apply not_elem_of_nil. }
  rewrite IH. destruct (decide (f = g)) as [->|Hne].
  - rewrite (decide_True (P := g ∈ g :: files)) by left. case_decide; [done|].
    apply lookup_delete_eq.
  - rewrite lookup_delete_ne by done. apply decide_ext. rewrite elem_of_cons. tauto.
Qed.

(** Swapping tables and memory for others that stand for the same bytes. *)
(** The merged table without its tombstones reads as the tables it replaces. *)
Lemma merged_reads_same I l o i m k :
  smap_sorted m →
  (∀ k, kvs_map m !! k =
    match tlookup (reverse (map (sst_table o) I)) k with Some v => Some v | None => kvs_map [] !! k end) →
  db_map [(i, filter (λ kv, snd kv ≠ []) m)] l o k = db_map I l o k.
Proof.
  intros Hm Hml. unfold db_map. destruct (kvs_map l !! k); [done|]. simpl.
  rewrite kvs_map_filter by (by apply smap_sorted_NoDup).
  rewrite Hml. change (kvs_map [] !! k) with (@None bytes).
  destruct (tlookup _ k) as [v|]; [|done]. by destruct v.
Qed.

Lemma DoCompaction_spec db I l b :
  db_inv db I l b →
  ∃ db' I', DoCompaction db = Some db' ∧ db_inv db' I' l b ∧
    options_ db' = options_ db ∧ log_write_ db' = log_write_ db ∧
    ∀ k, db_map I' l (options_ db) k = db_map I l (options_ db) k.
Proof.
  intros H. pose proof (names_NoDup db I l b H) as Hnd. pose proof (name_fresh db I l b H) as Hfresh.
  destruct (next_id_bound db I l b H) as [Hn _].
  unfold DoCompaction. rewrite (di_files _ _ _ _ H), !length_map.
  destruct (Nat.leb_spec (length I) 1) as [|Hlen]; [by exists db, I|].
  set (o := options_ db) in *. set (T := map (sst_table o) I) in *.
  destruct (merge_tables_spec (db_fs db) T [] (di_tables _ _ _ _ H)) as (m & -> & Hms & Hsz & Hml);
    [constructor|]. cbn [mbind option_bind].
  unfold GenerateSSTableFilename. rewrite (di_next _ _ _ _ H). change (db_path o ++ _) with (sst_path o (next_id I)).
  set (kvs := filter _ m). set (new := sst_path o (next_id I)) in *.
  assert (smap_sorted kvs) as Hks by (by apply smap_sorted_filter).
  pose proof (enc_kvs_filter (λ kv, snd kv ≠ []) m) as Hkb. fold kvs in Hkb.
  change (zlen (enc_kvs [])) with 0 in Hsz. pose proof (di_bytes _ _ _ _ H) as Hbytes. fold o T in Hbytes.
  pose proof (di_small _ _ _ _ H) as Hsm. pose proof (zlen_nonneg (enc_kvs l)).
  destruct (build_table_Some kvs ltac:(lia)) as (bf & -> & Hbf). cbn [mbind option_bind].
  destruct (cache_clear_coherent_nil (block_cache_ db)) as (c & -> & Hc); [by eexists; apply H|].
  cbn [mbind option_bind].
  set (fs' := foldl _ _ _).
  assert (∀ f, fs' !! f = if decide (f ∈ map fst T) then None else <[new := table_bytes kvs bf]> (db_fs db) !! f)
    as Hfs' by (intros f; apply delete_all_lookup).
  assert (new ≠ GenerateLogFilename o) as Hlog by (apply sst_path_ne_log; unfold max_block in *; lia).
  pose proof (log_not_table db I l b H) as Hlog'. fold o T in Hlog'.
  exists (mkDB fs' o (next_log_id_ db) (u64 (next_id I + 1)) (mem_table_ db) (log_write_ db) c [new]),
    [(next_id I, kvs)].
  split; [done|]. split; [|split; [done|split; [done|]]].
  - split; simpl; try apply H.
    + done.
    + split; [repeat constructor|]. constructor; [lia|done].
    + unfold next_id at 2. simpl. rewrite u64_small; [done|]. unfold max_block in *. lia.
    + constructor; [|done]. exists bf. simpl. rewrite Hfs', decide_False, lookup_insert_eq by done.
      split_and!; [done..|lia].
    + apply set_eq. intros f. rewrite elem_of_dom, Hfs', !elem_of_union, !elem_of_singleton.
      case_decide as Hf.
      * split; [by intros [? ?]|]. by intros [->|[->|Hemp%elem_of_empty]].
      * rewrite lookup_insert_is_Some, <- elem_of_dom, (di_dom _ _ _ _ H).
        rewrite elem_of_list_to_set, elem_of_cons. fold o T. rewrite elem_of_empty. clear -Hf Hlog.
        split; [intros [Hx|[_ [->|?]]]|intros [->|[->|[]]]]; auto.
    + by apply Hc.
    + lia.
    + unfold next_id at 1. simpl. pose proof (di_budget _ _ _ _ H).
      change (zlen [(next_id I, kvs)]) with 1. unfold zlen in *. destruct l; lia.
    + fold o. rewrite Hfs', decide_False, lookup_insert_ne by done. apply (di_log_file _ _ _ _ H).
  - intros k. exact (merged_reads_same I l o (next_id I) m k Hms Hml).
Qed.

(** *** The log *)

(** The records of a log: one batch per operation. *)
Definition op_rec (op : BatchOp) : bytes := batch_rep (replicate 8 x00) 1 [op].

Definition log_of (ops : list BatchOp) : bytes := concat (map wal_record (map op_rec ops)).

Definition apply_op (m : smap bytes) (op : BatchOp) : smap bytes :=
  match op with
  | OpPut k v => smap_insert k v m
  | OpDelete k => smap_insert k [] m
  end.

(** The log of [db] replays to the memory table. *)
Definition log_inv (db : DB Rng) (l : smap bytes) : Prop :=
  ∃ ops, Forall op_fits ops ∧ lw_file (log_write_ db) = log_of ops ∧ l = foldl apply_op [] ops.

Lemma op_rec_length op : op_fits op → zlen (op_rec op) < 65536.
Proof.
  unfold op_rec, batch_rep. intros Ho. autorewrite with ms_len.
  change (zlen (replicate 8 x00)) with 8. change (zlen (EncodeFixed32 1)) with 4.
  destruct op as [k v|k]; simpl in *; rewrite app_nil_r; autorewrite with ms_len; lia.
Qed.

Lemma Recover_loop_log pre ops m l fuel :
  Forall op_fits ops → (length ops < fuel)%nat → mt_rep m (kvs_map l) →
  ∃ m', Recover_loop dist fuel (reader_at (pre ++ log_of ops) (length pre)) m = Some m' ∧
    mt_rep m' (kvs_map (foldl apply_op l ops)).
Proof.
  intros Hf. revert pre m l fuel. induction Hf as [|op ops Ho Hf IH]; intros pre m l [|fuel] Hfu Hm;
    simpl in Hfu; try lia.
  - cbn [Recover_loop]. unfold log_of. cbn [map concat]. rewrite app_nil_r.
    destruct (ReadRecord_end pre) as (r & -> & _). cbn [mbind option_bind]. by exists m.
  - cbn [Recover_loop]. unfold log_of. cbn [map concat].
    rewrite ReadRecord_at by (by apply op_rec_length). cbn [mbind option_bind].
    unfold WriteBatch_SetContents.
    pose proof (WriteBatch_Iterate_rep (H := MemTableInserter dist) (replicate 8 x00) 1 [op] m
      eq_refl ltac:(by constructor)) as Hit.
    fold (op_rec op) in Hit. rewrite Hit. clear Hit.
    assert (∃ m1, handle_ops m [op] = Some m1 ∧ mt_rep m1 (kvs_map (apply_op l op)))
      as (m1 & -> & Hm1).
    { unfold kvs_map in *. destruct op as [k v|k]; simpl; rewrite smap_insert_map.
      - destruct (mt_rep_Put dist m _ k v Hm) as (m1 & -> & ?). by exists m1.
      - destruct (mt_rep_Put dist m _ k [] Hm) as (m1 & -> & ?). by exists m1. }
    cbn [mbind option_bind].
    destruct (IH (pre ++ wal_record (op_rec op)) m1 (apply_op l op) fuel) as (m' & Hr & Hm');
      [lia|done|].
    rewrite <- app_assoc in Hr. exists m'. split; [exact Hr|done].
Qed.

Lemma Recover_log fs o ops m :
  Forall op_fits ops → fs !! GenerateLogFilename o = Some (log_of ops) → mt_rep m ∅ →
  ∃ m', Recover dist fs o m = Some m' ∧ mt_rep m' (kvs_map (foldl apply_op [] ops)).
Proof.
  intros Hf Hfs Hm. unfold Recover. rewrite Hfs.
  apply (Recover_loop_log [] ops m [] (S (length (log_of ops))) Hf); [|done].
  unfold log_of. pose proof (concat_records_length (map op_rec ops)) as Hl.
  rewrite length_map in Hl. lia.
Qed.

(** *** Writing *)

Lemma db_map_insert I l o k v k' :
  db_map I (smap_insert k v l) o k' = if decide (k' = k) then live (Some v) else db_map I l o k'.
Proof.
  unfold db_map, kvs_map. rewrite smap_insert_map. case_decide as Hk.
  - by rewrite Hk, lookup_insert_eq.
  - by rewrite lookup_insert_ne.
Qed.

Lemma mem_entries db I l b :
  db_inv db I l b →
  MemTable_entries (mem_table_ db) = Some l ∧
  MemTable_Empty (mem_table_ db) = bool_decide (l = []).
Proof.
  intros H. destruct (mt_rep_entries _ _ (di_mem _ _ _ _ H)) as (l' & He & Hs & Hm & Hc & _).
  assert (l' = l) as -> by (apply smap_ext; [done|apply H|done]).
  split; [done|]. unfold MemTable_Empty. unfold MemTable_Count in Hc. rewrite Hc.
  pose proof (enc_kvs_bounds l) as [Hb _]. pose proof (di_bytes _ _ _ _ H).
  pose proof (di_small _ _ _ _ H). pose proof (zlen_nonneg l). unfold max_block in *.
  pose proof (tables_bytes_nonneg (map (sst_table (options_ db)) I)).
  rewrite u64_small by lia. case_bool_decide as Hl.
  - by rewrite Hl.
  - destruct l; [done|]. autorewrite with ms_len in *. destruct (Z.eqb_spec (1 + zlen l) 0); [|done].
    pose proof (zlen_nonneg l). lia.
Qed.

(** After a flush, before the check for a compaction. *)
Definition flushed (db : DB Rng) (name file : bytes) (next : Z) (m : MemTable Rng) : DB Rng :=
  mkDB (<[GenerateLogFilename (options_ db) := []]>
          (delete (GenerateLogFilename (options_ db)) (<[name := file]> (db_fs db))))
    (options_ db) (next_log_id_ db) next m (MkLogWriter [] true true) (block_cache_ db)
    (sst_files_ db ++ [name]).

Lemma next_id_snoc I i kvs : next_id (I ++ [(i, kvs)]) = i + 1.
Proof. unfold next_id. by rewrite last_snoc. Qed.

Lemma tables_bytes_snoc T t : tables_bytes (T ++ [t]) = tables_bytes T + zlen (enc_kvs (snd t)).
Proof. induction T as [|x T IH]; simpl; [lia|]. rewrite IH. lia. Qed.

Lemma flushed_inv db I l b bf m :
  db_inv db I l b → l ≠ [] → table_filter l bf → mt_rep m ∅ →
  db_inv (flushed db (sst_path (options_ db) (next_id I)) (table_bytes l bf)
            (u64 (next_id I + 1)) m)
    (I ++ [(next_id I, l)]) [] b.
Proof.
  intros H Hl Hbf Hm. destruct (next_id_bound db I l b H) as [Hn Hf].
  pose proof (name_fresh db I l b H) as Hfresh. pose proof (log_not_table db I l b H) as Hlog.
  assert (sst_path (options_ db) (next_id I) ≠ GenerateLogFilename (options_ db)) as Hne
    by (apply sst_path_ne_log; unfold max_block in *; lia).
  pose proof (di_small _ _ _ _ H). pose proof (di_bytes _ _ _ _ H).
  set (o := options_ db) in *. set (T := map (sst_table o) I) in *.
  assert (map (sst_table o) (I ++ [(next_id I, l)]) = T ++ [(sst_path o (next_id I), l)]) as HT
    by (by rewrite map_app).
  pose proof (tables_bytes_nonneg T).
  split; simpl; fold o; rewrite ?HT, ?map_app; simpl; try apply H; try done.
  - rewrite (di_files _ _ _ _ H). done.
  - destruct (di_ids _ _ _ _ H) as [Hs Hp]. split.
    + apply StronglySorted_app_2; [|done|repeat constructor].
      intros i j Hi Hj. apply list_elem_of_singleton in Hj as ->. rewrite Forall_forall in Hf.
      specialize (Hf _ Hi). lia.
    + apply Forall_app. split; [done|]. constructor; [lia|done].
  - rewrite next_id_snoc, u64_small; [done|]. unfold max_block in *. lia.
  - apply Forall_app. split.
    + pose proof (di_tables _ _ _ _ H) as Ht. rewrite Forall_forall in Ht |- *.
      intros t Hin. destruct (Ht t Hin) as (bf' & Hfs & ?). exists bf'. split; [|done].
      apply (list_elem_of_fmap_2 fst) in Hin.
      rewrite lookup_insert_ne by (intros Heq; apply Hlog; by rewrite Heq).
      rewrite lookup_delete_ne by (intros Heq; apply Hlog; by rewrite Heq).
      rewrite lookup_insert_ne by (intros Heq; apply Hfresh; by rewrite Heq). done.
    + constructor; [|done]. exists bf. simpl.
      rewrite lookup_insert_ne, lookup_delete_ne, lookup_insert_eq by congruence.
      split_and!; [done|done|apply H|lia].
  - rewrite dom_insert_L, dom_delete_L, dom_insert_L, (di_dom _ _ _ _ H).
    fold o T. rewrite list_to_set_cons, list_to_set_app_L. simpl.
    apply set_eq. intros f.
    rewrite !elem_of_union, elem_of_difference, !elem_of_union, !elem_of_singleton, elem_of_empty.
    destruct (decide (f = GenerateLogFilename o)); tauto.
  - constructor.
  - eapply coherent_mono; [|apply (di_cache _ _ _ _ H)].
    intros k d (t & Ht & ? & ?). exists t. split; [|done]. apply elem_of_app. by left.
  - rewrite tables_bytes_snoc. change (zlen (enc_kvs [])) with 0. simpl. lia.
  - rewrite next_id_snoc. pose proof (di_budget _ _ _ _ H) as Hb. destruct l; [done|].
    autorewrite with ms_len. lia.
  - apply lookup_insert_eq.
Qed.

Lemma flushed_map I l o k : db_map (I ++ [(next_id I, l)]) [] o k = db_map I l o k.
Proof.
  unfold db_map. change (kvs_map [] !! k) with (@None bytes).
  rewrite map_app, reverse_app. simpl. by destruct (kvs_map l !! k).
Qed.

(** What an operation that changes no binding guarantees. *)
Definition same_data (db db' : DB Rng) I l I' l' : Prop :=
  options_ db' = options_ db ∧ (log_inv db l → log_inv db' l') ∧
  ∀ k, db_map I' l' (options_ db) k = db_map I l (options_ db) k.

Lemma FlushMemTable_spec db I l b :
  db_inv db I l b →
  ∃ db' I', FlushMemTable db = Some db' ∧ db_inv db' I' [] b ∧ same_data db db' I l I' [].
Proof.
  intros H. destruct (mem_entries db I l b H) as [He Hem].
  unfold FlushMemTable. rewrite Hem. case_bool_decide as Hl.
  { subst l. by exists db, I. }
  unfold GenerateSSTableFilename. rewrite (di_next _ _ _ _ H), He. cbn [mbind option_bind].
  change (db_path (options_ db) ++ _) with (sst_path (options_ db) (next_id I)).
  pose proof (di_bytes _ _ _ _ H). pose proof (di_small _ _ _ _ H).
  assert (0 <= tables_bytes (map (sst_table (options_ db)) I)) by apply tables_bytes_nonneg.
  destruct (build_table_Some l ltac:(lia)) as (bf & -> & Hbf). cbn [mbind option_bind].
  destruct (mt_rep_Clear _ _ (di_mem _ _ _ _ H)) as (m & -> & Hm). cbn [mbind option_bind].
  pose proof (flushed_inv db I l b bf m H Hl Hbf Hm) as Hf. unfold new_log, LogWriter_new.
  cbn [lw_file]. unfold flushed in Hf. set (db1 := mkDB _ _ _ _ _ _ _ _) in Hf |- *.
  assert (log_inv db1 []) as Hlog by (exists []; by split_and!).
  unfold MaybeScheduleCompaction. destruct (_ <=? _).
  - destruct (DoCompaction_spec db1 _ _ _ Hf) as (db' & I' & -> & Hi & Ho & Hw & Hk).
    exists db', I'. split; [done|]. split; [done|]. split; [done|]. split.
    + intros _. exists []. by rewrite Hw.
    + intros k. rewrite <- (flushed_map I l). apply Hk.
  - exists db1, (I ++ [(next_id I, l)]). split; [done|]. split; [done|]. split; [done|].
    split; [done|]. intros k. apply flushed_map.
Qed.

(** A logged write that has reached the memory table. *)
Definition written (db : DB Rng) (op : BatchOp) (m : MemTable Rng) : DB Rng :=
  let w := MkLogWriter (lw_file (log_write_ db) ++ wal_record (op_rec op)) true true in
  mkDB (<[GenerateLogFilename (options_ db) := lw_file w]> (db_fs db)) (options_ db)
    (next_log_id_ db) (next_sst_id_ db) m w (block_cache_ db) (sst_files_ db).

Definition op_key (op : BatchOp) : bytes := match op with OpPut k _ | OpDelete k => k end.
Definition op_val (op : BatchOp) : bytes := match op with OpPut _ v => v | OpDelete _ => [] end.
Definition op_cost (op : BatchOp) : Z := 2 + zlen (op_key op) + zlen (op_val op).

Lemma apply_op_eq l op : apply_op l op = smap_insert (op_key op) (op_val op) l.
Proof. by destruct op. Qed.

Lemma written_inv db I l b op m :
  db_inv db I l b → b + op_cost op <= max_block →
  mt_rep m (kvs_map (apply_op l op)) →
  db_inv (written db op m) I (apply_op l op) (b + op_cost op) ∧
  (log_inv db l → log_inv (written db op m) (apply_op l op)).
Proof.
  intros H Hb Hm. pose proof (di_small _ _ _ _ H).
  pose proof (zlen_nonneg (op_key op)). pose proof (zlen_nonneg (op_val op)).
  pose proof (log_not_table db I l b H) as Hlog. unfold op_cost in *. split.
  - rewrite apply_op_eq in *. split; simpl; try apply H; try done; try lia.
    + pose proof (di_tables _ _ _ _ H) as Ht. rewrite Forall_forall in Ht |- *.
      intros t Hin. destruct (Ht t Hin) as (bf' & Hfs & ?). exists bf'. split; [|done].
      apply (list_elem_of_fmap_2 fst) in Hin.
      rewrite lookup_insert_ne; [done|]. intros Heq. apply Hlog. by rewrite Heq.
    + rewrite dom_insert_L, (di_dom _ _ _ _ H). simpl. apply set_eq. intros f.
      rewrite !elem_of_union. tauto.
    + apply smap_insert_sorted. apply H.
    + pose proof (enc_kvs_insert (op_key op) (op_val op) l). pose proof (di_bytes _ _ _ _ H). lia.
    + pose proof (di_budget _ _ _ _ H).
      destruct (smap_insert (op_key op) (op_val op) l); destruct l; lia.
    + apply lookup_insert_eq.
  - intros (ops & Hf & Hw & ->). exists (ops ++ [op]). split_and!.
    + apply Forall_app. split; [done|]. constructor; [|done].
      unfold max_block in *. destruct op; simpl in *; lia.
    + simpl. rewrite Hw. unfold log_of. rewrite !map_app, concat_app. simpl. by rewrite app_nil_r.
    + by rewrite foldl_app.
Qed.

Lemma add_op_new op :
  op_fits op → add_op WriteBatch_new op = Some (op_rec op).
Proof.
  intros Ho. pose proof (add_op_rep (replicate 8 x00) 0 [] op eq_refl Ho) as Hr.
  change (batch_rep (replicate 8 x00) 0 []) with WriteBatch_new in Hr. exact Hr.
Qed.

(** The log and the memory table, written together. *)
Lemma write_spec db I l b op :
  db_inv db I l b → b + op_cost op <= max_block →
  add_op WriteBatch_new op = Some (op_rec op) ∧
  log_add db (op_rec op) log_good = (written db op (mem_table_ db), true) ∧
  ∃ m, MemTable_Put dist (mem_table_ db) (op_key op) (op_val op) = Some m ∧
    mt_rep m (kvs_map (apply_op l op)).
Proof.
  intros H Hb. pose proof (di_small _ _ _ _ H). unfold op_cost, max_block in *.
  pose proof (zlen_nonneg (op_key op)). pose proof (zlen_nonneg (op_val op)). split_and!.
  - apply add_op_new. destruct op; simpl in *; lia.
  - unfold log_add, AddRecord, EmitPhysicalRecord. by rewrite (di_log_ok _ _ _ _ H), (di_log_good _ _ _ _ H).
  - destruct (mt_rep_Put dist _ _ (op_key op) (op_val op) (di_mem _ _ _ _ H)) as (m & ? & ?).
    exists m. split; [done|]. rewrite apply_op_eq. unfold kvs_map. by rewrite smap_insert_map.
Qed.

(** The bindings after a write. *)
Definition updated (db : DB Rng) I l I' l' (op : BatchOp) : Prop :=
  ∀ k, db_map I' l' (options_ db) k =
    if decide (k = op_key op) then live (Some (op_val op)) else db_map I l (options_ db) k.

Lemma DB_Put_spec db I l b k v :
  db_inv db I l b → b + op_cost (OpPut k v) <= max_block →
  ∃ db' I' l', DB_Put dist db k v log_good = Some (db', true) ∧
    db_inv db' I' l' (b + op_cost (OpPut k v)) ∧ options_ db' = options_ db ∧
    (log_inv db l → log_inv db' l') ∧ updated db I l I' l' (OpPut k v).
Proof.
  intros H Hb. destruct (write_spec db I l b (OpPut k v) H Hb) as (Ha & Hw & m & Hm & Hr).
  destruct (written_inv db I l b (OpPut k v) m H Hb Hr) as [Hi Hli].
  assert (updated db I l I (apply_op l (OpPut k v)) (OpPut k v)) as Hu
    by (intros k'; apply db_map_insert).
  unfold DB_Put. cbn [add_op op_key op_val] in Ha, Hm. rewrite Ha. cbn [mbind option_bind].
  rewrite Hw. cbn [negb]. change (mem_table_ (written _ _ ?m)) with m. rewrite Hm.
  cbn [mbind option_bind].
  change (set_mem (written db (OpPut k v) _) m) with (written db (OpPut k v) m).
  destruct (_ <=? _).
  - destruct (FlushMemTable_spec _ _ _ _ Hi) as (db' & I' & -> & Hi' & Ho & Hl & Hk).
    cbn [mbind option_bind]. exists db', I', []. split; [done|]. split_and!; [done..|by auto|].
    intros k'. rewrite <- Hu. apply Hk.
  - exists (written db (OpPut k v) m), I, (apply_op l (OpPut k v)). by split_and!.
Qed.

Lemma DB_Delete_spec db I l b k :
  db_inv db I l b → b + op_cost (OpDelete k) <= max_block →
  ∃ db' l', DB_Delete dist db k log_good = Some (db', true) ∧
    db_inv db' I l' (b + op_cost (OpDelete k)) ∧ options_ db' = options_ db ∧
    (log_inv db l → log_inv db' l') ∧ updated db I l I l' (OpDelete k).
Proof.
  intros H Hb. destruct (write_spec db I l b (OpDelete k) H Hb) as (Ha & Hw & m & Hm & Hr).
  destruct (written_inv db I l b (OpDelete k) m H Hb Hr) as [Hi Hli].
  unfold DB_Delete. cbn [add_op op_key op_val] in Ha, Hm. rewrite Ha. cbn [mbind option_bind].
  rewrite Hw. cbn [negb]. change (mem_table_ (written _ _ ?m)) with m. rewrite Hm.
  cbn [mbind option_bind].
  exists (written db (OpDelete k) m), (apply_op l (OpDelete k)). split_and!; try done.
  intros k'. apply db_map_insert.
Qed.

(** *** Opening *)

#[local] Existing Instance path_le_dec.

#[local] Instance path_le_trans : Transitive path_le.
Proof.
  intros a b c Hab Hbc Hca. unfold path_le in *.
  destruct (bytes_lt_total b c) as [H|[->|H]]; [|done|done].
  apply Hab. exact (bytes_lt_trans _ _ _ H Hca).
Qed.
#[local] Instance path_le_total : Total path_le.
Proof.
  intros a b. unfold path_le. destruct (bytes_lt_total a b) as [H|[->|H]].
  - left. intros H'. apply (bytes_lt_irrefl a). by etrans.
  - left. apply bytes_lt_irrefl.
  - right. intros H'. apply (bytes_lt_irrefl a). by etrans.
Qed.
#[local] Instance path_le_antisym : AntiSymm (=) path_le.
Proof. intros a b H1 H2. unfold path_le in *. by destruct (bytes_lt_total a b) as [|[|]]. Qed.

Lemma bytes_lt_path_le l : StronglySorted bytes_lt l → StronglySorted path_le l.
Proof.
  induction 1 as [|x l Hl IH Hx]; constructor; [done|]. eapply Forall_impl; [exact Hx|].
  intros y Hy Hyx. apply (bytes_lt_irrefl x). by etrans.
Qed.

Definition next_number (o : Options) (next : Z) (f : bytes) : Z :=
  match stoll (name_stem (default [] (entry_name (db_path o) f))) with
  | Some v => let id := u64 v in if next <=? id then u64 (id + 1) else next
  | None => next
  end.

Lemma next_number_spec o I :
  StronglySorted Z.lt (map fst I) → Forall (λ i, 1 <= i < 10 ^ 6) (map fst I) →
  foldl (next_number o) 1 (map fst (map (sst_table o) I)) = next_id I.
Proof.
  induction I as [|[i kvs] I IH] using rev_ind; intros Hs Hf; [done|].
  rewrite !map_app, foldl_app, next_id_snoc. cbn [map foldl].
  rewrite map_app in Hs, Hf. apply Forall_app in Hf as [Hf1 Hf2].
  apply Forall_cons in Hf2 as [Hi _]. simpl in Hi.
  rewrite IH; [|by eapply StronglySorted_app_1_l|done].
  unfold next_number. destruct (sst_name_facts o i) as (name & Hn & _ & Hst); [lia|].
  cbn [fst sst_table]. rewrite Hn. cbn [default from_option id]. rewrite Hst.
  change (10 ^ 6) with 1000000 in *. rewrite !u64_small by lia.
  assert (next_id I <= i) as Hle; [|destruct (Z.leb_spec (next_id I) i); lia].
  unfold next_id. destruct I as [|[j kvs'] I _] using rev_ind; [simpl; lia|]. rewrite last_snoc. simpl.
  rewrite map_app in Hs.
  pose proof (StronglySorted_app_1_elem_of Z.lt _ _ j i Hs) as Hlt.
  enough (j < i) by lia. apply Hlt; [|left]. apply elem_of_app. right. left.
Qed.

Lemma LoadSSTableList_spec fs o I :
  StronglySorted Z.lt (map fst I) → Forall (λ i, 1 <= i < 10 ^ 6) (map fst I) →
  (∀ f, f ∈ map fst (map (sst_table o) I) → f ∈ dom fs) →
  (∀ f, f ∈ dom fs → f = GenerateLogFilename o ∨ f ∈ map fst (map (sst_table o) I)) →
  LoadSSTableList fs o = (map fst (map (sst_table o) I), next_id I).
Proof.
  intros Hs Hf H1 H2. unfold LoadSSTableList.
  set (found := filter _ (directory_entries fs (db_path o))).
  set (names := map fst (map (sst_table o) I)) in *.
  assert (StronglySorted bytes_lt names) as Hsorted by (by apply ids_NoDup).
  assert (found ≡ₚ names) as Hp.
  { apply NoDup_Permutation.
    - unfold found, directory_entries. do 2 apply NoDup_filter. apply NoDup_fst_map_to_list.
    - by apply smap_sorted_NoDup.
    - intros f. unfold found, directory_entries. rewrite !list_elem_of_filter.
      assert (f ∈ map fst (map_to_list fs) ↔ f ∈ dom fs) as ->.
      { rewrite elem_of_dom. split.
        - intros ([f' c] & -> & Hin)%list_elem_of_fmap_1. apply elem_of_map_to_list in Hin. by eexists.
        - intros [c Hc]. apply elem_of_map_to_list in Hc. by apply (list_elem_of_fmap_2 fst) in Hc. }
      destruct (log_name_facts o) as [L1 L2]. split.
      + intros (He & _ & Hd). destruct (H2 f Hd) as [->|]; [|done].
        rewrite L1 in He. simpl in He. done.
      + intros Hin. pose proof (H1 f Hin) as Hd. unfold names in Hin. rewrite map_map in Hin.
        apply list_elem_of_fmap_1 in Hin as ([i kvs] & -> & Hin). simpl in *.
        apply (list_elem_of_fmap_2 fst) in Hin. rewrite Forall_forall in Hf.
        specialize (Hf _ Hin). simpl in Hf.
        destruct (sst_name_facts o i) as (name & Hn & He & _); [lia|].
        rewrite Hn. simpl. split_and!; [done|by eexists|done]. }
  assert (merge_sort path_le found = names) as ->.
  { apply (StronglySorted_unique path_le).
    - apply StronglySorted_merge_sort; apply _.
    - by apply bytes_lt_path_le.
    - rewrite merge_sort_Permutation. exact Hp. }
  f_equal. exact (next_number_spec o I Hs Hf).
Qed.

Lemma DB_new_spec fs o I ops b seed :
  0 <= block_cache_size o →
  StronglySorted Z.lt (map fst I) → Forall (λ i, 1 <= i < 10 ^ 6) (map fst I) →
  Forall (table_ok fs) (map (sst_table o) I) →
  Forall op_fits ops →
  (fs !! GenerateLogFilename o = Some (log_of ops) ∨
   fs !! GenerateLogFilename o = None ∧ ops = []) →
  (∀ f, f ∈ dom fs → f = GenerateLogFilename o ∨ f ∈ map fst (map (sst_table o) I)) →
  let l := foldl apply_op [] ops in
  zlen (enc_kvs l) + tables_bytes (map (sst_table o) I) <= b →
  next_id I + zlen I + (if l is [] then 0 else 2) <= 1 + b →
  0 <= b <= max_block →
  ∃ db, DB_new dist fs o seed = Some db ∧ db_inv db I l b ∧ options_ db = o ∧
    lw_file (log_write_ db) = [].
Proof.
  intros Hcap Hs Hf Ht Hops Hlog Hdom l Hb1 Hb2 Hb3. unfold DB_new.
  destruct (cache_new_coherent (cached (map (sst_table o) I)) [] (block_cache_size o) Hcap)
    as (c & -> & Hc). cbn [mbind option_bind].
  assert (∀ f, f ∈ map fst (map (sst_table o) I) → f ∈ dom fs) as Hin.
  { intros f (t & -> & Hin)%list_elem_of_fmap_1. rewrite Forall_forall in Ht.
    destruct (Ht t Hin) as (bf & Hfs & _). apply elem_of_dom. by eexists. }
  rewrite (LoadSSTableList_spec fs o I) by done.
  assert (∃ m, Recover dist fs o (MemTable_new seed) = Some m ∧ mt_rep m (kvs_map l))
    as (m & -> & Hm).
  { destruct Hlog as [Hlog|[Hlog ->]].
    - apply Recover_log; [done..|]. apply mt_rep_new.
    - unfold Recover. rewrite Hlog. eexists. split; [done|]. apply mt_rep_new. }
  cbn [mbind option_bind]. unfold new_log, LogWriter_new. cbn [lw_file].
  assert (∀ f, f ∈ map fst (map (sst_table o) I) → f ≠ GenerateLogFilename o) as Hne.
  { intros f Hfin. rewrite map_map in Hfin.
    apply list_elem_of_fmap_1 in Hfin as ([i kvs] & -> & Hi). simpl.
    apply (list_elem_of_fmap_2 fst) in Hi. rewrite Forall_forall in Hf.
    specialize (Hf _ Hi). simpl in Hf. apply sst_path_ne_log. lia. }
  eexists. split; [done|]. split; [|done].
  split; simpl; try done.
  - split; [done|]. eapply Forall_impl; [exact Hf|]. simpl. lia.
  - rewrite Forall_forall in Ht |- *. intros t Htin. destruct (Ht t Htin) as (bf & Hfs & ?).
    exists bf. split; [|done]. apply (list_elem_of_fmap_2 fst) in Htin.
    rewrite lookup_insert_ne; [done|]. intros Heq. by apply (Hne _ Htin).
  - rewrite dom_insert_L. apply set_eq. intros f.
    rewrite !elem_of_union, elem_of_singleton, elem_of_list_to_set. split.
    + intros [?|Hd]; [by left|]. destruct (Hdom f Hd); auto.
    + intros [?|?]; auto.
  - unfold l. clear. induction ops as [|op ops IH] using rev_ind; [constructor|].
    rewrite foldl_app. simpl. rewrite apply_op_eq. by apply smap_insert_sorted.
  - apply lookup_insert_eq.
Qed.

(** ** Clients *)

Inductive DbOp :=
  | DPut (key value : bytes)
  | DDelete (key : bytes)
  | DGet (key : bytes)
  | DFlush
  | DCompact.

Inductive DbAnswer := Done (ok : bool) | Got (v : option bytes).

(** A call; every write to the log succeeds. *)
Definition db_step (db : DB Rng) (o : DbOp) : option (DB Rng * DbAnswer) :=
  match o with
  | DPut k v => '(db, ok) ← DB_Put dist db k v log_good; Some (db, Done ok)
  | DDelete k => '(db, ok) ← DB_Delete dist db k log_good; Some (db, Done ok)
  | DGet k => '(db, v) ← DB_Get db k; Some (db, Got v)
  | DFlush => db ← FlushMemTable db; Some (db, Done true)
  | DCompact => db ← Compaction db; Some (db, Done true)
  end.

Fixpoint db_run (db : DB Rng) (ops : list DbOp) : option (DB Rng * list DbAnswer) :=
  match ops with
  | [] => Some (db, [])
  | o :: ops =>
      '(db, a) ← db_step db o;
      '(db, l) ← db_run db ops;
      Some (db, a :: l)
  end.

(** The same calls on a map; putting the empty string deletes. *)
Definition spec_put (M : gmap bytes bytes) (k v : bytes) : gmap bytes bytes :=
  match v with [] => delete k M | _ => <[k := v]> M end.

Definition db_spec_step (M : gmap bytes bytes) (o : DbOp) : gmap bytes bytes * DbAnswer :=
  match o with
  | DPut k v => (spec_put M k v, Done true)
  | DDelete k => (delete k M, Done true)
  | DGet k => (M, Got (M !! k))
  | DFlush | DCompact => (M, Done true)
  end.

Fixpoint db_spec_run (M : gmap bytes bytes) (ops : list DbOp) : gmap bytes bytes * list DbAnswer :=
  match ops with
  | [] => (M, [])
  | o :: ops =>
      let (M, a) := db_spec_step M o in
      let (M, l) := db_spec_run M ops in
      (M, a :: l)
  end.

Definition dbop_cost (o : DbOp) : Z :=
  match o with
  | DPut k v => 2 + zlen k + zlen v
  | DDelete k => 2 + zlen k
  | _ => 0
  end.

Definition dbops_cost (ops : list DbOp) : Z := foldr (λ o s, dbop_cost o + s) 0 ops.

Lemma dbops_cost_nonneg ops : 0 <= dbops_cost ops.
Proof.
  induction ops as [|o ops IH]; simpl; [lia|].
  destruct o as [k v|k|k| |]; simpl; try lia;
    pose proof (zlen_nonneg k); [pose proof (zlen_nonneg v)|]; lia.
Qed.

Definition db_rep (db : DB Rng) (M : gmap bytes bytes) (I : list (Z * BlockData))
    (l : smap bytes) (b : Z) : Prop :=
  db_inv db I l b ∧ ∀ k, M !! k = db_map I l (options_ db) k.

Lemma spec_put_lookup M k v k' :
  spec_put M k v !! k' = if decide (k' = k) then live (Some v) else M !! k'.
Proof.
  unfold spec_put. destruct v; case_decide as Hk; subst;
    rewrite ?lookup_delete_eq, ?lookup_insert_eq, ?lookup_delete_ne, ?lookup_insert_ne by done; done.
Qed.

Lemma db_step_rep db M I l b o :
  db_rep db M I l b → b + dbop_cost o <= max_block →
  ∃ db' I' l', db_step db o = Some (db', snd (db_spec_step M o)) ∧
    db_rep db' (fst (db_spec_step M o)) I' l' (b + dbop_cost o) ∧
    options_ db' = options_ db ∧ (log_inv db l → log_inv db' l').
Proof.
  intros [H HM] Hb. destruct o as [k v|k|k| |]; simpl in *.
  - destruct (DB_Put_spec db I l b k v H) as (db' & I' & l' & -> & Hi & Ho & Hl & Hu); [exact Hb|].
    cbn [mbind option_bind]. exists db', I', l'. split_and!; [done|split; [exact Hi|]|done|done].
    intros k'. by rewrite Ho, Hu, spec_put_lookup, HM.
  - destruct (DB_Delete_spec db I l b k H) as (db' & l' & -> & Hi & Ho & Hl & Hu).
    { unfold op_cost. simpl. change (zlen []) with 0. lia. }
    unfold op_cost in Hi. simpl in Hi. change (zlen []) with 0 in Hi. rewrite Z.add_0_r in Hi.
    cbn [mbind option_bind]. exists db', I, l'. split_and!; [done|split; [exact Hi|]|done|done].
    intros k'. rewrite Ho, Hu, lookup_delete, HM. simpl.
    repeat case_decide; subst; done.
  - rewrite Z.add_0_r. destruct (DB_Get_spec db I l b k H) as (db' & -> & Hi & Hfs & Ho & Hw).
    cbn [mbind option_bind]. exists db', I, l. split_and!; [by rewrite HM|split; [exact Hi|]|done|].
    + intros k'. by rewrite Ho.
    + intros (ops & ? & ? & ?). exists ops. by rewrite Hw.
  - rewrite Z.add_0_r. destruct (FlushMemTable_spec db I l b H) as (db' & I' & -> & Hi & Ho & Hl & Hk).
    cbn [mbind option_bind]. exists db', I', []. split_and!; [done|split; [exact Hi|]|done|done].
    intros k'. by rewrite Ho, Hk.
  - rewrite Z.add_0_r. destruct (DoCompaction_spec db I l b H) as (db' & I' & Hc & Hi & Ho & Hw & Hk).
    unfold Compaction. rewrite Hc. cbn [mbind option_bind].
    exists db', I', l. split_and!; [done|split; [exact Hi|]|done|].
    + intros k'. by rewrite Ho, Hk.
    + intros (ops & ? & ? & ?). exists ops. by rewrite Hw.
Qed.

Lemma db_run_rep db M I l b ops :
  db_rep db M I l b → b + dbops_cost ops <= max_block →
  ∃ db' I' l', db_run db ops = Some (db', snd (db_spec_run M ops)) ∧
    db_rep db' (fst (db_spec_run M ops)) I' l' (b + dbops_cost ops) ∧
    options_ db' = options_ db ∧ (log_inv db l → log_inv db' l').
Proof.
  revert db M I l b. induction ops as [|o ops IH]; intros db M I l b H Hb; simpl in *.
  { exists db, I, l. by rewrite Z.add_0_r. }
  pose proof (dbops_cost_nonneg ops).
  destruct (db_step_rep db M I l b o H) as (db1 & I1 & l1 & -> & H1 & Ho1 & Hl1); [lia|].
  cbn [mbind option_bind]. destruct (db_spec_step M o) as [M1 a]. simpl in *.
  destruct (IH db1 M1 I1 l1 (b + dbop_cost o) H1) as (db2 & I2 & l2 & -> & H2 & Ho2 & Hl2); [lia|].
  cbn [mbind option_bind]. destruct (db_spec_run M1 ops) as [M2 as']. simpl in *.
  exists db2, I2, l2. rewrite Z.add_assoc. split_and!; [done..|congruence|auto].
Qed.

(** A new database, and one opened on the files of another. *)
Lemma DB_new_empty o seed :
  0 <= block_cache_size o →
  ∃ db, DB_new dist ∅ o seed = Some db ∧ db_rep db ∅ [] [] 0 ∧ options_ db = o ∧ log_inv db [].
Proof.
  intros Hcap. destruct (DB_new_spec ∅ o [] [] 0 seed) as (db & Hn & Hi & Ho & Hw); try done.
  - constructor.
  - by right.
  - exists db. split_and!; [done|split; [exact Hi|done]|done|]. exists []. by split_and!.
Qed.

Lemma DB_reopen db M I l b seed :
  db_rep db M I l b → log_inv db l → 0 <= block_cache_size (options_ db) →
  ∃ db', DB_new dist (db_fs db) (options_ db) seed = Some db' ∧ db_rep db' M I l b ∧
    options_ db' = options_ db ∧ lw_file (log_write_ db') = [].
Proof.
  intros [H HM] (ops & Hops & Hw & ->) Hcap.
  destruct (next_id_bound db I _ b H) as [Hn Hf].
  destruct (DB_new_spec (db_fs db) (options_ db) I ops b seed) as (db' & Hnew & Hi & Ho & Hw');
    try done; try apply H.
  - eapply Forall_impl; [exact Hf|]. simpl. unfold max_block in *. lia.
  - left. by rewrite (di_log_file _ _ _ _ H), Hw.
  - intros f. rewrite (di_dom _ _ _ _ H). by rewrite elem_of_list_to_set, elem_of_cons.
  - exists db'. split_and!; [done| |done|done]. split; [done|]. intros k. by rewrite Ho.
Qed.

(** The first [Put] on a new database, below the flush threshold. *)
Lemma put_first db k v :
  db_inv db [] [] 0 → zlen k < 128 → zlen v < 128 →
  zlen k + zlen v < write_buffer_size (options_ db) →
  ∃ m, DB_Put dist db k v log_good = Some (written db (OpPut k v) m, true) ∧
    mt_rep m (kvs_map [(k, v)]).
Proof.
  intros H Hk Hv Hbuf. pose proof (zlen_nonneg k). pose proof (zlen_nonneg v).
  pose proof (add_op_new (OpPut k v) ltac:(by split)) as Ha. cbn [add_op] in Ha.
  destruct (mt_rep_Put dist _ _ k v (di_mem _ _ _ _ H)) as (m & Hm & Hr).
  exists m. split; [|done]. unfold DB_Put. rewrite Ha. cbn [mbind option_bind].
  assert (log_add db (op_rec (OpPut k v)) log_good = (written db (OpPut k v) (mem_table_ db), true)) as ->
    by (unfold log_add, AddRecord, EmitPhysicalRecord; by rewrite (di_log_ok _ _ _ _ H), (di_log_good _ _ _ _ H)).
  cbn [negb]. change (mem_table_ (written _ _ ?m)) with m. rewrite Hm. cbn [mbind option_bind].
  change (set_mem (written db (OpPut k v) _) m) with (written db (OpPut k v) m).
  destruct (mt_rep_entries _ _ Hr) as (l' & _ & Hs & Hl & _ & Hsz).
  assert (l' = [(k, v)]) as -> by (apply smap_ext; [done|repeat constructor|done]).
  rewrite Hsz. simpl. rewrite u64_small by lia. rewrite Z.add_0_r.
  destruct (Z.leb_spec (write_buffer_size (options_ db)) (zlen k + zlen v)); [lia|done].
Qed.

Lemma DB_Put_small db k v :
  db_inv db [] [] 0 → log_inv db [] → op_cost (OpPut k v) <= max_block →
  zlen k + zlen v < write_buffer_size (options_ db) →
  ∃ db', DB_Put dist db k v log_good = Some (db', true) ∧
    db_inv db' [] [(k, v)] (op_cost (OpPut k v)) ∧ log_inv db' [(k, v)] ∧
    options_ db' = options_ db.
Proof.
  intros H Hl Hc Hbuf. pose proof (zlen_nonneg k). pose proof (zlen_nonneg v).
  unfold op_cost, max_block in Hc. simpl in Hc.
  destruct (put_first db k v H) as (m & Hp & Hm); [lia..|].
  destruct (written_inv db [] [] 0 (OpPut k v) m H ltac:(unfold op_cost, max_block; simpl; lia) Hm)
    as [Hi Hli].
  exists (written db (OpPut k v) m). split_and!; [done|exact Hi|by apply Hli|done].
Qed.
End Invariant.

(** * Properties *)

(** C8: a database of few bindings answers as a map does, and survives one crash:
    whatever the options and the heights drawn, any calls that come to at most 123
    bytes in all (keys, values and two bytes a write, over both lives of the
    database), the disk taking every write, run to completion with the map's answers,
    through flushes, compactions and the cache; reopening the files after them gives a
    database with the same bindings, which answers as the map does in turn.  Beyond
    123 bytes a flush overruns the varint buffer ([FlushMemTable_overrun]); a second
    restart loses bindings ([DB_second_restart_loses]); a failed flush of the log is
    acknowledged ([Put_ignores_sync]). *)
Theorem DB_refines_map {Rng} (dist : Rng → bool * Rng) (o : Options) (seed1 seed2 : Rng)
    (ops1 ops2 : list DbOp) (Hcap : 0 <= block_cache_size o)
    (Hcost : dbops_cost ops1 + dbops_cost ops2 <= 123) :
  ∃ db0 db1 db2 db3,
    let '(M1, answers1) := db_spec_run ∅ ops1 in
    let '(_, answers2) := db_spec_run M1 ops2 in
    DB_new dist ∅ o seed1 = Some db0 ∧
    db_run dist db0 ops1 = Some (db1, answers1) ∧
    DB_new dist (db_fs db1) o seed2 = Some db2 ∧
    db_run dist db2 ops2 = Some (db3, answers2).
Proof.
  pose proof (dbops_cost_nonneg ops1) as Hp1. pose proof (dbops_cost_nonneg ops2) as Hp2.
  destruct (DB_new_empty dist o seed1 Hcap) as (db0 & Hn0 & H0 & Ho0 & Hl0).
  destruct (db_run_rep dist db0 ∅ [] [] 0 ops1 H0) as (db1 & I1 & l1 & Hr1 & H1 & Ho1 & Hl1);
    [unfold max_block; lia|].
  destruct (DB_reopen dist db1 _ I1 l1 _ seed2 H1 (Hl1 Hl0)) as (db2 & Hn2 & H2 & _ & _);
    [congruence|].
  destruct (db_run_rep dist db2 _ I1 l1 _ ops2 H2) as (db3 & I3 & l3 & Hr3 & _);
    [unfold max_block; lia|].
  exists db0, db1, db2, db3.
  destruct (db_spec_run ∅ ops1) as [M1 a1]. simpl in *.
  destruct (db_spec_run M1 ops2) as [M2 a2]. simpl in *.
  split_and!; [done|done| |done]. by rewrite <- Ho0, <- Ho1.
Qed.

Lemma DB_refines_map_witness :
  let dist (r : unit) := (false, r) in
  let o := mkOptions 4 (str "./data") 2 128 in
  ∃ db0 db1 db2 db3,
    DB_new dist ∅ o tt = Some db0 ∧
    db_run dist db0 [DPut (str "k") (str "1"); DPut (str "j") (str "22"); DFlush;
                     DDelete (str "k"); DGet (str "j")] =
      Some (db1, [Done true; Done true; Done true; Done true; Got (Some (str "22"))]) ∧
    DB_new dist (db_fs db1) o tt = Some db2 ∧
    db_run dist db2 [DGet (str "k"); DGet (str "j")] =
      Some (db3, [Got None; Got (Some (str "22"))]).
Proof.
  intros dist o.
  exact (DB_refines_map dist o tt tt
    [DPut (str "k") (str "1"); DPut (str "j") (str "22"); DFlush; DDelete (str "k"); DGet (str "j")]
    [DGet (str "k"); DGet (str "j")] ltac:(discriminate) ltac:(discriminate)).
Defined.

(** The constructor replays the log into memory and then empties it, so a
    second restart loses what the first had recovered: a binding acknowledged
    by [Put] is there after one restart and gone after two. *)
Theorem DB_second_restart_loses {Rng} (dist : Rng → bool * Rng) (o : Options)
    (seed1 seed2 seed3 : Rng) (k v : bytes) (Hv : v ≠ []) (Hcap : 0 <= block_cache_size o)
    (Hcost : dbop_cost (DPut k v) <= 123) (Hbuf : zlen k + zlen v < write_buffer_size o) :
  ∃ db0 db1 db2 db3,
    DB_new dist ∅ o seed1 = Some db0 ∧
    DB_Put dist db0 k v log_good = Some (db1, true) ∧
    DB_new dist (db_fs db1) o seed2 = Some db2 ∧
    (∃ db', DB_Get db2 k = Some (db', Some v)) ∧
    DB_new dist (db_fs db2) o seed3 = Some db3 ∧
    (∃ db', DB_Get db3 k = Some (db', None)).
Proof.
  simpl in Hcost. pose proof (zlen_nonneg k). pose proof (zlen_nonneg v).
  destruct (DB_new_empty dist o seed1 Hcap) as (db0 & Hn0 & [Hi0 HM0] & Ho0 & Hl0).
  destruct (DB_Put_small dist db0 k v Hi0 Hl0) as (db1 & Hp & Hi1 & Hl1 & Ho1);
    [unfold op_cost; simpl; unfold max_block; lia|by rewrite Ho0|].
  rewrite Ho0 in Ho1. clear Ho0.
  assert (db_rep db1 {[k := v]} [] [(k, v)] (op_cost (OpPut k v))) as Hr1.
  { split; [done|]. intros k'. unfold db_map, kvs_map. simpl. rewrite insert_empty.
    destruct (decide (k = k')) as [->|]; [by rewrite lookup_singleton_eq; destruct v|].
    by rewrite lookup_singleton_ne. }
  destruct (DB_reopen dist db1 _ _ _ _ seed2 Hr1 Hl1) as (db2 & Hn2 & [Hi2 HM2] & Ho2 & Hw2);
    [by rewrite Ho1|].
  destruct (DB_Get_spec db2 _ _ _ k Hi2) as (db2' & Hg2 & _).
  destruct (DB_new_spec dist (db_fs db2) o [] [] (op_cost (OpPut k v)) seed3)
    as (db3 & Hn3 & Hi3 & Ho3 & _); try done; try (unfold op_cost, max_block in *; simpl in *; lia).
  - constructor.
  - left. pose proof (di_log_file _ _ _ _ Hi2) as Hlf. by rewrite Hw2, Ho2, Ho1 in Hlf.
  - intros f. rewrite (di_dom _ _ _ _ Hi2), elem_of_list_to_set, elem_of_cons, Ho2, Ho1. done.
  - change (0 <= op_cost (OpPut k v)). unfold op_cost. simpl. lia.
  - change (next_id [] + 0 + 0 <= 1 + op_cost (OpPut k v)). unfold op_cost, next_id. simpl. lia.
  - destruct (DB_Get_spec db3 _ _ _ k Hi3) as (db3' & Hg3 & _).
    exists db0, db1, db2, db3. rewrite Ho1 in Hn2. split_and!; [done..| |done|by eexists].
    exists db2'. rewrite Hg2, <- HM2. by rewrite lookup_singleton_eq.
Qed.

Lemma DB_second_restart_loses_witness :
  let dist (r : unit) := (false, r) in
  let o := mkOptions 4194304 (str "./data") 4 128 in
  ∃ db0 db1 db2 db3,
    DB_new dist ∅ o tt = Some db0 ∧
    DB_Put dist db0 (str "k") (str "v") log_good = Some (db1, true) ∧
    DB_new dist (db_fs db1) o tt = Some db2 ∧
    (∃ db', DB_Get db2 (str "k") = Some (db', Some (str "v"))) ∧
    DB_new dist (db_fs db2) o tt = Some db3 ∧
    (∃ db', DB_Get db3 (str "k") = Some (db', None)).
Proof.
  intros dist o. apply (DB_second_restart_loses dist o tt tt tt (str "k") (str "v"));
    [discriminate|discriminate|discriminate|reflexivity].
Defined.

(** Flushing a memory table of more than 123 bytes writes past the varint
    buffer: one [Put] of 122 to 252 bytes that the write buffer can hold is
    acknowledged, and the flush after it has no defined result. *)
Theorem FlushMemTable_overrun {Rng} (dist : Rng → bool * Rng) (o : Options) (seed : Rng)
    (k v : bytes) (Hcap : 0 <= block_cache_size o) (Hk : zlen k < 128) (Hv : zlen v < 128)
    (Hlow : 121 < zlen k + zlen v) (Hbuf : zlen k + zlen v < write_buffer_size o) :
  ∃ db0 db1, DB_new dist ∅ o seed = Some db0 ∧
    DB_Put dist db0 k v log_good = Some (db1, true) ∧ FlushMemTable db1 = None.
Proof.
  pose proof (zlen_nonneg k). pose proof (zlen_nonneg v).
  destruct (DB_new_empty dist o seed Hcap) as (db0 & Hn0 & [Hi0 HM0] & Ho0 & Hl0).
  destruct (put_first dist db0 k v Hi0) as (m & Hp & Hm); [lia|lia|by rewrite Ho0|].
  exists db0, (written db0 (OpPut k v) m). split_and!; [done..|].
  destruct (mt_rep_entries _ _ Hm) as (l' & He & Hs & Hl & Hc & _).
  assert (l' = [(k, v)]) as -> by (apply smap_ext; [done|repeat constructor|done]).
  unfold FlushMemTable. cbn [mem_table_ written]. unfold MemTable_Empty.
  unfold MemTable_Count in Hc. rewrite Hc. change (u64 (zlen [(k, v)]) =? 0) with false.
  cbv match. unfold GenerateSSTableFilename. rewrite He. cbn [mbind option_bind].
  destruct (build_table [(k, v)]) as [file|] eqn:Hb; [|done]. exfalso.
  apply build_table_inv in Hb; [|constructor; [split; simpl; lia|done]].
  rewrite enc_kvs_cons in Hb. unfold max_block in Hb. autorewrite with ms_len in Hb.
  rewrite enc_kv_length in Hb. simpl in Hb. pose proof (zlen_nonneg (enc_kvs [])). lia.
Qed.

Lemma FlushMemTable_overrun_witness :
  let dist (r : unit) := (false, r) in
  let o := mkOptions 4194304 (str "./data") 4 128 in
  ∃ db0 db1, DB_new dist ∅ o tt = Some db0 ∧
    DB_Put dist db0 (str "k") (replicate 121 x00) log_good = Some (db1, true) ∧
    FlushMemTable db1 = None.
Proof.
  intros dist o. apply (FlushMemTable_overrun dist o tt (str "k") (replicate 121 x00));
    [discriminate|reflexivity..].
Defined.

(** [Put] does not look at what [Sync] answers: when the flush fails the write is
    acknowledged and a read finds it, but the files are as they were, so a restart
    knows nothing of it; and the stream being broken, every later [Put] fails. *)
Theorem Put_ignores_sync {Rng} (dist : Rng → bool * Rng) (o : Options) (seed : Rng)
    (k v : bytes) (Hcap : 0 <= block_cache_size o) (Hk : zlen k < 128) (Hv : zlen v < 128)
    (Hne : v ≠ []) (Hbuf : zlen k + zlen v < write_buffer_size o) :
  ∃ db0 db1, DB_new dist ∅ o seed = Some db0 ∧
    DB_Put dist db0 k v (mkLogIo IoOk (IoShort 0)) = Some (db1, true) ∧
    (∃ db2, DB_Get db1 k = Some (db2, Some v)) ∧ db_fs db1 = db_fs db0 ∧
    ∀ k' v' io db' b, DB_Put dist db1 k' v' io = Some (db', b) → b = false.
Proof.
  pose proof (zlen_nonneg k). pose proof (zlen_nonneg v).
  destruct (DB_new_empty dist o seed Hcap) as (db0 & Hn0 & [Hi0 HM0] & Ho0 & Hl0).
  destruct (mt_rep_Put dist _ _ k v (di_mem _ _ _ _ Hi0)) as (m & Hm & Hr).
  pose proof (add_op_new (OpPut k v) ltac:(by split)) as Ha. cbn [add_op] in Ha.
  set (w := MkLogWriter (lw_file (log_write_ db0)) true false).
  set (db1 := mkDB (db_fs db0) (options_ db0) (next_log_id_ db0) (next_sst_id_ db0) m w (block_cache_ db0) (sst_files_ db0)).
  exists db0, db1. split; [done|]. assert (log_add db0 (op_rec (OpPut k v)) (mkLogIo IoOk (IoShort 0)) =
    (mkDB (db_fs db0) (options_ db0) (next_log_id_ db0) (next_sst_id_ db0) (mem_table_ db0) w (block_cache_ db0) (sst_files_ db0), true)) as Hla.
  { unfold log_add, AddRecord, EmitPhysicalRecord. rewrite (di_log_ok _ _ _ _ Hi0), (di_log_good _ _ _ _ Hi0).
    unfold Sync. cbn [io_add io_sync lw_good lw_file lw_ok fst]. fold (wal_record (op_rec (OpPut k v))).
    rewrite length_app. replace (_ + _ - _ + 0)%nat with (length (lw_file (log_write_ db0))) by lia.
    rewrite take_app_length, insert_id by apply (di_log_file _ _ _ _ Hi0). done. }
  split; [|split; [|split; [done|]]].
  - unfold DB_Put. rewrite Ha. cbn [mbind option_bind]. rewrite Hla. cbn [negb mem_table_]. rewrite Hm.
    cbn [mbind option_bind]. change (set_mem _ m) with db1. destruct (mt_rep_entries _ _ Hr) as (l' & _ & Hs & Hl & _ & Hsz).
    assert (l' = [(k, v)]) as -> by (apply smap_ext; [done|repeat constructor|done]).
    rewrite Hsz. simpl. rewrite u64_small by lia. rewrite Z.add_0_r, Ho0.
    destruct (Z.leb_spec (write_buffer_size o) (zlen k + zlen v)); [lia|done].
  - exists db1. unfold DB_Get. change (mem_table_ db1) with m. rewrite (mt_rep_Get _ _ k Hr), lookup_insert_eq.
    cbn [mbind option_bind]. by destruct v.
  - intros k' v' io db' b. unfold DB_Put, log_add, AddRecord, EmitPhysicalRecord. cbn [log_write_ db1 w lw_ok lw_good lw_file].
    destruct (WriteBatch_Put WriteBatch_new k' v'); [|done]. cbn [mbind option_bind negb]. by intros [= _ <-].
Qed.

Lemma Put_ignores_sync_witness :
  let dist (r : unit) := (false, r) in
  let o := mkOptions 4194304 (str "./data") 4 128 in
  ∃ db0 db1, DB_new dist ∅ o tt = Some db0 ∧
    DB_Put dist db0 (str "k") (str "v") (mkLogIo IoOk (IoShort 0)) = Some (db1, true) ∧
    (∃ db2, DB_Get db1 (str "k") = Some (db2, Some (str "v"))) ∧ db_fs db1 = db_fs db0 ∧
    ∀ k' v' io db' b, DB_Put dist db1 k' v' io = Some (db', b) → b = false.
Proof.
  intros dist o. by apply (Put_ignores_sync dist o tt (str "k") (str "v")).
Defined.
