(* ===== verification/Raft.v ===== *)
(** The Raft node (src/raft/raft_node.h, raft_node.cc) and its transport
    (raft_rpc.cc).

    A [RaftNode] is the record of the class's members together with the two
    files the node owns ([raft_state.dat], [raft_snapshot.dat]; [disk_] says
    how much of a file it writes reaches the disk).  Everything outside the node
    is a type [E] that the callbacks and the clock act on.  A method is a
    function on the pair of the two; [None] is undefined behaviour ([back()] of
    an empty vector) or an exception that nothing catches.  The methods hold
    [state_mutex_] for their whole body unless the comment on a definition says
    otherwise, so each of them is one atomic step; that a thread gets the mutexes it
    asks for is the subject of RaftLocks.v. *)
From S2P Require Import Prelude Coding.

(** * Data *)

Inductive RaftState := FOLLOWER | CANDIDATE | LEADER.

#[export] Instance RaftState_eq_dec : EqDecision RaftState.
Proof. solve_decision. Defined.

Record RaftConfig := mkConfig {
  node_id : bytes;
  peers : list bytes;
  data_dir : bytes;
  election_timeout_ms : Z;
  heartbeat_interval_ms : Z;
  snapshot_interval : Z;
}.

(** [LogEntry], and the [RaftLogEntry] of the messages: the same fields. *)
Record LogEntry := mkEntry { le_term : Z; le_index : Z; le_command : bytes }.

#[export] Instance LogEntry_eq_dec : EqDecision LogEntry.
Proof. solve_decision. Defined.

(** The messages of raft.proto. *)
Record RequestVoteRequest := mkRequestVote {
  rv_term : Z; rv_candidate_id : bytes; rv_last_log_index : Z; rv_last_log_term : Z }.
Record RequestVoteResponse := mkVoteResponse { vr_term : Z; vr_granted : bool }.
Record AppendEntriesRequest := mkAppendEntries {
  ae_term : Z; ae_leader_id : bytes; ae_prev_log_index : Z; ae_prev_log_term : Z;
  ae_entries : list LogEntry; ae_leader_commit : Z }.
Record AppendEntriesResponse := mkAppendResponse {
  ar_term : Z; ar_success : bool; ar_match_index : Z }.
Record InstallSnapshotRequest := mkInstallSnapshot {
  is_term : Z; is_leader_id : bytes; is_last_included_index : Z;
  is_last_included_term : Z; is_snapshot_data : bytes }.
Record InstallSnapshotResponse := mkSnapResponse { sr_term : Z; sr_success : bool }.
Record SnapshotMetadata := mkSnapshot {
  sm_last_included_index : Z; sm_last_included_term : Z; sm_metadata_store_data : bytes }.

(** [RaftMessage]: the type tag with the payload the code sets along with it. *)
Inductive RaftMessage :=
| REQUEST_VOTE (r : RequestVoteRequest)
| REQUEST_VOTE_RESPONSE (r : RequestVoteResponse)
| APPEND_ENTRIES (r : AppendEntriesRequest)
| APPEND_ENTRIES_RESPONSE (r : AppendEntriesResponse)
| INSTALL_SNAPSHOT (r : InstallSnapshotRequest)
| INSTALL_SNAPSHOT_RESPONSE (r : InstallSnapshotResponse).

(** What the disk does with a file that the node opens with [std::ios::trunc] and
    writes: the open fails; or the file is emptied and the bytes follow, all of them,
    or only the first [n], whether the disk is full or the process dies there. *)
Inductive Disk := Refuses | Cuts (n : nat) | Whole.

#[export] Instance Disk_eq_dec : EqDecision Disk.
Proof. solve_decision. Defined.

Definition written (d : Disk) (data : bytes) : option bytes :=
  match d with Refuses => None | Cuts n => Some (take n data) | Whole => Some data end.

(** The members of [RaftNode], and its files. *)
Record RaftNode := mkRaft {
  config_ : RaftConfig;
  current_term_ : Z;
  voted_for_ : bytes;
  log_ : list LogEntry;
  commit_index_ : Z;
  last_applied_ : Z;
  next_index_ : gmap bytes Z;
  match_index_ : gmap bytes Z;
  snapshot_last_index_ : Z;
  snapshot_last_term_ : Z;
  state_ : RaftState;
  leader_id_ : bytes;
  my_id_ : bytes;
  votes_received_ : Z;
  election_deadline_ : Z;
  vote_resp_ : RequestVoteResponse;
  ae_resp_ : AppendEntriesResponse;
  snap_resp_ : InstallSnapshotResponse;
  disk_ : Disk;
  state_file : option bytes;
  snapshot_file : option bytes;
}.

(** Assignments to one member. *)
Definition set_current_term_ (v : Z) (st : RaftNode) : RaftNode :=
    mkRaft (config_ st) v (voted_for_ st) (log_ st) (commit_index_ st) (last_applied_ st)
    (next_index_ st) (match_index_ st) (snapshot_last_index_ st) (snapshot_last_term_ st)
    (state_ st) (leader_id_ st) (my_id_ st) (votes_received_ st) (election_deadline_ st)
    (vote_resp_ st) (ae_resp_ st) (snap_resp_ st) (disk_ st) (state_file st) (snapshot_file
    st).
Definition set_voted_for_ (v : bytes) (st : RaftNode) : RaftNode :=
    mkRaft (config_ st) (current_term_ st) v (log_ st) (commit_index_ st) (last_applied_ st)
    (next_index_ st) (match_index_ st) (snapshot_last_index_ st) (snapshot_last_term_ st)
    (state_ st) (leader_id_ st) (my_id_ st) (votes_received_ st) (election_deadline_ st)
    (vote_resp_ st) (ae_resp_ st) (snap_resp_ st) (disk_ st) (state_file st) (snapshot_file
    st).
Definition set_log_ (v : list LogEntry) (st : RaftNode) : RaftNode :=
    mkRaft (config_ st) (current_term_ st) (voted_for_ st) v (commit_index_ st) (last_applied_
    st) (next_index_ st) (match_index_ st) (snapshot_last_index_ st) (snapshot_last_term_ st)
    (state_ st) (leader_id_ st) (my_id_ st) (votes_received_ st) (election_deadline_ st)
    (vote_resp_ st) (ae_resp_ st) (snap_resp_ st) (disk_ st) (state_file st) (snapshot_file
    st).
Definition set_commit_index_ (v : Z) (st : RaftNode) : RaftNode :=
    mkRaft (config_ st) (current_term_ st) (voted_for_ st) (log_ st) v (last_applied_ st)
    (next_index_ st) (match_index_ st) (snapshot_last_index_ st) (snapshot_last_term_ st)
    (state_ st) (leader_id_ st) (my_id_ st) (votes_received_ st) (election_deadline_ st)
    (vote_resp_ st) (ae_resp_ st) (snap_resp_ st) (disk_ st) (state_file st) (snapshot_file
    st).
Definition set_last_applied_ (v : Z) (st : RaftNode) : RaftNode :=
    mkRaft (config_ st) (current_term_ st) (voted_for_ st) (log_ st) (commit_index_ st) v
    (next_index_ st) (match_index_ st) (snapshot_last_index_ st) (snapshot_last_term_ st)
    (state_ st) (leader_id_ st) (my_id_ st) (votes_received_ st) (election_deadline_ st)
    (vote_resp_ st) (ae_resp_ st) (snap_resp_ st) (disk_ st) (state_file st) (snapshot_file
    st).
Definition set_next_index_ (v : gmap bytes Z) (st : RaftNode) : RaftNode :=
    mkRaft (config_ st) (current_term_ st) (voted_for_ st) (log_ st) (commit_index_ st)
    (last_applied_ st) v (match_index_ st) (snapshot_last_index_ st) (snapshot_last_term_ st)
    (state_ st) (leader_id_ st) (my_id_ st) (votes_received_ st) (election_deadline_ st)
    (vote_resp_ st) (ae_resp_ st) (snap_resp_ st) (disk_ st) (state_file st) (snapshot_file
    st).
Definition set_match_index_ (v : gmap bytes Z) (st : RaftNode) : RaftNode :=
    mkRaft (config_ st) (current_term_ st) (voted_for_ st) (log_ st) (commit_index_ st)
    (last_applied_ st) (next_index_ st) v (snapshot_last_index_ st) (snapshot_last_term_ st)
    (state_ st) (leader_id_ st) (my_id_ st) (votes_received_ st) (election_deadline_ st)
    (vote_resp_ st) (ae_resp_ st) (snap_resp_ st) (disk_ st) (state_file st) (snapshot_file
    st).
Definition set_snapshot_last_index_ (v : Z) (st : RaftNode) : RaftNode :=
    mkRaft (config_ st) (current_term_ st) (voted_for_ st) (log_ st) (commit_index_ st)
    (last_applied_ st) (next_index_ st) (match_index_ st) v (snapshot_last_term_ st) (state_
    st) (leader_id_ st) (my_id_ st) (votes_received_ st) (election_deadline_ st) (vote_resp_
    st) (ae_resp_ st) (snap_resp_ st) (disk_ st) (state_file st) (snapshot_file st).
Definition set_snapshot_last_term_ (v : Z) (st : RaftNode) : RaftNode :=
    mkRaft (config_ st) (current_term_ st) (voted_for_ st) (log_ st) (commit_index_ st)
    (last_applied_ st) (next_index_ st) (match_index_ st) (snapshot_last_index_ st) v (state_
    st) (leader_id_ st) (my_id_ st) (votes_received_ st) (election_deadline_ st) (vote_resp_
    st) (ae_resp_ st) (snap_resp_ st) (disk_ st) (state_file st) (snapshot_file st).
Definition set_state_ (v : RaftState) (st : RaftNode) : RaftNode :=
    mkRaft (config_ st) (current_term_ st) (voted_for_ st) (log_ st) (commit_index_ st)
    (last_applied_ st) (next_index_ st) (match_index_ st) (snapshot_last_index_ st)
    (snapshot_last_term_ st) v (leader_id_ st) (my_id_ st) (votes_received_ st)
    (election_deadline_ st) (vote_resp_ st) (ae_resp_ st) (snap_resp_ st) (disk_ st)
    (state_file st) (snapshot_file st).
Definition set_leader_id_ (v : bytes) (st : RaftNode) : RaftNode :=
    mkRaft (config_ st) (current_term_ st) (voted_for_ st) (log_ st) (commit_index_ st)
    (last_applied_ st) (next_index_ st) (match_index_ st) (snapshot_last_index_ st)
    (snapshot_last_term_ st) (state_ st) v (my_id_ st) (votes_received_ st)
    (election_deadline_ st) (vote_resp_ st) (ae_resp_ st) (snap_resp_ st) (disk_ st)
    (state_file st) (snapshot_file st).
Definition set_votes_received_ (v : Z) (st : RaftNode) : RaftNode :=
    mkRaft (config_ st) (current_term_ st) (voted_for_ st) (log_ st) (commit_index_ st)
    (last_applied_ st) (next_index_ st) (match_index_ st) (snapshot_last_index_ st)
    (snapshot_last_term_ st) (state_ st) (leader_id_ st) (my_id_ st) v (election_deadline_ st)
    (vote_resp_ st) (ae_resp_ st) (snap_resp_ st) (disk_ st) (state_file st) (snapshot_file
    st).
Definition set_election_deadline_ (v : Z) (st : RaftNode) : RaftNode :=
    mkRaft (config_ st) (current_term_ st) (voted_for_ st) (log_ st) (commit_index_ st)
    (last_applied_ st) (next_index_ st) (match_index_ st) (snapshot_last_index_ st)
    (snapshot_last_term_ st) (state_ st) (leader_id_ st) (my_id_ st) (votes_received_ st) v
    (vote_resp_ st) (ae_resp_ st) (snap_resp_ st) (disk_ st) (state_file st) (snapshot_file
    st).
Definition set_vote_resp_ (v : RequestVoteResponse) (st : RaftNode) : RaftNode :=
    mkRaft (config_ st) (current_term_ st) (voted_for_ st) (log_ st) (commit_index_ st)
    (last_applied_ st) (next_index_ st) (match_index_ st) (snapshot_last_index_ st)
    (snapshot_last_term_ st) (state_ st) (leader_id_ st) (my_id_ st) (votes_received_ st)
    (election_deadline_ st) v (ae_resp_ st) (snap_resp_ st) (disk_ st) (state_file st)
    (snapshot_file st).
Definition set_ae_resp_ (v : AppendEntriesResponse) (st : RaftNode) : RaftNode :=
    mkRaft (config_ st) (current_term_ st) (voted_for_ st) (log_ st) (commit_index_ st)
    (last_applied_ st) (next_index_ st) (match_index_ st) (snapshot_last_index_ st)
    (snapshot_last_term_ st) (state_ st) (leader_id_ st) (my_id_ st) (votes_received_ st)
    (election_deadline_ st) (vote_resp_ st) v (snap_resp_ st) (disk_ st) (state_file st)
    (snapshot_file st).
Definition set_snap_resp_ (v : InstallSnapshotResponse) (st : RaftNode) : RaftNode :=
    mkRaft (config_ st) (current_term_ st) (voted_for_ st) (log_ st) (commit_index_ st)
    (last_applied_ st) (next_index_ st) (match_index_ st) (snapshot_last_index_ st)
    (snapshot_last_term_ st) (state_ st) (leader_id_ st) (my_id_ st) (votes_received_ st)
    (election_deadline_ st) (vote_resp_ st) (ae_resp_ st) v (disk_ st) (state_file st)
    (snapshot_file st).
Definition set_state_file (v : option bytes) (st : RaftNode) : RaftNode :=
    mkRaft (config_ st) (current_term_ st) (voted_for_ st) (log_ st) (commit_index_ st)
    (last_applied_ st) (next_index_ st) (match_index_ st) (snapshot_last_index_ st)
    (snapshot_last_term_ st) (state_ st) (leader_id_ st) (my_id_ st) (votes_received_ st)
    (election_deadline_ st) (vote_resp_ st) (ae_resp_ st) (snap_resp_ st) (disk_ st) v
    (snapshot_file st).
Definition set_snapshot_file (v : option bytes) (st : RaftNode) : RaftNode :=
    mkRaft (config_ st) (current_term_ st) (voted_for_ st) (log_ st) (commit_index_ st)
    (last_applied_ st) (next_index_ st) (match_index_ st) (snapshot_last_index_ st)
    (snapshot_last_term_ st) (state_ st) (leader_id_ st) (my_id_ st) (votes_received_ st)
    (election_deadline_ st) (vote_resp_ st) (ae_resp_ st) (snap_resp_ st) (disk_ st)
    (state_file st) v.

(** * The log and the state file *)

(** [log_.back()]. *)
Definition log_back (st : RaftNode) : option LogEntry := last (log_ st).

(** [GetLogEntry(index)]: the first entry with this index. *)
Fixpoint find_index (index : Z) (log : list LogEntry) : option LogEntry :=
  match log with
  | [] => None
  | e :: log => if le_index e =? index then Some e else find_index index log
  end.

Definition GetLogEntry (st : RaftNode) (index : Z) : option LogEntry :=
  find_index index (log_ st).

(** The bytes [PersistState] writes for one entry. *)
Definition entry_bytes (e : LogEntry) : bytes :=
  EncodeFixed64 (le_term e) ++ EncodeFixed64 (le_index e) ++
  EncodeFixed64 (zlen (le_command e)) ++ le_command e.

Definition state_bytes (st : RaftNode) : bytes :=
  EncodeFixed64 (current_term_ st) ++
  EncodeFixed64 (zlen (voted_for_ st)) ++ voted_for_ st ++
  EncodeFixed64 (zlen (log_ st) - 1) ++ mjoin (map entry_bytes (tail (log_ st))).

(** [PersistState()]: the file is truncated and written in place; no caller looks at
    the result. *)
Definition PersistState (st : RaftNode) : RaftNode :=
  match written (disk_ st) (state_bytes st) with
  | Some f => set_state_file (Some f) st
  | None => st
  end.

(** [file.read(&x, 8)] for a 64-bit variable holding [old]: a short read
    overwrites its low bytes only. *)
Definition read_u64 (old : Z) (s : ifstream) : ifstream * Z :=
  let '(s, buf) := stream_read s 8 (EncodeFixed64 old) in
  (s, default 0 (DecodeFixed64 buf)).

(** [std::string::max_size()]: a longer [resize] throws. *)
Definition max_size : Z := 2 ^ 63 - 1.

(** [s.resize(n); file.read(&s[0], n)]. *)
Definition resize (n : nat) (s : bytes) : bytes := take n s ++ replicate (n - length s) x00.

Definition read_string (old : bytes) (n : Z) (s : ifstream) : option (ifstream * bytes) :=
  if n <=? max_size
  then Some (stream_read s (Z.to_nat n) (resize (Z.to_nat n) old))
  else None.

(** One turn of the loop of [RestoreState]. *)
Definition read_entry (s : ifstream) : option (ifstream * LogEntry) :=
  let '(s, term) := read_u64 0 s in
  let '(s, index) := read_u64 0 s in
  let '(s, cmd_len) := read_u64 0 s in
  if 0 <? cmd_len then
    '(s, command) ← read_string [] cmd_len s;
    Some (s, mkEntry term index command)
  else Some (s, mkEntry term index []).

Fixpoint read_entries (n : nat) (s : ifstream) : option (list LogEntry) :=
  match n with
  | O => Some []
  | S n =>
      '(s, e) ← read_entry s;
      es ← read_entries n s;
      Some (e :: es)
  end.

Definition dummy_entry : LogEntry := mkEntry 0 0 [].

(** [RestoreState()]. *)
Definition RestoreState (st : RaftNode) : option RaftNode :=
  match state_file st with
  | None => Some st
  | Some content =>
      let f := open_stream content in
      let '(f1, term) := read_u64 (current_term_ st) f in
      let st := set_current_term_ term st in
      if gcount f f1 =? 8 then
        let '(f2, vf_len) := read_u64 0 f1 in
        '(f3, st) ←
          (if (gcount f1 f2 =? 8) && (0 <? vf_len) then
             '(f3, v) ← read_string (voted_for_ st) vf_len f2;
             Some (f3, set_voted_for_ v st)
           else Some (f2, st));
        let '(f4, log_count) := read_u64 0 f3 in
        if gcount f3 f4 =? 8 then
          es ← read_entries (Z.to_nat log_count) f4;
          let st := set_log_ (dummy_entry :: es) st in
          last_e ← log_back st;
          let st := set_commit_index_ (le_index last_e) st in
          Some (set_last_applied_ (commit_index_ st) st)
        else Some st
      else Some st
  end.

(** The node a constructor call makes: fresh members over the files on disk,
    the sentinel of index 0 in the log. *)
Definition RaftNode_new (config : RaftConfig) (w : Disk) (sf pf : option bytes) : RaftNode :=
  mkRaft config 0 [] [dummy_entry] 0 0 ∅ ∅ 0 0 FOLLOWER [] (node_id config) 0 0
    (mkVoteResponse 0 false) (mkAppendResponse 0 false 0) (mkSnapResponse 0 false) w sf pf.

(** [next_index_[k]] read: the map's [operator[]] inserts 0 for a new key. *)
Definition subscript (k : bytes) (m : gmap bytes Z) : gmap bytes Z * Z :=
  match m !! k with
  | Some v => (m, v)
  | None => (<[k := 0]> m, 0)
  end.

Definition majority (st : RaftNode) : Z := zlen (peers (config_ st)) / 2 + 1.

(** The assignments of the response objects. *)
Definition vote_resp_set_term v st := set_vote_resp_ (mkVoteResponse v (vr_granted (vote_resp_ st))) st.
Definition vote_resp_set_granted b st := set_vote_resp_ (mkVoteResponse (vr_term (vote_resp_ st)) b) st.
Definition ae_resp_set_term v st :=
  set_ae_resp_ (mkAppendResponse v (ar_success (ae_resp_ st)) (ar_match_index (ae_resp_ st))) st.
Definition ae_resp_set_success b st :=
  set_ae_resp_ (mkAppendResponse (ar_term (ae_resp_ st)) b (ar_match_index (ae_resp_ st))) st.
Definition ae_resp_set_match_index i st :=
  set_ae_resp_ (mkAppendResponse (ar_term (ae_resp_ st)) (ar_success (ae_resp_ st)) i) st.
Definition snap_resp_set_term v st := set_snap_resp_ (mkSnapResponse v (sr_success (snap_resp_ st))) st.
Definition snap_resp_set_success b st := set_snap_resp_ (mkSnapResponse (sr_term (snap_resp_ st)) b) st.

(** * The methods *)

Section RaftNode.

(** The world outside the node: the clock in milliseconds, the random engine of
    [RandomElectionTimeout], the callbacks ([None]: not set), and the protobuf
    codec of [SnapshotMetadata]. *)
Context {E : Type}.
Context (now : E → Z) (uniform_int : Z → Z → E → Z * E).
Context (apply_cb_ : option (Z → bytes → E → E)).
Context (snapshot_cb_ : option (E → bytes)) (restore_cb_ : option (bytes → E → E)).
Context (SerializeSnapshot : SnapshotMetadata → bytes).
Context (ParseSnapshot : bytes → option SnapshotMetadata).

Abbreviation World := (RaftNode * E)%type.

(** [send_rpc_cb_(peer, msg)]: it may call back into the node (the mutex is
    recursive) before it returns. *)
Context (send_rpc_cb_ : bytes → RaftMessage → World → option World).

Definition on_node (f : RaftNode → RaftNode) (w : World) : World := (f (fst w), snd w).

(** [RandomElectionTimeout()] and [ResetElectionTimer()], once it has [timer_mutex_]
    and then [state_mutex_] ([RaftLocks.ResetElectionTimer_locks]). *)
Definition RandomElectionTimeout (w : World) : World * Z :=
  let t := election_timeout_ms (config_ (fst w)) in
  let '(d, e) := uniform_int t (t * 2) (snd w) in
  ((fst w, e), d).

Definition ResetElectionTimer (w : World) : World :=
  let '(w, timeout_ms) :=
    match state_ (fst w) with
    | LEADER => (w, heartbeat_interval_ms (config_ (fst w)))
    | _ => RandomElectionTimeout w
    end in
  on_node (set_election_deadline_ (now (snd w) + timeout_ms)) w.

(** [ApplyCommitted(up_to_index)]: one turn of the loop, and the loop. *)
Definition apply_next (w : World) : World :=
  let '(st, e) := w in
  let st := set_last_applied_ (u64 (last_applied_ st + 1)) st in
  match GetLogEntry st (last_applied_ st), apply_cb_ with
  | Some entry, Some apply =>
      if bool_decide (le_command entry = []) then (st, e)
      else (st, apply (last_applied_ st) (le_command entry) e)
  | _, _ => (st, e)
  end.

Fixpoint ApplyCommitted_loop (fuel : nat) (up_to_index : Z) (w : World) : option World :=
  match fuel with
  | O => None
  | S fuel =>
      if last_applied_ (fst w) <? up_to_index
      then ApplyCommitted_loop fuel up_to_index (apply_next w)
      else Some w
  end.

Definition ApplyCommitted (up_to_index : Z) (w : World) : option World :=
  ApplyCommitted_loop (S (Z.to_nat (up_to_index - last_applied_ (fst w)))) up_to_index w.

(** [AdvanceCommitIndex()]: the count of the nodes known to hold entry [n],
    and the search from the last index down. *)
Definition replica_count (st : RaftNode) (n : Z) : Z :=
  foldl (λ count peer,
    if bool_decide (peer = my_id_ st) then count
    else match match_index_ st !! peer with
         | Some m => if n <=? m then count + 1 else count
         | None => count
         end) 1 (peers (config_ st)).

Fixpoint AdvanceCommitIndex_loop (fuel : nat) (n : Z) (w : World) : option World :=
  match fuel with
  | O => None
  | S fuel =>
      let st := fst w in
      if commit_index_ st <? n then
        match GetLogEntry st n with
        | Some entry =>
            if (le_term entry =? current_term_ st) && (majority st <=? replica_count st n)
            then ApplyCommitted n (on_node (set_commit_index_ n) w)
            else AdvanceCommitIndex_loop fuel (n - 1) w
        | None => AdvanceCommitIndex_loop fuel (n - 1) w
        end
      else Some w
  end.

Definition AdvanceCommitIndex (w : World) : option World :=
  last_e ← log_back (fst w);
  let last_log_index := le_index last_e in
  AdvanceCommitIndex_loop (S (Z.to_nat (last_log_index - commit_index_ (fst w))))
    last_log_index w.

(** [HandleRequestVote(from, req)]: the response is [vote_resp_] of the result. *)
Definition up_to_date (req : RequestVoteRequest) (last_e : LogEntry) : bool :=
  (le_term last_e <? rv_last_log_term req) ||
  ((rv_last_log_term req =? le_term last_e) && (le_index last_e <=? rv_last_log_index req)).

Definition HandleRequestVote (from : bytes) (req : RequestVoteRequest) (w : World) :
    option World :=
  let w := on_node (vote_resp_set_term (current_term_ (fst w))) w in
  if rv_term req <? current_term_ (fst w)
  then Some (on_node (vote_resp_set_granted false) w)
  else
    let w :=
      if current_term_ (fst w) <? rv_term req then
        on_node (λ st,
          let st := set_current_term_ (rv_term req) st in
          let st := set_state_ FOLLOWER st in
          let st := set_voted_for_ [] st in
          let st := set_leader_id_ [] st in
          let st := PersistState st in
          vote_resp_set_term (current_term_ st) st) w
      else w in
    can_vote ←
      (if bool_decide (voted_for_ (fst w) = []) ||
          bool_decide (voted_for_ (fst w) = rv_candidate_id req) then
         last_e ← log_back (fst w);
         Some (up_to_date req last_e)
       else Some false);
    if (can_vote : bool) then
      let w := on_node (λ st,
        let st := set_voted_for_ (rv_candidate_id req) st in
        vote_resp_set_granted true (PersistState st)) w in
      Some (ResetElectionTimer w)
    else Some (on_node (vote_resp_set_granted false) w).

(** [while(log_.back().index >= idx) log_.pop_back();] on the reversed log. *)
Fixpoint pop_back_while (idx : Z) (rlog : list LogEntry) : option (list LogEntry) :=
  match rlog with
  | [] => None
  | e :: rlog' => if idx <=? le_index e then pop_back_while idx rlog' else Some rlog
  end.

(** The loop that looks for the first conflicting index and cuts the log there. *)
Fixpoint truncate_conflict (fuel : nat) (idx prev_log_term : Z) (st : RaftNode) :
    option RaftNode :=
  match fuel with
  | O => None
  | S fuel =>
      last_e ← log_back st;
      if idx <=? le_index last_e then
        match GetLogEntry st idx with
        | Some e =>
            if le_term e =? prev_log_term
            then truncate_conflict fuel (u64 (idx + 1)) prev_log_term st
            else
              rlog ← pop_back_while idx (rev (log_ st));
              Some (set_log_ (rev rlog) st)
        | None => truncate_conflict fuel (u64 (idx + 1)) prev_log_term st
        end
      else Some st
  end.

(** The loop that appends the entries beyond the end of the log. *)
Fixpoint append_entries (entries : list LogEntry) (st : RaftNode) : option RaftNode :=
  match entries with
  | [] => Some st
  | entry :: entries =>
      last_e ← log_back st;
      append_entries entries
        (if le_index last_e <? le_index entry then set_log_ (log_ st ++ [entry]) st else st)
  end.

(** The end of [HandleAppendEntries], once the previous entry matched. *)
Definition accept_entries (req : AppendEntriesRequest) (w : World) : option World :=
  st ← append_entries (ae_entries req) (fst w);
  let w := (PersistState st, snd w) in
  last_e ← log_back (fst w);
  w ←
    (if commit_index_ (fst w) <? ae_leader_commit req then
       let new_commit := Z.min (ae_leader_commit req) (le_index last_e) in
       if commit_index_ (fst w) <? new_commit
       then ApplyCommitted new_commit (on_node (set_commit_index_ new_commit) w)
       else Some w
     else Some w);
  last_e ← log_back (fst w);
  Some (on_node (λ st, ae_resp_set_match_index (le_index last_e) (ae_resp_set_success true st)) w).

(** [HandleAppendEntries(from, req)]: the response is [ae_resp_] of the result. *)
Definition HandleAppendEntries (from : bytes) (req : AppendEntriesRequest) (w : World) :
    option World :=
  let w := on_node (ae_resp_set_term (current_term_ (fst w))) w in
  if ae_term req <? current_term_ (fst w)
  then Some (on_node (ae_resp_set_success false) w)
  else
    let w :=
      if current_term_ (fst w) <? ae_term req then
        on_node (λ st,
          let st := set_current_term_ (ae_term req) st in
          let st := set_state_ FOLLOWER st in
          let st := set_voted_for_ [] st in
          let st := PersistState st in
          ae_resp_set_term (current_term_ st) st) w
      else w in
    let w := on_node (λ st, set_state_ FOLLOWER (set_leader_id_ from st)) w in
    let w := ResetElectionTimer w in
    let prev_log_index := ae_prev_log_index req in
    let prev_log_term := ae_prev_log_term req in
    last_e ← log_back (fst w);
    if le_index last_e <? prev_log_index then
      Some (on_node (λ st,
        ae_resp_set_match_index (le_index last_e) (ae_resp_set_success false st)) w)
    else if snapshot_last_index_ (fst w) <=? prev_log_index then
      match GetLogEntry (fst w) prev_log_index with
      | Some prev =>
          if le_term prev =? prev_log_term then accept_entries req w
          else
            st ← truncate_conflict (S (S (Z.to_nat (le_index last_e - prev_log_index))))
                   prev_log_index prev_log_term (fst w);
            last_e ← log_back st;
            let st := ae_resp_set_success false st in
            let st := ae_resp_set_match_index (le_index last_e) st in
            Some (PersistState st, snd w)
      | None => accept_entries req w
      end
    else if negb (prev_log_index =? snapshot_last_index_ (fst w)) ||
            negb (prev_log_term =? snapshot_last_term_ (fst w)) then
      Some (on_node (λ st,
        ae_resp_set_match_index (snapshot_last_index_ st) (ae_resp_set_success false st)) w)
    else accept_entries req w.

(** The bytes of a snapshot file, and its rename into place. *)
Definition snapshot_bytes (snap : SnapshotMetadata) : bytes :=
  let serialized := SerializeSnapshot snap in
  EncodeFixed64 (zlen serialized) ++ serialized.

(** [log_[0]] and the entries after the snapshot. *)
Definition trim_log (last_included_index : Z) (log : list LogEntry) : option (list LogEntry) :=
  match log with
  | [] => None
  | e0 :: log => Some (e0 :: filter (λ e, last_included_index < le_index e) log)
  end.

(** The commit and apply positions are not behind the snapshot. *)
Definition raise_commit (st : RaftNode) : RaftNode :=
  if commit_index_ st <? snapshot_last_index_ st then
    set_last_applied_ (snapshot_last_index_ st)
      (set_commit_index_ (snapshot_last_index_ st) st)
  else st.

(** The members after a snapshot from the leader was installed. *)
Definition adopt_snapshot (req : InstallSnapshotRequest) (st : RaftNode) : option RaftNode :=
  let st := set_snapshot_last_index_ (is_last_included_index req) st in
  let st := set_snapshot_last_term_ (is_last_included_term req) st in
  new_log ← trim_log (snapshot_last_index_ st) (log_ st);
  Some (raise_commit (set_log_ new_log st)).

(** [HandleInstallSnapshot(from, req)]: the response is [snap_resp_]. *)
Definition HandleInstallSnapshot (from : bytes) (req : InstallSnapshotRequest) (w : World) :
    option World :=
  let w := on_node (snap_resp_set_term (current_term_ (fst w))) w in
  if is_term req <? current_term_ (fst w)
  then Some (on_node (snap_resp_set_success false) w)
  else
    let w :=
      if current_term_ (fst w) <? is_term req then
        on_node (λ st,
          let st := set_current_term_ (is_term req) st in
          let st := set_voted_for_ [] st in
          let st := set_leader_id_ [] st in
          let st := set_state_ FOLLOWER st in
          let st := PersistState st in
          snap_resp_set_term (current_term_ st) st) w
      else w in
    let w := on_node (λ st, set_state_ FOLLOWER (set_leader_id_ from st)) w in
    let w := ResetElectionTimer w in
    if (is_last_included_index req <=? snapshot_last_term_ (fst w)) ||
       (is_last_included_index req <=? commit_index_ (fst w))
    then Some (on_node (snap_resp_set_success true) w)
    else
      let snap := mkSnapshot (is_last_included_index req) (is_last_included_term req)
                    (is_snapshot_data req) in
      match written (disk_ (fst w)) (snapshot_bytes snap) with
      | Some f =>
          let w := on_node (set_snapshot_file (Some f)) w in
          let w :=
            match restore_cb_ with
            | Some restore =>
                if bool_decide (is_snapshot_data req = []) then w
                else (fst w, restore (is_snapshot_data req) (snd w))
            | None => w
            end in
          st ← adopt_snapshot req (fst w);
          Some (snap_resp_set_success true (PersistState st), snd w)
      | None => Some (on_node (snap_resp_set_success false) w)
      end.

(** ** Changes of role *)

(** [BecomeFollower(term)]. *)
Definition BecomeFollower (term : Z) (st : RaftNode) : RaftNode :=
  let st :=
    if current_term_ st <? term then
      PersistState (set_voted_for_ [] (set_current_term_ term st))
    else st in
  set_leader_id_ [] (set_state_ FOLLOWER st).

(** [BecomeCandidate()]. *)
Definition BecomeCandidate (st : RaftNode) : RaftNode :=
  let st := set_state_ CANDIDATE st in
  let st := set_current_term_ (u64 (current_term_ st + 1)) st in
  let st := set_voted_for_ (my_id_ st) st in
  let st := set_leader_id_ [] st in
  let st := set_votes_received_ 1 st in
  PersistState st.

(** The request [SendHeartbeats] builds for a peer whose next index is
    [next_idx]. *)
Definition heartbeat_request (st : RaftNode) (next_idx : Z) : AppendEntriesRequest :=
  let prev_log_index := u64 (next_idx - 1) in
  let prev_log_term :=
    if snapshot_last_index_ st <? prev_log_index then
      match GetLogEntry st prev_log_index with Some prev => le_term prev | None => 0 end
    else if prev_log_index =? snapshot_last_index_ st then snapshot_last_term_ st
    else 0 in
  mkAppendEntries (current_term_ st) (my_id_ st) prev_log_index prev_log_term
    (filter (λ e, next_idx <= le_index e) (log_ st)) (commit_index_ st).

(** [SendHeartbeats()]: the node's fields are read anew for every peer, after
    what the previous callback did to them. *)
Fixpoint SendHeartbeats_loop (targets : list bytes) (w : World) : option World :=
  match targets with
  | [] => Some w
  | peer :: targets =>
      if bool_decide (peer = my_id_ (fst w)) then SendHeartbeats_loop targets w
      else
        let '(next, next_idx) := subscript peer (next_index_ (fst w)) in
        let w := on_node (set_next_index_ next) w in
        w ← send_rpc_cb_ peer (APPEND_ENTRIES (heartbeat_request (fst w) next_idx)) w;
        SendHeartbeats_loop targets w
  end.

Definition SendHeartbeats (w : World) : option World :=
  if bool_decide (state_ (fst w) = LEADER)
  then SendHeartbeats_loop (peers (config_ (fst w))) w
  else Some w.

(** [BecomeLeader()]: the progress maps of a new leader, then the heartbeats. *)
Definition init_progress (st : RaftNode) (last_log_index : Z) :
    gmap bytes Z * gmap bytes Z :=
  foldl (λ '(next, mtch) peer,
    if bool_decide (peer = my_id_ st) then (next, mtch)
    else (<[peer := u64 (last_log_index + 1)]> next, <[peer := 0]> mtch))
    (∅, ∅) (peers (config_ st)).

Definition lead (st : RaftNode) : option RaftNode :=
  let st := set_state_ LEADER st in
  let st := set_leader_id_ (my_id_ st) st in
  last_e ← log_back st;
  let '(next, mtch) := init_progress st (Z.max (le_index last_e) (snapshot_last_index_ st)) in
  Some (set_match_index_ mtch (set_next_index_ next st)).

Definition BecomeLeader (w : World) : option World :=
  st ← lead (fst w);
  w ← SendHeartbeats (st, snd w);
  Some (ResetElectionTimer w).

(** [HandleRequestVoteResponse(from, resp)]. *)
Definition step_down (term : Z) (st : RaftNode) : RaftNode :=
  let st := set_current_term_ term st in
  let st := set_state_ FOLLOWER st in
  let st := set_voted_for_ [] st in
  let st := set_leader_id_ [] st in
  PersistState st.

Definition HandleRequestVoteResponse (from : bytes) (resp : RequestVoteResponse) (w : World) :
    option World :=
  if current_term_ (fst w) <? vr_term resp then Some (on_node (step_down (vr_term resp)) w)
  else if negb (bool_decide (state_ (fst w) = CANDIDATE)) then Some w
  else if vr_term resp <? current_term_ (fst w) then Some w
  else if vr_granted resp then
    let w := on_node (λ st, set_votes_received_ (votes_received_ st + 1) st) w in
    if majority (fst w) <=? votes_received_ (fst w) then BecomeLeader w else Some w
  else Some w.

(** [HandleAppendEntriesResponse(from, resp)]. *)
Definition HandleAppendEntriesResponse (from : bytes) (resp : AppendEntriesResponse)
    (w : World) : option World :=
  if current_term_ (fst w) <? ar_term resp then Some (on_node (step_down (ar_term resp)) w)
  else if negb (bool_decide (state_ (fst w) = LEADER)) then Some w
  else if ar_success resp then
    let w := on_node (λ st,
      let st := set_match_index_ (<[from := ar_match_index resp]> (match_index_ st)) st in
      set_next_index_ (<[from := u64 (ar_match_index resp + 1)]> (next_index_ st)) st) w in
    AdvanceCommitIndex w
  else
    Some (on_node (λ st,
      let mtch := ar_match_index resp in
      let '(next, next_idx) := subscript from (next_index_ st) in
      let st := set_next_index_ next st in
      if mtch <? next_idx then
        let v := Z.max (u64 (mtch + 1)) (u64 (snapshot_last_index_ st + 1)) in
        set_next_index_ (<[from := if v <? 1 then 1 else v]> next) st
      else st) w).

(** [StartElection()]: the request is built once; the mutex is not held while
    the requests go out. *)
Fixpoint RequestVotes_loop (msg : RaftMessage) (targets : list bytes) (w : World) :
    option World :=
  match targets with
  | [] => Some w
  | peer :: targets =>
      if bool_decide (peer = my_id_ (fst w)) then RequestVotes_loop msg targets w
      else w ← send_rpc_cb_ peer msg w; RequestVotes_loop msg targets w
  end.

Definition vote_request (st : RaftNode) : option RequestVoteRequest :=
  last_e ← log_back st;
  Some (mkRequestVote (current_term_ st) (my_id_ st) (le_index last_e) (le_term last_e)).

Definition StartElection (w : World) : option World :=
  req ← vote_request (fst w);
  w ← RequestVotes_loop (REQUEST_VOTE req) (peers (config_ (fst w))) w;
  if bool_decide (state_ (fst w) = CANDIDATE) && (majority (fst w) <=? votes_received_ (fst w))
  then BecomeLeader w else Some w.

(** [OnElectionTimeout()], and one turn of [TimerLoop()]. *)
Definition OnElectionTimeout (w : World) : option World :=
  if bool_decide (state_ (fst w) = LEADER) then
    w ← SendHeartbeats w;
    Some (ResetElectionTimer w)
  else
    let w := on_node BecomeCandidate w in
    w ← StartElection w;
    Some (ResetElectionTimer w).

Definition TimerLoop_turn (w : World) : option World :=
  if election_deadline_ (fst w) <=? now (snd w) then OnElectionTimeout w else Some w.

(** ** Snapshots *)

(** [TakeSnapshot()] takes the mutex twice: once to choose the snapshot, once,
    after writing the file, to trim the log.  [None] of the inner option is
    [return false]. *)
Definition TakeSnapshot_begin (w : World) : option SnapshotMetadata :=
  snapshot ← snapshot_cb_;
  let st := fst w in
  if last_applied_ st <=? snapshot_last_index_ st then None
  else
    let data := snapshot (snd w) in
    let last_included_index := last_applied_ st in
    let last_included_term :=
      match GetLogEntry st last_included_index with
      | Some entry => le_term entry
      | None => current_term_ st
      end in
    Some (mkSnapshot last_included_index last_included_term data).

Definition TakeSnapshot_write (snap : SnapshotMetadata) (st : RaftNode) : option RaftNode :=
  f ← written (disk_ st) (snapshot_bytes snap);
  Some (set_snapshot_file (Some f) st).

Definition TakeSnapshot_finish (snap : SnapshotMetadata) (st : RaftNode) : option RaftNode :=
  let st := set_snapshot_last_index_ (sm_last_included_index snap) st in
  let st := set_snapshot_last_term_ (sm_last_included_term snap) st in
  new_log ← trim_log (sm_last_included_index snap) (log_ st);
  Some (PersistState (set_log_ new_log st)).

(** The three of them without interference. *)
Definition TakeSnapshot (w : World) : option (World * bool) :=
  match TakeSnapshot_begin w with
  | None => Some (w, false)
  | Some snap =>
      match TakeSnapshot_write snap (fst w) with
      | None => Some (w, false)
      | Some st =>
          st ← TakeSnapshot_finish snap st;
          Some ((st, snd w), true)
      end
  end.

(** [RestoreFromSnapshot()]. *)
Definition RestoreFromSnapshot (w : World) : option (World * bool) :=
  match snapshot_file (fst w) with
  | None => Some (w, true)
  | Some content =>
      let f := open_stream content in
      let '(f1, len) := read_u64 0 f in
      if negb (gcount f f1 =? 8) then Some (w, true)
      else
        '(f2, s) ← read_string [] len f1;
        if negb (gcount f1 f2 =? len) then Some (w, true)
        else
          match ParseSnapshot s with
          | None => Some (w, false)
          | Some snap =>
              let e :=
                match restore_cb_ with
                | Some restore =>
                    if bool_decide (sm_metadata_store_data snap = []) then snd w
                    else restore (sm_metadata_store_data snap) (snd w)
                | None => snd w
                end in
              let st := set_snapshot_last_term_ (sm_last_included_term snap) (fst w) in
              let st := set_snapshot_last_index_ (sm_last_included_index snap) st in
              Some ((raise_commit st, e), true)
          end
  end.

(** [Start()], without the thread it spawns. *)
Definition Start (w : World) : option World :=
  st ← RestoreState (fst w);
  '(w, _) ← RestoreFromSnapshot (st, snd w);
  Some (ResetElectionTimer (on_node (λ st, BecomeFollower (current_term_ st) st) w)).

(** ** Propose *)

(** [ProposeResult]; [index] is not initialised on a node that is not leader. *)
Record ProposeResult := mkResult {
  pr_index : option Z; pr_committed : bool; pr_is_leader : bool; pr_leader_id : bytes }.

(** The first critical section. *)
Definition Propose_append (command : bytes) (st : RaftNode) :
    option (RaftNode * ProposeResult) :=
  if bool_decide (state_ st = LEADER) then
    last_e ← log_back st;
    let index := u64 (le_index last_e + 1) in
    let st := set_log_ (log_ st ++ [mkEntry (current_term_ st) index command]) st in
    let st := PersistState st in
    let st := set_next_index_ (<[my_id_ st := u64 (index + 1)]> (next_index_ st)) st in
    let st := set_match_index_ (<[my_id_ st := index]> (match_index_ st)) st in
    Some (st, mkResult (Some index) false true [])
  else Some (st, mkResult None false false (leader_id_ st)).

(** One test of the waiting loop: [None] goes on waiting. *)
Definition Propose_poll (r : ProposeResult) (st : RaftNode) : option ProposeResult :=
  if default 0 (pr_index r) <=? commit_index_ st
  then Some (mkResult (pr_index r) true (pr_is_leader r) (pr_leader_id r))
  else if negb (bool_decide (state_ st = LEADER))
  then Some (mkResult (pr_index r) (pr_committed r) false (leader_id_ st))
  else None.

(** The waiting loop: [wakeups] is what the other threads do to the world
    between two tests; when the list is used up, the wait has timed out. *)
Fixpoint Propose_wait (wakeups : list (World → option World)) (r : ProposeResult) (w : World) :
    option (World * ProposeResult) :=
  match Propose_poll r (fst w) with
  | Some r => Some (w, r)
  | None =>
      match wakeups with
      | [] => Some (w, r)
      | f :: wakeups => w ← f w; Propose_wait wakeups r w
      end
  end.

(** [Propose(command, timeout_ms)]. *)
Definition Propose (command : bytes) (wakeups : list (World → option World)) (w : World) :
    option (World * ProposeResult) :=
  '(st, r) ← Propose_append command (fst w);
  let w := (st, snd w) in
  if pr_is_leader r then
    w ← AdvanceCommitIndex w;
    w ← SendHeartbeats w;
    Propose_wait wakeups r w
  else Some (w, r).

End RaftNode.

(** ** Queries *)

Definition IsLeader (st : RaftNode) : bool := bool_decide (state_ st = LEADER).
Definition GetLeaderId (st : RaftNode) : bytes := leader_id_ st.
Definition GetState (st : RaftNode) : RaftState := state_ st.
Definition GetCurrentTerm (st : RaftNode) : Z := current_term_ st.
Definition GetCommitIndex (st : RaftNode) : Z := commit_index_ st.
Definition GetLastLogIndex (st : RaftNode) : option Z := le_index <$> log_back st.
Definition GetLastLogTerm (st : RaftNode) : option Z := le_term <$> log_back st.
Definition GetLogSize (st : RaftNode) : Z := u64 (zlen (log_ st) - 1).
Definition PeerCount (st : RaftNode) : Z := int32 (zlen (peers (config_ st))).
Definition IsPeer (st : RaftNode) (id : bytes) : bool :=
  existsb (λ p, bool_decide (p = id)) (peers (config_ st)).
