(* ===== verification/RaftRpc.v ===== *)
(** The transport of the Raft messages (src/raft/raft_rpc.cc): [SendMessage]
    sends a request, waits for its response and feeds it to the node before it
    returns, so that a node re-enters itself while it broadcasts; [OnMessage]
    serves the requests of the others.  The sockets are a parameter
    ([exchange]), as is the protobuf codec. *)
From S2P Require Import Prelude Raft.

Section RaftRPC.

Context {E : Type}.
Context (now : E → Z) (uniform_int : Z → Z → E → Z * E).
Context (apply_cb_ : option (Z → bytes → E → E)).
Context (snapshot_cb_ : option (E → bytes)) (restore_cb_ : option (bytes → E → E)).
Context (SerializeSnapshot : SnapshotMetadata → bytes).
Context (SerializeMessage : RaftMessage → bytes) (ParseMessage : bytes → option RaftMessage).

(** A connection to a host and port that sends some bytes and reads one framed
    message: [None] when connecting or sending fails, [Some None] when no
    response arrives in time. *)
Context (exchange : bytes → Z → bytes → E → E * option (option bytes)).

Abbreviation World := (RaftNode * E)%type.

Definition is_request (msg : RaftMessage) : bool :=
  match msg with
  | REQUEST_VOTE _ | APPEND_ENTRIES _ | INSTALL_SNAPSHOT _ => true
  | _ => false
  end.

(** [SendMessage(peer_id, msg)]: [depth] bounds the nesting of the calls it
    makes back into the node; [None] also stands for the exception of [stoi] on
    a port that is not a number. *)
Fixpoint SendMessage (depth : nat) (peer_id : bytes) (msg : RaftMessage) (w : World) :
    option (World * bool) :=
  match depth with
  | O => None
  | S depth =>
      match rfind x3a peer_id with
      | None => Some (w, false)
      | Some colon =>
        port ← stoi (drop (S colon) peer_id);
        let '(e, r) := exchange (take colon peer_id) port (SerializeMessage msg) (snd w) in
        let w := (fst w, e) in
        match r with
        | None => Some (w, false)
        | Some resp_bytes =>
            let send_rpc p m w := fst <$> SendMessage depth p m w in
            w ←
              (if is_request msg then
                 match resp_bytes ≫= ParseMessage with
                 | Some (REQUEST_VOTE_RESPONSE resp) =>
                     HandleRequestVoteResponse now uniform_int send_rpc peer_id resp w
                 | Some (APPEND_ENTRIES_RESPONSE resp) =>
                     HandleAppendEntriesResponse apply_cb_ peer_id resp w
                 | _ => Some w
                 end
               else Some w);
            Some (w, true)
        end
      end
  end.

(** The callback [HANameNodeServer] installs: the result is dropped.  Two
    levels are enough ([OnElectionTimeout_total]): an election's response makes
    a leader, whose heartbeats' responses never send. *)
Definition send_rpc (peer_id : bytes) (msg : RaftMessage) (w : World) : option World :=
  fst <$> SendMessage 2 peer_id msg w.

(** [OnMessage(conn, data)]: the bytes sent back on the connection, if any. *)
Definition OnMessage (data : bytes) (w : World) : option (World * option bytes) :=
  match ParseMessage data with
  | None => Some (w, None)
  | Some (REQUEST_VOTE req) =>
      w ← HandleRequestVote now uniform_int (rv_candidate_id req) req w;
      Some (w, Some (SerializeMessage (REQUEST_VOTE_RESPONSE (vote_resp_ (fst w)))))
  | Some (APPEND_ENTRIES req) =>
      w ← HandleAppendEntries now uniform_int apply_cb_ (ae_leader_id req) req w;
      Some (w, Some (SerializeMessage (APPEND_ENTRIES_RESPONSE (ae_resp_ (fst w)))))
  | Some (INSTALL_SNAPSHOT req) =>
      w ← HandleInstallSnapshot now uniform_int restore_cb_ SerializeSnapshot
            (is_leader_id req) req w;
      Some (w, Some (SerializeMessage (INSTALL_SNAPSHOT_RESPONSE (snap_resp_ (fst w)))))
  | Some (REQUEST_VOTE_RESPONSE resp) =>
      w ← HandleRequestVoteResponse now uniform_int send_rpc [] resp w;
      Some (w, None)
  | Some (APPEND_ENTRIES_RESPONSE resp) =>
      w ← HandleAppendEntriesResponse apply_cb_ [] resp w;
      Some (w, None)
  | Some (INSTALL_SNAPSHOT_RESPONSE _) => Some (w, None)
  end.

End RaftRPC.
