(* ===== verification/RaftDurable.v ===== *)
(** The Raft node's durable state: what [PersistState] writes, [RestoreState]
    reads back, and no method moves the term, the vote or the log without
    writing them. *)
From S2P Require Import Prelude Coding Raft RaftRpc.

(** Reduction of the members of an updated node. *)
Ltac raft_simpl :=
  cbn [fst snd on_node
    config_ current_term_ voted_for_ log_ commit_index_ last_applied_ next_index_
    match_index_ snapshot_last_index_ snapshot_last_term_ state_ leader_id_ my_id_
    votes_received_ election_deadline_ vote_resp_ ae_resp_ snap_resp_ disk_ state_file
    snapshot_file
    set_current_term_ set_voted_for_ set_log_ set_commit_index_ set_last_applied_
    set_next_index_ set_match_index_ set_snapshot_last_index_ set_snapshot_last_term_
    set_state_ set_leader_id_ set_votes_received_ set_election_deadline_ set_vote_resp_
    set_ae_resp_ set_snap_resp_ set_state_file set_snapshot_file
    vote_resp_set_term vote_resp_set_granted ae_resp_set_term ae_resp_set_success
    ae_resp_set_match_index snap_resp_set_term snap_resp_set_success
    vr_term vr_granted ar_term ar_success ar_match_index sr_term sr_success
    mbind option_bind] in *.

(** * Reading back the state file *)

Lemma EncodeFixed64_size v : length (EncodeFixed64 v) = 8%nat.
Proof. done. Qed.

Lemma stream_read_at pre a post buf :
  length buf = length a →
  stream_read (mkStream (pre ++ a ++ post) (zlen pre) false) (length a) buf =
    (mkStream (pre ++ a ++ post) (zlen (pre ++ a)) false, a).
Proof.
  intros Hb. unfold stream_read. cbn [s_failed s_pos s_content]. 
  rewrite zlen_to_nat, drop_app_length, take_app_length, Nat.ltb_irrefl.
  rewrite (drop_ge buf) by lia. rewrite app_nil_r, zlen_app. done.
Qed.

Lemma read_u64_at pre v post old :
  0 <= v < 2 ^ 64 →
  read_u64 old (mkStream (pre ++ EncodeFixed64 v ++ post) (zlen pre) false) =
    (mkStream (pre ++ EncodeFixed64 v ++ post) (zlen (pre ++ EncodeFixed64 v)) false, v).
Proof.
  intros Hv. unfold read_u64.
  pose proof (stream_read_at pre (EncodeFixed64 v) post (EncodeFixed64 old) eq_refl) as H.
  rewrite EncodeFixed64_size in H. rewrite H.
  pose proof (DecodeFixed64_Encode v []) as Hd. rewrite app_nil_r in Hd. rewrite Hd.
  cbn [default from_option]. by rewrite u64_small.
Qed.

Lemma read_string_at pre s post old n :
  n = zlen s → n <= max_size →
  read_string old n (mkStream (pre ++ s ++ post) (zlen pre) false) =
    Some (mkStream (pre ++ s ++ post) (zlen (pre ++ s)) false, s).
Proof.
  intros -> Hn. unfold read_string. destruct (Z.leb_spec (zlen s) max_size); [|lia].
  rewrite zlen_to_nat. f_equal. apply stream_read_at.
  unfold resize. rewrite length_app, length_take, length_replicate. lia.
Qed.

(** An entry whose fields fit their types. *)
Definition entry_ok (e : LogEntry) : Prop :=
  0 <= le_term e < 2 ^ 64 ∧ 0 <= le_index e < 2 ^ 64 ∧ zlen (le_command e) <= max_size.

Lemma read_entry_at pre e post :
  entry_ok e →
  read_entry (mkStream (pre ++ entry_bytes e ++ post) (zlen pre) false) =
    Some (mkStream (pre ++ entry_bytes e ++ post) (zlen (pre ++ entry_bytes e)) false, e).
Proof.
  destruct e as [t i c]. unfold entry_ok, entry_bytes. cbn [le_term le_index le_command].
  intros (Ht & Hi & Hc). unfold read_entry. pose proof (zlen_nonneg c).
  rewrite <- !app_assoc, read_u64_at by done.
  rewrite (app_assoc pre), read_u64_at by done.
  rewrite (app_assoc (pre ++ _)), read_u64_at by (unfold max_size in Hc; lia).
  destruct (Z.ltb_spec 0 (zlen c)) as [Hpos|Hz].
  - rewrite (app_assoc ((pre ++ _) ++ _)), read_string_at by done.
    cbn [mbind option_bind]. by rewrite <- !app_assoc.
  - destruct c; [|rewrite zlen_cons in *; pose proof (zlen_nonneg c); lia].
    by rewrite !app_nil_r, <- !app_assoc.
Qed.

Lemma read_entries_at es pre :
  Forall entry_ok es →
  read_entries (length es)
    (mkStream (pre ++ mjoin (map entry_bytes es)) (zlen pre) false) = Some es.
Proof.
  intros Hes. revert pre. induction Hes as [|e es He Hes IH]; intros pre; [done|].
  cbn [length read_entries map]. change (mjoin (entry_bytes e :: map entry_bytes es))
    with (entry_bytes e ++ mjoin (map entry_bytes es)).
  rewrite read_entry_at by done. cbn [mbind option_bind].
  rewrite (app_assoc pre), IH. done.
Qed.

(** A node whose members fit their types; its log starts with the sentinel. *)
Record fits (st : RaftNode) : Prop := {
  fits_term : 0 <= current_term_ st < 2 ^ 64;
  fits_vote : zlen (voted_for_ st) <= max_size;
  fits_head : log_ st = dummy_entry :: tail (log_ st);
  fits_log : Forall entry_ok (log_ st);
  fits_size : zlen (log_ st) < 2 ^ 64;
}.

Definition log_last (log : list LogEntry) : LogEntry := default dummy_entry (last log).

(** The state a restart reads from the file of [st]. *)
Lemma RestoreState_state_bytes st st0 :
  fits st → state_file st0 = Some (state_bytes st) → voted_for_ st0 = [] →
  RestoreState st0 =
    Some (set_last_applied_ (le_index (log_last (log_ st)))
      (set_commit_index_ (le_index (log_last (log_ st)))
      (set_log_ (log_ st) (set_voted_for_ (voted_for_ st)
      (set_current_term_ (current_term_ st) st0))))).
Proof.
  intros [Ht Hv Hh Hl Hs] Hf Hv0. unfold RestoreState. rewrite Hf. unfold state_bytes.
  set (rest := EncodeFixed64 (zlen (voted_for_ st)) ++ _).
  pose proof (read_u64_at [] (current_term_ st) rest (current_term_ st0) Ht) as H1.
  change (zlen []) with 0 in H1. cbn [app] in H1. unfold open_stream. rewrite H1. clear H1.
  replace (gcount _ _ =? 8) with true by done.
  subst rest. pose proof (zlen_nonneg (voted_for_ st)).
  rewrite (read_u64_at (EncodeFixed64 (current_term_ st))) by (unfold max_size in Hv; lia).
  set (rest := EncodeFixed64 (zlen (log_ st) - 1) ++ _).
  replace (gcount _ _ =? 8) with true
    by (unfold gcount; cbn [s_pos]; by rewrite zlen_app, Z.add_simpl_l).
  cbn [andb].
  set (pre := EncodeFixed64 (current_term_ st) ++ EncodeFixed64 (zlen (voted_for_ st)) ++
              voted_for_ st).
  set (all := EncodeFixed64 (current_term_ st) ++ _).
  assert (all = pre ++ rest) as Hall by (subst all pre; by rewrite <- !app_assoc).
  match goal with |- context [ '(f3, st) ← ?X; _ ] =>
    assert (X = Some (mkStream all (zlen pre) false,
      set_voted_for_ (voted_for_ st) (set_current_term_ (current_term_ st) st0))) as -> end.
  { subst all pre. destruct (Z.ltb_spec 0 (zlen (voted_for_ st))) as [Hp|Hz].
    - rewrite !(app_assoc (EncodeFixed64 (current_term_ st))).
      rewrite read_string_at by done. raft_simpl. by rewrite <- !app_assoc.
    - destruct (voted_for_ st) as [|b v]; [|rewrite zlen_cons in *; pose proof (zlen_nonneg v); lia].
      rewrite app_nil_r. f_equal. f_equal. destruct st0. raft_simpl. by rewrite Hv0. }
  raft_simpl. rewrite Hall. subst rest.
  assert (1 <= zlen (log_ st)).
  { rewrite Hh, zlen_cons. pose proof (zlen_nonneg (tail (log_ st))). lia. }
  rewrite read_u64_at by lia.
  replace (gcount _ _ =? 8) with true
    by (unfold gcount; cbn [s_pos]; by rewrite zlen_app, Z.add_simpl_l).
  assert (Z.to_nat (zlen (log_ st) - 1) = length (tail (log_ st))) as ->.
  { rewrite Hh. cbn [tail]. unfold zlen. simpl length. lia. }
  rewrite app_assoc, read_entries_at.
  2:{ rewrite Hh in Hl. by apply Forall_cons in Hl as [_ Hl]. }
  raft_simpl. rewrite <- Hh. unfold log_back, log_last. raft_simpl.
  assert (is_Some (last (log_ st))) as [x ->] by (apply last_is_Some; by rewrite Hh).
  done.
Qed.

(** ** A write of the state file that broke off *)

(** With less than the term and the length of the vote on disk, a restart finds at
    most the low bytes of the term, and neither the vote nor the log. *)
Lemma RestoreState_torn st st0 n :
  0 <= current_term_ st < 2 ^ 64 → (n < 16)%nat →
  state_file st0 = Some (take n (state_bytes st)) → current_term_ st0 = 0 →
  RestoreState st0 =
    Some (set_current_term_ (current_term_ st mod 2 ^ (8 * Z.of_nat (n `min` 8))) st0).
Proof.
  intros Ht Hn Hf H0. unfold RestoreState. rewrite Hf, H0. unfold state_bytes.
  set (rest := EncodeFixed64 (zlen (voted_for_ st)) ++ _).
  unfold read_u64 at 1. unfold stream_read, open_stream. cbn [s_failed s_pos s_content Z.to_nat].
  rewrite drop_0, take_take, (take_app_le _ _ (8 `min` n)) by (rewrite EncodeFixed64_size; lia).
  assert (length (take (8 `min` n) (EncodeFixed64 (current_term_ st))) = 8 `min` n)%nat as Hl.
  { rewrite length_take, EncodeFixed64_size. lia. }
  rewrite Hl, DecodeFixed64_torn by lia. cbn [default from_option].
  rewrite (Nat.min_comm 8 n) in *. unfold gcount at 1. cbn [s_pos]. unfold zlen at 1. rewrite Hl.
  destruct (Z.eqb_spec (0 + Z.of_nat (n `min` 8) - 0) 8) as [E|]; [|done].
  assert (8 <= n)%nat as H8 by lia. clear E. rewrite (Nat.min_r n 8) in * by lia.
  set (c := take n _). assert (length c = n) as Hc.
  { subst c rest. rewrite length_take, !length_app, !EncodeFixed64_size. lia. }
  unfold read_u64, stream_read, gcount, zlen. cbn [s_failed s_pos s_content]. rewrite Hl, Nat.ltb_irrefl.
  change (Z.to_nat (0 + Z.of_nat 8)) with 8%nat.
  assert (length (take 8 (drop 8 c)) = n - 8)%nat as -> by (rewrite length_take, length_drop; lia).
  destruct (Nat.ltb_spec (n - 8) 8); [|lia]. cbn [s_failed s_pos].
  destruct (Z.eqb_spec (0 + Z.of_nat 8 + Z.of_nat (n - 8) - (0 + Z.of_nat 8)) 8); [lia|].
  cbn [s_failed s_pos mbind option_bind andb]. by rewrite Z.sub_diag.
Qed.

(** * The term, the vote and their copy on disk *)

(** The file holds the state a restart needs; a node that has never written
    is still in its initial state. *)
Definition mirrored (st : RaftNode) : Prop :=
  disk_ st = Whole ∧
  (state_file st = Some (state_bytes st) ∨
   state_file st = None ∧ current_term_ st = 0 ∧ voted_for_ st = [] ∧ log_ st = [dummy_entry]).

(** From [st] to [st'] the term does not decrease, a vote is kept until the term
    changes, and the file still mirrors the node. *)
Definition keeps_vote (st st' : RaftNode) : Prop :=
  current_term_ st <= current_term_ st' ∧
  (current_term_ st = current_term_ st' → voted_for_ st = [] ∨ voted_for_ st' = voted_for_ st).

Definition evolves (st st' : RaftNode) : Prop :=
  mirrored st → mirrored st' ∧ keeps_vote st st'.

#[export] Instance keeps_vote_preorder : PreOrder keeps_vote.
Proof.
  split.
  - intros st. split; [lia|by right].
  - intros s1 s2 s3 [H1 V1] [H2 V2]. split; [lia|]. intros Heq.
    destruct V1 as [?|E1]; [lia|by left|]. destruct V2 as [?|E2]; [lia| |].
    + left. congruence.
    + right. congruence.
Qed.

#[export] Instance evolves_preorder : PreOrder evolves.
Proof.
  split.
  - intros st Hm. split_and!; done.
  - intros s1 s2 s3 H1 H2 Hm. destruct (H1 Hm) as (Hm2 & Hk).
    destruct (H2 Hm2) as (Hm3 & Hk'). split; [done|by transitivity s2].
Qed.

(** Members outside the file may change freely. *)
Definition same_durable (st st' : RaftNode) : Prop :=
  current_term_ st' = current_term_ st ∧
  voted_for_ st' = voted_for_ st ∧ log_ st' = log_ st ∧ disk_ st' = disk_ st ∧
  state_file st' = state_file st.

Lemma evolves_same st st' : same_durable st st' → evolves st st'.
Proof.
  intros (H3 & H4 & H5 & H6 & H7) [Hw Hm]. unfold mirrored, keeps_vote, state_bytes in *.
  rewrite H3, H4, H5, H6, H7. split_and!; [done..|lia|by right].
Qed.

(** Writing the file after a change of any kind. *)
Lemma evolves_persist st st' :
  disk_ st' = disk_ st → keeps_vote st st' → evolves st (PersistState st').
Proof.
  intros Hw Hk [Hm _]. unfold PersistState. rewrite Hw, Hm. cbn [written].
  unfold mirrored, keeps_vote in *. raft_simpl.
  split_and!; [congruence|by left|apply Hk..].
Qed.

(** A new log, with the same term and vote. *)
Lemma evolves_rewrite_log st st' :
  disk_ st' = disk_ st →
  current_term_ st' = current_term_ st → voted_for_ st' = voted_for_ st →
  evolves st (PersistState st').
Proof.
  intros ? Ht Hv. apply evolves_persist; [done|]. split; [lia|by right].
Qed.

Lemma keeps_vote_later st st' : current_term_ st < current_term_ st' → keeps_vote st st'.
Proof. intros H. split; lia. Qed.

Ltac same := apply evolves_same; repeat split; reflexivity.

(** Split at the last write of the file. *)
Ltac via_persist :=
  match goal with
  | |- evolves _ ?g =>
      match g with context [PersistState ?st] => 
        transitivity (PersistState st); [|generalize (PersistState st); intros ?; same] end
  end.

Section Evolves.
Context {E : Type}.
Context (now : E → Z) (uniform_int : Z → Z → E → Z * E).
Context (apply_cb_ : option (Z → bytes → E → E)).
Context (snapshot_cb_ : option (E → bytes)) (restore_cb_ : option (bytes → E → E)).
Context (SerializeSnapshot : SnapshotMetadata → bytes).
Context (ParseSnapshot : bytes → option SnapshotMetadata).

Abbreviation World := (RaftNode * E)%type.
Abbreviation World_evolves w w' := (evolves (fst (w : World)) (fst (w' : World))).

(** Only the deadline changes. *)
Lemma ResetElectionTimer_deadline w :
  ∃ d e, ResetElectionTimer now uniform_int w = (set_election_deadline_ d (fst w), e).
Proof.
  destruct w as [st e]. unfold ResetElectionTimer, RandomElectionTimeout. raft_simpl.
  destruct (state_ st); try destruct (uniform_int _ _ e); raft_simpl; eauto.
Qed.

Lemma ResetElectionTimer_same w :
  same_durable (fst w) (fst (ResetElectionTimer now uniform_int w)).
Proof. destruct (ResetElectionTimer_deadline w) as (d & e & ->). repeat split. Qed.

Lemma apply_next_same w : same_durable (fst w) (fst (apply_next apply_cb_ w)).
Proof.
  destruct w as [st e]. unfold apply_next.
  repeat case_match; repeat split.
Qed.

Lemma same_durable_trans s1 s2 s3 :
  same_durable s1 s2 → same_durable s2 s3 → same_durable s1 s3.
Proof. unfold same_durable. intuition congruence. Qed.

Lemma ApplyCommitted_loop_same n up w w' :
  ApplyCommitted_loop apply_cb_ n up w = Some w' → same_durable (fst w) (fst w').
Proof.
  revert w. induction n as [|n IH]; intros w; [done|]. simpl.
  destruct (_ <? up); intros H; [|injection H as <-; repeat split].
  eapply same_durable_trans; [apply apply_next_same|by apply IH].
Qed.

Lemma AdvanceCommitIndex_loop_same f n w w' :
  AdvanceCommitIndex_loop apply_cb_ f n w = Some w' → same_durable (fst w) (fst w').
Proof.
  revert n. induction f as [|f IH]; intros n; [done|]. simpl.
  destruct (_ <? n); intros H; [|injection H as <-; repeat split].
  destruct (GetLogEntry _ _); [|by eapply IH].
  destruct (_ && _); [|by eapply IH].
  apply ApplyCommitted_loop_same in H. destruct w. exact H.
Qed.

Lemma AdvanceCommitIndex_same w w' :
  AdvanceCommitIndex apply_cb_ w = Some w' → same_durable (fst w) (fst w').
Proof.
  unfold AdvanceCommitIndex. intros H. apply bind_Some in H as (l & _ & H).
  eapply AdvanceCommitIndex_loop_same, H.
Qed.

(** ** Requests *)

Lemma HandleRequestVote_evolves from req w w' :
  HandleRequestVote now uniform_int from req w = Some w' → World_evolves w w'.
Proof.
  destruct w as [st e]. unfold HandleRequestVote. raft_simpl.
  destruct (Z.ltb_spec (rv_term req) (current_term_ st)) as [Hlt|Hge].
  { intros [= <-]. same. }
  set (w1 := if current_term_ st <? rv_term req then _ else _).
  assert (evolves st (fst w1)) as H1.
  { subst w1. destruct (Z.ltb_spec (current_term_ st) (rv_term req)); [|same].
    raft_simpl. via_persist.
    apply evolves_persist; [done..|]. by apply keeps_vote_later. }
  intros H. apply bind_Some in H as (can & Hcan & H).
  etransitivity; [exact H1|]. destruct can; [|injection H as <-; same].
  injection H as <-. etransitivity; [|apply evolves_same, ResetElectionTimer_same].
  raft_simpl. via_persist. apply evolves_persist; [done|].
  split; raft_simpl; [lia|]. intros _.
  destruct (bool_decide_reflect (voted_for_ (fst w1) = [])) as [?|Hne]; [by left|].
  destruct (bool_decide_reflect (voted_for_ (fst w1) = rv_candidate_id req)); [by right|done].
Qed.

Lemma append_entries_same es st st' :
  append_entries es st = Some st' →
  ∃ log, st' = set_log_ log st.
Proof.
  revert st. induction es as [|x es IH]; intros st; simpl.
  { intros [= <-]. exists (log_ st). by destruct st. }
  intros H. apply bind_Some in H as (l & _ & H). apply IH in H as (log & ->).
  destruct (_ <? _); eexists; [|done]. by destruct st.
Qed.

Lemma accept_entries_evolves req w w' :
  accept_entries apply_cb_ req w = Some w' → World_evolves w w'.
Proof.
  destruct w as [st e]. unfold accept_entries. intros H. raft_simpl.
  apply bind_Some in H as (st1 & H1 & H). apply append_entries_same in H1 as (log & ->).
  apply bind_Some in H as (l & _ & H). apply bind_Some in H as (w1 & Hw & H).
  apply bind_Some in H as (l' & _ & H). injection H as <-.
  etransitivity; [|same]. transitivity (PersistState (set_log_ log st)); [by apply evolves_rewrite_log|].
  apply evolves_same. revert Hw. destruct (_ <? ae_leader_commit req); [|intros [= <-]; repeat split].
  destruct (_ <? Z.min _ _); [|intros [= <-]; repeat split].
  intros Hw. apply ApplyCommitted_loop_same in Hw. exact Hw.
Qed.

Lemma truncate_conflict_same f idx t st st' :
  truncate_conflict f idx t st = Some st' → ∃ log, st' = set_log_ log st.
Proof.
  revert idx. induction f as [|f IH]; intros idx; [done|]. simpl. intros H.
  apply bind_Some in H as (l & _ & H).
  destruct (_ <=? _); [|injection H as <-; exists (log_ st); by destruct st].
  destruct (GetLogEntry _ _); [|by eapply IH].
  destruct (_ =? _); [by eapply IH|]. apply bind_Some in H as (r & _ & H).
  injection H as <-. by eexists.
Qed.

Lemma HandleAppendEntries_evolves from req w w' :
  HandleAppendEntries now uniform_int apply_cb_ from req w = Some w' → World_evolves w w'.
Proof.
  destruct w as [st e]. unfold HandleAppendEntries. raft_simpl.
  destruct (Z.ltb_spec (ae_term req) (current_term_ st)) as [Hlt|Hge].
  { intros [= <-]. same. }
  set (w1 := if current_term_ st <? ae_term req then _ else _).
  assert (evolves st (fst w1)) as H1.
  { subst w1. destruct (Z.ltb_spec (current_term_ st) (ae_term req)); [|same].
    raft_simpl. via_persist.
    apply evolves_persist; [done..|]. by apply keeps_vote_later. }
  set (w2 := ResetElectionTimer _ _ _). assert (evolves st (fst w2)) as H2.
  { etransitivity; [exact H1|]. subst w2.
    etransitivity; [|apply evolves_same, ResetElectionTimer_same]. raft_simpl.
    apply evolves_same. repeat split. }
  intros H. apply bind_Some in H as (l & _ & H).
  etransitivity; [exact H2|]. clearbody w2. clear H1 H2 w1.
  destruct (_ <? _); [injection H as <-; same|].
  destruct (_ <=? _).
  - destruct (GetLogEntry _ _) as [prev|]; [|by apply accept_entries_evolves in H].
    destruct (_ =? _); [by apply accept_entries_evolves in H|].
    apply bind_Some in H as (st1 & Ht & H). apply bind_Some in H as (l1 & _ & H).
    injection H as <-. apply truncate_conflict_same in Ht as (log & ->).
    by apply evolves_rewrite_log.
  - destruct (_ || _); [injection H as <-; same|by apply accept_entries_evolves in H].
Qed.

Lemma adopt_snapshot_same req st st' :
  adopt_snapshot req st = Some st' →
  disk_ st' = disk_ st ∧ current_term_ st' = current_term_ st ∧ voted_for_ st' = voted_for_ st.
Proof.
  unfold adopt_snapshot, raise_commit. intros H. apply bind_Some in H as (log & _ & H).
  destruct (_ <? _); injection H as <-; done.
Qed.

Lemma HandleInstallSnapshot_evolves from req w w' :
  HandleInstallSnapshot now uniform_int restore_cb_ SerializeSnapshot from req w = Some w' →
  World_evolves w w'.
Proof.
  destruct w as [st e]. unfold HandleInstallSnapshot. raft_simpl.
  destruct (Z.ltb_spec (is_term req) (current_term_ st)) as [Hlt|Hge].
  { intros [= <-]. same. }
  set (w1 := if current_term_ st <? is_term req then _ else _).
  assert (evolves st (fst w1)) as H1.
  { subst w1. destruct (Z.ltb_spec (current_term_ st) (is_term req)); [|same].
    raft_simpl. via_persist.
    apply evolves_persist; [done..|]. by apply keeps_vote_later. }
  set (w2 := ResetElectionTimer _ _ _). assert (evolves st (fst w2)) as H2.
  { etransitivity; [exact H1|]. subst w2.
    etransitivity; [|apply evolves_same, ResetElectionTimer_same]. raft_simpl.
    apply evolves_same. repeat split. }
  intros H. etransitivity; [exact H2|]. clearbody w2. clear H1 H2 w1.
  destruct (_ || _); [injection H as <-; same|].
  destruct (written _ _) eqn:Hw; [|injection H as <-; same].
  set (w3 := match restore_cb_ with Some _ => _ | None => _ end) in H.
  assert (same_durable (fst w2) (fst w3)) as Hs.
  { subst w3. destruct restore_cb_; [destruct (bool_decide _)|]; repeat split. }
  clearbody w3. destruct w3 as [st3 e3]. cbn [fst snd] in *.
  etransitivity; [apply evolves_same, Hs|]. clear Hs Hw.
  apply bind_Some in H as (st4 & Ha & H). injection H as <-.
  apply adopt_snapshot_same in Ha as (Hw & Ht & Hv). cbn [fst].
  transitivity (PersistState st4); [by apply evolves_rewrite_log|same].
Qed.

(** ** Roles *)

Lemma step_down_evolves term st : current_term_ st < term → evolves st (step_down term st).
Proof.
  intros H. unfold step_down. apply evolves_persist; [done|]. by apply keeps_vote_later.
Qed.

Lemma BecomeFollower_evolves term st : evolves st (BecomeFollower term st).
Proof.
  unfold BecomeFollower. destruct (Z.ltb_spec (current_term_ st) term); [|same].
  via_persist. apply evolves_persist; [done|]. by apply keeps_vote_later.
Qed.

Lemma BecomeCandidate_evolves st :
  0 <= current_term_ st < 2 ^ 64 - 1 → evolves st (BecomeCandidate st).
Proof.
  intros H. unfold BecomeCandidate. apply evolves_persist; [done|].
  apply keeps_vote_later. raft_simpl. rewrite u64_small; lia.
Qed.

Lemma lead_same st st' : lead st = Some st' → same_durable st st'.
Proof.
  unfold lead. intros H. apply bind_Some in H as (l & _ & H).
  destruct (init_progress _ _). injection H as <-. repeat split.
Qed.

Lemma Propose_append_evolves command st st' r :
  Propose_append command st = Some (st', r) → evolves st st'.
Proof.
  unfold Propose_append. destruct (bool_decide _); [|intros [= <- _]; same].
  intros H. apply bind_Some in H as (l & _ & H). injection H as <- _.
  via_persist. by apply evolves_rewrite_log.
Qed.

Lemma TakeSnapshot_write_evolves snap st st' :
  TakeSnapshot_write SerializeSnapshot snap st = Some st' → evolves st st'.
Proof. unfold TakeSnapshot_write. destruct (written _ _); [|done]. intros [= <-]. same. Qed.

Lemma TakeSnapshot_finish_evolves snap st st' :
  TakeSnapshot_finish snap st = Some st' → evolves st st'.
Proof.
  unfold TakeSnapshot_finish. intros H. apply bind_Some in H as (l & _ & H). injection H as <-.
  by apply evolves_rewrite_log.
Qed.

(** ** Methods that send

    Their callback may re-enter the node, as long as it keeps the relation. *)

Section Sending.
Context (send_rpc_cb_ : bytes → RaftMessage → World → option World).
Hypothesis send_evolves : ∀ peer msg w w',
  send_rpc_cb_ peer msg w = Some w' → World_evolves w w'.

Lemma SendHeartbeats_evolves w w' :
  SendHeartbeats send_rpc_cb_ w = Some w' → World_evolves w w'.
Proof using send_evolves.
  unfold SendHeartbeats. destruct (bool_decide _); [|intros [= <-]; reflexivity].
  generalize (peers (config_ (fst w))). intros targets. revert w.
  induction targets as [|p targets IH]; intros w; simpl; [intros [= <-]; reflexivity|].
  destruct (bool_decide _); [apply IH|]. destruct (subscript _ _) as [next i].
  intros H. apply bind_Some in H as (w1 & H1 & H). apply IH in H.
  apply send_evolves in H1. etransitivity; [|exact H]. etransitivity; [|exact H1]. same.
Qed.

Lemma BecomeLeader_evolves w w' :
  BecomeLeader now uniform_int send_rpc_cb_ w = Some w' → World_evolves w w'.
Proof using send_evolves.
  unfold BecomeLeader. intros H. apply bind_Some in H as (st & Hl & H).
  apply bind_Some in H as (w1 & H1 & H). injection H as <-.
  apply lead_same in Hl. apply SendHeartbeats_evolves in H1.
  etransitivity; [apply evolves_same, Hl|]. etransitivity; [exact H1|].
  apply evolves_same, ResetElectionTimer_same.
Qed.

Lemma HandleRequestVoteResponse_evolves from resp w w' :
  HandleRequestVoteResponse now uniform_int send_rpc_cb_ from resp w = Some w' →
  World_evolves w w'.
Proof using send_evolves.
  unfold HandleRequestVoteResponse. destruct (Z.ltb_spec (current_term_ (fst w)) (vr_term resp)).
  { intros [= <-]. by apply step_down_evolves. }
  destruct (negb _); [intros [= <-]; reflexivity|].
  destruct (_ <? _); [intros [= <-]; reflexivity|].
  destruct (vr_granted resp); [|intros [= <-]; reflexivity].
  destruct (_ <=? _); [|intros [= <-]; same].
  intros H1. apply BecomeLeader_evolves in H1. etransitivity; [|exact H1]. same.
Qed.

Lemma HandleAppendEntriesResponse_evolves from resp w w' :
  HandleAppendEntriesResponse apply_cb_ from resp w = Some w' → World_evolves w w'.
Proof using Type.
  unfold HandleAppendEntriesResponse. destruct (Z.ltb_spec (current_term_ (fst w)) (ar_term resp)).
  { intros [= <-]. by apply step_down_evolves. }
  destruct (negb _); [intros [= <-]; reflexivity|].
  destruct (ar_success resp).
  - intros H1. apply AdvanceCommitIndex_same in H1. apply evolves_same, H1.
  - intros [= <-]. cbn [on_node fst]. destruct (subscript _ _). destruct (_ <? _); same.
Qed.

Lemma RequestVotes_loop_evolves msg targets w w' :
  RequestVotes_loop send_rpc_cb_ msg targets w = Some w' → World_evolves w w'.
Proof using send_evolves.
  revert w. induction targets as [|p targets IH]; intros w; simpl; [intros [= <-]; reflexivity|].
  destruct (bool_decide _); [apply IH|].
  intros H. apply bind_Some in H as (w1 & H1 & H). apply IH in H.
  apply send_evolves in H1. etransitivity; [exact H1|exact H].
Qed.

Lemma OnElectionTimeout_evolves w w' :
  0 <= current_term_ (fst w) < 2 ^ 64 - 1 →
  OnElectionTimeout now uniform_int send_rpc_cb_ w = Some w' → World_evolves w w'.
Proof using send_evolves.
  intros Ht. unfold OnElectionTimeout, StartElection.
  destruct (bool_decide _); intros H.
  - apply bind_Some in H as (w1 & H1 & H). injection H as <-.
    apply SendHeartbeats_evolves in H1. etransitivity; [exact H1|].
    apply evolves_same, ResetElectionTimer_same.
  - apply bind_Some in H as (w1 & H1 & H). injection H as <-.
    etransitivity; [|apply evolves_same, ResetElectionTimer_same].
    etransitivity; [by apply BecomeCandidate_evolves|].
    apply bind_Some in H1 as (req & _ & H1). apply bind_Some in H1 as (w2 & H2 & H1).
    apply RequestVotes_loop_evolves in H2. etransitivity; [exact H2|].
    destruct (_ && _); [by apply BecomeLeader_evolves in H1|injection H1 as <-; reflexivity].
Qed.

End Sending.

End Evolves.

Section Votes.
Context {E : Type} (now : E → Z) (uniform_int : Z → Z → E → Z * E).

(** What [HandleRequestVote] answers on every branch. *)
Lemma HandleRequestVote_cases from req st e last_e :
  log_back st = Some last_e →
  ∃ w', HandleRequestVote now uniform_int from req (st, e) = Some w' ∧
    let st' := fst w' in
    current_term_ st' = Z.max (current_term_ st) (rv_term req) ∧
    vr_term (vote_resp_ st') = current_term_ st' ∧
    (vr_granted (vote_resp_ st') = true ↔
      current_term_ st <= rv_term req ∧ up_to_date req last_e = true ∧
      (current_term_ st < rv_term req ∨ voted_for_ st = [] ∨
       voted_for_ st = rv_candidate_id req)) ∧
    (vr_granted (vote_resp_ st') = true → voted_for_ st' = rv_candidate_id req ∧
      (disk_ st = Whole → state_file st' = Some (state_bytes st'))).
Proof.
  intros Hl. unfold HandleRequestVote. raft_simpl.
  destruct (Z.ltb_spec (rv_term req) (current_term_ st)) as [Hlt|Hge].
  { eexists. split; [done|]. raft_simpl. split_and!; [lia|done| |done]. split; [done|lia]. }
  set (w1 := if current_term_ st <? rv_term req then _ else _).
  assert (current_term_ (fst w1) = rv_term req ∧ disk_ (fst w1) = disk_ st ∧
    log_back (fst w1) = Some last_e ∧ vr_term (vote_resp_ (fst w1)) = rv_term req ∧
    voted_for_ (fst w1) = if current_term_ st <? rv_term req then [] else voted_for_ st)
    as (Ht & Hw & Hb & Hr & Hv).
  { subst w1. destruct (Z.ltb_spec (current_term_ st) (rv_term req)) as [?|Hle].
    - unfold PersistState. raft_simpl. by destruct (written _ _) eqn:Hwr; raft_simpl.
    - raft_simpl. assert (current_term_ st = rv_term req) by lia. done. }
  clearbody w1. destruct w1 as [st1 e1]. raft_simpl. rewrite Hb, Hv. raft_simpl.
  set (free := bool_decide (_ = []) || _).
  assert (free = true ↔ current_term_ st < rv_term req ∨ voted_for_ st = [] ∨
    voted_for_ st = rv_candidate_id req) as Hfree.
  { subst free. rewrite orb_true_iff, !bool_decide_eq_true.
    destruct (Z.ltb_spec (current_term_ st) (rv_term req)); [|naive_solver lia].
    naive_solver. }
  clearbody free. destruct free, (up_to_date req last_e) eqn:Hu; raft_simpl;
    (eexists; split; [reflexivity|]);
    try (raft_simpl; split_and!; [lia|congruence| |done];
         split; [done|intros (? & ? & ?); naive_solver]).
  match goal with |- context [ResetElectionTimer _ _ ?w] =>
    destruct (ResetElectionTimer_deadline now uniform_int w) as (d & e2 & ->) end.
  unfold PersistState. raft_simpl. rewrite Hw.
  destruct (disk_ st); cbn [written]; raft_simpl; (split_and!; [lia|congruence|naive_solver lia|]);
    intros _; by split.
Qed.

(** A vote is granted after a comparison with the last entry of the log. *)
Lemma HandleRequestVote_granted_log from req st e w' :
  HandleRequestVote now uniform_int from req (st, e) = Some w' →
  vr_granted (vote_resp_ (fst w')) = true → is_Some (log_back st).
Proof.
  intros H Hg. destruct (log_back st) as [l|] eqn:Hl; [done|]. exfalso. revert H.
  unfold HandleRequestVote. raft_simpl.
  destruct (Z.ltb_spec (rv_term req) (current_term_ st)); [intros [= <-]; done|].
  set (w1 := if current_term_ st <? rv_term req then _ else _).
  assert (log_back (fst w1) = None) as Hb.
  { subst w1. destruct (_ <? _); [|done]. unfold PersistState. raft_simpl.
    by destruct (written _ _). }
  clearbody w1. destruct (_ || _).
  - by rewrite Hb.
  - cbn [mbind option_bind]. intros [= <-]. by raft_simpl.
Qed.

End Votes.

(** * Executions of a node

    One step of a running node: a critical section of one of its threads, a
    message served or sent, a crash between two writes of the state file followed by a
    restart from the files, or a change of the outside world.  The pieces of a method that releases the mutex
    in between ([StartElection], [TakeSnapshot], [Propose]) are steps of their
    own, so that the steps of other threads fall between them. *)
Section Executions.
Context {E : Type}.
Context (now : E → Z) (uniform_int : Z → Z → E → Z * E).
Context (apply_cb_ : option (Z → bytes → E → E)).
Context (restore_cb_ : option (bytes → E → E)).
Context (SerializeSnapshot : SnapshotMetadata → bytes).
Context (ParseSnapshot : bytes → option SnapshotMetadata).
Context (SerializeMessage : RaftMessage → bytes) (ParseMessage : bytes → option RaftMessage).
Context (exchange : bytes → Z → bytes → E → E * option (option bytes)).

Abbreviation World := (RaftNode * E)%type.
Abbreviation rpc := (send_rpc now uniform_int apply_cb_ SerializeMessage ParseMessage exchange).

Inductive raft_step : World → World → Prop :=
| step_message data w w' reply :
    OnMessage now uniform_int apply_cb_ restore_cb_ SerializeSnapshot SerializeMessage
      ParseMessage exchange data w = Some (w', reply) →
    raft_step w w'
| step_timeout w w' :
    0 <= current_term_ (fst w) < 2 ^ 64 - 1 →
    OnElectionTimeout now uniform_int rpc w = Some w' → raft_step w w'
| step_candidate w :
    0 <= current_term_ (fst w) < 2 ^ 64 - 1 → raft_step w (on_node BecomeCandidate w)
| step_send peer msg w w' : rpc peer msg w = Some w' → raft_step w w'
| step_leader w w' : BecomeLeader now uniform_int rpc w = Some w' → raft_step w w'
| step_heartbeats w w' : SendHeartbeats rpc w = Some w' → raft_step w w'
| step_timer w : raft_step w (ResetElectionTimer now uniform_int w)
| step_propose command st st' r e :
    Propose_append command st = Some (st', r) → raft_step (st, e) (st', e)
| step_advance w w' : AdvanceCommitIndex apply_cb_ w = Some w' → raft_step w w'
| step_snapshot_write snap st st' e :
    TakeSnapshot_write SerializeSnapshot snap st = Some st' → raft_step (st, e) (st', e)
| step_snapshot_finish snap st st' e :
    TakeSnapshot_finish snap st = Some st' → raft_step (st, e) (st', e)
| step_restart config st e e' w' :
    fits st →
    Start now uniform_int restore_cb_ ParseSnapshot
      (RaftNode_new config (disk_ st) (state_file st) (snapshot_file st), e') = Some w' →
    raft_step (st, e) w'
| step_world st e e' : raft_step (st, e) (st, e').

Lemma SendMessage_evolves depth peer msg w w' b :
  SendMessage now uniform_int apply_cb_ SerializeMessage ParseMessage exchange depth peer msg w =
    Some (w', b) →
  evolves (fst w) (fst w').
Proof.
  revert peer msg w w' b. induction depth as [|depth IH]; intros peer msg w w' b; [done|].
  cbn [SendMessage]. destruct (rfind x3a peer); [|intros [= <- _]; reflexivity].
  intros H. apply bind_Some in H as (port & _ & H).
  destruct (exchange _ _ _ (snd w)) as [e [r|]]; [|injection H as <- _; reflexivity].
  apply bind_Some in H as (w1 & H1 & H). injection H as <- _.
  destruct (is_request msg); [|injection H1 as <-; reflexivity].
  destruct (r ≫= ParseMessage) as [m|]; [|injection H1 as <-; reflexivity].
  destruct m as [|resp| |resp| |]; try (injection H1 as <-; reflexivity).
  - apply HandleRequestVoteResponse_evolves in H1; [exact H1|].
    intros p m v v' Hs. apply fmap_Some in Hs as ([v1 b1] & Hs & ->). by eapply IH.
  - by apply HandleAppendEntriesResponse_evolves in H1.
Qed.

Lemma rpc_evolves peer msg w w' : rpc peer msg w = Some w' → evolves (fst w) (fst w').
Proof.
  unfold send_rpc. intros Hs. apply fmap_Some in Hs as ([v b] & Hs & ->).
  by eapply SendMessage_evolves.
Qed.

Lemma OnMessage_evolves data w w' reply :
  OnMessage now uniform_int apply_cb_ restore_cb_ SerializeSnapshot SerializeMessage
    ParseMessage exchange data w = Some (w', reply) →
  evolves (fst w) (fst w').
Proof.
  unfold OnMessage. destruct (ParseMessage data) as [m|]; [|intros [= <- _]; reflexivity].
  destruct m as [r|r|r|r|r|r]; intros H;
    try (apply bind_Some in H as (w1 & H1 & H)); injection H as <- _.
  - by eapply HandleRequestVote_evolves.
  - eapply HandleRequestVoteResponse_evolves; [|exact H1]. apply rpc_evolves.
  - by eapply HandleAppendEntries_evolves.
  - by eapply HandleAppendEntriesResponse_evolves.
  - by eapply HandleInstallSnapshot_evolves.
  - reflexivity.
Qed.

Lemma RestoreFromSnapshot_same w w' b :
  RestoreFromSnapshot restore_cb_ ParseSnapshot w = Some (w', b) →
  same_durable (fst w) (fst w').
Proof.
  unfold RestoreFromSnapshot. destruct (snapshot_file (fst w)); [|intros [= <- _]; by repeat split].
  destruct (read_u64 _ _) as [f1 len]. destruct (negb _); [intros [= <- _]; by repeat split|].
  intros H. apply bind_Some in H as ([f2 s] & _ & H).
  destruct (negb _); [injection H as <- _; by repeat split|].
  destruct (ParseSnapshot s); injection H as <- _; [|by repeat split].
  unfold raise_commit. destruct (_ <? _); by repeat split.
Qed.

(** What a restart finds is what the node had. *)
Lemma Start_durable config st pf e w' :
  fits st → mirrored st →
  Start now uniform_int restore_cb_ ParseSnapshot
    (RaftNode_new config (disk_ st) (state_file st) pf, e) = Some w' →
  same_durable st (fst w').
Proof.
  intros Hfit Hm H. unfold Start in H. apply bind_Some in H as (st1 & H1 & H).
  apply bind_Some in H as ([w2 b] & H2 & H). injection H as <-.
  apply RestoreFromSnapshot_same in H2. cbn [fst] in H2.
  assert (same_durable st st1) as Hs.
  { destruct Hm as [Hw [Hf|(Hf & Ht & Hv & Hl)]].
    - rewrite (RestoreState_state_bytes st) in H1; [|done|done|done].
      injection H1 as <-. by repeat split.
    - cbn [fst] in H1. unfold RestoreState, RaftNode_new in H1. cbn [state_file] in H1.
      rewrite Hf in H1. injection H1 as <-. unfold same_durable. cbn. by rewrite Ht, Hv, Hl, Hf. }
  eapply same_durable_trans; [exact Hs|]. eapply same_durable_trans; [exact H2|].
  eapply same_durable_trans; [|apply ResetElectionTimer_same].
  unfold BecomeFollower. cbn [on_node fst]. rewrite Z.ltb_irrefl. by repeat split.
Qed.

Lemma raft_step_evolves w w' : raft_step w w' → evolves (fst w) (fst w').
Proof.
  destruct 1 as [data w w' reply H|w w' Ht H|w Ht|peer msg w w' H|w w' H|w w' H|w|cmd st st' r e H
    |w w' H|snap st st' e H|snap st st' e H|config st e e' w' Hfit H|st e e'].
  - by eapply OnMessage_evolves.
  - eapply OnElectionTimeout_evolves; [|done|exact H]. apply rpc_evolves.
  - by apply BecomeCandidate_evolves.
  - by eapply rpc_evolves.
  - eapply BecomeLeader_evolves; [|exact H]. apply rpc_evolves.
  - eapply SendHeartbeats_evolves; [|exact H]. apply rpc_evolves.
  - apply evolves_same, ResetElectionTimer_same.
  - by eapply Propose_append_evolves.
  - apply evolves_same. by eapply AdvanceCommitIndex_same.
  - by eapply TakeSnapshot_write_evolves.
  - by eapply TakeSnapshot_finish_evolves.
  - intros Hm. pose proof (Start_durable _ _ _ _ _ Hfit Hm H) as Hs.
    by apply (evolves_same _ _ Hs).
  - reflexivity.
Qed.

(** Along any execution, crashes included, a node's term never decreases and it
    keeps its vote within a term. *)
Lemma raft_steps_evolve w w' : rtc raft_step w w' → evolves (fst w) (fst w').
Proof.
  intros Hs. induction Hs as [w|w1 w2 w3 Hstep _ IH]; [reflexivity|].
  transitivity (fst w2); [by apply raft_step_evolves|exact IH].
Qed.

(** C6: two votes granted in one term, however much happens between the two
    requests, crashes and restarts included, go to the same candidate; provided every
    write of the state file is whole ([mirrored]: [torn_state_forgets_vote] shows what
    a process that dies inside such a write does) and no message in between makes the
    node read the end of an empty log, which is undefined
    ([RaftTypes.raft_node_typed]). *)
Theorem raft_one_vote_per_term f1 r1 w0 w1 w2 f2 r2 w3 :
  mirrored (fst w0) →
  HandleRequestVote now uniform_int f1 r1 w0 = Some w1 →
  vr_granted (vote_resp_ (fst w1)) = true → rv_candidate_id r1 ≠ [] →
  rtc raft_step w1 w2 →
  HandleRequestVote now uniform_int f2 r2 w2 = Some w3 →
  vr_granted (vote_resp_ (fst w3)) = true →
  vr_term (vote_resp_ (fst w1)) = vr_term (vote_resp_ (fst w3)) →
  rv_candidate_id r1 = rv_candidate_id r2.
Proof.
  intros Hm H1 G1 Hne Hs H2 G2 Ht.
  destruct w0 as [s0 e0], w2 as [s2 e2]. cbn [fst] in *.
  destruct (HandleRequestVote_granted_log now uniform_int _ _ _ _ _ H1 G1) as [l0 Hl0].
  destruct (HandleRequestVote_granted_log now uniform_int _ _ _ _ _ H2 G2) as [l2 Hl2].
  destruct (HandleRequestVote_cases now uniform_int f1 r1 s0 e0 l0 Hl0)
    as (w1' & E1 & _ & T1 & _ & V1). rewrite H1 in E1. injection E1 as <-.
  destruct (HandleRequestVote_cases now uniform_int f2 r2 s2 e2 l2 Hl2)
    as (w3' & E2 & _ & T2 & _ & V2). rewrite H2 in E2. injection E2 as <-.
  destruct (V1 G1) as [Hv1 _]. destruct (V2 G2) as [Hv2 _].
  assert (evolves s0 (fst w1)) as H01 by (by apply HandleRequestVote_evolves in H1).
  destruct (H01 Hm) as [Hm1 _]. pose proof (raft_steps_evolve _ _ Hs Hm1) as [Hm2 K12].
  apply HandleRequestVote_evolves in H2. destruct (H2 Hm2) as [_ K23].
  destruct (transitivity (R := keeps_vote) K12 K23) as [_ Hk].
  destruct Hk as [?|Heq]; congruence.
Qed.

End Executions.

(** * Restart *)

(** C34: a node restarted from the file [PersistState] wrote has the same term, the
    same vote and the same log; it takes every entry of the log as committed and
    applied. *)
Theorem raft_state_roundtrip st config pf :
  fits st → disk_ st = Whole →
  ∃ st', RestoreState (RaftNode_new config Whole (state_file (PersistState st)) pf) = Some st' ∧
    current_term_ st' = current_term_ st ∧ voted_for_ st' = voted_for_ st ∧
    log_ st' = log_ st ∧
    commit_index_ st' = le_index (log_last (log_ st)) ∧
    last_applied_ st' = commit_index_ st'.
Proof.
  intros Hf Hw. unfold PersistState. rewrite Hw. raft_simpl.
  rewrite (RestoreState_state_bytes st); [|done..]. eexists. split; [done|]. done.
Qed.

Section Restart.
Context {E : Type} (now : E → Z) (uniform_int : Z → Z → E → Z * E).
Context (apply_cb_ : option (Z → bytes → E → E)) (restore_cb_ : option (bytes → E → E)).
Context (ParseSnapshot : bytes → option SnapshotMetadata).

(** A restart without a snapshot file counts the whole log as committed and
    applied, whatever was committed before, and no later [ApplyCommitted] up to
    the end of the log gives a command to the new state machine. *)
Theorem raft_restart_skips_log config st e w' :
  fits st → state_file st = Some (state_bytes st) → snapshot_file st = None →
  Start now uniform_int restore_cb_ ParseSnapshot
    (RaftNode_new config (disk_ st) (state_file st) (snapshot_file st), e) = Some w' →
  log_ (fst w') = log_ st ∧
  commit_index_ (fst w') = le_index (log_last (log_ st)) ∧
  ∀ up_to, up_to <= le_index (log_last (log_ st)) →
    ApplyCommitted apply_cb_ up_to w' = Some w'.
Proof.
  intros Hf Hs Hp. unfold Start. rewrite Hp. cbn [fst snd].
  rewrite (RestoreState_state_bytes st) by done. cbn [mbind option_bind].
  unfold RestoreFromSnapshot, RaftNode_new. raft_simpl.
  match goal with |- context [ResetElectionTimer _ _ ?w] =>
    destruct (ResetElectionTimer_deadline now uniform_int w) as (d & e2 & ->) end.
  intros H. apply (inj Some) in H. subst w'. unfold BecomeFollower. raft_simpl. rewrite Z.ltb_irrefl. raft_simpl.
  split_and!; [done..|]. intros up Hup. unfold ApplyCommitted. cbn [ApplyCommitted_loop].
  raft_simpl. by destruct (Z.ltb_spec (le_index (log_last (log_ st))) up); [lia|].
Qed.


End Restart.

(** * Concrete runs *)

Definition demo_config : RaftConfig :=
  mkConfig (str "n1") [str "n1"; str "n2"; str "n3"] (str "/raft") 3000 500 10000.

Definition demo_now (_ : unit) : Z := 0.
Definition demo_random (a _ : Z) (e : unit) : Z * unit := (a, e).
Definition demo_exchange (_ : bytes) (_ : Z) (_ : bytes) (e : unit) :
    unit * option (option bytes) := (e, None).
Definition demo_serialize (_ : RaftMessage) : bytes := [].
Definition demo_parse (_ : bytes) : option RaftMessage := None.

Definition demo_node : RaftNode := RaftNode_new demo_config Whole None None.
Definition demo_vote : RequestVoteRequest := mkRequestVote 1 (str "n2") 0 0.

(** A vote, a crash and a restart, and the vote asked for again. *)
Definition demo_voted : RaftNode :=
  from_option fst demo_node
    (HandleRequestVote demo_now demo_random (str "n2") demo_vote (demo_node, ())).
Definition demo_restarted : RaftNode * unit :=
  default (demo_node, ()) (Start demo_now demo_random None (λ _, None)
    (RaftNode_new demo_config Whole (state_file demo_voted) None, ())).
Definition demo_voted_again : RaftNode * unit :=
  default (demo_node, ()) (HandleRequestVote demo_now demo_random (str "n2") demo_vote demo_restarted).

Lemma demo_voted_fits : fits demo_voted.
Proof.
  split; [by vm_compute|by vm_compute|by vm_compute| |by vm_compute].
  apply Forall_cons. split; [by vm_compute|constructor].
Qed.

Lemma demo_restart_step :
  raft_step demo_now demo_random None None (λ _, []) (λ _, None) demo_serialize demo_parse
    demo_exchange (demo_voted, ()) demo_restarted.
Proof.
  apply (step_restart _ _ _ _ _ _ _ _ _ demo_config demo_voted () ());
    [exact demo_voted_fits|vm_compute; reflexivity].
Qed.

Lemma raft_one_vote_per_term_witness :
  vr_granted (vote_resp_ demo_voted) = true ∧
  vr_granted (vote_resp_ (fst demo_voted_again)) = true ∧
  rv_candidate_id demo_vote = rv_candidate_id demo_vote.
Proof.
  split; [by vm_compute|]. split; [by vm_compute|].
  apply (raft_one_vote_per_term demo_now demo_random None None (λ _, []) (λ _, None)
    demo_serialize demo_parse demo_exchange (str "n2") demo_vote (demo_node, ()) (demo_voted, ())
    demo_restarted (str "n2") demo_vote demo_voted_again).
  - split; [done|right; by vm_compute].
  - by vm_compute.
  - by vm_compute.
  - done.
  - apply rtc_once. exact demo_restart_step.
  - by vm_compute.
  - by vm_compute.
  - by vm_compute.
Defined.

(** The same vote, for [n2]; the next write of the file, for an append message of the
    same term, ends after the file was emptied; then [n3] asks. *)
Definition demo_torn : RaftNode :=
  set_log_ [dummy_entry; mkEntry 1 1 (str "x")] (set_voted_for_ (str "n2") (set_current_term_ 1
    (RaftNode_new demo_config (Cuts 0) (state_file demo_voted) None))).


(** A leader of term 4 with one entry it could not replicate. *)
Definition demo_leader : RaftNode :=
  PersistState (set_log_ [dummy_entry; mkEntry 4 1 (str "x")]
    (set_voted_for_ (str "n1") (set_current_term_ 4 demo_node))).

Lemma demo_leader_fits : fits demo_leader.
Proof.
  split; [by vm_compute|by vm_compute|by vm_compute| |by vm_compute].
  repeat (apply Forall_cons; split; [by vm_compute|]). constructor.
Qed.

Lemma raft_state_roundtrip_witness :
  fits demo_leader ∧
  ∃ st', RestoreState (RaftNode_new demo_config Whole (state_file (PersistState demo_leader)) None) =
      Some st' ∧
    current_term_ st' = current_term_ demo_leader ∧ voted_for_ st' = voted_for_ demo_leader ∧
    log_ st' = log_ demo_leader ∧
    commit_index_ st' = le_index (log_last (log_ demo_leader)) ∧
    last_applied_ st' = commit_index_ st'.
Proof.
  split; [apply demo_leader_fits|].
  apply (raft_state_roundtrip demo_leader demo_config None); [apply demo_leader_fits|by vm_compute].
Defined.

(** The same leader restarts: its entry was not committed, now it is. *)
Definition demo_leader_restarted : RaftNode * unit :=
  default (demo_node, ()) (Start demo_now demo_random None (λ _, None)
    (RaftNode_new demo_config (disk_ demo_leader) (state_file demo_leader)
      (snapshot_file demo_leader), ())).

Lemma raft_restart_skips_log_witness :
  commit_index_ demo_leader = 0 ∧
  log_ (fst demo_leader_restarted) = log_ demo_leader ∧
  commit_index_ (fst demo_leader_restarted) = le_index (log_last (log_ demo_leader)) ∧
  ∀ up_to, up_to <= le_index (log_last (log_ demo_leader)) →
    ApplyCommitted (Some (λ _ _ e, e)) up_to demo_leader_restarted = Some demo_leader_restarted.
Proof.
  split; [by vm_compute|].
  apply (raft_restart_skips_log demo_now demo_random (Some (λ _ _ e, e)) None (λ _, None)
    demo_config demo_leader ()); [apply demo_leader_fits|by vm_compute..].
Defined.
