(* ===== verification/RaftElection.v ===== *)
(** Election safety: the Raft nodes of src/raft as a cluster.

    A cluster is a map of nodes, each with its own environment, and the vote
    requests and responses in flight between them.  A step is a critical section
    of one node, a message delivered or lost, or a restart from the files.  The
    exchanges of [RaftRPC::SendMessage] are split into their two messages, so
    that anything may happen at both ends in between; a request is handled at most
    once and so is its response, because each travels alone on a connection of its
    own.  [StartElection] asks in a step of its own, whatever happened to the node
    since [BecomeCandidate].  The other messages are left out of the soup: a node
    may handle any [AppendEntries] or [InstallSnapshot] at any time. *)
From S2P Require Import Prelude Coding Raft RaftRpc RaftDurable.

(** * What a step does to a node's role *)

(** A node is never promoted, and its count of votes changes only with its term
    or its role. *)
Definition quiet (st st' : RaftNode) : Prop :=
  config_ st' = config_ st ∧ my_id_ st' = my_id_ st ∧
  (state_ st' ≠ FOLLOWER →
    state_ st' = state_ st ∧ current_term_ st' = current_term_ st ∧
    votes_received_ st' = votes_received_ st).

#[export] Instance quiet_preorder : PreOrder quiet.
Proof.
  split.
  - intros st. by split_and!.
  - intros s1 s2 s3 (C1 & M1 & R1) (C2 & M2 & R2). split; [congruence|]. split; [congruence|].
    intros Hs. destruct (R2 Hs) as (A & B & C). rewrite A in Hs. destruct (R1 Hs) as (A' & B' & C').
    split_and!; congruence.
Qed.

Definition same_role (st st' : RaftNode) : Prop :=
  config_ st' = config_ st ∧ my_id_ st' = my_id_ st ∧ state_ st' = state_ st ∧
  current_term_ st' = current_term_ st ∧ votes_received_ st' = votes_received_ st.

Lemma quiet_same st st' : same_role st st' → quiet st st'.
Proof. intros (?&?&?&?&?). by split_and!. Qed.

Lemma quiet_follower st st' :
  config_ st' = config_ st → my_id_ st' = my_id_ st → state_ st' = FOLLOWER → quiet st st'.
Proof. intros ? ? Hf. split_and!; [done..|]. by intros ?. Qed.

Ltac role := apply quiet_same; repeat split; reflexivity.

Lemma PersistState_role st : same_role st (PersistState st).
Proof. unfold PersistState. destruct (written _ _); repeat split. Qed.

Lemma same_role_trans s1 s2 s3 : same_role s1 s2 → same_role s2 s3 → same_role s1 s3.
Proof. unfold same_role. intuition congruence. Qed.

Section Quiet.
Context {E : Type} (now : E → Z) (uniform_int : Z → Z → E → Z * E).
Context (apply_cb_ : option (Z → bytes → E → E)) (restore_cb_ : option (bytes → E → E)).
Context (SerializeSnapshot : SnapshotMetadata → bytes) (ParseSnapshot : bytes → option SnapshotMetadata).
Abbreviation World := (RaftNode * E)%type.

Lemma ResetElectionTimer_role w : same_role (fst w) (fst (ResetElectionTimer now uniform_int w)).
Proof. destruct (ResetElectionTimer_deadline now uniform_int w) as (d & e & ->). repeat split. Qed.

Lemma ApplyCommitted_loop_role n up w w' :
  ApplyCommitted_loop apply_cb_ n up w = Some w' → same_role (fst w) (fst w').
Proof.
  revert w. induction n as [|n IH]; intros w; [done|]. simpl.
  destruct (_ <? up); intros Hs; [|injection Hs as <-; repeat split].
  eapply same_role_trans; [|by apply IH]. destruct w as [st e]. unfold apply_next.
  repeat case_match; repeat split.
Qed.

Lemma AdvanceCommitIndex_loop_role f n w w' :
  AdvanceCommitIndex_loop apply_cb_ f n w = Some w' → same_role (fst w) (fst w').
Proof.
  revert n. induction f as [|f IH]; intros n; [done|]. simpl.
  destruct (_ <? n); intros Hs; [|injection Hs as <-; repeat split].
  destruct (GetLogEntry _ _); [|by eapply IH].
  destruct (_ && _); [|by eapply IH].
  apply ApplyCommitted_loop_role in Hs. destruct w. exact Hs.
Qed.

Lemma AdvanceCommitIndex_role w w' :
  AdvanceCommitIndex apply_cb_ w = Some w' → same_role (fst w) (fst w').
Proof.
  unfold AdvanceCommitIndex. intros Hs. apply bind_Some in Hs as (l & _ & Hs).
  eapply AdvanceCommitIndex_loop_role, Hs.
Qed.

Lemma accept_entries_role req w w' :
  accept_entries apply_cb_ req w = Some w' → same_role (fst w) (fst w').
Proof.
  destruct w as [st e]. unfold accept_entries. intros Hs. raft_simpl.
  apply bind_Some in Hs as (st1 & H1 & Hs). apply append_entries_same in H1 as (log & ->).
  apply bind_Some in Hs as (l & _ & Hs). apply bind_Some in Hs as (w1 & Hw & Hs).
  apply bind_Some in Hs as (l' & _ & Hs). injection Hs as <-.
  assert (same_role st (fst w1)) as (?&?&?&?&?); [|by split_and!].
  eapply same_role_trans; [apply (PersistState_role (set_log_ log st))|].
  revert Hw. destruct (_ <? ae_leader_commit req); [|intros [= <-]; repeat split].
  destruct (_ <? Z.min _ _); [|intros [= <-]; repeat split].
  intros Hw. apply ApplyCommitted_loop_role in Hw. exact Hw.
Qed.

Lemma HandleRequestVote_quiet from req w w' :
  HandleRequestVote now uniform_int from req w = Some w' → quiet (fst w) (fst w').
Proof.
  destruct w as [st e]. unfold HandleRequestVote. raft_simpl.
  destruct (rv_term req <? current_term_ st); [intros [= <-]; role|].
  set (w1 := if current_term_ st <? rv_term req then _ else _).
  assert (quiet st (fst w1)) as H1.
  { subst w1. destruct (_ <? _); [|role]. raft_simpl.
    apply quiet_follower; unfold PersistState; by destruct (written _ _). }
  intros Hs. apply bind_Some in Hs as (can & Hcan & Hs). etransitivity; [exact H1|].
  destruct can; [|injection Hs as <-; role]. injection Hs as <-.
  etransitivity; [|apply quiet_same, ResetElectionTimer_role]. raft_simpl.
  apply quiet_same. destruct (PersistState_role (set_voted_for_ (rv_candidate_id req) (fst w1))) as (?&?&?&?&?).
  by split_and!.
Qed.

Lemma HandleAppendEntries_quiet from req w w' :
  HandleAppendEntries now uniform_int apply_cb_ from req w = Some w' → quiet (fst w) (fst w').
Proof.
  destruct w as [st e]. unfold HandleAppendEntries. raft_simpl.
  destruct (ae_term req <? current_term_ st); [intros [= <-]; role|].
  set (w1 := if current_term_ st <? ae_term req then _ else _).
  assert (config_ (fst w1) = config_ st ∧ my_id_ (fst w1) = my_id_ st) as [Hc Hm].
  { subst w1. destruct (_ <? _); [|done]. raft_simpl. unfold PersistState. by destruct (written _ _). }
  set (w2 := ResetElectionTimer _ _ _). assert (quiet st (fst w2)) as H2.
  { subst w2. etransitivity; [|apply quiet_same, ResetElectionTimer_role]. by apply quiet_follower. }
  intros Hs. apply bind_Some in Hs as (l & _ & Hs).
  etransitivity; [exact H2|]. clearbody w2. clear H2 Hc Hm w1.
  destruct (_ <? _); [injection Hs as <-; role|].
  destruct (_ <=? _).
  - destruct (GetLogEntry _ _) as [prev|]; [|by apply quiet_same, (accept_entries_role req)].
    destruct (_ =? _); [by apply quiet_same, (accept_entries_role req)|].
    apply bind_Some in Hs as (st1 & Ht & Hs). apply bind_Some in Hs as (l1 & _ & Hs).
    injection Hs as <-. apply truncate_conflict_same in Ht as (log & ->).
    etransitivity; [|apply quiet_same, PersistState_role]. role.
  - destruct (_ || _); [injection Hs as <-; role|by apply quiet_same, (accept_entries_role req)].
Qed.

Lemma HandleInstallSnapshot_quiet from req w w' :
  HandleInstallSnapshot now uniform_int restore_cb_ SerializeSnapshot from req w = Some w' →
  quiet (fst w) (fst w').
Proof.
  destruct w as [st e]. unfold HandleInstallSnapshot. raft_simpl.
  destruct (is_term req <? current_term_ st); [intros [= <-]; role|].
  set (w1 := if current_term_ st <? is_term req then _ else _).
  assert (config_ (fst w1) = config_ st ∧ my_id_ (fst w1) = my_id_ st) as [Hc Hm].
  { subst w1. destruct (_ <? _); [|done]. raft_simpl. unfold PersistState. by destruct (written _ _). }
  set (w2 := ResetElectionTimer _ _ _). assert (quiet st (fst w2)) as H2.
  { subst w2. etransitivity; [|apply quiet_same, ResetElectionTimer_role]. by apply quiet_follower. }
  intros Hs. etransitivity; [exact H2|]. clearbody w2. clear H2 Hc Hm w1.
  destruct (_ || _); [injection Hs as <-; role|].
  destruct (written _ _); [|injection Hs as <-; role].
  set (w3 := match restore_cb_ with Some _ => _ | None => _ end) in Hs.
  assert (same_role (fst w2) (fst w3)) as Hr.
  { subst w3. destruct restore_cb_; [destruct (bool_decide _)|]; repeat split. }
  etransitivity; [apply quiet_same, Hr|]. clearbody w3. clear Hr.
  apply bind_Some in Hs as (st4 & Ha & Hs). injection Hs as <-. cbn [fst].
  assert (same_role (fst w3) st4) as Hr.
  { unfold adopt_snapshot in Ha. apply bind_Some in Ha as (log & _ & Ha). injection Ha as <-.
    unfold raise_commit. destruct (_ <? _); repeat split. }
  etransitivity; [apply quiet_same, Hr|].
  apply quiet_same. destruct (PersistState_role st4) as (?&?&?&?&?). by split_and!.
Qed.

Lemma step_down_quiet term st : quiet st (step_down term st).
Proof. apply quiet_follower; unfold step_down, PersistState; by destruct (written _ _). Qed.

Lemma HandleAppendEntriesResponse_quiet from resp w w' :
  HandleAppendEntriesResponse apply_cb_ from resp w = Some w' → quiet (fst w) (fst w').
Proof.
  unfold HandleAppendEntriesResponse. destruct (_ <? ar_term resp).
  { intros [= <-]. apply step_down_quiet. }
  destruct (negb _); [by intros [= <-]|].
  destruct (ar_success resp).
  - intros H1. apply AdvanceCommitIndex_role in H1. apply quiet_same, H1.
  - intros [= <-]. cbn [on_node fst]. destruct (subscript _ _). destruct (_ <? _); role.
Qed.

Lemma Propose_append_quiet command st st' r :
  Propose_append command st = Some (st', r) → quiet st st'.
Proof.
  unfold Propose_append. destruct (bool_decide _); [|intros [= <- _]; role].
  intros Hs. apply bind_Some in Hs as (l & _ & Hs). injection Hs as <- _.
  apply quiet_same. match goal with |- context [PersistState ?x] => destruct (PersistState_role x) as (?&?&?&?&?) end.
  by split_and!.
Qed.

Lemma TakeSnapshot_write_quiet snap st st' :
  TakeSnapshot_write SerializeSnapshot snap st = Some st' → quiet st st'.
Proof. unfold TakeSnapshot_write. destruct (written _ _); [|done]. intros [= <-]. role. Qed.

Lemma TakeSnapshot_finish_quiet snap st st' : TakeSnapshot_finish snap st = Some st' → quiet st st'.
Proof.
  unfold TakeSnapshot_finish. intros Hs. apply bind_Some in Hs as (l & _ & Hs). injection Hs as <-.
  etransitivity; [|apply quiet_same, PersistState_role]. role.
Qed.
End Quiet.

(** * The cluster *)

(** What [RequestVotes_loop] gives its callback: the request, once for every peer
    but the node itself. *)
Lemma RequestVotes_loop_posts msg targets (st : RaftNode) (out : list (bytes * RaftMessage)) :
  RequestVotes_loop (λ p m w, Some (fst w, snd w ++ [(p, m)])) msg targets (st, out) =
    Some (st, out ++ map (λ p, (p, msg)) (filter (λ p, p ≠ my_id_ st) targets)).
Proof.
  revert out. induction targets as [|p targets IH]; intros out; cbn [RequestVotes_loop].
  { by rewrite filter_nil, app_nil_r. }
  cbn [fst]. rewrite filter_cons. case_bool_decide; [by rewrite decide_False by tauto|].
  rewrite decide_True by done. cbn [mbind option_bind snd map]. rewrite IH. by rewrite <- app_assoc.
Qed.

Section Cluster.
Context {E : Type} (now : E → Z) (uniform_int : Z → Z → E → Z * E).
Context (apply_cb_ : option (Z → bytes → E → E)) (restore_cb_ : option (bytes → E → E)).
Context (SerializeSnapshot : SnapshotMetadata → bytes) (ParseSnapshot : bytes → option SnapshotMetadata).
(** What posting a message does to the environment of the sender. *)
Context (post : bytes → RaftMessage → E → E).

Abbreviation World := (RaftNode * E)%type.

Definition send (peer : bytes) (msg : RaftMessage) (w : World) : option World :=
  Some (fst w, post peer msg (snd w)).

(** A request on its way from a candidate to a peer, a response on its way back
    from a voter to the candidate. *)
Record Cluster := mkCluster {
  members : gmap bytes World;
  calling : gset bytes;
  asked : list (bytes * bytes * RequestVoteRequest);
  answered : list (bytes * bytes * RequestVoteResponse) }.

Definition with_member (id : bytes) (w : World) (c : Cluster) : Cluster :=
  mkCluster (<[id := w]> (members c)) (calling c) (asked c) (answered c).
Definition with_calling (s : gset bytes) (c : Cluster) : Cluster :=
  mkCluster (members c) s (asked c) (answered c).
Definition with_asked (l : list (bytes * bytes * RequestVoteRequest)) (c : Cluster) : Cluster :=
  mkCluster (members c) (calling c) l (answered c).
Definition with_answered (l : list (bytes * bytes * RequestVoteResponse)) (c : Cluster) : Cluster :=
  mkCluster (members c) (calling c) (asked c) l.

(** The steps of one node that no vote depends on. *)
Inductive local_step : World → World → Prop :=
| ls_append from req w w' :
    HandleAppendEntries now uniform_int apply_cb_ from req w = Some w' → local_step w w'
| ls_install from req w w' :
    HandleInstallSnapshot now uniform_int restore_cb_ SerializeSnapshot from req w = Some w' →
    local_step w w'
| ls_append_response from resp w w' :
    HandleAppendEntriesResponse apply_cb_ from resp w = Some w' → local_step w w'
| ls_heartbeats w w' : SendHeartbeats send w = Some w' → local_step w w'
| ls_timer w : local_step w (ResetElectionTimer now uniform_int w)
| ls_propose command st st' r e :
    Propose_append command st = Some (st', r) → local_step (st, e) (st', e)
| ls_advance w w' : AdvanceCommitIndex apply_cb_ w = Some w' → local_step w w'
| ls_snapshot_write snap st st' e :
    TakeSnapshot_write SerializeSnapshot snap st = Some st' → local_step (st, e) (st', e)
| ls_snapshot_finish snap st st' e :
    TakeSnapshot_finish snap st = Some st' → local_step (st, e) (st', e)
| ls_environment st e e' : local_step (st, e) (st, e').

(** The requests [StartElection] sends ([RequestVotes_loop_posts]). *)
Definition vote_requests (id : bytes) (st : RaftNode) (req : RequestVoteRequest) :
    list (bytes * bytes * RequestVoteRequest) :=
  map (λ p, (id, p, req)) (filter (λ p, p ≠ my_id_ st) (peers (config_ st))).

(** The steps of an election, and restarts. *)
Inductive vote_step (c : Cluster) : Cluster → Prop :=
| cl_candidate id st e :
    members c !! id = Some (st, e) → 0 <= current_term_ st < 2 ^ 64 - 1 → (id ∉ calling c) →
    vote_step c (with_calling ({[id]} ∪ calling c) (with_member id (BecomeCandidate st, e) c))
| cl_ask id w req :
    members c !! id = Some w → id ∈ calling c → vote_request (fst w) = Some req →
    vote_step c (with_calling (calling c ∖ {[id]})
      (with_asked (vote_requests id (fst w) req ++ asked c) c))
| cl_elect id w w' :
    members c !! id = Some w → state_ (fst w) = CANDIDATE →
    majority (fst w) <= votes_received_ (fst w) →
    BecomeLeader now uniform_int send w = Some w' → vote_step c (with_member id w' c)
| cl_vote cand id req w w' l1 l2 :
    asked c = l1 ++ (cand, id, req) :: l2 → members c !! id = Some w →
    HandleRequestVote now uniform_int (rv_candidate_id req) req w = Some w' →
    vote_step c (with_asked (l1 ++ l2)
      (with_answered ((cand, id, vote_resp_ (fst w')) :: answered c) (with_member id w' c)))
| cl_count cand id resp w w' l1 l2 :
    answered c = l1 ++ (cand, id, resp) :: l2 → members c !! cand = Some w →
    HandleRequestVoteResponse now uniform_int send id resp w = Some w' →
    vote_step c (with_answered (l1 ++ l2) (with_member cand w' c))
| cl_lose_request x l1 l2 : asked c = l1 ++ x :: l2 → vote_step c (with_asked (l1 ++ l2) c)
| cl_lose_response x l1 l2 :
    answered c = l1 ++ x :: l2 → vote_step c (with_answered (l1 ++ l2) c)
| cl_restart id st e e' w' :
    members c !! id = Some (st, e) → fits st →
    Start now uniform_int restore_cb_ ParseSnapshot
      (RaftNode_new (config_ st) (disk_ st) (state_file st) (snapshot_file st), e') = Some w' →
    vote_step c (with_calling (calling c ∖ {[id]}) (with_member id w' c)).

(** A step of the cluster. *)
Inductive cluster_step (c : Cluster) : Cluster → Prop :=
| cl_local id w w' :
    members c !! id = Some w → local_step w w' → cluster_step c (with_member id w' c)
| cl_vote_step c' : vote_step c c' → cluster_step c c'.

(** ** The steps of one node *)

Lemma send_evolves peer msg w w' : send peer msg w = Some w' → evolves (fst w) (fst w').
Proof. intros [= <-]. reflexivity. Qed.

Lemma SendHeartbeats_role w w' : SendHeartbeats send w = Some w' → same_role (fst w) (fst w').
Proof.
  unfold SendHeartbeats. destruct (bool_decide _); [|intros [= <-]; repeat split].
  generalize (peers (config_ (fst w))). intros targets. revert w.
  induction targets as [|p targets IH]; intros w; simpl; [intros [= <-]; repeat split|].
  destruct (bool_decide _); [apply IH|]. destruct (subscript _ _) as [next i].
  cbn [mbind option_bind]. intros Hs. apply IH in Hs. exact Hs.
Qed.

Lemma local_step_ok w w' : local_step w w' → evolves (fst w) (fst w') ∧ quiet (fst w) (fst w').
Proof.
  destruct 1 as [from req w w' Hs|from req w w' Hs|from resp w w' Hs|w w' Hs|w|cmd st st' r e Hs
    |w w' Hs|snap st st' e Hs|snap st st' e Hs|st e e'].
  - split; [by eapply HandleAppendEntries_evolves|by eapply HandleAppendEntries_quiet].
  - split; [by eapply HandleInstallSnapshot_evolves|by eapply HandleInstallSnapshot_quiet].
  - split; [by eapply HandleAppendEntriesResponse_evolves|by eapply HandleAppendEntriesResponse_quiet].
  - split; [eapply SendHeartbeats_evolves; [apply send_evolves|done]|].
    by apply quiet_same, SendHeartbeats_role.
  - split; [apply evolves_same, ResetElectionTimer_same|apply quiet_same, ResetElectionTimer_role].
  - split; [by eapply Propose_append_evolves|by eapply Propose_append_quiet].
  - split; [by apply evolves_same; eapply AdvanceCommitIndex_same|].
    apply quiet_same. by eapply AdvanceCommitIndex_role.
  - split; [by eapply TakeSnapshot_write_evolves|by eapply TakeSnapshot_write_quiet].
  - split; [by eapply TakeSnapshot_finish_evolves|by eapply TakeSnapshot_finish_quiet].
  - split; reflexivity.
Qed.

Lemma BecomeLeader_role w w' :
  BecomeLeader now uniform_int send w = Some w' →
  config_ (fst w') = config_ (fst w) ∧ my_id_ (fst w') = my_id_ (fst w) ∧ state_ (fst w') = LEADER ∧
  current_term_ (fst w') = current_term_ (fst w).
Proof.
  unfold BecomeLeader. intros Hs. apply bind_Some in Hs as (st & Hl & Hs).
  apply bind_Some in Hs as (w1 & H1 & Hs). injection Hs as <-.
  apply SendHeartbeats_role in H1. pose proof (ResetElectionTimer_role now uniform_int w1) as H2.
  pose proof (same_role_trans _ _ _ H1 H2) as (A & B & C & D & _). rewrite A, B, C, D. cbn [fst].
  unfold lead in Hl. apply bind_Some in Hl as (l & _ & Hl). destruct (init_progress _ _).
  injection Hl as <-. done.
Qed.

Lemma BecomeCandidate_role st :
  0 <= current_term_ st < 2 ^ 64 - 1 →
  let st' := BecomeCandidate st in
  config_ st' = config_ st ∧ my_id_ st' = my_id_ st ∧ state_ st' = CANDIDATE ∧
  current_term_ st' = current_term_ st + 1 ∧ votes_received_ st' = 1 ∧ voted_for_ st' = my_id_ st.
Proof.
  intros Ht. unfold BecomeCandidate, PersistState. raft_simpl.
  destruct (written _ _); raft_simpl; rewrite u64_small by lia; done.
Qed.

Lemma Start_role config w sf pf e w' :
  Start now uniform_int restore_cb_ ParseSnapshot (RaftNode_new config w sf pf, e) = Some w' →
  config_ (fst w') = config ∧ my_id_ (fst w') = node_id config ∧ state_ (fst w') = FOLLOWER.
Proof.
  unfold Start. intros Hs. apply bind_Some in Hs as (st1 & H1 & Hs).
  apply bind_Some in Hs as ([w2 b] & H2 & Hs). injection Hs as <-.
  set (w3 := on_node _ w2). destruct (ResetElectionTimer_role now uniform_int w3) as (A & B & C & _).
  rewrite A, B, C. subst w3. cbn [on_node fst].
  assert (config_ (fst w2) = config_ st1 ∧ my_id_ (fst w2) = my_id_ st1) as [Hc Hm].
  { unfold RestoreFromSnapshot in H2. cbn [fst] in H2. destruct (snapshot_file st1); [|by injection H2 as <- _].
    destruct (read_u64 _ _) as [f1 len]. destruct (negb _); [by injection H2 as <- _|].
    apply bind_Some in H2 as ([f2 s] & _ & H2). destruct (negb _); [by injection H2 as <- _|].
    destruct (ParseSnapshot s); injection H2 as <- _; [|done].
    unfold raise_commit. by destruct (_ <? _). }
  assert (config_ st1 = config ∧ my_id_ st1 = node_id config) as [Hc1 Hm1].
  { cbn [fst] in H1. unfold RestoreState in H1. cbn [RaftNode_new state_file] in H1.
    destruct sf; [|by injection H1 as <-]. repeat case_match; try done.
    all: repeat match goal with
      | H : (_ ≫= _) = Some _ |- _ => apply bind_Some in H as (? & ? & H)
      | H : context [let '(_, _) := ?x in _] |- _ => destruct x
      | H : context [if ?b then _ else _] |- _ => destruct b
      end; simplify_eq/=; done. }
  unfold BecomeFollower. rewrite Z.ltb_irrefl. raft_simpl. split_and!; congruence.
Qed.

(** ** The invariant *)

(** A ballot: the term, the candidate asking and the voter asked. *)
Abbreviation ballot := (Z * bytes * bytes)%type.

Definition ask_ballot (x : bytes * bytes * RequestVoteRequest) : ballot :=
  let '(cand, v, req) := x in (rv_term req, cand, v).
Definition answer_ballot (x : bytes * bytes * RequestVoteResponse) : ballot :=
  let '(cand, v, resp) := x in (vr_term resp, cand, v).
Definition granted (l : list (bytes * bytes * RequestVoteResponse)) : list ballot :=
  map answer_ballot (filter (λ x, vr_granted (snd x) = true) l).

(** The ballots of a candidate in a term, among those counted. *)
Definition tally (t : Z) (cand : bytes) (K : list ballot) : list ballot :=
  filter (λ x, fst x = (t, cand)) K.

(** Every ballot there is: counted, granted and on its way back, or asked for. *)
Definition ballots (c : Cluster) (K : list ballot) : list ballot :=
  K ++ granted (answered c) ++ map ask_ballot (asked c).

Context (P : list bytes).

(** [V] holds the votes ever cast (term, voter, candidate), [K] the ballots that
    candidates have counted. *)
Record node_ok (V K : list ballot) (id : bytes) (st : RaftNode) : Prop := {
  no_mirrored : mirrored st;
  no_id : my_id_ st = id;
  no_node_id : node_id (config_ st) = id;
  no_peers : peers (config_ st) = P;
  no_self : state_ st ≠ FOLLOWER → (current_term_ st, id, id) ∈ V;
  no_candidate : state_ st = CANDIDATE →
    votes_received_ st <= 1 + zlen (tally (current_term_ st) id K);
  no_leader : state_ st = LEADER → majority st <= 1 + zlen (tally (current_term_ st) id K) }.

Record cluster_inv (c : Cluster) (V K : list ballot) : Prop := {
  ci_node : ∀ id w, members c !! id = Some w → id ∈ P ∧ node_ok V K id (fst w);
  ci_NoDup : NoDup (ballots c K);
  ci_ballot : ∀ t cand v, (t, cand, v) ∈ ballots c K →
    v ∈ P ∧ v ≠ cand ∧ ∃ w, members c !! cand = Some w ∧
      t <= current_term_ (fst w) ∧ (cand ∈ calling c → t < current_term_ (fst w));
  ci_asked : ∀ cand v req, (cand, v, req) ∈ asked c → rv_candidate_id req = cand;
  ci_granted : ∀ t cand v, (t, cand, v) ∈ K ++ granted (answered c) → (t, v, cand) ∈ V;
  ci_votes : ∀ t v x, (t, v, x) ∈ V → x ≠ [] ∧ ∃ w, members c !! v = Some w ∧
    t <= current_term_ (fst w) ∧ (t = current_term_ (fst w) → voted_for_ (fst w) = x);
  ci_function : ∀ t v x y, (t, v, x) ∈ V → (t, v, y) ∈ V → x = y }.

Lemma granted_cons x l :
  granted (x :: l) = if decide (vr_granted (snd x) = true) then answer_ballot x :: granted l else granted l.
Proof. unfold granted. rewrite filter_cons. by destruct (decide _). Qed.

Lemma granted_app l1 l2 : granted (l1 ++ l2) = granted l1 ++ granted l2.
Proof. unfold granted. by rewrite filter_app, map_app. Qed.

Lemma tally_app t cand K1 K2 : tally t cand (K1 ++ K2) = tally t cand K1 ++ tally t cand K2.
Proof. apply filter_app. Qed.

Lemma node_ok_more V K V' K' id st :
  V ⊆ V' → (∀ t, zlen (tally t id K) <= zlen (tally t id K')) → node_ok V K id st → node_ok V' K' id st.
Proof.
  intros HV HK []. split; try done.
  - intros Hs. by apply HV, no_self0.
  - intros Hs. specialize (HK (current_term_ st)). specialize (no_candidate0 Hs). lia.
  - intros Hs. specialize (HK (current_term_ st)). specialize (no_leader0 Hs). lia.
Qed.

Lemma node_ok_quiet V K id st st' :
  node_ok V K id st → evolves st st' → quiet st st' → node_ok V K id st'.
Proof.
  intros [Hm Hi Hni Hp Hse Hc Hl] He (Q1 & Q2 & Q3). destruct (He Hm) as [Hm' _].
  split; [done|congruence|congruence|congruence|..].
  - intros Hs. destruct (Q3 Hs) as (A & B & C). rewrite B. apply Hse. congruence.
  - intros Hs. destruct Q3 as (A & B & C); [congruence|]. rewrite B, C. apply Hc. congruence.
  - intros Hs. destruct Q3 as (A & B & C); [congruence|]. unfold majority. rewrite B, Q1. apply Hl. congruence.
Qed.

(** Terms only grow, and a vote stands as long as the term does. *)
Lemma votes_keep (t : Z) (x : bytes) st st' :
  mirrored st → evolves st st' → x ≠ [] →
  t <= current_term_ st ∧ (t = current_term_ st → voted_for_ st = x) →
  t <= current_term_ st' ∧ (t = current_term_ st' → voted_for_ st' = x).
Proof.
  intros Hm He Hx [Ht Hv]. destruct (He Hm) as [_ [Hle Hk]]. split; [lia|].
  intros ->. assert (current_term_ st' = current_term_ st) as Heq by lia.
  rewrite <- Heq in Hk. destruct (Hk eq_refl) as [Hn|Hs]; [|rewrite Hs; by apply Hv].
  rewrite Hv in Hn by done. done.
Qed.

(** A node changes, and nothing else but what it has voted and counted. *)
Lemma inv_member c V K id w w' :
  cluster_inv c V K → members c !! id = Some w → evolves (fst w) (fst w') → node_ok V K id (fst w') →
  cluster_inv (with_member id w' c) V K.
Proof.
  intros [I1 I2 I3 I4 I5 I6 I7] Hw He Hok. pose proof (I1 id w Hw) as [Hid Hok0].
  split; cbn [members with_member calling asked answered]; try done.
  - intros i u. rewrite lookup_insert_Some. intros [[<- <-]|[_ Hu]]; [done|by apply I1].
  - intros t cand v Hin. destruct (I3 t cand v Hin) as (Hv & Hne & u & Hu & Ht & Hc).
    split; [done|]. split; [done|]. destruct (decide (cand = id)) as [->|].
    + exists w'. rewrite lookup_insert_eq. split; [done|]. rewrite Hw in Hu. injection Hu as <-.
      destruct (He (no_mirrored _ _ _ _ Hok0)) as [_ [Hle _]]. split; [lia|]. intros Hcal.
      specialize (Hc Hcal). lia.
    + exists u. by rewrite lookup_insert_ne.
  - intros t v x Hin. destruct (I6 t v x Hin) as (Hx & u & Hu & Ht). split; [done|].
    destruct (decide (v = id)) as [->|].
    + exists w'. rewrite lookup_insert_eq. split; [done|]. rewrite Hw in Hu. injection Hu as <-.
      by apply (votes_keep t x (fst w)); [apply Hok0|done..].
    + exists u. by rewrite lookup_insert_ne.
Qed.

(** Fewer messages, and fewer nodes about to ask. *)
Lemma inv_lose c V K c' :
  cluster_inv c V K → members c' = members c → calling c' ⊆ calling c →
  asked c' `sublist_of` asked c → answered c' `sublist_of` answered c → cluster_inv c' V K.
Proof.
  intros [I1 I2 I3 I4 I5 I6 I7] Hm Hc Ha Hr.
  assert (granted (answered c') `sublist_of` granted (answered c)) as Hg.
  { apply fmap_sublist. clear -Hr. induction Hr as [|x l1 l2 Hl IH|x l1 l2 Hl IH]; [done|..]; rewrite !filter_cons.
    - destruct (decide _); [by apply sublist_skip|done].
    - destruct (decide _); [by apply sublist_cons|done]. }
  assert (ballots c' K `sublist_of` ballots c K) as Hb.
  { apply sublist_app; [done|]. apply sublist_app; [done|]. by apply fmap_sublist. }
  split; rewrite ?Hm; try done.
  - by eapply sublist_NoDup.
  - intros t cand v Hin. destruct (I3 t cand v) as (Hv & Hne & w & Hw & Ht & Hcal).
    { by eapply sublist_subseteq. }
    split_and!; [done..|]. exists w. split_and!; [done..|]. intros Hx. apply Hcal. by apply Hc.
  - intros cand v req Hin. eapply I4. by eapply sublist_subseteq.
  - intros t cand v Hin. apply I5. apply elem_of_app in Hin as [?|?]; apply elem_of_app; [by left|right].
    by eapply sublist_subseteq.
Qed.

(** A node changes and casts a vote. *)
Lemma inv_cast c V K id w w' x :
  cluster_inv c V K → members c !! id = Some w → evolves (fst w) (fst w') → x ≠ [] →
  voted_for_ (fst w') = x → (∀ y, (current_term_ (fst w'), id, y) ∈ V → y = x) →
  node_ok ((current_term_ (fst w'), id, x) :: V) K id (fst w') →
  cluster_inv (with_member id w' c) ((current_term_ (fst w'), id, x) :: V) K.
Proof.
  intros [I1 I2 I3 I4 I5 I6 I7] Hw He Hx Hv Hf Hok. pose proof (I1 id w Hw) as [Hid Hok0].
  set (t' := current_term_ (fst w')) in *.
  split; cbn [members with_member calling asked answered]; try done.
  - intros i u. rewrite lookup_insert_Some. intros [[<- <-]|[_ Hu]]; [done|].
    destruct (I1 i u Hu) as [Hi Hoki]. split; [done|].
    eapply node_ok_more; [|intros ?; reflexivity|exact Hoki]. intros ?. by right.
  - intros t cand v Hin. destruct (I3 t cand v Hin) as (Hvp & Hne & u & Hu & Ht & Hc).
    split; [done|]. split; [done|]. destruct (decide (cand = id)) as [->|].
    + exists w'. rewrite lookup_insert_eq. split; [done|]. rewrite Hw in Hu. injection Hu as <-.
      destruct (He (no_mirrored _ _ _ _ Hok0)) as [_ [Hle _]]. split; [lia|]. intros Hcal.
      specialize (Hc Hcal). lia.
    + exists u. by rewrite lookup_insert_ne.
  - intros t cand v Hin. right. by apply I5.
  - intros t v y Hin. apply elem_of_cons in Hin as [[= -> -> ->]|Hin].
    { split; [done|]. exists w'. rewrite lookup_insert_eq. split_and!; done. }
    destruct (I6 t v y Hin) as (Hy & u & Hu & Ht). split; [done|].
    destruct (decide (v = id)) as [->|].
    + exists w'. rewrite lookup_insert_eq. split; [done|]. rewrite Hw in Hu. injection Hu as <-.
      by apply (votes_keep t y (fst w)); [apply Hok0|done..].
    + exists u. by rewrite lookup_insert_ne.
  - intros t v y z [[= -> -> ->]|Hy]%elem_of_cons [[= Ez]|Hz]%elem_of_cons; subst; try done.
    + symmetry. by apply Hf.
    + by apply Hf.
    + by apply (I7 t v).
Qed.

(** Messages change hands, and no ballot is made up. *)
Lemma inv_moved c V K c' K' :
  cluster_inv c V K → members c' = members c → calling c' = calling c →
  ballots c' K' ≡ₚ ballots c K → asked c' ⊆ asked c →
  (∀ t cand v, (t, cand, v) ∈ K' ++ granted (answered c') → (t, v, cand) ∈ V) →
  (∀ t id, zlen (tally t id K) <= zlen (tally t id K')) → cluster_inv c' V K'.
Proof.
  intros [I1 I2 I3 I4 I5 I6 I7] Hm Hc Hp Ha Hg Ht. split; rewrite ?Hm, ?Hc; try done.
  - intros id w Hw. destruct (I1 id w Hw) as [Hid Hok]. split; [done|].
    eapply node_ok_more; [done| |exact Hok]. intros t. apply Ht.
  - by rewrite Hp.
  - intros t cand v. rewrite Hp. apply I3.
  - intros cand v req Hin. apply (I4 cand v). by apply Ha.
Qed.

Context (P_nodup : NoDup P) (P_named : [] ∉ P).

Lemma inv_local c V K id w w' :
  cluster_inv c V K → members c !! id = Some w → evolves (fst w) (fst w') → quiet (fst w) (fst w') →
  cluster_inv (with_member id w' c) V K.
Proof.
  intros HI Hw He Hq. apply (inv_member c V K id w); try done.
  by eapply node_ok_quiet; [apply (ci_node _ _ _ HI)|..].
Qed.

Lemma inv_candidate c V K id st e :
  cluster_inv c V K → members c !! id = Some (st, e) → 0 <= current_term_ st < 2 ^ 64 - 1 →
  cluster_inv (with_calling ({[id]} ∪ calling c) (with_member id (BecomeCandidate st, e) c))
    ((current_term_ (BecomeCandidate st), id, id) :: V) K.
Proof using P_named.
  intros HI Hw Ht. destruct (BecomeCandidate_role st Ht) as (Rc & Ri & Rs & Rt & Rv & Rf).
  destruct (ci_node _ _ _ HI id _ Hw) as [Hid Hok]. cbn [fst] in Hok.
  assert (evolves st (BecomeCandidate st)) as He by (by apply BecomeCandidate_evolves).
  assert (cluster_inv (with_member id (BecomeCandidate st, e) c)
    ((current_term_ (BecomeCandidate st), id, id) :: V) K) as HI1.
  { apply (inv_cast c V K id (st, e) (BecomeCandidate st, e) id HI Hw He).
    - intros ->. by apply P_named.
    - cbn [fst]. rewrite Rf. apply Hok.
    - cbn [fst]. rewrite Rt. intros y Hy. destruct (ci_votes _ _ _ HI _ _ _ Hy) as (_ & u & Hu & Hle & _).
      rewrite Hw in Hu. injection Hu as <-. cbn [fst] in Hle. lia.
    - cbn [fst]. destruct (He (no_mirrored _ _ _ _ Hok)) as [Hm _]. split; try congruence.
      + rewrite Ri. apply Hok.
      + rewrite Rc. apply Hok.
      + rewrite Rc. apply Hok.
      + intros _. left.
      + intros _. rewrite Rv. pose proof (zlen_nonneg (tally (current_term_ (BecomeCandidate st)) id K)). lia. }
  destruct HI1 as [I1 I2 I3 I4 I5 I6 I7]. split; try done.
  intros t cand v Hin. destruct (I3 t cand v Hin) as (Hv & Hne & w & Hu & Hle & Hc).
  split_and!; [done..|]. exists w. split_and!; [done..|].
  cbn [calling with_calling]. intros [->%elem_of_singleton|Hcal]%elem_of_union; [|by apply Hc].
  cbn [members with_calling with_member] in Hu. rewrite lookup_insert_eq in Hu. injection Hu as <-.
  cbn [fst]. destruct (ci_ballot _ _ _ HI t id v Hin) as (_ & _ & u & Hu & Htu & _).
  rewrite Hw in Hu. injection Hu as <-. cbn [fst] in Htu. lia.
Qed.

Lemma inv_ask c V K id w req :
  cluster_inv c V K → members c !! id = Some w → id ∈ calling c → vote_request (fst w) = Some req →
  cluster_inv (with_calling (calling c ∖ {[id]}) (with_asked (vote_requests id (fst w) req ++ asked c) c)) V K.
Proof using P_nodup.
  intros HI Hw Hcal Hreq. destruct (ci_node _ _ _ HI id _ Hw) as [Hid Hok].
  unfold vote_request in Hreq. apply bind_Some in Hreq as (l & _ & [= <-]).
  set (req := mkRequestVote _ _ _ _).
  set (B := map (λ p, (current_term_ (fst w), id, p)) (filter (λ p, p ≠ my_id_ (fst w)) P)).
  assert (map ask_ballot (vote_requests id (fst w) req) = B) as HB.
  { unfold vote_requests, B. rewrite map_map, (no_peers _ _ _ _ Hok). done. }
  assert (ballots (with_calling (calling c ∖ {[id]}) (with_asked (vote_requests id (fst w) req ++ asked c) c)) K ≡ₚ
    B ++ ballots c K) as Hp.
  { unfold ballots. cbn [asked answered with_calling with_asked]. rewrite map_app, HB. solve_Permutation. }
  destruct HI as [I1 I2 I3 I4 I5 I6 I7]. split; try done.
  - rewrite Hp. apply NoDup_app. split_and!; [| |done].
    + apply NoDup_fmap_2; [by intros ? ? [= ->]|]. by apply NoDup_filter.
    + intros x (p & -> & _)%list_elem_of_fmap_1 Hin. destruct (I3 _ _ _ Hin) as (_ & _ & u & Hu & _ & Hlt).
      rewrite Hw in Hu. injection Hu as <-. specialize (Hlt Hcal). lia.
  - intros t cand v. rewrite Hp, elem_of_app. cbn [members calling with_calling with_asked].
    intros [(p & [= -> -> ->] & [Hne Hp']%list_elem_of_filter)%list_elem_of_fmap_1|Hin].
    + split; [done|]. rewrite (no_id _ _ _ _ Hok) in Hne. split; [done|]. exists w.
      split_and!; [done|lia|]. intros [_ Hn]%elem_of_difference. by destruct Hn; apply elem_of_singleton.
    + destruct (I3 t cand v Hin) as (Hv & Hne & u & Hu & Hle & Hc). split_and!; [done..|].
      exists u. split_and!; [done..|]. intros [Hx _]%elem_of_difference. by apply Hc.
  - intros cand v r. cbn [asked with_calling with_asked]. intros [Hin|Hin]%elem_of_app; [|by apply (I4 cand v)].
    unfold vote_requests in Hin. apply list_elem_of_fmap_1 in Hin as (p & [= -> -> ->] & _).
    apply (no_id _ _ _ _ Hok).
Qed.

Lemma inv_elect c V K id w w' :
  cluster_inv c V K → members c !! id = Some w → state_ (fst w) = CANDIDATE →
  majority (fst w) <= votes_received_ (fst w) → BecomeLeader now uniform_int send w = Some w' →
  cluster_inv (with_member id w' c) V K.
Proof.
  intros HI Hw Hs Hmaj Hb. destruct (ci_node _ _ _ HI id _ Hw) as [Hid Hok].
  assert (evolves (fst w) (fst w')) as He.
  { eapply BecomeLeader_evolves; [apply send_evolves|done]. }
  destruct (BecomeLeader_role _ _ Hb) as (Rc & Ri & Rs & Rt).
  apply (inv_member c V K id w w' HI Hw He). destruct Hok as [Hm Hi Hni Hp Hse Hc Hl].
  destruct (He Hm) as [Hm' _]. split; try congruence.
  - intros _. rewrite Rt. apply Hse. congruence.
  - intros _. unfold majority in *. rewrite Rc, Rt. specialize (Hc Hs). lia.
Qed.

(** A vote is granted by a node that has cast no other in the term. *)
Lemma HandleRequestVote_grant from req w w' :
  HandleRequestVote now uniform_int from req w = Some w' → vr_granted (vote_resp_ (fst w')) = true →
  current_term_ (fst w') = rv_term req ∧ vr_term (vote_resp_ (fst w')) = rv_term req ∧
  voted_for_ (fst w') = rv_candidate_id req ∧
  (current_term_ (fst w) = rv_term req → voted_for_ (fst w) = [] ∨ voted_for_ (fst w) = rv_candidate_id req).
Proof.
  destruct w as [st e]. intros Hs Hg.
  destruct (HandleRequestVote_granted_log now uniform_int _ _ _ _ _ Hs Hg) as [l Hl].
  destruct (HandleRequestVote_cases now uniform_int from req st e l Hl) as (u & Hu & Ht & Hr & Hiff & Hv).
  rewrite Hs in Hu. injection Hu as <-. destruct (proj1 Hiff Hg) as (Hle & _ & Hc).
  cbn [fst]. split_and!; [lia|lia|by apply Hv|]. intros Heq. destruct Hc as [?|?]; [lia|done].
Qed.

Lemma inv_vote c V K cand id req w w' l1 l2 :
  cluster_inv c V K → asked c = l1 ++ (cand, id, req) :: l2 → members c !! id = Some w →
  HandleRequestVote now uniform_int (rv_candidate_id req) req w = Some w' →
  ∃ V', V ⊆ V' ∧ cluster_inv (with_asked (l1 ++ l2)
    (with_answered ((cand, id, vote_resp_ (fst w')) :: answered c) (with_member id w' c))) V' K.
Proof using All.
  intros HI Ha Hw Hs. pose proof (HandleRequestVote_evolves now uniform_int _ _ _ _ Hs) as He.
  pose proof (HandleRequestVote_quiet now uniform_int _ _ _ _ Hs) as Hq.
  destruct (ci_node _ _ _ HI id _ Hw) as [Hid Hok].
  assert ((cand, id, req) ∈ asked c) as Hin by (rewrite Ha; apply elem_of_app; right; left).
  pose proof (ci_asked _ _ _ HI _ _ _ Hin) as Hcand.
  assert ((rv_term req, cand, id) ∈ ballots c K) as Hb.
  { apply elem_of_app. right. apply elem_of_app. right. by apply (list_elem_of_fmap_2 ask_ballot _ (cand, id, req)). }
  destruct (ci_ballot _ _ _ HI _ _ _ Hb) as (_ & _ & wc & Hwc & _).
  assert (cand ≠ []) as Hcne.
  { intros ->. apply P_named. by apply (ci_node _ _ _ HI _ wc). }
  destruct (vr_granted (vote_resp_ (fst w'))) eqn:Hg.
  - destruct (HandleRequestVote_grant _ _ _ _ Hs Hg) as (Ht & Hr & Hv & Hfree). rewrite Hcand in Hv, Hfree.
    exists ((current_term_ (fst w'), id, cand) :: V). split; [by intros ?; right|].
    apply (inv_moved (with_member id w' c) _ K).
    + apply (inv_cast c V K id w w' cand HI Hw He Hcne Hv).
      * rewrite Ht. intros y Hy. destruct (ci_votes _ _ _ HI _ _ _ Hy) as (Hyne & u & Hu & Hle & Hvy).
        rewrite Hw in Hu. injection Hu as <-.
        destruct (He (no_mirrored _ _ _ _ Hok)) as [_ [Hmono _]].
        assert (rv_term req = current_term_ (fst w)) as Heq by lia. specialize (Hvy Heq).
        destruct (Hfree (eq_sym Heq)); congruence.
      * apply (node_ok_quiet _ _ _ (fst w)); [|done|done].
        eapply node_ok_more; [|intros ?; reflexivity|exact Hok]. intros ?. by right.
    + done.
    + done.
    + unfold ballots. cbn [asked answered with_asked with_answered with_member].
      rewrite granted_cons. cbn [snd]. rewrite decide_True by done. cbn [answer_ballot].
      rewrite Ha, Hr, !map_app. cbn [map ask_ballot]. solve_Permutation.
    + cbn [asked with_asked with_member]. rewrite Ha. intros x Hx. rewrite elem_of_app in *. rewrite elem_of_cons. tauto.
    + cbn [answered with_asked with_answered]. intros t x v. rewrite granted_cons. cbn [snd].
      rewrite decide_True by done. cbn [answer_ballot].
      intros [Hk|[[= -> -> ->]|Hx]%elem_of_cons]%elem_of_app; [right|rewrite Hr, Ht; left|right];
        apply (ci_granted _ _ _ HI); apply elem_of_app; [by left|by right].
    + reflexivity.
  - exists V. split; [done|]. pose proof (inv_local c V K id w w' HI Hw He Hq) as HI1.
    assert (cluster_inv (with_asked (l1 ++ l2) (with_member id w' c)) V K) as HI2.
    { eapply inv_lose; [exact HI1|done|done| |done]. cbn [asked with_asked with_member]. rewrite Ha.
      apply sublist_app; [done|by apply sublist_cons]. }
    destruct HI2 as [I1 I2 I3 I4 I5 I6 I7].
    assert (granted ((cand, id, vote_resp_ (fst w')) :: answered c) = granted (answered c)) as Hgr.
    { rewrite granted_cons. cbn [snd]. by rewrite decide_False by congruence. }
    split; unfold ballots in *; cbn [answered with_asked with_answered with_member] in *; rewrite ?Hgr; done.
Qed.

Lemma inv_count c V K cand id resp w w' l1 l2 :
  cluster_inv c V K → answered c = l1 ++ (cand, id, resp) :: l2 → members c !! cand = Some w →
  HandleRequestVoteResponse now uniform_int send id resp w = Some w' →
  ∃ K', cluster_inv (with_answered (l1 ++ l2) (with_member cand w' c)) V K'.
Proof.
  intros HI Ha Hw Hs.
  assert (evolves (fst w) (fst w')) as He.
  { eapply HandleRequestVoteResponse_evolves; [apply send_evolves|exact Hs]. }
  assert (∀ u, cluster_inv (with_member cand u c) V K →
    cluster_inv (with_answered (l1 ++ l2) (with_member cand u c)) V K) as Hlose.
  { intros u Hu. eapply inv_lose; [exact Hu|done..|]. cbn [answered with_answered with_member]. rewrite Ha.
    apply sublist_app; [done|by apply sublist_cons]. }
  unfold HandleRequestVoteResponse in Hs. destruct (Z.ltb_spec (current_term_ (fst w)) (vr_term resp)) as [Hlt|Hge].
  { exists K. apply Hlose, (inv_local c V K cand w); [done..|]. injection Hs as <-. apply step_down_quiet. }
  assert (Some w = Some w' → ∃ K', cluster_inv (with_answered (l1 ++ l2) (with_member cand w' c)) V K') as Hsame.
  { intros [= <-]. exists K. by apply Hlose, (inv_local c V K cand w). }
  destruct (bool_decide_reflect (state_ (fst w) = CANDIDATE)) as [Hst|]; cbn [negb] in Hs; [|by apply Hsame].
  destruct (Z.ltb_spec (vr_term resp) (current_term_ (fst w))) as [|Hle]; [by apply Hsame|].
  destruct (vr_granted resp) eqn:Hg; [|by apply Hsame]. clear Hsame Hlose.
  assert (vr_term resp = current_term_ (fst w)) as Ht by lia.
  exists ((vr_term resp, cand, id) :: K).
  assert (cluster_inv (with_answered (l1 ++ l2) c) V ((vr_term resp, cand, id) :: K)) as HI1.
  { apply (inv_moved c V K); try done.
    - unfold ballots. cbn [answered asked with_answered]. rewrite Ha, !granted_app, granted_cons. cbn [snd].
      rewrite decide_True by done. cbn [answer_ballot]. solve_Permutation.
    - cbn [answered with_answered]. intros t x v Hin. apply (ci_granted _ _ _ HI). rewrite Ha, granted_app, granted_cons.
      cbn [snd]. rewrite decide_True by done. cbn [answer_ballot]. rewrite granted_app in Hin.
      revert Hin. clear. set_solver.
    - intros t i. unfold tally. rewrite filter_cons. destruct (decide _); [rewrite zlen_cons; lia|lia]. }
  destruct (ci_node _ _ _ HI cand _ Hw) as [_ Hok].
  assert (zlen (tally (current_term_ (fst w)) cand ((vr_term resp, cand, id) :: K)) =
    1 + zlen (tally (current_term_ (fst w)) cand K)) as Hz.
  { unfold tally. rewrite filter_cons. cbn [fst]. rewrite decide_True by (by rewrite Ht). rewrite zlen_cons. lia. }
  destruct (ci_node _ _ _ HI1 cand w Hw) as [_ [Hm Hi Hni Hp Hse Hc Hl]].
  pose proof (no_candidate _ _ _ _ Hok Hst) as Hcount.
  change (with_answered (l1 ++ l2) (with_member cand w' c)) with (with_member cand w' (with_answered (l1 ++ l2) c)).
  apply (inv_member _ _ _ cand w w' HI1 Hw He). destruct (He Hm) as [Hm' _].
  set (w1 := on_node _ w) in Hs.
  destruct (Z.leb_spec (majority (fst w1)) (votes_received_ (fst w1))) as [Hmaj|Hno].
  - destruct (BecomeLeader_role _ _ Hs) as (Rc & Ri & Rs & Rt). subst w1. destruct w as [st e].
    raft_simpl. split; try congruence.
    + intros _. rewrite Rt. apply Hse. congruence.
    + intros _. unfold majority in *. raft_simpl. rewrite Rc, Rt, Hz. lia.
  - injection Hs as <-. subst w1. destruct w as [st e]. raft_simpl. split; raft_simpl; try done.
    intros _. rewrite Hz. lia.
Qed.

Lemma inv_restart c V K id st e e' w' :
  cluster_inv c V K → members c !! id = Some (st, e) → fits st →
  Start now uniform_int restore_cb_ ParseSnapshot
    (RaftNode_new (config_ st) (disk_ st) (state_file st) (snapshot_file st), e') = Some w' →
  cluster_inv (with_calling (calling c ∖ {[id]}) (with_member id w' c)) V K.
Proof using All.
  intros HI Hw Hfit Hs. destruct (ci_node _ _ _ HI id _ Hw) as [Hid Hok]. cbn [fst] in Hok.
  pose proof (Start_durable now uniform_int restore_cb_ ParseSnapshot _ _ _ _ _ Hfit (no_mirrored _ _ _ _ Hok) Hs) as Hd.
  apply evolves_same in Hd. destruct (Start_role _ _ _ _ _ _ Hs) as (Rc & Ri & Rs).
  assert (cluster_inv (with_member id w' c) V K) as HI1.
  { apply (inv_member c V K id (st, e) w' HI Hw Hd). destruct Hok as [Hm Hi Hni Hp Hse Hc Hl].
    destruct (Hd Hm) as [Hm' _]. split; congruence. }
  eapply inv_lose; [exact HI1|done| |done|done]. cbn [calling with_calling with_member]. set_solver.
Qed.

Lemma inv_vote_step c V K c' :
  cluster_inv c V K → vote_step c c' → ∃ V' K', V ⊆ V' ∧ cluster_inv c' V' K'.
Proof using All.
  intros HI Hs. destruct Hs as [id st e Hw Ht Hc|id w req Hw Hc Hr|id w w' Hw Hst Hmaj Hb
    |cand id req w w' l1 l2 Ha Hw Hv|cand id resp w w' l1 l2 Ha Hw Hv|x l1 l2 Ha|x l1 l2 Ha|id st e e' w' Hw Hf Hst].
  - eexists _, K. split; [|by apply (inv_candidate c V K id st e)]. by intros ?; right.
  - exists V, K. split; [done|]. by apply inv_ask.
  - exists V, K. split; [done|]. by apply (inv_elect c V K id w w').
  - destruct (inv_vote c V K cand id req w w' l1 l2 HI Ha Hw Hv) as (V' & HV & HI'). by exists V', K.
  - destruct (inv_count c V K cand id resp w w' l1 l2 HI Ha Hw Hv) as [K' HI']. by exists V, K'.
  - exists V, K. split; [done|]. eapply inv_lose; [exact HI|done|done| |done]. cbn [asked with_asked]. rewrite Ha.
    apply sublist_app; [done|by apply sublist_cons].
  - exists V, K. split; [done|]. eapply inv_lose; [exact HI|done|done|done|]. cbn [answered with_answered]. rewrite Ha.
    apply sublist_app; [done|by apply sublist_cons].
  - exists V, K. split; [done|]. by apply (inv_restart c V K id st e e' w').
Qed.

Lemma inv_local_step c V K id w w' :
  cluster_inv c V K → members c !! id = Some w → local_step w w' → cluster_inv (with_member id w' c) V K.
Proof. intros HI Hw Hl. apply local_step_ok in Hl as [He Hq]. by apply (inv_local c V K id w w'). Qed.

Lemma inv_step c V K c' : cluster_inv c V K → cluster_step c c' → ∃ V' K', cluster_inv c' V' K'.
Proof using All.
  intros HI [id w w' Hw Hl|c'' Hs].
  - exists V, K. by apply (inv_local_step c V K id w).
  - destruct (inv_vote_step _ _ _ _ HI Hs) as (V' & K' & _ & HI'). by exists V', K'.
Qed.

(** A cluster whose members, named as in its list of peers, have all (re)started,
    with nothing in flight. *)
Definition started (c : Cluster) : Prop :=
  calling c = ∅ ∧ asked c = [] ∧ answered c = [] ∧
  ∀ id w, members c !! id = Some w →
    id ∈ P ∧ mirrored (fst w) ∧ my_id_ (fst w) = id ∧ node_id (config_ (fst w)) = id ∧
    peers (config_ (fst w)) = P ∧ state_ (fst w) = FOLLOWER.

Lemma started_inv c : started c → cluster_inv c [] [].
Proof.
  intros (Hc & Ha & Hr & Hm).
  assert (ballots c [] = []) as Hb by (unfold ballots; by rewrite Ha, Hr).
  split; rewrite ?Hb, ?Ha, ?Hr.
  - intros id w Hw. destruct (Hm id w Hw) as (?&?&?&?&?&Hf). split; [done|]. split; try done; congruence.
  - constructor.
  - by intros t cand v ?%not_elem_of_nil.
  - by intros cand v req ?%not_elem_of_nil.
  - intros t cand v Hin. by apply not_elem_of_nil in Hin.
  - by intros t v x ?%not_elem_of_nil.
  - by intros t v x y ?%not_elem_of_nil.
Qed.

Lemma steps_inv c c' : rtc cluster_step c c' → ∀ V K, cluster_inv c V K → ∃ V' K', cluster_inv c' V' K'.
Proof using All.
  induction 1 as [c|c1 c2 c3 Hs _ IH]; intros V K HI; [by exists V, K|].
  destruct (inv_step _ _ _ _ HI Hs) as (V' & K' & HI'). by eapply IH.
Qed.

(** Two majorities of one list meet. *)
Lemma majorities_meet (Q1 Q2 : list bytes) :
  NoDup Q1 → NoDup Q2 → Q1 ⊆ P → Q2 ⊆ P → zlen P / 2 + 1 <= zlen Q1 → zlen P / 2 + 1 <= zlen Q2 →
  ∃ x, x ∈ Q1 ∧ x ∈ Q2.
Proof.
  intros N1 N2 S1 S2 M1 M2.
  destruct (decide (Forall (λ x, x ∉ Q2) Q1)) as [Hf|Hn].
  - exfalso. assert (NoDup (Q1 ++ Q2)) as N by (apply NoDup_app; split_and!; [done|by apply Forall_forall|done]).
    assert ((Q1 ++ Q2) ⊆+ P) as Hsub.
    { apply NoDup_submseteq; [done|]. intros x [Hx|Hx]%elem_of_app; [by apply S1|by apply S2]. }
    apply submseteq_length in Hsub. rewrite length_app in Hsub. unfold zlen in *.
    pose proof (Z.div_mod (Z.of_nat (length P)) 2). pose proof (Z.mod_pos_bound (Z.of_nat (length P)) 2). lia.
  - apply not_Forall_Exists in Hn; [|apply _]. apply Exists_exists in Hn as (x & Hx & Hin).
    exists x. split; [done|]. by apply dec_stable.
Qed.

(** The votes of a majority for one candidate in a term. *)
Definition elected (V : list ballot) (t : Z) (id : bytes) : Prop :=
  ∃ Q, NoDup Q ∧ Q ⊆ P ∧ zlen P / 2 + 1 <= zlen Q ∧ ∀ v, v ∈ Q → (t, v, id) ∈ V.

(** The voters of a leader: itself and those whose ballots it counted. *)
Lemma leader_quorum c V K id w :
  cluster_inv c V K → members c !! id = Some w → state_ (fst w) = LEADER →
  elected V (current_term_ (fst w)) id.
Proof.
  intros HI Hw Hs. destruct (ci_node _ _ _ HI id _ Hw) as [Hid Hok].
  set (t := current_term_ (fst w)).
  assert (∀ x, x ∈ tally t id K → x ∈ K ∧ fst x = (t, id)) as Htally.
  { intros x [Hx Hin]%list_elem_of_filter. done. }
  assert (∀ v, v ∈ map snd (tally t id K) → (t, id, v) ∈ K) as Hv.
  { intros v ([y v'] & -> & Hin)%list_elem_of_fmap_1. apply Htally in Hin as [Hin Heq].
    cbn [fst snd] in *. by subst y. }
  exists (id :: map snd (tally t id K)). split; [|split; [|split]].
  - apply NoDup_cons. split.
    + intros Hin%Hv. destruct (ci_ballot _ _ _ HI t id id) as (_ & Hne & _); [|done].
      apply elem_of_app. by left.
    + assert (NoDup (tally t id K)) as Hnd.
      { apply NoDup_filter. pose proof (ci_NoDup _ _ _ HI) as Hn. by apply NoDup_app in Hn as [? _]. }
      apply NoDup_fmap_2_strong; [|done]. intros [y1 v1] [y2 v2] [_ H1]%Htally [_ H2]%Htally.
      cbn [fst snd] in *. congruence.
  - intros v [->|Hin%Hv]%elem_of_cons; [done|].
    destruct (ci_ballot _ _ _ HI t id v) as (? & _); [apply elem_of_app; by left|done].
  - pose proof (no_leader _ _ _ _ Hok Hs) as Hmaj. unfold majority in Hmaj. rewrite (no_peers _ _ _ _ Hok) in Hmaj.
    rewrite zlen_cons. unfold zlen in *. rewrite length_map. fold t in Hmaj. lia.
  - intros v [->|Hin%Hv]%elem_of_cons; [apply (no_self _ _ _ _ Hok); congruence|].
    apply (ci_granted _ _ _ HI). apply elem_of_app. by left.
Qed.

(** Two candidates elected in one term are one. *)
Lemma one_elected c V K t a b : cluster_inv c V K → elected V t a → elected V t b → a = b.
Proof.
  intros HI (Qa & Na & Sa & Ma & Va) (Qb & Nb & Sb & Mb & Vb).
  destruct (majorities_meet Qa Qb) as (v & Hva & Hvb); try done.
  apply (ci_function _ _ _ HI t v a b); [by apply Va|by apply Vb].
Qed.

(** C1: election safety.  Whatever happens to a cluster after its nodes started,
    in any order: time-outs, votes, messages lost or overtaken, snapshots,
    crashes and restarts, no two nodes ever are leaders of the same term; provided
    every write of a state file is whole, so that no write fails and no node dies
    inside one ([started] asks it of the disks; without it a node can vote twice,
    [RaftDurable.torn_state_forgets_vote]), and no append message makes a node read
    the end of an empty log, which is undefined ([RaftTypes.raft_node_typed] says
    which messages do). *)
Theorem election_safety c0 c a b wa wb :
  started c0 → rtc cluster_step c0 c →
  members c !! a = Some wa → members c !! b = Some wb →
  state_ (fst wa) = LEADER → state_ (fst wb) = LEADER →
  current_term_ (fst wa) = current_term_ (fst wb) → a = b.
Proof using All.
  intros H0 Hs Ha Hb La Lb Ht. destruct (steps_inv _ _ Hs _ _ (started_inv _ H0)) as (V & K & HI).
  apply (one_elected c V K (current_term_ (fst wa))); [done| |rewrite Ht]; by eapply leader_quorum.
Qed.
End Cluster.

(** * A concrete election *)

Definition demo_peers : list bytes := [str "n1"; str "n2"; str "n3"].
Definition demo_member (id : string) : RaftNode :=
  RaftNode_new (mkConfig (str id) demo_peers (str "/raft") 3000 500 10000) Whole None None.
Definition tick (_ : unit) : Z := 0.
Definition draw (a _ : Z) (e : unit) : Z * unit := (a, e).
Definition post_nothing (_ : bytes) (_ : RaftMessage) (e : unit) : unit := e.

Definition election_0 : Cluster :=
  mkCluster (list_to_map [(str "n1", (demo_member "n1", tt)); (str "n2", (demo_member "n2", tt));
    (str "n3", (demo_member "n3", tt))]) ∅ [] [].

(** [n1] becomes a candidate and asks; [n2] votes for it and its response
    arrives. *)
Definition candidate_1 : RaftNode := BecomeCandidate (demo_member "n1").
Definition ask_1 : RequestVoteRequest := mkRequestVote 1 (str "n1") 0 0.
Definition voter_2 : RaftNode * unit :=
  default (demo_member "n2", tt)
    (HandleRequestVote tick draw (str "n1") ask_1 (demo_member "n2", tt)).
Definition leader_1 : RaftNode * unit :=
  default (candidate_1, tt)
    (HandleRequestVoteResponse tick draw (send post_nothing) (str "n2") (vote_resp_ (fst voter_2))
      (candidate_1, tt)).

Definition election_1 : Cluster :=
  with_calling ({[str "n1"]} ∪ calling election_0) (with_member (str "n1") (candidate_1, tt) election_0).
Definition election_2 : Cluster :=
  with_calling (calling election_1 ∖ {[str "n1"]})
    (with_asked (vote_requests (str "n1") (fst (candidate_1, tt)) ask_1 ++ asked election_1) election_1).
Definition election_3 : Cluster :=
  with_asked [(str "n1", str "n3", ask_1)]
    (with_answered ((str "n1", str "n2", vote_resp_ (fst voter_2)) :: answered election_2)
      (with_member (str "n2") voter_2 election_2)).
Definition election_4 : Cluster := with_answered [] (with_member (str "n1") leader_1 election_3).

Lemma demo_started : started demo_peers election_0.
Proof.
  split_and!; try done. intros id w Hw.
  assert (id ∈ demo_peers) as Hid.
  { assert (id ∈ dom (members election_0)) as Hd by (apply elem_of_dom; by eexists).
    revert Hd. cbn [members election_0 list_to_map]. unfold demo_peers. clear. set_solver. }
  unfold demo_peers in Hid.
  repeat (apply elem_of_cons in Hid as [->|Hid]); [..|by apply not_elem_of_nil in Hid];
    vm_compute in Hw; injection Hw as <-; (split_and!; [by apply (bool_decide_unpack _); vm_compute|
      split; [done|right; done]|done|done|done|done]).
Qed.

Lemma some_default {A} (d : A) (x : option A) : is_Some x → x = Some (default d x).
Proof. by intros [y ->]. Qed.

Ltac computed := apply some_default, (bool_decide_unpack _); by vm_compute.

Abbreviation demo_step := (vote_step tick draw None (λ _, None) post_nothing).
Abbreviation demo_cluster_step := (cluster_step tick draw None None (λ _, []) (λ _, None) post_nothing).

Lemma demo_step_1 : demo_step election_0 election_1.
Proof.
  apply (cl_candidate _ _ _ _ _ _ (str "n1") (demo_member "n1") tt); by vm_compute.
Qed.

Lemma demo_step_2 : demo_step election_1 election_2.
Proof.
  apply (cl_ask _ _ _ _ _ _ (str "n1") (candidate_1, tt) ask_1);
    [by vm_compute|apply (bool_decide_unpack _); by vm_compute|by vm_compute].
Qed.

Lemma demo_step_3 : demo_step election_2 election_3.
Proof.
  apply (cl_vote _ _ _ _ _ _ (str "n1") (str "n2") ask_1 (demo_member "n2", tt) voter_2 []
    [(str "n1", str "n3", ask_1)]); [by vm_compute|by vm_compute|computed].
Qed.

Lemma demo_step_4 : demo_step election_3 election_4.
Proof.
  apply (cl_count _ _ _ _ _ _ (str "n1") (str "n2") (vote_resp_ (fst voter_2))
    (candidate_1, tt) leader_1 [] []); [by vm_compute|by vm_compute|computed].
Qed.

Lemma demo_votes : rtc demo_step election_0 election_4.
Proof.
  eapply rtc_l; [exact demo_step_1|]. eapply rtc_l; [exact demo_step_2|].
  eapply rtc_l; [exact demo_step_3|]. eapply rtc_l; [exact demo_step_4|]. apply rtc_refl.
Qed.

Lemma demo_election : rtc demo_cluster_step election_0 election_4.
Proof. apply (rtc_subrel demo_step); [|exact demo_votes]. intros c c'. apply cl_vote_step. Qed.

(** [n1] leads term 1, and nobody else does. *)
Lemma election_safety_witness :
  members election_4 !! str "n1" = Some leader_1 ∧ state_ (fst leader_1) = LEADER ∧
  ∀ b wb, members election_4 !! b = Some wb → state_ (fst wb) = LEADER →
    current_term_ (fst leader_1) = current_term_ (fst wb) → str "n1" = b.
Proof.
  split; [by vm_compute|]. split; [by vm_compute|]. intros b wb Hb Lb Ht.
  apply (election_safety tick draw None None (λ _, []) (λ _, None) post_nothing demo_peers)
    with (c0 := election_0) (c := election_4) (wa := leader_1) (wb := wb);
    [apply (bool_decide_unpack _); by vm_compute|apply (bool_decide_unpack _); by vm_compute|apply demo_started|
     apply demo_election|by vm_compute|exact Hb|by vm_compute|exact Lb|exact Ht].
Defined.
