(* ===== verification/RaftReplication.v ===== *)
(** The Raft node's log: what is appended, what is committed and what is applied. *)
From S2P Require Import Prelude Coding Raft RaftRpc RaftDurable.

(** * Logs *)

Abbreviation index_lt := (λ a b : LogEntry, le_index a < le_index b).

(** The sentinel, then entries of increasing indices. *)
Record wf_log (log : list LogEntry) : Prop := {
  wf_head : log = dummy_entry :: tail log;
  wf_sorted : StronglySorted index_lt log;
  wf_range : Forall (λ e, 0 <= le_index e < 2 ^ 64) log;
}.

Definition last_index (log : list LogEntry) : Z := le_index (log_last log).

Lemma log_back_last log : log ≠ [] → last log = Some (log_last log).
Proof. intros [x Hx]%last_is_Some. unfold log_last. by rewrite Hx. Qed.

Lemma wf_log_nonempty log : wf_log log → log ≠ [].
Proof. intros [H _ _] ->. done. Qed.

Lemma sorted_last_ge log x : StronglySorted index_lt log → x ∈ log → le_index x <= last_index log.
Proof.
  unfold last_index, log_last. induction log as [|e log IH] using rev_ind; intros Hs Hx.
  { by apply not_elem_of_nil in Hx. }
  rewrite last_snoc. simpl. apply elem_of_app in Hx as [Hx|Hx].
  - apply Z.lt_le_incl. eapply (StronglySorted_app_1_elem_of index_lt); [exact Hs|done|left].
  - apply list_elem_of_singleton in Hx as ->. lia.
Qed.

Lemma sorted_snoc log x :
  StronglySorted index_lt log → (log = [] ∨ last_index log < le_index x) →
  StronglySorted index_lt (log ++ [x]).
Proof.
  intros Hs Hx. apply StronglySorted_app. split_and!; [|done|repeat constructor].
  intros a b Ha Hb%list_elem_of_singleton. subst b. destruct Hx as [->|Hx]; [by apply not_elem_of_nil in Ha|].
  pose proof (sorted_last_ge _ _ Hs Ha). lia.
Qed.

Lemma find_index_elem i log x : find_index i log = Some x → x ∈ log ∧ le_index x = i.
Proof.
  induction log as [|y log IH]; simpl; [done|].
  destruct (Z.eqb_spec (le_index y) i).
  - intros [= ->]. split; [left|done].
  - intros H. destruct (IH H). split; [by right|done].
Qed.

Lemma find_index_sorted log x :
  StronglySorted index_lt log → x ∈ log → find_index (le_index x) log = Some x.
Proof.
  intros Hs. induction Hs as [|y log Hs IH Hy]; intros Hx; [by apply not_elem_of_nil in Hx|].
  simpl. destruct (Z.eqb_spec (le_index y) (le_index x)) as [E|E].
  - apply elem_of_cons in Hx as [->|Hx]; [done|]. rewrite Forall_forall in Hy.
    specialize (Hy x Hx). simpl in Hy. lia.
  - apply elem_of_cons in Hx as [->|Hx]; [done|]. by apply IH.
Qed.

Lemma find_index_app i a b :
  find_index i (a ++ b) =
    match find_index i a with Some x => Some x | None => find_index i b end.
Proof. induction a as [|x a IH]; simpl; [done|]. by destruct (_ =? _). Qed.

(** * Applying *)

(** The entries of a log that reach the state machine when the applied position
    moves from [lo] to [hi]. *)
Definition applies (lo hi : Z) (e : LogEntry) : Prop :=
  lo < le_index e ∧ le_index e <= hi ∧ le_command e ≠ [].

#[export] Instance applies_dec lo hi e : Decision (applies lo hi e).
Proof. unfold applies. apply _. Defined.

Definition entries_in (log : list LogEntry) (lo hi : Z) : list LogEntry :=
  filter (applies lo hi) log.

Definition apply_all {E} (apply : Z → bytes → E → E) (es : list LogEntry) (e : E) : E :=
  foldl (λ e x, apply (le_index x) (le_command x) e) e es.

Lemma entries_in_none log lo hi : Forall (λ x, ¬ applies lo hi x) log → entries_in log lo hi = [].
Proof.
  intros H. unfold entries_in. induction H as [|x log Hx H IH]; [done|].
  by rewrite filter_cons_False.
Qed.

Lemma entries_in_nil log lo hi : hi <= lo → entries_in log lo hi = [].
Proof. intros H. apply entries_in_none, Forall_forall. unfold applies. intros x _. lia. Qed.

Lemma entries_in_above log lo hi :
  Forall (λ x, hi < le_index x) log → entries_in log lo hi = [].
Proof.
  intros H. apply entries_in_none. eapply Forall_impl; [exact H|]. unfold applies. simpl. lia.
Qed.

Lemma entries_in_step log lo hi :
  StronglySorted index_lt log → lo < hi →
  entries_in log lo hi =
    match find_index (lo + 1) log with
    | Some x => if bool_decide (le_command x = []) then [] else [x]
    | None => []
    end ++ entries_in log (lo + 1) hi.
Proof.
  intros Hs Hlh. induction Hs as [|y log Hs IH Hy]; [done|].
  unfold entries_in in *. cbn [find_index]. rewrite Forall_forall in Hy.
  destruct (Z.eqb_spec (le_index y) (lo + 1)) as [Heq|Hne].
  - rewrite (filter_cons_False (applies (lo + 1) hi)) by (unfold applies; lia).
    assert (filter (applies lo hi) log = filter (applies (lo + 1) hi) log) as Hf.
    { apply filter_ext_elem. intros x Hx. specialize (Hy x Hx).
      simpl in Hy. unfold applies. split; intros (?&?&?); split_and!; try done; lia. }
    case_bool_decide.
    + rewrite filter_cons_False by (unfold applies; tauto). exact Hf.
    + rewrite filter_cons_True by (unfold applies; split_and!; [lia|lia|done]).
      by rewrite Hf.
  - destruct (decide (applies lo hi y)) as [H|H].
    + rewrite filter_cons_True by done.
      assert (applies (lo + 1) hi y) by (unfold applies in *; split_and!; [lia|apply H..]).
      rewrite filter_cons_True by done.
      rewrite IH. destruct (find_index (lo + 1) log) as [x|] eqn:Hf; [|done].
      apply find_index_elem in Hf as [Hx Hi]. specialize (Hy x Hx). simpl in Hy.
      unfold applies in H. lia.
    + rewrite filter_cons_False by done. rewrite filter_cons_False; [exact IH|].
      unfold applies in *. intros (?&?&?). apply H. split_and!; [lia|done..].
Qed.

Section Apply.
Context {E : Type} (apply : Z → bytes → E → E).
Abbreviation World := (RaftNode * E)%type.

Lemma ApplyCommitted_loop_spec n up st e :
  StronglySorted index_lt (log_ st) → 0 <= last_applied_ st → up < 2 ^ 64 →
  (Z.to_nat (up - last_applied_ st) < n)%nat →
  ApplyCommitted_loop (Some apply) n up (st, e) =
    Some (set_last_applied_ (Z.max (last_applied_ st) up) st,
      apply_all apply (entries_in (log_ st) (last_applied_ st) up) e).
Proof.
  intros Hs. revert st e Hs. induction n as [|n IH]; intros st e Hs Hla Hup Hn; [lia|].
  cbn [ApplyCommitted_loop fst]. destruct (Z.ltb_spec (last_applied_ st) up) as [Hlt|Hge].
  - assert (u64 (last_applied_ st + 1) = last_applied_ st + 1) as Hu by (apply u64_small; lia).
    rewrite (entries_in_step _ _ _ Hs Hlt).
    set (st1 := set_last_applied_ (last_applied_ st + 1) st).
    assert (apply_next (Some apply) (st, e) =
      (st1, apply_all apply
        match find_index (last_applied_ st + 1) (log_ st) with
        | Some x => if bool_decide (le_command x = []) then [] else [x]
        | None => []
        end e)) as ->.
    { unfold apply_next, GetLogEntry. raft_simpl. rewrite Hu. fold st1.
      destruct (find_index _ _) as [x|] eqn:Hf; [|done].
      apply find_index_elem in Hf as [_ Hi]. case_bool_decide; [done|].
      unfold apply_all. cbn [foldl]. by rewrite Hi. }
    rewrite IH; [|done|subst st1; raft_simpl; lia..].
    subst st1. raft_simpl. unfold apply_all at 3. rewrite foldl_app.
    f_equal. f_equal. destruct st. cbv [set_last_applied_]. raft_simpl. f_equal. lia.
  - rewrite entries_in_nil by lia. rewrite Z.max_l by lia. by destruct st.
Qed.

(** [ApplyCommitted] gives the state machine the commands of the entries between
    the old and the new position, once each and in the order of their indices. *)
Lemma ApplyCommitted_spec up st e :
  StronglySorted index_lt (log_ st) → 0 <= last_applied_ st → up < 2 ^ 64 →
  ApplyCommitted (Some apply) up (st, e) =
    Some (set_last_applied_ (Z.max (last_applied_ st) up) st,
      apply_all apply (entries_in (log_ st) (last_applied_ st) up) e).
Proof. intros. unfold ApplyCommitted. apply ApplyCommitted_loop_spec; [done..|simpl; lia]. Qed.

End Apply.

(** * Committing *)

(** The peers known to hold entry [n], the node itself left out. *)
Definition holders (st : RaftNode) (n : Z) : list bytes :=
  filter (λ p, p ≠ my_id_ st ∧ n <= default 0 (match_index_ st !! p)) (peers (config_ st)).

(** Entry [n] is of the current term and on a strict majority of the cluster. *)
Definition committable (st : RaftNode) (n : Z) : Prop :=
  ∃ x, GetLogEntry st n = Some x ∧ le_term x = current_term_ st ∧
    zlen (peers (config_ st)) < 2 * (1 + zlen (holders st n)).

Lemma replica_count_holders st n :
  0 < n → replica_count st n = 1 + zlen (holders st n).
Proof.
  intros Hn. unfold replica_count, holders.
  match goal with |- foldl ?f _ _ = 1 + zlen (filter ?P _) =>
    enough (∀ c, foldl f c (peers (config_ st)) = c + zlen (filter P (peers (config_ st))))
      by auto end.
  induction (peers (config_ st)) as [|p ps IH]; intros c; simpl.
  { rewrite filter_nil, zlen_nil. lia. }
  rewrite IH, filter_cons. case_bool_decide as Hp.
  - rewrite decide_False by tauto. done.
  - destruct (match_index_ st !! p) as [m|]; cbn [default from_option].
    + destruct (Z.leb_spec n m).
      * rewrite decide_True by (split; [done|simpl; lia]). rewrite zlen_cons. lia.
      * rewrite decide_False by (simpl; lia). done.
    + rewrite decide_False by lia. done.
Qed.

Lemma committable_test st n x :
  0 < n → GetLogEntry st n = Some x →
  (le_term x =? current_term_ st) && (majority st <=? replica_count st n) = true ↔
  committable st n.
Proof.
  intros Hn Hx. rewrite replica_count_holders by done. unfold majority, committable.
  rewrite andb_true_iff, Z.eqb_eq, Z.leb_le. pose proof (zlen_nonneg (peers (config_ st))).
  split.
  - intros [Ht Hc]. exists x. split_and!; [done..|].
    Z.to_euclidean_division_equations; lia.
  - intros (y & Hy & Ht & Hc). rewrite Hx in Hy. injection Hy as <-. split; [done|].
    Z.to_euclidean_division_equations; lia.
Qed.

Lemma AdvanceCommitIndex_loop_spec {E} (cb : option (Z → bytes → E → E)) f n st e :
  0 <= commit_index_ st → (Z.to_nat (n - commit_index_ st) < f)%nat →
  (∃ m, commit_index_ st < m <= n ∧ committable st m ∧
    (∀ k, m < k <= n → ¬ committable st k) ∧
    AdvanceCommitIndex_loop cb f n (st, e) = ApplyCommitted cb m (set_commit_index_ m st, e)) ∨
  ((∀ k, commit_index_ st < k <= n → ¬ committable st k) ∧
    AdvanceCommitIndex_loop cb f n (st, e) = Some (st, e)).
Proof.
  intros Hc. revert n. induction f as [|f IH]; intros n Hf; [lia|].
  cbn [AdvanceCommitIndex_loop fst]. destruct (Z.ltb_spec (commit_index_ st) n) as [Hlt|Hge].
  2:{ right. split; [lia|done]. }
  assert (¬ committable st n →
    AdvanceCommitIndex_loop cb (S f) n (st, e) = AdvanceCommitIndex_loop cb f (n - 1) (st, e) →
    (∃ m, commit_index_ st < m <= n ∧ committable st m ∧
      (∀ k, m < k <= n → ¬ committable st k) ∧
      AdvanceCommitIndex_loop cb (S f) n (st, e) = ApplyCommitted cb m (set_commit_index_ m st, e)) ∨
    ((∀ k, commit_index_ st < k <= n → ¬ committable st k) ∧
      AdvanceCommitIndex_loop cb (S f) n (st, e) = Some (st, e))) as Hnext.
  { intros Hn ->. destruct (IH (n - 1) ltac:(lia)) as [(m & Hm & Hcm & Hk & ->)|[Hk ->]].
    - left. exists m. split_and!; [lia|lia|done| |done]. intros k Hkm.
      destruct (decide (k = n)) as [->|]; [done|]. apply Hk. lia.
    - right. split; [|done]. intros k Hkm.
      destruct (decide (k = n)) as [->|]; [done|]. apply Hk. lia. }
  cbn [AdvanceCommitIndex_loop fst] in Hnext. rewrite (proj2 (Z.ltb_lt _ _) Hlt) in Hnext.
  destruct (GetLogEntry st n) as [x|] eqn:Hx.
  - pose proof (committable_test st n x ltac:(lia) Hx) as Ht.
    destruct (_ && _); [|apply Hnext; [by intros ?%Ht|done]].
    left. exists n. split_and!; [done|lia|by apply Ht|lia|done].
  - apply Hnext; [|done]. intros (y & Hy & _). congruence.
Qed.

(** What the methods keep true of the positions and the log. *)
Record wf_node (st : RaftNode) : Prop := {
  wf_node_log : wf_log (log_ st);
  wf_commit : 0 <= commit_index_ st < 2 ^ 64;
  wf_applied : last_applied_ st = commit_index_ st;
}.

(** [AdvanceCommitIndex] as an assignment of the two positions. *)
Lemma AdvanceCommitIndex_moves {E} (apply : Z → bytes → E → E) st e :
  wf_node st →
  ∃ n, commit_index_ st <= n ∧ (n = commit_index_ st ∨ n <= last_index (log_ st) ∧ committable st n) ∧
    (∀ k, n < k <= last_index (log_ st) → ¬ committable st k) ∧
    AdvanceCommitIndex (Some apply) (st, e) =
      Some (set_last_applied_ n (set_commit_index_ n st),
        apply_all apply (entries_in (log_ st) (commit_index_ st) n) e).
Proof.
  intros [Hl Hc Ha]. unfold AdvanceCommitIndex, log_back. cbn [fst].
  rewrite log_back_last by (by apply wf_log_nonempty). cbn [mbind option_bind].
  fold (last_index (log_ st)).
  destruct (AdvanceCommitIndex_loop_spec (Some apply)
    (S (Z.to_nat (last_index (log_ st) - commit_index_ st))) (last_index (log_ st)) st e)
    as [(m & Hm & Hcm & Hk & ->)|[Hk ->]]; [lia|lia| |].
  - exists m. split_and!; [lia|right; split; [lia|done]|done|].
    assert (last_index (log_ st) < 2 ^ 64).
    { pose proof (log_back_last _ (wf_log_nonempty _ Hl)) as Hb.
      apply last_Some_elem_of in Hb. destruct Hl as [_ _ Hr]. rewrite Forall_forall in Hr.
      apply (Hr _ Hb). }
    rewrite ApplyCommitted_spec; raft_simpl; [|apply Hl|lia|lia].
    rewrite Ha. by rewrite Z.max_r by lia.
  - exists (commit_index_ st). split_and!; [lia|by left|done|].
    rewrite entries_in_nil by lia. destruct st. raft_simpl. by rewrite <- Ha.
Qed.

(** C17: [AdvanceCommitIndex] moves the commit position to the last entry of the
    current term that a majority is known to hold, if it lies beyond, and applies
    every entry on the way, once and in order. *)
Theorem AdvanceCommitIndex_commits_majority {E} (apply : Z → bytes → E → E) st e :
  wf_node st →
  ∃ n, commit_index_ st <= n ∧ (n = commit_index_ st ∨ n <= last_index (log_ st) ∧ committable st n) ∧
    (∀ k, n < k <= last_index (log_ st) → ¬ committable st k) ∧
    AdvanceCommitIndex (Some apply) (st, e) =
      Some (set_last_applied_ n (set_commit_index_ n st),
        apply_all apply (entries_in (log_ st) (commit_index_ st) n) e).
Proof. apply AdvanceCommitIndex_moves. Qed.

(** * Replicating *)

Lemma last_index_snoc log x : last_index (log ++ [x]) = le_index x.
Proof. unfold last_index, log_last. by rewrite last_snoc. Qed.

Lemma wf_log_snoc log x :
  wf_log log → last_index log < le_index x < 2 ^ 64 → wf_log (log ++ [x]).
Proof.
  intros [Hh Hs Hr] [Hx Hx2]. split.
  - rewrite Hh. done.
  - apply sorted_snoc; [done|by right].
  - apply Forall_app. split; [done|]. constructor; [|constructor].
    assert (0 <= last_index log); [|lia].
    etransitivity; [|apply (sorted_last_ge log dummy_entry)]; [done|done|]. rewrite Hh. left.
Qed.

(** The loop of [HandleAppendEntries] appends exactly the entries beyond the end
    of the log. *)
Definition new_entries (log es : list LogEntry) : list LogEntry :=
  filter (λ x, last_index log < le_index x) es.

Lemma append_entries_spec es st :
  wf_log (log_ st) → StronglySorted index_lt es → Forall (λ x, le_index x < 2 ^ 64) es →
  append_entries es st = Some (set_log_ (log_ st ++ new_entries (log_ st) es) st) ∧
  wf_log (log_ st ++ new_entries (log_ st) es).
Proof.
  intros Hl Hs Hr. revert st Hl. induction Hs as [|x es Hs IH Hx]; intros st Hl.
  { cbn [append_entries]. unfold new_entries. rewrite filter_nil, app_nil_r.
    split; [by destruct st|done]. }
  apply Forall_cons in Hr as [Hrx Hr]. cbn [append_entries]. unfold log_back.
  rewrite log_back_last by (by apply wf_log_nonempty). cbn [mbind option_bind].
  fold (last_index (log_ st)). unfold new_entries. rewrite filter_cons.
  destruct (Z.ltb_spec (last_index (log_ st)) (le_index x)) as [Hlt|Hge].
  - rewrite decide_True by done.
    destruct (IH Hr (set_log_ (log_ st ++ [x]) st)) as [-> Hwf].
    { raft_simpl. by apply wf_log_snoc. }
    raft_simpl. unfold new_entries in *. rewrite last_index_snoc in *.
    rewrite (filter_ext_elem (λ y, last_index (log_ st) < le_index y)
      (λ y, le_index x < le_index y)).
    + rewrite <- app_assoc in *. split; [by destruct st|done].
    + intros y Hy. rewrite Forall_forall in Hx. specialize (Hx y Hy). simpl in Hx. lia.
  - rewrite decide_False by lia. by apply IH.
Qed.

Lemma new_entries_above log es : Forall (λ x, last_index log < le_index x) (new_entries log es).
Proof. apply Forall_forall. intros x [Hx _]%list_elem_of_filter. done. Qed.

(** ** Cutting a log *)

Definition cut_log (idx : Z) (log : list LogEntry) : list LogEntry :=
  filter (λ x, le_index x < idx) log.

Lemma pop_back_while_spec idx log :
  StronglySorted index_lt log → (∃ x, x ∈ log ∧ le_index x < idx) →
  pop_back_while idx (rev log) = Some (rev (cut_log idx log)).
Proof.
  unfold cut_log. induction log as [|y log IH] using rev_ind; intros Hs (x & Hx & Hlt).
  { by apply not_elem_of_nil in Hx. }
  rewrite rev_app_distr. cbn [rev app pop_back_while]. rewrite filter_app, filter_cons, filter_nil.
  pose proof Hs as Hs1. apply StronglySorted_app_1_l in Hs1.
  destruct (Z.leb_spec idx (le_index y)).
  - rewrite decide_False by lia. rewrite app_nil_r. apply IH; [done|]. exists x.
    apply elem_of_app in Hx as [Hx|Hx%list_elem_of_singleton]; [done|subst; lia].
  - rewrite decide_True by done. rewrite rev_app_distr. simpl. f_equal. f_equal. f_equal.
    symmetry. apply filter_all. intros z Hz.
    pose proof (StronglySorted_app_1_elem_of index_lt _ _ z y Hs Hz ltac:(left)). simpl in *. lia.
Qed.

Lemma wf_log_cut idx log : wf_log log → 0 < idx → wf_log (cut_log idx log).
Proof.
  intros [Hh Hs Hr] Hi. unfold cut_log. split.
  - rewrite Hh. rewrite filter_cons_True by done. done.
  - clear Hh Hr. induction Hs as [|x log Hs IH Hx]; [constructor|].
    rewrite filter_cons. destruct (decide _); [|done]. constructor; [done|].
    rewrite Forall_forall in *. intros y [_ Hy]%list_elem_of_filter. by apply Hx.
  - rewrite Forall_forall in *. intros y [_ Hy]%list_elem_of_filter. by apply Hr.
Qed.

Lemma truncate_conflict_spec f idx t st x :
  wf_log (log_ st) → 0 < idx → GetLogEntry st idx = Some x → le_term x ≠ t →
  truncate_conflict (S f) idx t st = Some (set_log_ (cut_log idx (log_ st)) st).
Proof.
  intros Hl Hi Hx Ht. cbn [truncate_conflict]. unfold log_back.
  rewrite log_back_last by (by apply wf_log_nonempty). cbn [mbind option_bind].
  fold (last_index (log_ st)). pose proof (find_index_elem _ _ _ Hx) as [Hin Hxi].
  pose proof (sorted_last_ge _ _ (wf_sorted _ Hl) Hin).
  destruct (Z.leb_spec idx (last_index (log_ st))); [|lia].
  rewrite Hx. destruct (Z.eqb_spec (le_term x) t); [done|].
  rewrite pop_back_while_spec; [|apply Hl|].
  - cbn [mbind option_bind]. by rewrite rev_involutive.
  - exists dummy_entry. split; [|done]. rewrite (wf_head _ Hl). left.
Qed.

(** ** [HandleAppendEntries] on every branch *)

(** A request whose fields fit their types, with entries in the order of their
    indices, and with the term of the sentinel if it refers to the sentinel. *)
Record request_ok (req : AppendEntriesRequest) : Prop := {
  rq_sorted : StronglySorted index_lt (ae_entries req);
  rq_range : Forall (λ x, le_index x < 2 ^ 64) (ae_entries req);
  rq_commit : 0 <= ae_leader_commit req < 2 ^ 64;
  rq_prev : 0 <= ae_prev_log_index req;
  rq_zero : ae_prev_log_index req = 0 → ae_prev_log_term req = 0;
}.

Definition extended_log (req : AppendEntriesRequest) (st : RaftNode) : list LogEntry :=
  log_ st ++ new_entries (log_ st) (ae_entries req).

Definition advanced_commit (req : AppendEntriesRequest) (st : RaftNode) : Z :=
  Z.max (commit_index_ st) (Z.min (ae_leader_commit req) (last_index (extended_log req st))).

Definition set_positions (c : Z) (st : RaftNode) : RaftNode :=
  set_last_applied_ c (set_commit_index_ c st).

Definition accepted (req : AppendEntriesRequest) (st : RaftNode) : RaftNode :=
  ae_resp_set_match_index (last_index (extended_log req st))
    (ae_resp_set_success true
      (set_positions (advanced_commit req st) (PersistState (set_log_ (extended_log req st) st)))).

Lemma set_positions_id c st : last_applied_ st = c → commit_index_ st = c → set_positions c st = st.
Proof. intros <- H. unfold set_positions. destruct st. raft_simpl. by subst. Qed.

(** The file is all that [PersistState] changes. *)
Lemma PersistState_file st : ∃ f, PersistState st = set_state_file f st.
Proof.
  unfold PersistState. destruct (written _ _).
  - by eexists.
  - exists (state_file st). by destruct st.
Qed.

Lemma wf_log_last_range log : wf_log log → 0 <= last_index log < 2 ^ 64.
Proof.
  intros Hl. pose proof (log_back_last _ (wf_log_nonempty _ Hl)) as Hb.
  apply last_Some_elem_of in Hb. destruct Hl as [_ _ Hr]. rewrite Forall_forall in Hr.
  apply (Hr _ Hb).
Qed.

Lemma accept_entries_spec {E} (apply : Z → bytes → E → E) req st e :
  wf_node st → request_ok req →
  accept_entries (Some apply) req (st, e) =
    Some (accepted req st,
      apply_all apply (entries_in (extended_log req st) (commit_index_ st)
        (advanced_commit req st)) e).
Proof.
  intros [Hl Hc Ha] [Hes Her Hcm _ _]. unfold accept_entries. cbn [fst snd].
  destruct (append_entries_spec (ae_entries req) st Hl Hes Her) as [-> Hl'].
  fold (extended_log req st) in Hl' |- *. pose proof (wf_log_nonempty _ Hl') as Hne. cbn [mbind option_bind]. unfold accepted.
  set (st1 := PersistState (set_log_ (extended_log req st) st)).
  assert (log_ st1 = extended_log req st ∧ commit_index_ st1 = commit_index_ st ∧
    last_applied_ st1 = commit_index_ st) as (H1 & H2 & H3).
  { subst st1. destruct (PersistState_file (set_log_ (extended_log req st) st)) as [f ->]. done. }
  clearbody st1. unfold log_back. cbn [fst snd on_node]. rewrite H1, (log_back_last _ Hne).
  cbn [mbind option_bind]. fold (last_index (extended_log req st)).
  pose proof (wf_log_last_range _ Hl') as Hlast. rewrite H2.
  match goal with |- context [(if ?b then ?x else ?y) ≫= _] =>
    enough ((if b then x else y) = Some (set_positions (advanced_commit req st) st1,
      apply_all apply (entries_in (extended_log req st) (commit_index_ st)
        (advanced_commit req st)) e)) as -> end.
  { cbn [mbind option_bind fst]. unfold set_positions. raft_simpl.
    by rewrite H1, (log_back_last _ Hne). }
  unfold advanced_commit. destruct (Z.ltb_spec (commit_index_ st) (ae_leader_commit req)).
  - destruct (Z.ltb_spec (commit_index_ st)
      (Z.min (ae_leader_commit req) (last_index (extended_log req st)))).
    + unfold on_node. cbn [fst snd]. rewrite ApplyCommitted_spec; raft_simpl; rewrite ?H1; [|apply Hl'|lia|lia].
      rewrite H3, !(Z.max_r (commit_index_ st)) by lia. done.
    + rewrite Z.max_l by lia. rewrite entries_in_nil by lia.
      by rewrite set_positions_id.
  - rewrite Z.max_l by lia. rewrite entries_in_nil by lia.
    by rewrite set_positions_id.
Qed.

Inductive append_case := StaleTerm | LogTooShort | PrevConflict | PrevInSnapshot | PrevMatches.

Definition append_case_of (req : AppendEntriesRequest) (st : RaftNode) : append_case :=
  if ae_term req <? current_term_ st then StaleTerm
  else if last_index (log_ st) <? ae_prev_log_index req then LogTooShort
  else if ae_prev_log_index req <? snapshot_last_index_ st then PrevInSnapshot
  else match GetLogEntry st (ae_prev_log_index req) with
  | Some prev => if le_term prev =? ae_prev_log_term req then PrevMatches else PrevConflict
  | None => PrevMatches
  end.

(** What the follower's log, commit position and response become. *)
Definition append_log (req : AppendEntriesRequest) (st : RaftNode) : list LogEntry :=
  match append_case_of req st with
  | PrevMatches => extended_log req st
  | PrevConflict => cut_log (ae_prev_log_index req) (log_ st)
  | _ => log_ st
  end.

Definition append_commit (req : AppendEntriesRequest) (st : RaftNode) : Z :=
  match append_case_of req st with
  | PrevMatches => advanced_commit req st
  | _ => commit_index_ st
  end.

Definition append_response (req : AppendEntriesRequest) (st : RaftNode) : AppendEntriesResponse :=
  mkAppendResponse (Z.max (current_term_ st) (ae_term req))
    match append_case_of req st with PrevMatches => true | _ => false end
    match append_case_of req st with
    | StaleTerm => ar_match_index (ae_resp_ st)
    | PrevInSnapshot => snapshot_last_index_ st
    | _ => last_index (append_log req st)
    end.

Section Append.
Context {E : Type} (now : E → Z) (uniform_int : Z → Z → E → Z * E).
Context (apply : Z → bytes → E → E).

(** The world after the election timer was reset, for a request that is not
    stale. *)
Definition append_world (req : AppendEntriesRequest) (st : RaftNode) (e : E) : E :=
  match append_case_of req st with
  | StaleTerm => e
  | _ => let t := election_timeout_ms (config_ st) in snd (uniform_int t (t * 2) e)
  end.

(** The node that compares the previous entry: the term and the leader adopted,
    the timer reset. *)
Definition prepared (from : bytes) (req : AppendEntriesRequest) (st st2 : RaftNode) : Prop :=
  log_ st2 = log_ st ∧ commit_index_ st2 = commit_index_ st ∧
  last_applied_ st2 = last_applied_ st ∧ snapshot_last_index_ st2 = snapshot_last_index_ st ∧
  snapshot_last_term_ st2 = snapshot_last_term_ st ∧ current_term_ st2 = ae_term req ∧ ar_term (ae_resp_ st2) = ae_term req ∧
  state_ st2 = FOLLOWER ∧ leader_id_ st2 = from.

Lemma append_prepare from req st e :
  current_term_ st <= ae_term req →
  ∃ st2 : RaftNode,
    ResetElectionTimer now uniform_int
      (on_node (λ st, set_state_ FOLLOWER (set_leader_id_ from st))
        (if current_term_ st <? ae_term req then
           on_node (λ st,
             let st := set_current_term_ (ae_term req) st in
             let st := set_state_ FOLLOWER st in
             let st := set_voted_for_ [] st in
             let st := PersistState st in
             ae_resp_set_term (current_term_ st) st) (ae_resp_set_term (current_term_ st) st, e)
         else (ae_resp_set_term (current_term_ st) st, e))) =
      (st2, snd (uniform_int (election_timeout_ms (config_ st))
              (election_timeout_ms (config_ st) * 2) e)) ∧
    prepared from req st st2.
Proof.
  intros Hle. unfold prepared. unfold ResetElectionTimer, RandomElectionTimeout.
  destruct (Z.ltb_spec (current_term_ st) (ae_term req)) as [Hlt|Hge].
  - destruct (PersistState_file (set_voted_for_ [] (set_state_ FOLLOWER
      (set_current_term_ (ae_term req) (ae_resp_set_term (current_term_ st) st))))) as [f Hf].
    raft_simpl. rewrite Hf. raft_simpl.
    destruct (uniform_int _ _ e) as [d e1]. raft_simpl.
    eexists. split; [reflexivity|]. raft_simpl. by split_and!.
  - raft_simpl. destruct (uniform_int _ _ e) as [d e1]. raft_simpl.
    eexists. split; [reflexivity|]. raft_simpl. split_and!; try done; lia.
Qed.

Lemma accepted_wf req st : wf_node st → request_ok req → wf_node (accepted req st).
Proof.
  intros [Hl Hc Ha] [Hes Her Hcm _ _].
  destruct (append_entries_spec (ae_entries req) st Hl Hes Her) as [_ Hl'].
  fold (extended_log req st) in Hl'. pose proof (wf_log_last_range _ Hl').
  unfold accepted. destruct (PersistState_file (set_log_ (extended_log req st) st)) as [f ->].
  unfold set_positions. raft_simpl. split; raft_simpl; [done| |done].
  unfold advanced_commit. lia.
Qed.

(** The previous entry matches. *)
Lemma accept_branch from req st st2 e1 :
  wf_node st2 → request_ok req → prepared from req st st2 →
  ∃ st', accept_entries (Some apply) req (st2, e1) =
      Some (st', apply_all apply
        (entries_in (extended_log req st) (commit_index_ st) (advanced_commit req st)) e1) ∧
    wf_node st' ∧ log_ st' = extended_log req st ∧ commit_index_ st' = advanced_commit req st ∧
    ae_resp_ st' = mkAppendResponse (ae_term req) true (last_index (extended_log req st)) ∧
    current_term_ st' = ae_term req ∧ state_ st' = FOLLOWER ∧ leader_id_ st' = from ∧
    snapshot_last_index_ st' = snapshot_last_index_ st ∧ snapshot_last_term_ st' = snapshot_last_term_ st.
Proof.
  intros Hwf2 Hreq (L2 & C2 & A2 & S2 & P2 & T2 & R2 & F2 & I2).
  rewrite accept_entries_spec by done. unfold advanced_commit, extended_log.
  rewrite L2, C2. eexists. split; [done|]. split; [by apply accepted_wf|].
  unfold accepted, advanced_commit, extended_log, set_positions. rewrite L2, C2.
  destruct (PersistState_file (set_log_ (log_ st ++ new_entries (log_ st) (ae_entries req)) st2))
    as [f ->].
  raft_simpl. rewrite R2. done.
Qed.

(** The previous entry has another term: the log is cut there. *)
Lemma conflict_branch f from req st st2 prev :
  wf_node st2 → request_ok req → prepared from req st st2 →
  find_index (ae_prev_log_index req) (log_ st) = Some prev → le_term prev ≠ ae_prev_log_term req →
  truncate_conflict (S f) (ae_prev_log_index req) (ae_prev_log_term req) st2 =
    Some (set_log_ (cut_log (ae_prev_log_index req) (log_ st)) st2) ∧
  wf_log (cut_log (ae_prev_log_index req) (log_ st)).
Proof.
  intros [Hl _ _] [_ _ _ Hp Hz] (L2 & _) Hprev Ht. rewrite L2 in Hl.
  assert (0 < ae_prev_log_index req) as Hpos.
  { destruct (decide (ae_prev_log_index req = 0)) as [H0|]; [|lia]. exfalso.
    rewrite H0, (wf_head _ Hl) in Hprev. simpl in Hprev. injection Hprev as <-.
    simpl in Ht. by rewrite (Hz H0) in Ht. }
  split; [|by apply wf_log_cut]. rewrite <- L2 in *.
  by apply (truncate_conflict_spec _ _ _ _ prev).
Qed.

Lemma append_branches from req st e :
  wf_node st → request_ok req →
  ∃ st', HandleAppendEntries now uniform_int (Some apply) from req (st, e) =
      Some (st', apply_all apply
        (entries_in (append_log req st) (commit_index_ st) (append_commit req st))
        (append_world req st e)) ∧
    wf_node st' ∧ log_ st' = append_log req st ∧ commit_index_ st' = append_commit req st ∧
    ae_resp_ st' = append_response req st ∧
    current_term_ st' = Z.max (current_term_ st) (ae_term req) ∧
    (append_case_of req st ≠ StaleTerm → state_ st' = FOLLOWER ∧ leader_id_ st' = from) ∧
    snapshot_last_index_ st' = snapshot_last_index_ st ∧ snapshot_last_term_ st' = snapshot_last_term_ st.
Proof.
  intros Hwf Hreq. pose proof Hwf as [Hl Hc Ha].
  unfold append_commit, append_response, append_world, append_log.
  assert (append_case_of req st = append_case_of req st) as Hcase by done.
  unfold append_case_of at 1 in Hcase. unfold HandleAppendEntries. cbn [on_node fst snd].
  change (current_term_ (ae_resp_set_term (current_term_ st) st)) with (current_term_ st).
  destruct (Z.ltb_spec (ae_term req) (current_term_ st)) as [Hlt|Hge].
  { rewrite <- Hcase. eexists. split; [by rewrite entries_in_nil by lia|].
    raft_simpl. split_and!; try done; [by f_equal; lia|lia]. }
  destruct (append_prepare from req st e Hge) as (st2 & Hprep & Hst2).
  match goal with |- context [ResetElectionTimer now uniform_int ?w] =>
    erewrite (eq_trans (eq_refl (ResetElectionTimer now uniform_int w)) Hprep) end.
  clear Hprep. pose proof Hst2 as (L2 & C2 & A2 & S2 & P2 & T2 & R2 & F2 & I2).
  set (e1 := snd (uniform_int _ _ e)). unfold log_back. cbn [fst snd]. rewrite L2.
  rewrite log_back_last by (by apply wf_log_nonempty). cbn [mbind option_bind].
  change (le_index (log_last (log_ st))) with (last_index (log_ st)). rewrite S2.
  assert (wf_node st2) as Hwf2 by (split; [by rewrite L2|by rewrite C2|by rewrite A2, C2]).
  assert (Z.max (current_term_ st) (ae_term req) = ae_term req) as Hmax by lia. rewrite Hmax.
  pose proof (accept_branch from req st st2 e1 Hwf2 Hreq Hst2) as (st3 & Hacc & Hst3).
  destruct (Z.ltb_spec (last_index (log_ st)) (ae_prev_log_index req)) as [Hs|Hs].
  { rewrite <- Hcase. eexists. split; [by rewrite entries_in_nil by lia|].
    raft_simpl. destruct Hwf2. split_and!; try done. by f_equal. }
  destruct (Z.leb_spec (snapshot_last_index_ st) (ae_prev_log_index req)) as [Hsn|Hsn].
  - destruct (Z.ltb_spec (ae_prev_log_index req) (snapshot_last_index_ st)); [lia|].
    unfold GetLogEntry in *. rewrite L2.
    destruct (find_index (ae_prev_log_index req) (log_ st)) as [prev|] eqn:Hprev.
    + destruct (Z.eqb_spec (le_term prev) (ae_prev_log_term req)) as [Ht|Ht]; rewrite <- Hcase.
      * exists st3. split; [exact Hacc|]. intuition.
      * destruct (conflict_branch (S (Z.to_nat (last_index (log_ st) - ae_prev_log_index req))) from req st st2 prev)
          as [-> Hcut]; try done. cbn [mbind option_bind]. raft_simpl.
        rewrite log_back_last by (by apply wf_log_nonempty). cbn [mbind option_bind].
        eexists. split; [by rewrite entries_in_nil by lia|].
        match goal with |- context [PersistState ?s] => destruct (PersistState_file s) as [f ->] end.
        raft_simpl. rewrite R2. split_and!; try done. split; raft_simpl; [done|lia|congruence].
    + rewrite <- Hcase. exists st3. split; [exact Hacc|]. intuition.
  - destruct (Z.ltb_spec (ae_prev_log_index req) (snapshot_last_index_ st)); [|lia].
    destruct (Z.eqb_spec (ae_prev_log_index req) (snapshot_last_index_ st)); [lia|].
    rewrite <- Hcase. cbn [negb orb]. eexists. split; [by rewrite entries_in_nil by lia|].
    raft_simpl. destruct Hwf2. split_and!; try done. by f_equal.
Qed.

(** C10: [HandleAppendEntries] on every branch: the response, the log, the commit
    position and the commands applied. *)
Theorem HandleAppendEntries_spec from req st e :
  wf_node st → request_ok req →
  ∃ st', HandleAppendEntries now uniform_int (Some apply) from req (st, e) =
      Some (st', apply_all apply
        (entries_in (append_log req st) (commit_index_ st) (append_commit req st))
        (append_world req st e)) ∧
    wf_node st' ∧ log_ st' = append_log req st ∧ commit_index_ st' = append_commit req st ∧
    ae_resp_ st' = append_response req st ∧
    current_term_ st' = Z.max (current_term_ st) (ae_term req) ∧
    (append_case_of req st ≠ StaleTerm → state_ st' = FOLLOWER ∧ leader_id_ st' = from).
Proof.
  intros Hwf Hreq. destruct (append_branches from req st e Hwf Hreq) as (st' & ? & ? & ? & ? & ? & ? & ? & _).
  by exists st'.
Qed.
End Append.

(** [HandleAppendEntries] never replaces an entry: where the leader's entry
    differs from the follower's at the same index, the follower keeps its own and
    still answers that it matches. *)
Theorem HandleAppendEntries_keeps_conflict {E} now uniform_int (apply : Z → bytes → E → E)
    from req st e x y :
  wf_node st → request_ok req → append_case_of req st = PrevMatches →
  x ∈ ae_entries req → GetLogEntry st (le_index x) = Some y → y ≠ x →
  ∃ st' e', HandleAppendEntries now uniform_int (Some apply) from req (st, e) = Some (st', e') ∧
    ar_success (ae_resp_ st') = true ∧ le_index x <= ar_match_index (ae_resp_ st') ∧
    GetLogEntry st' (le_index x) = Some y.
Proof.
  intros Hwf Hreq Hcase Hx Hy Hne.
  destruct (HandleAppendEntries_spec now uniform_int apply from req st e Hwf Hreq)
    as (st' & -> & Hwf' & Hlog & _ & Hresp & _).
  eexists _, _. split; [done|]. unfold append_response, append_log in *. rewrite Hcase in *.
  rewrite Hresp. cbn [ar_success ar_match_index]. split; [done|].
  unfold GetLogEntry in *. rewrite Hlog. unfold extended_log in *. rewrite find_index_app, Hy.
  split; [|done]. apply find_index_elem in Hy as [Hin <-].
  apply sorted_last_ge; [rewrite <- Hlog; apply Hwf'|]. apply elem_of_app. by left.
Qed.

(** * Re-entrancy

    A message's response is handled inside the call that sent it.  The nesting is
    bounded and every call returns. *)
Section Total.
Context {E : Type} (now : E → Z) (uniform_int : Z → Z → E → Z * E).
Context (apply : Z → bytes → E → E).
Context (SerializeMessage : RaftMessage → bytes) (ParseMessage : bytes → option RaftMessage).
Context (exchange : bytes → Z → bytes → E → E * option (option bytes)).

Abbreviation World := (RaftNode * E)%type.
Abbreviation send d p m w := (fst <$> SendMessage now uniform_int (Some apply) SerializeMessage
  ParseMessage exchange d p m w).

(** Every peer's identifier either has no colon or has a port number after the
    last one. *)
Definition port_ok (peer : bytes) : Prop :=
  match rfind x3a peer with
  | None => True
  | Some colon => is_Some (stoi (drop (S colon) peer))
  end.

Definition sound (w : World) : Prop := wf_node (fst w) ∧ Forall port_ok (peers (config_ (fst w))).

Lemma sound_same st st' e e' :
  log_ st' = log_ st → commit_index_ st' = commit_index_ st →
  last_applied_ st' = last_applied_ st → config_ st' = config_ st →
  sound (st, e) → sound (st', e').
Proof.
  intros H1 H2 H3 H4 [[? ? ?] ?]. split; [split|]; cbn [fst] in *; congruence.
Qed.

Lemma step_down_state term st : state_ (step_down term st) = FOLLOWER.
Proof.
  unfold step_down. match goal with |- context [PersistState ?s] =>
    by destruct (PersistState_file s) as [f ->] end.
Qed.

Lemma step_down_sound term st e : sound (st, e) → sound (step_down term st, e).
Proof.
  unfold step_down. match goal with |- context [PersistState ?s] =>
    destruct (PersistState_file s) as [f ->] end. by apply sound_same.
Qed.

Lemma ResetElectionTimer_sound w : sound w → sound (ResetElectionTimer now uniform_int w).
Proof.
  destruct (ResetElectionTimer_deadline now uniform_int w) as (d & e & ->), w.
  by apply sound_same.
Qed.

Lemma HandleAppendEntriesResponse_total from resp w :
  sound w → ∃ w', HandleAppendEntriesResponse (Some apply) from resp w = Some w' ∧ sound w' ∧
    (state_ (fst w) ≠ CANDIDATE → state_ (fst w') ≠ CANDIDATE).
Proof.
  destruct w as [st e]. intros Hw. unfold HandleAppendEntriesResponse. cbn [fst].
  destruct (_ <? _).
  { eexists. split; [done|]. split; [by apply step_down_sound|].
    unfold on_node. cbn [fst]. by rewrite step_down_state. }
  destruct (negb _); [by eexists|]. destruct (ar_success resp).
  - unfold on_node. cbn [fst snd]. set (st1 := set_next_index_ _ _).
    assert (sound (st1, e)) as Hs1 by (by revert Hw; apply sound_same).
    assert (state_ st1 = state_ st) as Hstate by done. clearbody st1.
    destruct (AdvanceCommitIndex_commits_majority apply st1 e (proj1 Hs1))
      as (n & Hle & Hn & _ & ->).
    eexists. split; [done|]. cbn [fst]. rewrite <- Hstate.
    destruct Hs1 as [[Hl Hc Ha] Hp]. split; [|done]. split; [|done].
    split; raft_simpl; [done| |done]. pose proof (wf_log_last_range _ Hl).
    destruct Hn as [->|[Hn _]]; lia.
  - unfold on_node. cbn [fst snd]. destruct (subscript _ _). eexists. split; [done|].
    destruct (_ <? _); (split; [by revert Hw; apply sound_same|done]).
Qed.

(** Outside an election nothing is sent in response to a response. *)
Lemma SendMessage_shallow d peer msg w :
  port_ok peer → sound w → state_ (fst w) ≠ CANDIDATE →
  ∃ w', send (S d) peer msg w = Some w' ∧ sound w' ∧ state_ (fst w') ≠ CANDIDATE.
Proof.
  intros Hport Hw Hst. cbn [SendMessage]. unfold port_ok in Hport.
  destruct (rfind x3a peer) as [colon|]; [|by eexists].
  destruct Hport as [port ->]. cbn [mbind option_bind].
  destruct w as [st e]. cbn [fst snd] in *. destruct (exchange _ _ _ e) as [e1 [r|]]; [|].
  2:{ eexists. split; [done|]. split; [by revert Hw; apply sound_same|done]. }
  assert (sound (st, e1)) as Hw1 by (by revert Hw; apply sound_same).
  destruct (is_request msg); [|by eexists].
  destruct (r ≫= ParseMessage) as [m|]; [|by eexists].
  destruct m as [| resp| |resp| |]; try (by eexists).
  - unfold HandleRequestVoteResponse. cbn [fst]. destruct (_ <? _).
    + eexists. split; [done|]. split; [by apply step_down_sound|].
      unfold on_node. cbn [fst]. by rewrite step_down_state.
    + rewrite bool_decide_eq_false_2 by done. by eexists.
  - destruct (HandleAppendEntriesResponse_total peer resp (st, e1) Hw1) as (w' & -> & Hs & Hc).
    eexists. split; [done|]. split; [done|]. by apply Hc.
Qed.

Lemma SendHeartbeats_total d w :
  sound w → state_ (fst w) ≠ CANDIDATE →
  ∃ w', SendHeartbeats (λ p m w, send (S d) p m w) w = Some w' ∧ sound w' ∧
    state_ (fst w') ≠ CANDIDATE.
Proof.
  intros Hw Hst. unfold SendHeartbeats. destruct (bool_decide _); [|by eexists].
  pose proof (proj2 Hw) as Hp. revert Hp. generalize (peers (config_ (fst w))). intros targets Hp.
  revert w Hw Hst. induction Hp as [|p targets Hpp Hp IH]; intros w Hw Hst; [by eexists|].
  cbn [SendHeartbeats_loop]. destruct (bool_decide _); [by apply IH|].
  destruct (subscript _ _) as [next i].
  destruct (SendMessage_shallow d p
    (APPEND_ENTRIES (heartbeat_request (fst (on_node (set_next_index_ next) w)) i))
    (on_node (set_next_index_ next) w)) as (w1 & Hs1 & Hw1 & Hst1); [done| |done|].
  { destruct w. revert Hw. by apply sound_same. }
  rewrite Hs1. by apply IH.
Qed.

Lemma BecomeLeader_total d w :
  sound w →
  ∃ w', BecomeLeader now uniform_int (λ p m w, send (S d) p m w) w = Some w' ∧ sound w'.
Proof.
  destruct w as [st e]. intros Hw. unfold BecomeLeader, lead, log_back. cbn [fst snd]. raft_simpl.
  rewrite log_back_last by (by apply wf_log_nonempty, Hw). cbn [mbind option_bind].
  destruct (init_progress _ _) as [next mtch]. cbn [mbind option_bind].
  destruct (SendHeartbeats_total d (set_match_index_ mtch
    (set_next_index_ next (set_leader_id_ (my_id_ st) (set_state_ LEADER st))), e))
    as (w' & -> & Hw' & _); [by revert Hw; apply sound_same|done|].
  eexists. split; [done|]. by apply ResetElectionTimer_sound.
Qed.

Lemma SendMessage_total d peer msg w :
  port_ok peer → sound w → ∃ w', send (S (S d)) peer msg w = Some w' ∧ sound w'.
Proof.
  intros Hport Hw.
  destruct (decide (state_ (fst w) = CANDIDATE)) as [Hst|Hst].
  2:{ destruct (SendMessage_shallow (S d) peer msg w Hport Hw Hst) as (w' & H & ? & _). eauto. }
  remember (S d) as d1 eqn:Hd1. cbn [SendMessage]. unfold port_ok in Hport.
  destruct (rfind x3a peer) as [colon|]; [|by eexists].
  destruct Hport as [port ->]. cbn [mbind option_bind].
  destruct w as [st e]. cbn [fst snd] in *. destruct (exchange _ _ _ e) as [e1 [r|]].
  2:{ eexists. split; [done|]. by revert Hw; apply sound_same. }
  assert (sound (st, e1)) as Hw1 by (by revert Hw; apply sound_same).
  destruct (is_request msg); [|by eexists].
  destruct (r ≫= ParseMessage) as [m|]; [|by eexists].
  destruct m as [|resp| |resp| |]; try (by eexists).
  - unfold HandleRequestVoteResponse. cbn [fst]. destruct (_ <? _).
    { eexists. split; [done|]. by apply step_down_sound. }
    rewrite bool_decide_eq_true_2 by done. cbn [negb].
    destruct (_ <? _); [by eexists|]. destruct (vr_granted resp); [|by eexists].
    unfold on_node. cbn [fst snd]. set (st1 := set_votes_received_ _ st).
    assert (sound (st1, e1)) as Hs1 by (by revert Hw; apply sound_same).
    destruct (_ <=? _); [|by eexists].
    destruct (BecomeLeader_total d (st1, e1) Hs1) as (w' & Hb & ?).
    subst d1. rewrite Hb. by eexists.
  - destruct (HandleAppendEntriesResponse_total peer resp (st, e1) Hw1) as (w' & -> & Hs & _).
    by eexists.
Qed.
Lemma RequestVotes_loop_total d msg targets w :
  Forall port_ok targets → sound w →
  ∃ w', RequestVotes_loop (λ p m w, send (S (S d)) p m w) msg targets w = Some w' ∧ sound w'.
Proof.
  intros Hp. revert w. induction Hp as [|p targets Hpp Hp IH]; intros w Hw; [by eexists|].
  cbn [RequestVotes_loop]. destruct (bool_decide _); [by apply IH|].
  destruct (SendMessage_total d p msg w Hpp Hw) as (w1 & -> & Hw1). by apply IH.
Qed.

(** C23: however the peers answer, the timer's handler returns when nobody keeps a
    mutex from it: two levels of [SendMessage] are enough, no loop runs out and no
    empty log is read.  (That another thread can keep [state_mutex_] from it for ever
    is [RaftLocks.election_timer_deadlock].) *)
Theorem OnElectionTimeout_total w :
  sound w →
  ∃ w', OnElectionTimeout now uniform_int
      (send_rpc now uniform_int (Some apply) SerializeMessage ParseMessage exchange) w = Some w' ∧
    sound w'.
Proof.
  intros Hw. unfold OnElectionTimeout, send_rpc. case_bool_decide as Hst.
  - destruct (SendHeartbeats_total 1 w Hw) as (w' & -> & Hw' & _); [by rewrite Hst|].
    eexists. split; [done|]. by apply ResetElectionTimer_sound.
  - set (w0 := on_node BecomeCandidate w).
    assert (sound w0) as Hw0.
    { subst w0. destruct w as [st e]. unfold on_node, BecomeCandidate. cbn [fst snd].
      match goal with |- context [PersistState ?s] =>
        destruct (PersistState_file s) as [f ->] end. revert Hw. by apply sound_same. }
    clearbody w0. unfold StartElection, vote_request, log_back.
    rewrite log_back_last by (by apply wf_log_nonempty, Hw0). cbn [mbind option_bind].
    set (msg := REQUEST_VOTE _).
    destruct (RequestVotes_loop_total 0 msg _ w0 (proj2 Hw0) Hw0) as (w1 & -> & Hw1).
    cbn [mbind option_bind]. destruct (_ && _).
    + destruct (BecomeLeader_total 1 w1 Hw1) as (w2 & -> & Hw2). eexists. split; [done|].
      by apply ResetElectionTimer_sound.
    + eexists. split; [done|]. by apply ResetElectionTimer_sound.
Qed.

End Total.

(** * Concrete runs *)

(** A state machine that records what it is given. *)
Definition record_apply (i : Z) (c : bytes) (e : list (Z * bytes)) : list (Z * bytes) := e ++ [(i, c)].
Definition tick (_ : list (Z * bytes)) : Z := 0.
Definition draw (a _ : Z) (e : list (Z * bytes)) : Z * list (Z * bytes) := (a, e).

(** Decide the side conditions of a concrete log. *)
Ltac solve_log :=
  split; [reflexivity
         |repeat (apply SSorted_cons; [|repeat (apply Forall_cons; split; [reflexivity|]);
            apply Forall_nil_2]); constructor
         |repeat (apply Forall_cons; split; [split; [discriminate|reflexivity]|]); apply Forall_nil_2].

Definition demo_log : list LogEntry :=
  [dummy_entry; mkEntry 1 1 (str "a"); mkEntry 4 2 (str "b"); mkEntry 4 3 (str "c")].

(** The leader of term 4 knows that [n2] holds the log up to entry 2. *)
Definition demo_leading : RaftNode :=
  set_match_index_ {[ str "n1" := 3; str "n2" := 2; str "n3" := 0 ]}
    (set_state_ LEADER (set_current_term_ 4 (set_log_ demo_log demo_node))).

Lemma demo_leading_wf : wf_node demo_leading.
Proof. split; [solve_log|by vm_compute|done]. Qed.

Lemma AdvanceCommitIndex_commits_majority_witness :
  AdvanceCommitIndex (Some record_apply) (demo_leading, []) =
    Some (set_last_applied_ 2 (set_commit_index_ 2 demo_leading),
      [(1, str "a"); (2, str "b")]) ∧
  ∃ n, commit_index_ demo_leading <= n ∧
    (n = commit_index_ demo_leading ∨ n <= last_index (log_ demo_leading) ∧ committable demo_leading n) ∧
    (∀ k, n < k <= last_index (log_ demo_leading) → ¬ committable demo_leading k) ∧
    AdvanceCommitIndex (Some record_apply) (demo_leading, []) =
      Some (set_last_applied_ n (set_commit_index_ n demo_leading),
        apply_all record_apply (entries_in (log_ demo_leading) (commit_index_ demo_leading) n) []).
Proof.
  split; [by vm_compute|].
  apply (AdvanceCommitIndex_commits_majority record_apply demo_leading []), demo_leading_wf.
Defined.

(** A follower of term 1 that holds entries 1 and 2 and an entry 3 of its own, and
    the request of a leader of term 4. *)
Definition demo_follower : RaftNode :=
  set_current_term_ 1 (set_log_ [dummy_entry; mkEntry 1 1 (str "a"); mkEntry 1 2 (str "b");
    mkEntry 1 3 (str "own")] demo_node).

Definition demo_append : AppendEntriesRequest :=
  mkAppendEntries 4 (str "n2") 2 1 [mkEntry 4 3 (str "leader's"); mkEntry 4 4 (str "d")] 4.

Lemma demo_follower_wf : wf_node demo_follower.
Proof. split; [solve_log|by vm_compute|done]. Qed.

Lemma demo_append_ok : request_ok demo_append.
Proof.
  split; [|repeat (apply Forall_cons; split; [reflexivity|]); apply Forall_nil_2|by vm_compute
          |by vm_compute|by vm_compute].
  repeat (apply SSorted_cons; [|repeat (apply Forall_cons; split; [reflexivity|]);
    apply Forall_nil_2]); constructor.
Qed.

Lemma HandleAppendEntries_spec_witness :
  append_case_of demo_append demo_follower = PrevMatches ∧
  ∃ st', HandleAppendEntries tick draw (Some record_apply) (str "n2") demo_append (demo_follower, []) =
      Some (st', apply_all record_apply
        (entries_in (append_log demo_append demo_follower) (commit_index_ demo_follower)
          (append_commit demo_append demo_follower))
        (append_world draw demo_append demo_follower [])) ∧
    wf_node st' ∧ log_ st' = append_log demo_append demo_follower ∧
    commit_index_ st' = append_commit demo_append demo_follower ∧
    ae_resp_ st' = append_response demo_append demo_follower ∧
    current_term_ st' = Z.max (current_term_ demo_follower) (ae_term demo_append) ∧
    (append_case_of demo_append demo_follower ≠ StaleTerm →
      state_ st' = FOLLOWER ∧ leader_id_ st' = str "n2").
Proof.
  split; [by vm_compute|].
  apply (HandleAppendEntries_spec tick draw record_apply (str "n2") demo_append demo_follower []);
    [apply demo_follower_wf|apply demo_append_ok].
Defined.

(** The follower keeps its own entry 3 and reports that it matches. *)
Lemma HandleAppendEntries_keeps_conflict_witness :
  ∃ st' e', HandleAppendEntries tick draw (Some record_apply) (str "n2") demo_append
      (demo_follower, []) = Some (st', e') ∧
    ar_success (ae_resp_ st') = true ∧
    le_index (mkEntry 4 3 (str "leader's")) <= ar_match_index (ae_resp_ st') ∧
    GetLogEntry st' (le_index (mkEntry 4 3 (str "leader's"))) = Some (mkEntry 1 3 (str "own")).
Proof.
  apply (HandleAppendEntries_keeps_conflict tick draw record_apply (str "n2") demo_append
    demo_follower [] (mkEntry 4 3 (str "leader's")) (mkEntry 1 3 (str "own")));
    [apply demo_follower_wf|apply demo_append_ok|by vm_compute|by left|by vm_compute|done].
Defined.

(** An election where every peer answers with a vote. *)
Definition granting (_ : bytes) (_ : Z) (_ : bytes) (e : list (Z * bytes)) :
    list (Z * bytes) * option (option bytes) := (e, Some (Some [x01])).
Definition parse_grant (_ : bytes) : option RaftMessage :=
  Some (REQUEST_VOTE_RESPONSE (mkVoteResponse 1 true)).

Definition ported_node : RaftNode :=
  RaftNode_new (mkConfig (str "h:1") [str "h:1"; str "h:2"; str "h:3"] (str "/raft") 3000 500 10000)
    Whole None None.

Lemma OnElectionTimeout_total_witness :
  (∃ st e, OnElectionTimeout tick draw
      (send_rpc tick draw (Some record_apply) demo_serialize parse_grant granting) (ported_node, []) =
    Some (st, e) ∧ state_ st = LEADER) ∧
  ∃ w', OnElectionTimeout tick draw
      (send_rpc tick draw (Some record_apply) demo_serialize parse_grant granting) (ported_node, []) =
    Some w' ∧ sound w'.
Proof.
  split; [eexists _, _; split; [vm_compute; reflexivity|done]|].
  apply (OnElectionTimeout_total tick draw record_apply demo_serialize parse_grant granting).
  split; [split; [solve_log|by vm_compute|done]|].
  repeat (apply Forall_cons; split; [eexists; vm_compute; reflexivity|]). apply Forall_nil_2.
Defined.
