(* ===== verification/RaftLog.v ===== *)
(** The logs of a cluster: src/raft/raft_node.cc, the nodes of [RaftElection] with
    the append messages they send each other.

    Every [AppendEntries] a node handles is one that some node built from its own
    log ([heartbeat_request]) at some earlier moment; it may be delayed, lost,
    repeated or overtaken, and its sender need not lead any more.  What the code
    keeps is that an index and a term determine an entry; a node that replaces its
    log by a snapshot must not propose before its log has grown past it. *)
From S2P Require Import Prelude Coding Raft RaftRpc RaftDurable RaftElection RaftReplication.

(** * What a step does to the log of a node *)

(** The sentinel comes first; and then entries of increasing indices. *)
Definition headed (log : list LogEntry) : Prop := hd_error log = Some dummy_entry.
Definition ordered (log : list LogEntry) : Prop := headed log ∧ StronglySorted index_lt log.

Lemma headed_prefix log log' : headed log → log' `prefix_of` log → log' ≠ [] → headed log'.
Proof. intros Hh [k ->] Hne. by destruct log'. Qed.

Lemma ordered_prefix log log' : ordered log → log' `prefix_of` log → log' ≠ [] → ordered log'.
Proof.
  intros [Hh Hs] Hp Hne. split; [by apply (headed_prefix log)|]. destruct Hp as [k ->]. by eapply StronglySorted_app_1_l.
Qed.

Lemma ordered_filter (P : LogEntry → Prop) `{!∀ e, Decision (P e)} e0 log :
  ordered (e0 :: log) → ordered (e0 :: filter P log).
Proof.
  intros [Hh Hs]. split; [done|]. apply StronglySorted_inv in Hs as [Hs Hf]. constructor.
  - clear Hh Hf. induction Hs as [|x log Hs IH Hx]; [constructor|]. rewrite filter_cons.
    destruct (decide _); [|done]. constructor; [done|].
    rewrite Forall_forall in *. intros y [_ Hy]%list_elem_of_filter. by apply Hx.
  - rewrite Forall_forall in *. intros y [_ Hy]%list_elem_of_filter. by apply Hf.
Qed.

Lemma ordered_snoc log x : ordered log → last_index log < le_index x → ordered (log ++ [x]).
Proof. intros [Hh Hs] Hx. split; [by destruct log|]. apply sorted_snoc; [done|by right]. Qed.

Lemma ordered_last_ge log x : ordered log → x ∈ log → le_index x <= last_index log.
Proof. intros [_ Hs]. by apply sorted_last_ge. Qed.

Lemma ordered_nonneg log x : ordered log → x ∈ log → 0 <= le_index x.
Proof.
  intros [Hh Hs] Hx. destruct log as [|e0 log]; [done|]. injection Hh as ->.
  apply elem_of_cons in Hx as [->|Hx]; [done|]. apply StronglySorted_inv in Hs as [_ Hf].
  rewrite Forall_forall in Hf. specialize (Hf x Hx). cbn in Hf. lia.
Qed.

Lemma pop_back_while_suffix idx log r : pop_back_while idx log = Some r → r `suffix_of` log ∧ r ≠ [].
Proof.
  induction log as [|e log IH]; cbn [pop_back_while]; [done|]. destruct (_ <=? _).
  - intros H. destruct (IH H) as [Hs Hne]. split; [by apply suffix_cons_r|done].
  - by intros [= <-].
Qed.

(** The log keeps its order and gains entries of [es] at most; and nothing happens
    to the role. *)
Definition carries (es : list LogEntry) (st st' : RaftNode) : Prop :=
  (headed (log_ st) → headed (log_ st')) ∧ (ordered (log_ st) → ordered (log_ st')) ∧
  (∀ e, e ∈ log_ st' → e ∈ log_ st ∨ e ∈ es) ∧ same_role st st'.

#[export] Instance carries_preorder es : PreOrder (carries es).
Proof.
  split.
  - intros st. split_and!; [done|done|by left|repeat split].
  - intros s1 s2 s3 (H1 & O1 & E1 & R1) (H2 & O2 & E2 & R2). split; [tauto|]. split; [tauto|].
    split; [|by eapply same_role_trans].
    intros e [He|He]%E2; [by apply E1|by right].
Qed.

(** The log and the end of the snapshot stay. *)
Definition same_log (st st' : RaftNode) : Prop :=
  log_ st' = log_ st ∧ snapshot_last_index_ st' = snapshot_last_index_ st ∧
  snapshot_last_term_ st' = snapshot_last_term_ st.

#[export] Instance same_log_preorder : PreOrder same_log.
Proof. split; [by intros st|]. intros s1 s2 s3 (A & B & C) (A' & B' & C'). split_and!; congruence. Qed.

Lemma carries_same es st st' : log_ st' = log_ st → same_role st st' → carries es st st'.
Proof. intros Hl Hr. split_and!; [by rewrite Hl|by rewrite Hl|rewrite Hl; by left|done]. Qed.

Lemma PersistState_log st : same_log st (PersistState st).
Proof. unfold PersistState. by destruct (written _ _). Qed.

Lemma PersistState_carries es st : carries es st (PersistState st).
Proof. apply carries_same; [apply PersistState_log|apply PersistState_role]. Qed.

Section Steps.
Context {E : Type} (now : E → Z) (uniform_int : Z → Z → E → Z * E).
Context (apply_cb_ : option (Z → bytes → E → E)) (restore_cb_ : option (bytes → E → E)).
Context (SerializeSnapshot : SnapshotMetadata → bytes) (ParseSnapshot : bytes → option SnapshotMetadata).
Context (post : bytes → RaftMessage → E → E).
Abbreviation World := (RaftNode * E)%type.

Lemma ResetElectionTimer_log w : same_log (fst w) (fst (ResetElectionTimer now uniform_int w)).
Proof. destruct (ResetElectionTimer_deadline now uniform_int w) as (d & e & ->). repeat split. Qed.

Lemma ApplyCommitted_loop_log n up w w' :
  ApplyCommitted_loop apply_cb_ n up w = Some w' → same_log (fst w) (fst w').
Proof.
  revert w. induction n as [|n IH]; intros w; [done|]. simpl.
  destruct (_ <? up); intros Hs; [|injection Hs as <-; repeat split].
  etransitivity; [|by apply IH]. destruct w as [st e]. unfold apply_next. repeat case_match; repeat split.
Qed.

Lemma AdvanceCommitIndex_loop_log f n w w' :
  AdvanceCommitIndex_loop apply_cb_ f n w = Some w' → same_log (fst w) (fst w').
Proof.
  revert n. induction f as [|f IH]; intros n; [done|]. simpl.
  destruct (_ <? n); intros Hs; [|injection Hs as <-; repeat split].
  destruct (GetLogEntry _ _); [|by eapply IH].
  destruct (_ && _); [|by eapply IH].
  apply ApplyCommitted_loop_log in Hs. destruct w. exact Hs.
Qed.

Lemma AdvanceCommitIndex_log w w' : AdvanceCommitIndex apply_cb_ w = Some w' → same_log (fst w) (fst w').
Proof.
  unfold AdvanceCommitIndex. intros Hs. apply bind_Some in Hs as (l & _ & Hs).
  eapply AdvanceCommitIndex_loop_log, Hs.
Qed.

Lemma append_entries_carries es st st' : append_entries es st = Some st' → carries es st st'.
Proof.
  intros H. destruct (append_entries_same _ _ _ H) as (log & ->).
  enough ((headed (log_ st) → headed log) ∧ (ordered (log_ st) → ordered log) ∧
    ∀ e, e ∈ log → e ∈ log_ st ∨ e ∈ es) as (Hh & Ho & He) by (split_and!; [done|done|done|repeat split]).
  replace log with (log_ (set_log_ log st)) by done. revert H. generalize (set_log_ log st). clear log.
  intros s. revert st s. induction es as [|x es IH]; intros st s; cbn [append_entries].
  { intros [= <-]. split_and!; [done|done|by left]. }
  intros H. apply bind_Some in H as (l & Hl & H). apply IH in H as (Hh & Ho & He). unfold log_back in Hl.
  destruct (Z.ltb_spec (le_index l) (le_index x)) as [Hlt|Hge].
  - cbn [set_log_ log_] in *. split_and!.
    + intros Hhd. apply Hh. by destruct (log_ st).
    + intros Hord. apply Ho, ordered_snoc; [done|]. unfold last_index, log_last. by rewrite Hl.
    + intros e [[Hin| ->%list_elem_of_singleton]%elem_of_app|Hin]%He; [by left|right; left|right; by right].
  - split_and!; [done|done|]. intros e [Hin|Hin]%He; [by left|right; by right].
Qed.

Lemma truncate_conflict_carries f idx t es st st' : truncate_conflict f idx t st = Some st' → carries es st st'.
Proof.
  revert idx. induction f as [|f IH]; intros idx; [done|]. cbn [truncate_conflict]. intros H.
  apply bind_Some in H as (l & _ & H). destruct (_ <=? _); [|by injection H as <-].
  destruct (GetLogEntry _ _); [|by eapply IH]. destruct (_ =? _); [by eapply IH|].
  apply bind_Some in H as (r & Hr & H). injection H as <-. apply pop_back_while_suffix in Hr as [[k Hk] Hne].
  assert (log_ st = rev r ++ rev k) as Hl by by rewrite <- rev_app_distr, <- Hk, rev_involutive.
  assert (rev r `prefix_of` log_ st) as Hp by (rewrite Hl; by apply prefix_app_r).
  assert (rev r ≠ []) as Hne' by (intros E0; apply Hne; by rewrite <- (rev_involutive r), E0).
  split_and!; cbn [set_log_ log_]; [| | |repeat split].
  - intros Hh. by apply (headed_prefix (log_ st)).
  - intros Ho. by apply (ordered_prefix (log_ st)).
  - intros e He. left. rewrite Hl. apply elem_of_app. by left.
Qed.

Lemma accept_entries_carries req w w' :
  accept_entries apply_cb_ req w = Some w' → carries (ae_entries req) (fst w) (fst w').
Proof.
  destruct w as [st e]. unfold accept_entries. intros Hs. raft_simpl.
  apply bind_Some in Hs as (st1 & H1 & Hs). apply append_entries_carries in H1.
  apply bind_Some in Hs as (l & _ & Hs). apply bind_Some in Hs as (w1 & Hw & Hs).
  apply bind_Some in Hs as (l' & _ & Hs). injection Hs as <-.
  etransitivity; [exact H1|]. etransitivity; [apply PersistState_carries|].
  etransitivity; [|apply (carries_same _ (fst w1)); [done|repeat split]]. revert Hw. generalize (PersistState st1). intros s.
  destruct (_ <? ae_leader_commit req); [|by intros [= <-]].
  destruct (_ <? Z.min _ _); [|by intros [= <-]]. intros Hw.
  apply carries_same; [apply ApplyCommitted_loop_log in Hw|apply ApplyCommitted_loop_role in Hw]; apply Hw.
Qed.

(** A rejected request changes nothing but the answer; any other makes the node a
    follower. *)
Lemma HandleAppendEntries_log from req w w' :
  HandleAppendEntries now uniform_int apply_cb_ from req w = Some w' →
  same_log (fst w) (fst w') ∨
  state_ (fst w') = FOLLOWER ∧ (ordered (log_ (fst w)) → ordered (log_ (fst w'))) ∧
    (∀ e, e ∈ log_ (fst w') → e ∈ log_ (fst w) ∨ e ∈ ae_entries req).
Proof.
  destruct w as [st e]. unfold HandleAppendEntries. raft_simpl.
  destruct (ae_term req <? current_term_ st); [intros [= <-]; by left|].
  set (w1 := if current_term_ st <? ae_term req then _ else _).
  assert (log_ (fst w1) = log_ st) as H1.
  { subst w1. destruct (_ <? _); [|done]. raft_simpl. unfold PersistState. by destruct (written _ _). }
  set (w2 := ResetElectionTimer _ _ _). assert (log_ (fst w2) = log_ st ∧ state_ (fst w2) = FOLLOWER) as [H2 F2].
  { subst w2. destruct (ResetElectionTimer_deadline now uniform_int (on_node (λ st, set_state_ FOLLOWER (set_leader_id_ from st)) w1))
      as (d & e' & ->). done. }
  intros Hs. apply bind_Some in Hs as (l & _ & Hs). right. cbn [fst].
  enough (carries (ae_entries req) (fst w2) (fst w')) as (_ & A & B & _ & _ & C & _) by (rewrite <- H2; split_and!; [congruence|done|done]).
  clearbody w2. clear H1 H2 F2 w1.
  destruct (_ <? _); [injection Hs as <-; apply carries_same; repeat split|].
  destruct (_ <=? _).
  - destruct (GetLogEntry _ _) as [prev|]; [|by apply accept_entries_carries].
    destruct (_ =? _); [by apply accept_entries_carries|].
    apply bind_Some in Hs as (st1 & Ht & Hs). apply bind_Some in Hs as (l1 & _ & Hs).
    injection Hs as <-. apply (truncate_conflict_carries _ _ _ (ae_entries req)) in Ht.
    etransitivity; [exact Ht|]. etransitivity; [|apply PersistState_carries]. apply carries_same; repeat split.
  - destruct (_ || _); [injection Hs as <-; apply carries_same; repeat split|by apply accept_entries_carries].
Qed.

(** Forgetting what a snapshot holds. *)
Lemma trim_log_headed i log log' : trim_log i log = Some log' → headed log → headed log'.
Proof. unfold trim_log. destruct log as [|e0 log]; [done|]. by intros [= <-]. Qed.

Lemma trim_log_ordered i log log' : trim_log i log = Some log' → ordered log → ordered log'.
Proof. unfold trim_log. destruct log as [|e0 log]; [done|]. intros [= <-]. apply ordered_filter. Qed.

Lemma trim_log_elem i log log' e : trim_log i log = Some log' → e ∈ log' → e ∈ log.
Proof.
  unfold trim_log. destruct log as [|e0 log]; [done|]. intros [= <-] [->|[_ He]%list_elem_of_filter]%elem_of_cons.
  - left.
  - by right.
Qed.

Lemma HandleInstallSnapshot_log from req w w' :
  HandleInstallSnapshot now uniform_int restore_cb_ SerializeSnapshot from req w = Some w' →
  same_log (fst w) (fst w') ∨
  state_ (fst w') = FOLLOWER ∧ (ordered (log_ (fst w)) → ordered (log_ (fst w'))) ∧
    (∀ e, e ∈ log_ (fst w') → e ∈ log_ (fst w) ∨ e ∈ []).
Proof.
  destruct w as [st e]. unfold HandleInstallSnapshot. raft_simpl.
  destruct (is_term req <? current_term_ st); [intros [= <-]; by left|].
  set (w1 := if current_term_ st <? is_term req then _ else _).
  assert (log_ (fst w1) = log_ st) as H1.
  { subst w1. destruct (_ <? _); [|done]. raft_simpl. unfold PersistState. by destruct (written _ _). }
  set (w2 := ResetElectionTimer _ _ _). assert (log_ (fst w2) = log_ st ∧ state_ (fst w2) = FOLLOWER) as [H2 F2].
  { subst w2. destruct (ResetElectionTimer_deadline now uniform_int (on_node (λ st, set_state_ FOLLOWER (set_leader_id_ from st)) w1))
      as (d & e' & ->). done. }
  intros Hs. right. cbn [fst].
  enough (carries [] (fst w2) (fst w')) as (_ & A & B & _ & _ & C & _) by (rewrite <- H2; split_and!; [congruence|done|done]).
  clearbody w2. clear H1 H2 F2 w1.
  destruct (_ || _); [injection Hs as <-; apply carries_same; repeat split|].
  destruct (written _ _); [|injection Hs as <-; apply carries_same; repeat split].
  set (w3 := match restore_cb_ with Some _ => _ | None => _ end) in Hs.
  assert (carries [] (fst w2) (fst w3)) as H3.
  { subst w3. destruct restore_cb_; [destruct (bool_decide _)|]; apply carries_same; repeat split. }
  etransitivity; [exact H3|]. clearbody w3. clear H3.
  apply bind_Some in Hs as (st4 & Ha & Hs). injection Hs as <-. cbn [fst].
  transitivity st4; [|etransitivity; [apply PersistState_carries|apply carries_same; repeat split]].
  unfold adopt_snapshot in Ha. apply bind_Some in Ha as (log & Ht & Ha). injection Ha as <-. cbn in Ht.
  transitivity (set_log_ log (fst w3)); [|unfold raise_commit; destruct (_ <? _); apply carries_same; repeat split].
  split_and!; [by apply (trim_log_headed _ _ _ Ht)|by apply (trim_log_ordered _ _ _ Ht)| |repeat split]. intros x Hx. left. by apply (trim_log_elem _ _ _ x Ht).
Qed.

Lemma HandleRequestVote_log from req w w' :
  HandleRequestVote now uniform_int from req w = Some w' → same_log (fst w) (fst w').
Proof.
  destruct w as [st e]. unfold HandleRequestVote. raft_simpl.
  destruct (rv_term req <? current_term_ st); [by intros [= <-]|].
  set (w1 := if current_term_ st <? rv_term req then _ else _).
  assert (same_log st (fst w1)) as H1.
  { subst w1. destruct (_ <? _); [|done]. raft_simpl. unfold PersistState. by destruct (written _ _). }
  intros Hs. apply bind_Some in Hs as (can & Hcan & Hs). etransitivity; [exact H1|].
  destruct can; injection Hs as <-; [|done].
  etransitivity; [|apply ResetElectionTimer_log]. raft_simpl. unfold PersistState. by destruct (written _ _).
Qed.

Lemma step_down_log term st : same_log st (step_down term st).
Proof. unfold step_down, PersistState. by destruct (written _ _). Qed.

Lemma HandleAppendEntriesResponse_log from resp w w' :
  HandleAppendEntriesResponse apply_cb_ from resp w = Some w' → same_log (fst w) (fst w').
Proof.
  unfold HandleAppendEntriesResponse. destruct (_ <? ar_term resp).
  { intros [= <-]. apply step_down_log. }
  destruct (negb _); [by intros [= <-]|].
  destruct (ar_success resp).
  - intros H1. apply AdvanceCommitIndex_log in H1. exact H1.
  - intros [= <-]. cbn [on_node fst]. destruct (subscript _ _). by destruct (_ <? _).
Qed.

Abbreviation send := (send post).

Lemma SendHeartbeats_log w w' : SendHeartbeats send w = Some w' → same_log (fst w) (fst w').
Proof.
  unfold SendHeartbeats. destruct (bool_decide _); [|by intros [= <-]].
  generalize (peers (config_ (fst w))). intros targets. revert w.
  induction targets as [|p targets IH]; intros w; simpl; [by intros [= <-]|].
  destruct (bool_decide _); [apply IH|]. destruct (subscript _ _) as [next i].
  cbn [mbind option_bind]. intros Hs. apply IH in Hs. exact Hs.
Qed.

Lemma BecomeLeader_log w w' : BecomeLeader now uniform_int send w = Some w' → same_log (fst w) (fst w').
Proof.
  unfold BecomeLeader. intros Hs. apply bind_Some in Hs as (st & Hl & Hs).
  apply bind_Some in Hs as (w1 & H1 & Hs). injection Hs as <-. apply SendHeartbeats_log in H1.
  etransitivity; [|apply ResetElectionTimer_log]. etransitivity; [|exact H1]. cbn [fst].
  unfold lead in Hl. apply bind_Some in Hl as (l & _ & Hl). destruct (init_progress _ _). by injection Hl as <-.
Qed.

Lemma HandleRequestVoteResponse_log from resp w w' :
  HandleRequestVoteResponse now uniform_int send from resp w = Some w' → same_log (fst w) (fst w').
Proof.
  unfold HandleRequestVoteResponse. destruct (_ <? vr_term resp).
  { intros [= <-]. apply step_down_log. }
  destruct (negb _); [by intros [= <-]|]. destruct (_ <? _); [by intros [= <-]|].
  destruct (vr_granted resp); [|by intros [= <-]]. cbv zeta. destruct (_ <=? _); [|by intros [= <-]].
  intros Hs. apply BecomeLeader_log in Hs. exact Hs.
Qed.

Lemma BecomeCandidate_log st : same_log st (BecomeCandidate st).
Proof. unfold BecomeCandidate, PersistState. by destruct (written _ _). Qed.
End Steps.

(** * The cluster and its append messages *)

(** [B] holds of no entry beyond the log of [st]; or [st] has nothing left of its
    log but the sentinel. *)
Definition bounded (B : LogEntry → Prop) (st : RaftNode) : Prop :=
  (∀ e, B e → le_index e <= last_index (log_ st)) ∨ (tail (log_ st) = [] ∧ 0 < snapshot_last_index_ st).

Lemma bounded_same B st st' : same_log st st' → bounded B st → bounded B st'.
Proof. unfold bounded. by intros (-> & -> & _). Qed.

Lemma last_index_single e : last_index [e] = le_index e.
Proof. done. Qed.

Lemma TakeSnapshot_finish_log snap st st' :
  TakeSnapshot_finish snap st = Some st' →
  trim_log (sm_last_included_index snap) (log_ st) = Some (log_ st') ∧
  snapshot_last_index_ st' = sm_last_included_index snap.
Proof.
  unfold TakeSnapshot_finish. intros H. apply bind_Some in H as (log & Ht & H). injection H as <-.
  unfold PersistState. by destruct (written _ _).
Qed.

(** A snapshot leaves the end of the log, or nothing but the sentinel. *)
Lemma trim_bounded B snap st st' :
  TakeSnapshot_finish snap st = Some st' → 0 < sm_last_included_index snap → ordered (log_ st) →
  bounded B st → bounded B st'.
Proof.
  intros [Ht Hi]%TakeSnapshot_finish_log Hpos Ho HB. unfold trim_log in Ht.
  destruct (log_ st) as [|e0 log] eqn:Hl; [done|]. injection Ht as Ht.
  assert (tail (log_ st') = [] → bounded B st') as Hright by (intros ?; right; split; [done|lia]).
  destruct HB as [HB|[Hn _]]; [|apply Hright; rewrite <- Ht; rewrite Hl in Hn; cbn in *; by rewrite Hn].
  rewrite Hl in HB. destruct log as [|x log _] using rev_ind; [apply Hright; by rewrite <- Ht|].
  assert (last_index (e0 :: log ++ [x]) = le_index x) as Hx by (rewrite app_comm_cons; apply last_index_snoc).
  rewrite filter_app, filter_cons, filter_nil in Ht. destruct (decide _) as [Hkeep|Hdrop].
  - left. intros e He. rewrite <- Ht, app_comm_cons, last_index_snoc. rewrite <- Hx. by apply HB.
  - apply Hright. rewrite <- Ht. cbn [tail]. rewrite app_nil_r.
    destruct (filter _ log) as [|y l] eqn:Hf; [done|].
    assert (y ∈ filter (λ e, sm_last_included_index snap < le_index e) log) as Hy by (rewrite Hf; left).
    apply list_elem_of_filter in Hy as [Hlt Hin].
    assert (le_index y <= last_index (e0 :: log ++ [x])).
    { apply ordered_last_ge; [done|]. right. apply elem_of_app. by left. }
    lia.
Qed.

(** What every step but a proposal does to a node. *)
Record node_step (sent : list AppendEntriesRequest) (st st' : RaftNode) : Prop := {
  ns_ordered : ordered (log_ st) → ordered (log_ st');
  ns_entries : ∀ e, e ∈ log_ st' → e ∈ log_ st ∨ ∃ req, req ∈ sent ∧ e ∈ ae_entries req;
  ns_term : current_term_ st <= current_term_ st';
  ns_candidate : state_ st' = CANDIDATE →
    state_ st = CANDIDATE ∧ current_term_ st' = current_term_ st ∨ current_term_ st < current_term_ st';
  ns_leader : state_ st' = LEADER → current_term_ st' = current_term_ st ∧
    (state_ st = CANDIDATE ∨
     state_ st = LEADER ∧ (ordered (log_ st) → ∀ B, bounded B st → bounded B st')) }.

Lemma node_step_quiet sent (es : list LogEntry) st st' :
  mirrored st → evolves st st' → quiet st st' →
  (∀ e, e ∈ es → ∃ req, req ∈ sent ∧ e ∈ ae_entries req) →
  same_log st st' ∨
  state_ st' = FOLLOWER ∧ (ordered (log_ st) → ordered (log_ st')) ∧ (∀ e, e ∈ log_ st' → e ∈ log_ st ∨ e ∈ es) →
  node_step sent st st'.
Proof.
  intros Hm He (_ & _ & Hq) Hes Hl. destruct (He Hm) as (_ & Hle & _). split.
  - destruct Hl as [[-> _]|(_ & H & _)]; done.
  - intros e Hin. destruct Hl as [[E _]|(_ & _ & H)]; [left; congruence|].
    destruct (H e Hin) as [|Hx]; [by left|right; by apply Hes].
  - done.
  - intros Hc. left. destruct Hq as (A & B & _); [congruence|]. split; congruence.
  - intros Hc. destruct Hq as (A & B & _); [congruence|]. split; [done|]. right. split; [congruence|].
    intros _ B'. apply bounded_same. destruct Hl as [H|(H & _)]; [done|congruence].
Qed.

Lemma node_step_refl sent st : node_step sent st st.
Proof.
  split; [done|by left|done|by left|]. intros Hl. split; [done|]. by right.
Qed.

Section History.
Context {E : Type} (now : E → Z) (uniform_int : Z → Z → E → Z * E).
Context (apply_cb_ : option (Z → bytes → E → E)) (restore_cb_ : option (bytes → E → E)).
Context (SerializeSnapshot : SnapshotMetadata → bytes) (ParseSnapshot : bytes → option SnapshotMetadata).
Context (post : bytes → RaftMessage → E → E).
Abbreviation World := (RaftNode * E)%type.
Abbreviation Cluster := (RaftElection.Cluster (E := E)).
Abbreviation send := (send post).

(** The steps of one node, an append message being one of [sent], a proposal
    coming when the log reaches beyond the node's snapshot and has room, and a
    snapshot holding something. *)
Inductive careful_step (sent : list AppendEntriesRequest) : World → World → Prop :=
| cs_append from req w w' :
    req ∈ sent → HandleAppendEntries now uniform_int apply_cb_ from req w = Some w' → careful_step sent w w'
| cs_install from req w w' :
    HandleInstallSnapshot now uniform_int restore_cb_ SerializeSnapshot from req w = Some w' →
    careful_step sent w w'
| cs_append_response from resp w w' :
    HandleAppendEntriesResponse apply_cb_ from resp w = Some w' → careful_step sent w w'
| cs_heartbeats w w' : SendHeartbeats send w = Some w' → careful_step sent w w'
| cs_timer w : careful_step sent w (ResetElectionTimer now uniform_int w)
| cs_propose command st st' r e :
    snapshot_last_index_ st <= last_index (log_ st) < 2 ^ 64 - 1 →
    Propose_append command st = Some (st', r) → careful_step sent (st, e) (st', e)
| cs_advance w w' : AdvanceCommitIndex apply_cb_ w = Some w' → careful_step sent w w'
| cs_snapshot_write snap st st' e :
    TakeSnapshot_write SerializeSnapshot snap st = Some st' → careful_step sent (st, e) (st', e)
| cs_snapshot_finish snap st st' e :
    0 < sm_last_included_index snap → TakeSnapshot_finish snap st = Some st' →
    careful_step sent (st, e) (st', e)
| cs_environment st e e' : careful_step sent (st, e) (st, e').

(** A node takes a step, an append message is built and put with those in flight,
    or an election goes on. *)
Inductive history_step : Cluster * list AppendEntriesRequest → Cluster * list AppendEntriesRequest → Prop :=
| hs_local c sent id w w' :
    members c !! id = Some w → careful_step sent w w' → history_step (c, sent) (with_member id w' c, sent)
| hs_send c sent id w next_idx :
    members c !! id = Some w → history_step (c, sent) (c, heartbeat_request (fst w) next_idx :: sent)
| hs_vote c sent c' :
    vote_step now uniform_int restore_cb_ ParseSnapshot post c c' → history_step (c, sent) (c', sent).

Lemma careful_local sent w w' :
  careful_step sent w w' →
  local_step now uniform_int apply_cb_ restore_cb_ SerializeSnapshot post w w'.
Proof.
  destruct 1; [eapply ls_append|eapply ls_install|eapply ls_append_response|eapply ls_heartbeats|apply ls_timer
    |eapply ls_propose|eapply ls_advance|eapply ls_snapshot_write|eapply ls_snapshot_finish|apply ls_environment]; done.
Qed.

(** A step is a proposal of a leader or one [node_step] describes. *)
Lemma careful_node_step sent w w' :
  mirrored (fst w) → careful_step sent w w' →
  node_step sent (fst w) (fst w') ∨
  ∃ command r, state_ (fst w) = LEADER ∧ snapshot_last_index_ (fst w) <= last_index (log_ (fst w)) < 2 ^ 64 - 1 ∧
    Propose_append command (fst w) = Some (fst w', r).
Proof.
  intros Hm Hs. pose proof (careful_local _ _ _ Hs) as [He Hq]%local_step_ok.
  pose proof (λ es, node_step_quiet sent es (fst w) (fst w') Hm He Hq) as Hns.
  assert (same_log (fst w) (fst w') → node_step sent (fst w) (fst w')) as Hsame.
  { intros Hl. apply (Hns []); [by intros e ?%not_elem_of_nil|by left]. }
  destruct Hs as [from req w w' Hr H|from req w w' H|from resp w w' H|w w' H|w|cmd st st' r e Hg H
    |w w' H|snap st st' e H|snap st st' e Hpos H|st e e'].
  - left. apply (Hns (ae_entries req)); [by exists req|]. by apply HandleAppendEntries_log in H.
  - left. apply (Hns []); [by intros e ?%not_elem_of_nil|]. by apply HandleInstallSnapshot_log in H.
  - left. apply Hsame. by eapply HandleAppendEntriesResponse_log.
  - left. apply Hsame. by eapply SendHeartbeats_log.
  - left. apply Hsame, ResetElectionTimer_log.
  - unfold Propose_append in H. destruct (bool_decide_reflect (state_ st = LEADER)) as [Hl|Hl].
    + right. exists cmd, r. cbn [fst]. split_and!; [done|lia|lia|]. unfold Propose_append. by rewrite bool_decide_eq_true_2.
    + left. injection H as <- _. apply node_step_refl.
  - left. apply Hsame. by eapply AdvanceCommitIndex_log.
  - left. apply Hsame. unfold TakeSnapshot_write in H. destruct (written _ _); [|done]. by injection H as <-.
  - left. cbn [fst] in *. pose proof (TakeSnapshot_finish_log _ _ _ H) as [Ht _].
    destruct Hq as (_ & _ & Hq). destruct (He Hm) as (_ & Hle & _). split.
    + by apply (trim_log_ordered _ _ _ Ht).
    + intros x Hx. left. by apply (trim_log_elem _ _ _ x Ht).
    + done.
    + intros Hc. left. destruct Hq as (A & B & _); [congruence|]. split; congruence.
    + intros Hc. destruct Hq as (A & B & _); [congruence|]. split; [done|]. right. split; [congruence|].
      intros Ho B'. by apply (trim_bounded _ snap).
  - left. apply node_step_refl.
Qed.

(** ** The steps of an election *)

Lemma vote_node_step sent (w w' : World) :
  mirrored (fst w) → evolves (fst w) (fst w') → quiet (fst w) (fst w') → same_log (fst w) (fst w') →
  node_step sent (fst w) (fst w').
Proof. intros Hm He Hq Hl. apply (node_step_quiet sent []); try done; [by intros e ?%not_elem_of_nil|by left]. Qed.

Lemma BecomeCandidate_node_step sent st :
  0 <= current_term_ st < 2 ^ 64 - 1 → node_step sent st (BecomeCandidate st).
Proof.
  intros Ht. destruct (BecomeCandidate_role st Ht) as (_ & _ & Rs & Rt & _ & _).
  destruct (BecomeCandidate_log st) as [Hl _]. split.
  - by rewrite Hl.
  - rewrite Hl. by left.
  - lia.
  - intros _. right. lia.
  - by rewrite Rs.
Qed.

Lemma BecomeLeader_node_step sent (w w' : World) :
  state_ (fst w) = CANDIDATE → BecomeLeader now uniform_int send w = Some w' → node_step sent (fst w) (fst w').
Proof.
  intros Hc Hb. destruct (BecomeLeader_role _ _ _ _ _ Hb) as (_ & _ & Rs & Rt).
  destruct (BecomeLeader_log _ _ _ _ _ Hb) as [Hl _]. split.
  - by rewrite Hl.
  - rewrite Hl. by left.
  - lia.
  - by rewrite Rs.
  - intros _. split; [lia|by left].
Qed.

Lemma HandleRequestVoteResponse_node_step sent from resp (w w' : World) :
  mirrored (fst w) → HandleRequestVoteResponse now uniform_int send from resp w = Some w' →
  node_step sent (fst w) (fst w').
Proof.
  intros Hm Hs. pose proof Hs as He. eapply HandleRequestVoteResponse_evolves in He; [|apply send_evolves].
  unfold HandleRequestVoteResponse in Hs. destruct (_ <? vr_term resp).
  { injection Hs as <-. apply vote_node_step; [done|done|apply step_down_quiet|apply step_down_log]. }
  destruct (bool_decide_reflect (state_ (fst w) = CANDIDATE)) as [Hc|]; cbn [negb] in Hs;
    [|injection Hs as <-; apply node_step_refl].
  destruct (_ <? _); [injection Hs as <-; apply node_step_refl|].
  destruct (vr_granted resp); [|injection Hs as <-; apply node_step_refl]. cbv zeta in Hs.
  destruct (_ <=? _).
  { apply (BecomeLeader_node_step sent) in Hs; [|done]. destruct Hs. by split. }
  injection Hs as <-.
  split; [done|by left|done| |].
  - intros _. by left.
  - cbn. by rewrite Hc.
Qed.

Lemma restart_node_step sent st (e e' : E) (w' : World) :
  fits st → mirrored st →
  Start now uniform_int restore_cb_ ParseSnapshot
    (RaftNode_new (config_ st) (disk_ st) (state_file st) (snapshot_file st), e') = Some w' →
  node_step sent (fst (st, e)) (fst w').
Proof.
  intros Hf Hm Hs. pose proof Hs as Hd. apply (Start_durable _ _ _ _ _ _ _ _ _ Hf Hm) in Hd as (Ht & _ & Hl & _).
  apply Start_role in Hs as (_ & _ & Rs). cbn [fst]. split.
  - by rewrite Hl.
  - rewrite Hl. by left.
  - lia.
  - by rewrite Rs.
  - by rewrite Rs.
Qed.

(** Every member makes a [node_step]. *)
Definition moves (sent : list AppendEntriesRequest) (c c' : Cluster) : Prop :=
  (∀ id w', members c' !! id = Some w' → ∃ w, members c !! id = Some w ∧ node_step sent (fst w) (fst w')) ∧
  (∀ id w, members c !! id = Some w → ∃ w', members c' !! id = Some w' ∧ node_step sent (fst w) (fst w')).

Lemma moves_none sent c c' : members c' = members c → moves sent c c'.
Proof. intros Hm. unfold moves. rewrite Hm. split; intros id w Hw; exists w; (split; [done|apply node_step_refl]). Qed.

Lemma moves_one sent c c' id w w' :
  members c !! id = Some w → members c' = <[id := w']> (members c) → node_step sent (fst w) (fst w') →
  moves sent c c'.
Proof.
  intros Hw Hm Hs. unfold moves. rewrite Hm. split; intros i u.
  - rewrite lookup_insert_Some. intros [[<- <-]|[_ Hu]]; [by exists w|]. exists u. split; [done|apply node_step_refl].
  - intros Hu. destruct (decide (i = id)) as [->|Hne].
    + exists w'. rewrite lookup_insert_eq. split; [done|]. rewrite Hw in Hu. by injection Hu as <-.
    + exists u. rewrite lookup_insert_ne by done. split; [done|apply node_step_refl].
Qed.

Context (P : list bytes) (P_nodup : NoDup P) (P_named : [] ∉ P).
Abbreviation ballot := (Z * bytes * bytes)%type.

Lemma member_mirrored (c : Cluster) V K id (w : World) : cluster_inv P c V K → members c !! id = Some w → mirrored (fst w).
Proof. intros HI Hw. destruct (ci_node _ _ _ _ HI id w Hw) as [_ Hok]. apply Hok. Qed.

Lemma vote_step_moves sent c c' V K :
  cluster_inv P c V K → vote_step now uniform_int restore_cb_ ParseSnapshot post c c' → moves sent c c'.
Proof.
  intros HI Hs. destruct Hs as [id st e Hw Ht Hc|id w req Hw Hc Hr|id w w' Hw Hst Hmaj Hb
    |cand id req w w' l1 l2 Ha Hw Hv|cand id resp w w' l1 l2 Ha Hw Hv|x l1 l2 Ha|x l1 l2 Ha|id st e e' w' Hw Hf Hst].
  - eapply moves_one; [exact Hw|done|]. by apply BecomeCandidate_node_step.
  - by apply moves_none.
  - eapply moves_one; [exact Hw|done|]. by apply BecomeLeader_node_step.
  - eapply moves_one; [exact Hw|done|]. apply vote_node_step.
    + by apply (member_mirrored c V K id).
    + by eapply HandleRequestVote_evolves.
    + by eapply HandleRequestVote_quiet.
    + by eapply HandleRequestVote_log.
  - eapply moves_one; [exact Hw|done|]. eapply HandleRequestVoteResponse_node_step; [|exact Hv].
    by apply (member_mirrored c V K cand).
  - by apply moves_none.
  - by apply moves_none.
  - eapply moves_one; [exact Hw|done|]. apply (restart_node_step sent st e e'); [done| |done].
    by apply (member_mirrored c V K id (st, e)).
Qed.

(** ** The invariant *)

(** [V] and [K] are the votes of [RaftElection]; [H] holds of every entry there has
    ever been, [L t id] when [id] has led term [t]. *)
Record log_inv (c : Cluster) (sent : list AppendEntriesRequest) (V K : list ballot)
    (H : LogEntry → Prop) (L : Z → bytes → Prop) : Prop := {
  li_cluster : cluster_inv P c V K;
  li_log : ∀ id w, members c !! id = Some w → ordered (log_ (fst w)) ∧ ∀ e, e ∈ log_ (fst w) → H e;
  li_sent : ∀ req e, req ∈ sent → e ∈ ae_entries req → H e;
  li_unique : ∀ e e', H e → H e' → le_term e = le_term e' → le_index e = le_index e' → e = e';
  li_origin : ∀ e, H e → e = dummy_entry ∨ 0 < le_index e ∧ ∃ id, L (le_term e) id;
  li_leader : ∀ id w, members c !! id = Some w → state_ (fst w) = LEADER →
    L (current_term_ (fst w)) id ∧
    bounded (λ e, H e ∧ le_term e = current_term_ (fst w) ∧ 0 < le_index e) (fst w);
  li_elected : ∀ t id, L t id → elected P V t id ∧ ∃ w, members c !! id = Some w ∧
    t <= current_term_ (fst w) ∧ (t = current_term_ (fst w) → state_ (fst w) ≠ CANDIDATE) }.

Lemma elected_more V V' t id : V ⊆ V' → elected P V t id → elected P V' t id.
Proof. intros HV (Q & N & S & M & HQ). exists Q. split_and!; try done. intros v Hv. by apply HV, HQ. Qed.

(** A new leader's term has no entries yet. *)
Lemma fresh_term c sent V K H L id w t e :
  log_inv c sent V K H L → members c !! id = Some w → state_ (fst w) = CANDIDATE →
  t = current_term_ (fst w) → ∀ (c' : Cluster) V' K', V ⊆ V' → cluster_inv P c' V' K' → elected P V' t id →
  H e → le_term e = t → le_index e <= 0.
Proof.
  intros HI Hw Hc -> c' V' K' HV HI' He Hin Ht.
  destruct (li_origin _ _ _ _ _ _ HI e Hin) as [->|[Hpos [id' HL]]]; [done|]. exfalso.
  destruct (li_elected _ _ _ _ _ _ HI _ _ HL) as (Hel & u & Hu & _ & Hn). rewrite Ht in *.
  assert (id' = id) as ->.
  { eapply (one_elected P c' V' K'); [done|by eapply elected_more|done]. }
  rewrite Hw in Hu. injection Hu as <-. by apply Hn.
Qed.

Lemma log_inv_moves c sent V K H L c' V' K' :
  log_inv c sent V K H L → V ⊆ V' → cluster_inv P c' V' K' → moves sent c c' →
  ∃ L', log_inv c' sent V' K' H L'.
Proof.
  intros HI HV HI' [Hback Hforth].
  exists (λ t id, L t id ∨ ∃ w, members c' !! id = Some w ∧ state_ (fst w) = LEADER ∧ current_term_ (fst w) = t).
  pose proof HI as [I1 I2 I3 I4 I5 I6 I7]. split; try done.
  - intros id w' Hw'. destruct (Hback id w' Hw') as (w & Hw & Hs). destruct (I2 id w Hw) as [Ho Hin].
    split; [by apply (ns_ordered _ _ _ Hs)|]. intros e [He|(req & Hr & He)]%(ns_entries _ _ _ Hs); [by apply Hin|].
    by apply (I3 req).
  - intros e He. destruct (I5 e He) as [|[Hpos [id HL]]]; [by left|right]. split; [done|]. exists id. by left.
  - intros id w' Hw' Hl. split; [right; by exists w'|].
    destruct (Hback id w' Hw') as (w & Hw & Hs). destruct (ns_leader _ _ _ Hs Hl) as [Ht [Hc|[Hl0 Hb]]]; rewrite Ht.
    + left. intros e (He & Hte & Hpos). exfalso.
      assert (elected P V' (current_term_ (fst w')) id) as Hel by (eapply leader_quorum; [exact HI'|exact Hw'|done]).
      rewrite Ht in Hel. pose proof (fresh_term _ _ _ _ _ _ _ _ _ e HI Hw Hc eq_refl _ _ _ HV HI' Hel He Hte). lia.
    + apply Hb; [by apply (I2 id)|]. by apply (I6 id).
  - intros t id [HL|(w' & Hw' & Hl & Ht)].
    + destruct (I7 t id HL) as (Hel & w & Hw & Hle & Hn). split; [by eapply elected_more|].
      destruct (Hforth id w Hw) as (w' & Hw' & Hs). exists w'. split; [done|].
      pose proof (ns_term _ _ _ Hs). split; [lia|]. intros Heq Hc.
      destruct (ns_candidate _ _ _ Hs Hc) as [[Hc0 Ht]|Hlt]; [|lia]. by apply Hn; [lia|].
    + subst t. split; [by eapply leader_quorum|]. exists w'. split; [done|]. split; [lia|]. by rewrite Hl.
Qed.

(** A leader proposes: the entry is new. *)
Lemma log_inv_propose c sent V K H L id w w' command r :
  log_inv c sent V K H L → members c !! id = Some w → state_ (fst w) = LEADER →
  snapshot_last_index_ (fst w) <= last_index (log_ (fst w)) < 2 ^ 64 - 1 →
  Propose_append command (fst w) = Some (fst w', r) → cluster_inv P (with_member id w' c) V K →
  ∃ H', log_inv (with_member id w' c) sent V K H' L.
Proof.
  intros HI Hw Hl Hg Hs HI'. pose proof HI as [I1 I2 I3 I4 I5 I6 I7].
  destruct (I2 id w Hw) as [Ho Hin]. destruct (I6 id w Hw Hl) as [HL HB].
  unfold Propose_append in Hs. rewrite bool_decide_eq_true_2 in Hs by done.
  apply bind_Some in Hs as (l & Hlast & Hs). injection Hs as Hs _.
  assert (last_index (log_ (fst w)) = le_index l) as Hli.
  { unfold log_back in Hlast. unfold last_index, log_last. by rewrite Hlast. }
  assert (0 <= le_index l) as Hnn.
  { apply (ordered_nonneg (log_ (fst w))); [done|]. unfold log_back in Hlast. by apply last_Some_elem_of. }
  rewrite Hli in Hg. unfold u64 in Hs. rewrite (Z.mod_small (le_index l + 1)) in Hs by lia.
  set (x := mkEntry (current_term_ (fst w)) (le_index l + 1) command) in *.
  assert (log_ (fst w') = log_ (fst w) ++ [x] ∧ current_term_ (fst w') = current_term_ (fst w) ∧
    state_ (fst w') = LEADER) as (Hlog & Ht & Hst).
  { rewrite <- Hs. unfold PersistState. cbn. destruct (written _ _); cbn; by split_and!. }
  assert (∀ e, H e → le_term e = current_term_ (fst w) → le_index e <= le_index l) as Hnew.
  { intros e He Hte. destruct (I5 e He) as [->|[Hpos _]]; [done|]. destruct HB as [HB|[Htl Hs0]].
    - rewrite Hli in HB. by apply HB.
    - exfalso. destruct Ho as [Hh _]. destruct (log_ (fst w)) as [|e0 log]; [done|]. cbn in Hh, Htl. subst log.
      injection Hh as ->. rewrite last_index_single in Hli. cbn in Hli. lia. }
  exists (λ e, H e ∨ e = x). split; cbn [members with_member]; [done|..].
  - intros i u. rewrite lookup_insert_Some. intros [[<- <-]|[_ Hu]].
    + rewrite Hlog. split; [apply ordered_snoc; [done|cbn; lia]|].
      intros e [He| ->%list_elem_of_singleton]%elem_of_app; [left; by apply Hin|by right].
    + destruct (I2 i u Hu) as [Hou Hinu]. split; [done|]. intros e He. left. by apply Hinu.
  - intros req e Hr He. left. by apply (I3 req).
  - intros e e' [He| ->] [He'| ->] Hte Hie; [by apply I4| | |done].
    + specialize (Hnew e He Hte). cbn in Hie. lia.
    + symmetry in Hte. specialize (Hnew e' He' Hte). cbn in Hie. lia.
  - intros e [He| ->]; [by apply I5|]. right. split; [cbn; lia|]. by exists id.
  - intros i u. rewrite lookup_insert_Some. intros [[<- <-]|[Hne Hu]] Hlu.
    + rewrite Ht. split; [done|]. left. rewrite Hlog, last_index_snoc. cbn [x le_index].
      intros e ([He| ->] & Hte & _); [specialize (Hnew e He Hte); lia|cbn; lia].
    + destruct (I6 i u Hu Hlu) as [HLu HBu]. split; [done|].
      assert (current_term_ (fst u) ≠ current_term_ (fst w)) as Hdiff.
      { intros E1. apply Hne. apply (one_elected P c V K (current_term_ (fst w))); [done|by eapply leader_quorum|].
        rewrite <- E1. by eapply leader_quorum. }
      destruct HBu as [HBu|HBu]; [left|by right]. intros e ([He| ->] & Hte & Hpos); [by apply HBu|]. by cbn in Hte.
  - intros t i HLt. destruct (I7 t i HLt) as (Hel & u & Hu & Hle & Hn). split; [done|].
    destruct (decide (i = id)) as [->|Hne].
    + exists w'. rewrite lookup_insert_eq. rewrite Hw in Hu. injection Hu as <-. split; [done|].
      rewrite Ht, Hst. split; [done|]. by intros _.
    + exists u. by rewrite lookup_insert_ne.
Qed.

Lemma log_inv_step c sent V K H L c' sent' :
  log_inv c sent V K H L → history_step (c, sent) (c', sent') →
  ∃ V' K' H' L', log_inv c' sent' V' K' H' L'.
Proof using All.
  intros HI Hs. inversion Hs as [? ? id w w' Hw Hst|? ? id w n Hw|? ? ? Hst]; subst.
  - pose proof (li_cluster _ _ _ _ _ _ HI) as HC.
    assert (cluster_inv P (with_member id w' c) V K) as HC'
      by (eapply inv_local_step; [exact HC|exact Hw|by eapply careful_local]).
    destruct (careful_node_step _ _ _ (member_mirrored _ _ _ _ _ HC Hw) Hst) as [Hn|(cmd & r & Hl & Hg & Hp)].
    + destruct (log_inv_moves c sent' V K H L (with_member id w' c) V K HI) as [L' HI']; [done|done| |by exists V, K, H, L'].
      by eapply moves_one.
    + destruct (log_inv_propose c sent' V K H L id w w' cmd r) as [H' HI']; try done. by exists V, K, H', L.
  - exists V, K, H, L. destruct HI as [I1 I2 I3 I4 I5 I6 I7]. split; try done.
    intros req e [->|Hr]%elem_of_cons He; [|by apply (I3 req)]. cbn in He.
    apply list_elem_of_filter in He as [_ He]. by apply (I2 id w Hw).
  - pose proof (li_cluster _ _ _ _ _ _ HI) as HC.
    assert (∃ V' K', V ⊆ V' ∧ cluster_inv P c' V' K') as (V' & K' & HV & HC') by by eapply inv_vote_step.
    destruct (log_inv_moves c sent' V K H L c' V' K' HI HV HC') as [L' HI']; [by eapply vote_step_moves|].
    by exists V', K', H, L'.
Qed.

(** A cluster that has just started for the first time. *)
Definition fresh (c : Cluster) : Prop :=
  started P c ∧ ∀ id w, members c !! id = Some w → log_ (fst w) = [dummy_entry].

Lemma fresh_log_inv c : fresh c → log_inv c [] [] [] (λ e, e = dummy_entry) (λ _ _, False).
Proof.
  intros [Hs Hl]. split; try done.
  - by apply started_inv.
  - intros id w Hw. rewrite (Hl id w Hw). split; [split; [done|by repeat constructor]|].
    by intros e ->%list_elem_of_singleton.
  - by intros req e ?%not_elem_of_nil.
  - by intros e e' -> ->.
  - intros e ->. by left.
  - intros id w Hw Hst. destruct Hs as (_ & _ & _ & Hs). destruct (Hs id w Hw) as (_ & _ & _ & _ & _ & Hf). congruence.
Qed.

Lemma history_inv c0 c sent :
  fresh c0 → rtc history_step (c0, []) (c, sent) → ∃ V K H L, log_inv c sent V K H L.
Proof using All.
  intros H0 Hs. pose proof (fresh_log_inv _ H0) as HI.
  remember (c0, []) as x eqn:Hx. remember (c, sent) as y eqn:Hy.
  assert (∃ V K H L, log_inv (fst x) (snd x) V K H L) as HI0 by (subst x; do 4 eexists; exact HI).
  clear Hx HI H0. cut (∃ V K H L, log_inv (fst y) (snd y) V K H L); [by subst y|]. clear Hy.
  induction Hs as [|[c1 s1] [c2 s2] z H1 _ IH]; [done|]. apply IH.
  destruct HI0 as (V & K & H & L & HI). by eapply log_inv_step.
Qed.

(** C5: an index and a term determine an entry.  In a cluster that has just been
    set up, whatever is lost, delayed, repeated or reordered, whoever crashes
    between two writes of its state file, restarts, trims its log for a snapshot or
    installs one, two entries of one index and term, in the logs of any two nodes or
    in any append message, are the same, and every log is strictly increasing;
    provided every write of a state file is whole ([fresh] asks it of the disks; see
    [RaftDurable.torn_state_forgets_vote]) and no node proposes while its log ends
    before its snapshot does. *)
Theorem index_and_term_determine_entry c0 c sent a b wa wb ea eb :
  fresh c0 → rtc history_step (c0, []) (c, sent) →
  members c !! a = Some wa → members c !! b = Some wb →
  ea ∈ log_ (fst wa) → (eb ∈ log_ (fst wb) ∨ ∃ req, req ∈ sent ∧ eb ∈ ae_entries req) →
  le_term ea = le_term eb → le_index ea = le_index eb →
  ea = eb ∧ StronglySorted index_lt (log_ (fst wa)).
Proof using All.
  intros H0 Hs Ha Hb Hea Heb Ht Hi. destruct (history_inv _ _ _ H0 Hs) as (V & K & H & L & HI).
  destruct (li_log _ _ _ _ _ _ HI a wa Ha) as [Ho Hin]. split; [|apply Ho].
  apply (li_unique _ _ _ _ _ _ HI); [by apply Hin| |done|done].
  destruct Heb as [Heb|(req & Hr & Heb)].
  - by apply (li_log _ _ _ _ _ _ HI b wb Hb).
  - by apply (li_sent _ _ _ _ _ _ HI req).
Qed.
End History.

(** * A concrete history *)

(** [n1] leads after the election of [RaftElection], takes a proposal and sends it;
    [n2] appends it. *)
Definition proposed_1 : RaftNode * unit :=
  (default (fst leader_1) (fst <$> Propose_append (str "put") (fst leader_1)), tt).
Definition append_1 : AppendEntriesRequest := heartbeat_request (fst proposed_1) 1.
Definition appended_2 : RaftNode * unit :=
  default voter_2 (HandleAppendEntries RaftElection.tick RaftElection.draw None (str "n1") append_1 voter_2).
Definition history_5 : Cluster := with_member (str "n1") proposed_1 election_4.
Definition history_6 : Cluster := with_member (str "n2") appended_2 history_5.

Abbreviation demo_history := (history_step RaftElection.tick RaftElection.draw None None (λ _, []) (λ _, None) post_nothing).

Lemma demo_fresh : fresh demo_peers election_0.
Proof.
  split; [apply demo_started|].
  assert (map_Forall (λ (_ : bytes) (w : RaftNode * unit), log_ (fst w) = [dummy_entry]) (members election_0)) as HF
    by (apply (bool_decide_unpack _); by vm_compute).
  exact HF.
Qed.

Lemma demo_proposed : ∃ r, Propose_append (str "put") (fst leader_1) = Some (fst proposed_1, r).
Proof.
  assert (is_Some (Propose_append (str "put") (fst leader_1))) as [[st r] E]
    by (apply (bool_decide_unpack _); by vm_compute).
  exists r. unfold proposed_1. by rewrite E.
Qed.

Lemma propose_step (w w' : RaftNode * unit) command r sent :
  snapshot_last_index_ (fst w) <= last_index (log_ (fst w)) < 2 ^ 64 - 1 →
  Propose_append command (fst w) = Some (fst w', r) →
  careful_step RaftElection.tick RaftElection.draw None None (λ _, []) post_nothing sent w w'.
Proof. destruct w as [st []], w' as [st' []]. apply cs_propose. Qed.

Lemma demo_history_5 : demo_history (election_4, []) (history_5, []).
Proof.
  apply (hs_local _ _ _ _ _ _ _ _ _ (str "n1") leader_1); [by vm_compute|].
  destruct demo_proposed as [r Hr]. apply (propose_step leader_1 proposed_1 (str "put") r); [|exact Hr].
  apply (bool_decide_unpack _). by vm_compute.
Qed.

Lemma demo_history_6 : demo_history (history_5, [append_1]) (history_6, [append_1]).
Proof.
  apply (hs_local _ _ _ _ _ _ _ _ _ (str "n2") voter_2); [by vm_compute|].
  apply (cs_append _ _ _ _ _ _ _ (str "n1") append_1); [left|computed].
Qed.

Lemma demo_history_run : rtc demo_history (election_0, []) (history_6, [append_1]).
Proof.
  transitivity (election_4, @nil AppendEntriesRequest).
  { pose proof demo_votes as Hv. induction Hv as [c|c1 c2 c3 H1 _ IH]; [apply rtc_refl|].
    eapply rtc_l; [by apply hs_vote|exact IH]. }
  eapply rtc_l; [exact demo_history_5|].
  eapply rtc_l; [apply (hs_send _ _ _ _ _ _ _ _ _ (str "n1") proposed_1 1); by vm_compute|].
  eapply rtc_l; [exact demo_history_6|apply rtc_refl].
Qed.

Lemma index_and_term_determine_entry_witness :
  mkEntry 1 1 (str "put") ∈ log_ (fst proposed_1) ∧
  ∀ eb, eb ∈ log_ (fst appended_2) → le_term eb = 1 → le_index eb = 1 →
    mkEntry 1 1 (str "put") = eb ∧ StronglySorted index_lt (log_ (fst proposed_1)).
Proof.
  assert (mkEntry 1 1 (str "put") ∈ log_ (fst proposed_1)) as Hin by (apply (bool_decide_unpack _); by vm_compute).
  split; [exact Hin|]. intros eb Hb Ht Hi.
  apply (index_and_term_determine_entry RaftElection.tick RaftElection.draw None None (λ _, []) (λ _, None) post_nothing demo_peers)
    with (c0 := election_0) (c := history_6) (sent := [append_1]) (a := str "n1") (b := str "n2") (wb := appended_2);
    [apply (bool_decide_unpack _); by vm_compute|apply (bool_decide_unpack _); by vm_compute|apply demo_fresh|
     apply demo_history_run|by vm_compute|by vm_compute|exact Hin|by left|by rewrite Ht|by rewrite Hi].
Defined.
