(* ===== verification/RaftTypes.v ===== *)
(** The members of a Raft node stay within their C++ types: src/raft/raft_node.cc.

    The model keeps integers as [Z]; these theorems say that every value the code
    can give a [uint64_t] member is one such a member can hold, whatever messages
    arrive, so that a state file is always one [RestoreState] can read, and on which
    messages the handlers are defined. *)
From S2P Require Import Prelude Coding Raft RaftRpc RaftDurable RaftElection RaftReplication RaftLog.

Definition in_u64 (z : Z) : Prop := 0 <= z < 2 ^ 64.

Lemma u64_in z : in_u64 (u64 z).
Proof. apply Z.mod_pos_bound. lia. Qed.

Definition entry_ints (e : LogEntry) : Prop := in_u64 (le_term e) ∧ in_u64 (le_index e).

(** What the parser gives for the integers of a message. *)
Definition message_ints (m : RaftMessage) : Prop :=
  match m with
  | REQUEST_VOTE r => in_u64 (rv_term r)
  | REQUEST_VOTE_RESPONSE r => in_u64 (vr_term r)
  | APPEND_ENTRIES r =>
      in_u64 (ae_term r) ∧ in_u64 (ae_leader_commit r) ∧ Forall entry_ints (ae_entries r) ∧
      in_u64 (ae_prev_log_index r)
  | APPEND_ENTRIES_RESPONSE r => in_u64 (ar_term r) ∧ in_u64 (ar_match_index r)
  | INSTALL_SNAPSHOT r =>
      in_u64 (is_term r) ∧ in_u64 (is_last_included_index r) ∧ in_u64 (is_last_included_term r)
  | INSTALL_SNAPSHOT_RESPONSE r => in_u64 (sr_term r)
  end.

Definition snapshot_ints (s : SnapshotMetadata) : Prop :=
  in_u64 (sm_last_included_index s) ∧ in_u64 (sm_last_included_term s).

Record typed (st : RaftNode) : Prop := {
  ty_term : in_u64 (current_term_ st);
  ty_commit : in_u64 (commit_index_ st);
  ty_applied : in_u64 (last_applied_ st);
  ty_snapshot_index : in_u64 (snapshot_last_index_ st);
  ty_snapshot_term : in_u64 (snapshot_last_term_ st);
  ty_next : map_Forall (λ (_ : bytes), in_u64) (next_index_ st);
  ty_match : map_Forall (λ (_ : bytes), in_u64) (match_index_ st);
  ty_headed : headed (log_ st);
  ty_entries : Forall entry_ints (log_ st) }.

Definition keeps (st st' : RaftNode) : Prop := typed st → typed st'.

#[export] Instance keeps_preorder : PreOrder keeps.
Proof. split; [by intros st ?|]. intros s1 s2 s3 H1 H2 H. by apply H2, H1. Qed.

(** Only members that are not in [typed] change. *)
Ltac keep := intros []; by split.

Lemma PersistState_keeps st : keeps st (PersistState st).
Proof. unfold PersistState. destruct (written _ _); keep. Qed.

Lemma set_term_keeps t st : in_u64 t → keeps st (set_current_term_ t st).
Proof. intros Ht. keep. Qed.

Lemma typed_last st l : typed st → log_back st = Some l → entry_ints l.
Proof.
  intros Hty Hl. apply last_Some_elem_of in Hl. pose proof (ty_entries _ Hty) as He.
  rewrite Forall_forall in He. by apply He.
Qed.

Lemma step_down_keeps t st : in_u64 t → keeps st (step_down t st).
Proof.
  intros Ht. unfold step_down. etransitivity; [apply (set_term_keeps t), Ht|].
  etransitivity; [|apply PersistState_keeps]. keep.
Qed.

Lemma subscript_in (k : bytes) (m : gmap bytes Z) :
  map_Forall (λ (_ : bytes), in_u64) m → map_Forall (λ (_ : bytes), in_u64) (fst (subscript k m)) ∧ in_u64 (snd (subscript k m)).
Proof.
  intros Hm. unfold subscript. destruct (m !! k) as [v|] eqn:Hk; cbn [fst snd].
  - split; [done|by apply (Hm k)].
  - split; [by apply map_Forall_insert_2|done].
Qed.

Lemma init_progress_in st i :
  map_Forall (λ (_ : bytes), in_u64) (fst (init_progress st i)) ∧ map_Forall (λ (_ : bytes), in_u64) (snd (init_progress st i)).
Proof.
  unfold init_progress. generalize (peers (config_ st)). intros ps.
  assert (∀ x : gmap bytes Z * gmap bytes Z, map_Forall (λ (_ : bytes), in_u64) (fst x) ∧ map_Forall (λ (_ : bytes), in_u64) (snd x) →
    let y := foldl (λ '(next, mtch) peer, if bool_decide (peer = my_id_ st) then (next, mtch)
      else (<[peer := u64 (i + 1)]> next, <[peer := 0]> mtch)) x ps in
    map_Forall (λ (_ : bytes), in_u64) (fst y) ∧ map_Forall (λ (_ : bytes), in_u64) (snd y)) as Hf; [|apply Hf; split; apply map_Forall_empty].
  induction ps as [|p ps IH]; intros [next mtch] Hx; [done|]. apply IH. destruct (bool_decide _); [done|].
  destruct Hx as [H1 H2]. split; cbn; apply map_Forall_insert_2; try done. apply u64_in.
Qed.

Lemma trim_log_typed i st log :
  typed st → trim_log i (log_ st) = Some log → headed log ∧ Forall entry_ints log.
Proof.
  intros [] Ht. split; [by apply (trim_log_headed _ _ _ Ht)|]. rewrite Forall_forall in *.
  intros e He. by apply ty_entries0, (trim_log_elem _ _ _ e Ht).
Qed.

Lemma raise_commit_keeps st : keeps st (raise_commit st).
Proof. unfold raise_commit. destruct (_ <? _); keep. Qed.

Section Types.
Context {E : Type}.
Context (now : E → Z) (uniform_int : Z → Z → E → Z * E).
Context (apply_cb_ : option (Z → bytes → E → E)).
Context (restore_cb_ : option (bytes → E → E)).
Context (SerializeSnapshot : SnapshotMetadata → bytes).
Context (ParseSnapshot : bytes → option SnapshotMetadata).
Context (SerializeMessage : RaftMessage → bytes) (ParseMessage : bytes → option RaftMessage).
Context (exchange : bytes → Z → bytes → E → E * option (option bytes)).
Abbreviation World := (RaftNode * E)%type.

(** ** Local methods *)

Lemma ResetElectionTimer_keeps w : keeps (fst w) (fst (ResetElectionTimer now uniform_int w)).
Proof. destruct (ResetElectionTimer_deadline now uniform_int w) as (d & e & ->). keep. Qed.

Lemma ApplyCommitted_loop_keeps n up w w' :
  ApplyCommitted_loop apply_cb_ n up w = Some w' → keeps (fst w) (fst w').
Proof.
  revert w. induction n as [|n IH]; intros w; [done|]. simpl.
  destruct (_ <? up); intros Hs; [|by injection Hs as <-].
  etransitivity; [|by apply IH]. destruct w as [st e]. unfold apply_next.
  pose proof (u64_in (last_applied_ st + 1)). repeat case_match; keep.
Qed.

Lemma AdvanceCommitIndex_loop_keeps f n w w' :
  n < 2 ^ 64 → AdvanceCommitIndex_loop apply_cb_ f n w = Some w' → keeps (fst w) (fst w').
Proof.
  revert n. induction f as [|f IH]; intros n Hn; [done|]. simpl.
  destruct (Z.ltb_spec (commit_index_ (fst w)) n) as [Hlt|]; intros Hs; [|by injection Hs as <-].
  destruct (GetLogEntry _ _); [|eapply IH, Hs; lia].
  destruct (_ && _); [|eapply IH, Hs; lia].
  apply ApplyCommitted_loop_keeps in Hs. etransitivity; [|exact Hs]. destruct w as [st e].
  intros []. assert (in_u64 n) by (unfold in_u64 in *; cbn in *; lia). by split.
Qed.

Lemma AdvanceCommitIndex_keeps w w' : AdvanceCommitIndex apply_cb_ w = Some w' → keeps (fst w) (fst w').
Proof.
  unfold AdvanceCommitIndex. intros Hs Hty. apply bind_Some in Hs as (l & Hl & Hs).
  pose proof (typed_last _ _ Hty Hl) as [_ Hi]. revert Hty. eapply AdvanceCommitIndex_loop_keeps, Hs. apply Hi.
Qed.

Lemma set_log_keeps log st : headed log → Forall entry_ints log → keeps st (set_log_ log st).
Proof. intros Ho He []. by split. Qed.

Lemma carries_keeps es st log :
  Forall entry_ints es → carries es st (set_log_ log st) → keeps st (set_log_ log st).
Proof.
  intros Hes (Ho & _ & He & _) Hty. pose proof Hty as []. apply set_log_keeps; [by apply Ho| |done].
  rewrite Forall_forall in *. intros e [Hin|Hin]%He; [by apply ty_entries0|by apply Hes].
Qed.

Lemma accept_entries_keeps req w w' :
  in_u64 (ae_leader_commit req) → Forall entry_ints (ae_entries req) →
  accept_entries apply_cb_ req w = Some w' → keeps (fst w) (fst w').
Proof.
  destruct w as [st e]. intros Hcm Hes. unfold accept_entries. intros Hs. raft_simpl.
  apply bind_Some in Hs as (st1 & H1 & Hs). pose proof (append_entries_carries _ _ _ H1) as Hc.
  destruct (append_entries_same _ _ _ H1) as (log & ->). apply carries_keeps in Hc; [|done].
  etransitivity; [exact Hc|]. etransitivity; [apply PersistState_keeps|].
  revert Hs. generalize (PersistState (set_log_ log st)). intros s Hs Hty.
  apply bind_Some in Hs as (l & Hl & Hs). apply bind_Some in Hs as (w1 & Hw & Hs).
  apply bind_Some in Hs as (l' & _ & Hs). injection Hs as <-.
  pose proof (typed_last _ _ Hty Hl) as [_ Hi]. pose proof (ty_commit _ Hty) as Hci.
  enough (typed (fst w1)) as [] by by split. revert Hw.
  destruct (Z.ltb_spec (commit_index_ s) (ae_leader_commit req)); [|by intros [= <-]].
  destruct (Z.ltb_spec (commit_index_ s) (Z.min (ae_leader_commit req) (le_index l))); [|by intros [= <-]]. intros Hw.
  apply ApplyCommitted_loop_keeps in Hw. apply Hw. cbn [on_node fst].
  assert (in_u64 (Z.min (ae_leader_commit req) (le_index l))) by (unfold in_u64 in *; lia).
  destruct Hty. by split.
Qed.

Lemma HandleRequestVote_keeps from req w w' :
  in_u64 (rv_term req) → HandleRequestVote now uniform_int from req w = Some w' → keeps (fst w) (fst w').
Proof.
  intros Ht. destruct w as [st e]. unfold HandleRequestVote. raft_simpl.
  destruct (rv_term req <? current_term_ st); [intros [= <-]; keep|].
  set (w1 := if current_term_ st <? rv_term req then _ else _).
  assert (keeps st (fst w1)) as H1.
  { subst w1. destruct (_ <? _); [|keep]. raft_simpl.
    etransitivity; [apply (set_term_keeps _ _ Ht)|]. unfold PersistState. destruct (written _ _); keep. }
  intros Hs. apply bind_Some in Hs as (can & Hcan & Hs). etransitivity; [exact H1|].
  destruct can; injection Hs as <-; [|keep].
  etransitivity; [|apply ResetElectionTimer_keeps]. raft_simpl. unfold PersistState. destruct (written _ _); keep.
Qed.

Lemma HandleAppendEntries_keeps from req w w' :
  in_u64 (ae_term req) → in_u64 (ae_leader_commit req) → Forall entry_ints (ae_entries req) →
  HandleAppendEntries now uniform_int apply_cb_ from req w = Some w' → keeps (fst w) (fst w').
Proof.
  intros Ht Hcm Hes. destruct w as [st e]. unfold HandleAppendEntries. raft_simpl.
  destruct (ae_term req <? current_term_ st); [intros [= <-]; keep|].
  set (w1 := if current_term_ st <? ae_term req then _ else _).
  assert (keeps st (fst w1)) as H1.
  { subst w1. destruct (_ <? _); [|keep]. raft_simpl.
    etransitivity; [apply (set_term_keeps _ _ Ht)|]. unfold PersistState. destruct (written _ _); keep. }
  set (w2 := ResetElectionTimer _ _ _). assert (keeps st (fst w2)) as H2.
  { subst w2. etransitivity; [exact H1|]. etransitivity; [|apply ResetElectionTimer_keeps]. keep. }
  intros Hs. apply bind_Some in Hs as (l & _ & Hs). etransitivity; [exact H2|]. clearbody w2. clear H1 H2 w1.
  destruct (_ <? _); [injection Hs as <-; keep|].
  destruct (_ <=? _).
  - destruct (GetLogEntry _ _) as [prev|]; [|by apply accept_entries_keeps in Hs].
    destruct (_ =? _); [by apply accept_entries_keeps in Hs|].
    apply bind_Some in Hs as (st1 & Hst & Hs). apply bind_Some in Hs as (l1 & _ & Hs). injection Hs as <-.
    pose proof (truncate_conflict_carries _ _ _ [] _ _ Hst) as Hc.
    apply truncate_conflict_same in Hst as (log & ->). apply carries_keeps in Hc; [|done].
    etransitivity; [exact Hc|]. etransitivity; [|apply PersistState_keeps]. keep.
  - destruct (_ || _); [injection Hs as <-; keep|by apply accept_entries_keeps in Hs].
Qed.

Lemma HandleInstallSnapshot_keeps from req w w' :
  in_u64 (is_term req) → in_u64 (is_last_included_index req) → in_u64 (is_last_included_term req) →
  HandleInstallSnapshot now uniform_int restore_cb_ SerializeSnapshot from req w = Some w' →
  keeps (fst w) (fst w').
Proof.
  intros Ht Hi Hst. destruct w as [st e]. unfold HandleInstallSnapshot. raft_simpl.
  destruct (is_term req <? current_term_ st); [intros [= <-]; keep|].
  set (w1 := if current_term_ st <? is_term req then _ else _).
  assert (keeps st (fst w1)) as H1.
  { subst w1. destruct (_ <? _); [|keep]. raft_simpl.
    etransitivity; [apply (set_term_keeps _ _ Ht)|]. unfold PersistState. destruct (written _ _); keep. }
  set (w2 := ResetElectionTimer _ _ _). assert (keeps st (fst w2)) as H2.
  { subst w2. etransitivity; [exact H1|]. etransitivity; [|apply ResetElectionTimer_keeps]. keep. }
  intros Hs. etransitivity; [exact H2|]. clearbody w2. clear H1 H2 w1.
  destruct (_ || _); [injection Hs as <-; keep|].
  destruct (written _ _); [|injection Hs as <-; keep].
  set (w3 := match restore_cb_ with Some _ => _ | None => _ end) in Hs.
  assert (keeps (fst w2) (fst w3)) as H3.
  { subst w3. destruct restore_cb_; [destruct (bool_decide _)|]; keep. }
  etransitivity; [exact H3|]. clearbody w3. clear H3.
  apply bind_Some in Hs as (st4 & Ha & Hs). injection Hs as <-. cbn [fst].
  transitivity st4; [|etransitivity; [apply PersistState_keeps|keep]].
  unfold adopt_snapshot in Ha. apply bind_Some in Ha as (log & Hlog & Ha). injection Ha as <-.
  etransitivity; [|apply raise_commit_keeps]. intros Hty. cbn in Hlog.
  destruct (trim_log_typed _ _ _ Hty Hlog) as [Ho He]. destruct Hty. by split.
Qed.

Lemma HandleAppendEntriesResponse_keeps from resp w w' :
  in_u64 (ar_term resp) → in_u64 (ar_match_index resp) →
  HandleAppendEntriesResponse apply_cb_ from resp w = Some w' → keeps (fst w) (fst w').
Proof.
  intros Ht Hm. unfold HandleAppendEntriesResponse. destruct (_ <? ar_term resp).
  { intros [= <-]. by apply step_down_keeps. }
  destruct (negb _); [by intros [= <-]|].
  destruct (ar_success resp).
  - intros H1. apply AdvanceCommitIndex_keeps in H1. etransitivity; [|exact H1]. intros [].
    split; try done; cbn; apply map_Forall_insert_2; try done. apply u64_in.
  - intros [= <-]. cbn [on_node fst]. intros Hty.
    destruct (subscript_in from _ (ty_next _ Hty)) as [Hn _]. destruct (subscript _ _) as [next i].
    pose proof (u64_in (ar_match_index resp + 1)). pose proof (u64_in (snapshot_last_index_ (fst w) + 1)).
    unfold in_u64 in *. destruct Hty. destruct (_ <? i); split; try done. cbn. apply map_Forall_insert_2; [|done].
    cbn. unfold in_u64. destruct (Z.ltb_spec (Z.max (u64 (ar_match_index resp + 1)) (u64 (snapshot_last_index_ (fst w) + 1))) 1); lia.
Qed.

Lemma BecomeCandidate_keeps st : keeps st (BecomeCandidate st).
Proof.
  unfold BecomeCandidate. etransitivity; [|apply PersistState_keeps].
  pose proof (u64_in (current_term_ st + 1)). keep.
Qed.

Lemma Propose_append_keeps command st st' r : Propose_append command st = Some (st', r) → keeps st st'.
Proof.
  unfold Propose_append. destruct (bool_decide _); [|by intros [= <- _]].
  intros Hs Hty. apply bind_Some in Hs as (l & Hl & Hs). injection Hs as <- _.
  pose proof (ty_term _ Hty) as Ht. pose proof (u64_in (le_index l + 1)) as Hi.
  set (st1 := set_log_ (log_ st ++ [mkEntry (current_term_ st) (u64 (le_index l + 1)) command]) st).
  assert (typed st1) as Hty1.
  { destruct Hty. split; try done; cbn [st1 log_ set_log_].
    - by destruct (log_ st).
    - apply Forall_app. split; [done|]. apply Forall_cons. by split; [split|]. }
  destruct (PersistState_keeps st1 Hty1). split; try done; cbn; apply map_Forall_insert_2; try done. apply u64_in.
Qed.

Lemma TakeSnapshot_finish_keeps snap st st' :
  snapshot_ints snap → TakeSnapshot_finish snap st = Some st' → keeps st st'.
Proof.
  intros [Hi Ht] Hs Hty. unfold TakeSnapshot_finish in Hs. apply bind_Some in Hs as (log & Hlog & Hs).
  injection Hs as <-. apply PersistState_keeps. cbn in Hlog.
  destruct (trim_log_typed _ _ _ Hty Hlog) as [Ho He]. destruct Hty. by split.
Qed.

Lemma Start_keeps config wr sf pf e w' :
  (∀ b s, ParseSnapshot b = Some s → snapshot_ints s) →
  Start now uniform_int restore_cb_ ParseSnapshot (RaftNode_new config wr sf pf, e) = Some w' →
  ∀ st1, RestoreState (RaftNode_new config wr sf pf) = Some st1 → typed st1 → typed (fst w').
Proof.
  intros Hps Hs st1 H1 Hty. unfold Start in Hs. cbn [fst snd] in Hs. rewrite H1 in Hs. cbn [mbind option_bind] in Hs.
  apply bind_Some in Hs as ([w2 b] & H2 & Hs). injection Hs as <-. apply ResetElectionTimer_keeps.
  enough (typed (fst w2)) as H by (cbn [on_node fst]; unfold BecomeFollower; rewrite Z.ltb_irrefl; destruct H; by split).
  unfold RestoreFromSnapshot in H2. cbn [fst] in H2. destruct (snapshot_file st1); [|by injection H2 as <- _].
  destruct (read_u64 _ _) as [f1 len]. destruct (negb _); [by injection H2 as <- _|].
  apply bind_Some in H2 as ([f2 s] & _ & H2). destruct (negb _); [by injection H2 as <- _|].
  destruct (ParseSnapshot s) as [snap|] eqn:Hp; injection H2 as <- _; [|done].
  apply Hps in Hp as [Hi Ht]. apply raise_commit_keeps. destruct Hty. by split.
Qed.

(** A node restarted from the file of a typed node. *)
Lemma restart_typed config st pf e w' :
  (∀ b s, ParseSnapshot b = Some s → snapshot_ints s) → fits st → mirrored st → typed st →
  Start now uniform_int restore_cb_ ParseSnapshot
    (RaftNode_new config (disk_ st) (state_file st) pf, e) = Some w' →
  typed (fst w').
Proof.
  intros Hps Hf [Hw Hm] Hty Hs. destruct Hm as [Hm|(Hm & Ht0 & Hv0 & Hl0)].
  - eapply Start_keeps; [done|exact Hs|by apply (RestoreState_state_bytes st)|].
    assert (in_u64 (le_index (log_last (log_ st)))) as Hi.
    { unfold log_last. destruct (last (log_ st)) as [l|] eqn:Hl; [|done]. by apply (typed_last st l). }
    destruct Hty. split; raft_simpl; done.
  - eapply Start_keeps; [done|exact Hs|unfold RestoreState; cbn [RaftNode_new state_file]; by rewrite Hm|].
    split; cbn; try done. apply Forall_cons. by split.
Qed.

(** ** Local methods return

    All of them, on every message, but for one: an append message that names the
    sentinel as its previous entry, with a term that is not 0, makes the loop of
    [HandleAppendEntries] pop the sentinel too and read [back()] of an empty log. *)

Definition pops_sentinel (req : AppendEntriesRequest) (st : RaftNode) : Prop :=
  current_term_ st <= ae_term req ∧ ae_prev_log_index req = 0 ∧ ae_prev_log_term req ≠ 0 ∧
  snapshot_last_index_ st = 0.

Lemma headed_back st : headed (log_ st) → ∃ l, log_back st = Some l.
Proof.
  unfold headed, log_back. destruct (log_ st) as [|x log]; [done|]. intros _.
  destruct (last_is_Some (x :: log)) as [_ H]. by apply H.
Qed.

Lemma ApplyCommitted_loop_defined n up (w : World) :
  0 <= last_applied_ (fst w) → up < 2 ^ 64 → (Z.to_nat (up - last_applied_ (fst w)) < n)%nat →
  ∃ w', ApplyCommitted_loop apply_cb_ n up w = Some w'.
Proof.
  revert w. induction n as [|n IH]; intros w H0 Hup Hn; [lia|]. cbn [ApplyCommitted_loop].
  destruct (Z.ltb_spec (last_applied_ (fst w)) up) as [Hlt|]; [|by eexists].
  assert (last_applied_ (fst (apply_next apply_cb_ w)) = last_applied_ (fst w) + 1) as Hla.
  { destruct w as [st e]. unfold apply_next. cbn [fst] in *.
    pose proof (u64_small (last_applied_ st + 1) ltac:(lia)). by repeat case_match. }
  apply IH; lia.
Qed.

Lemma ApplyCommitted_defined up (w : World) :
  0 <= last_applied_ (fst w) → up < 2 ^ 64 → ∃ w', ApplyCommitted apply_cb_ up w = Some w'.
Proof. intros. apply ApplyCommitted_loop_defined; [done..|lia]. Qed.

Lemma AdvanceCommitIndex_loop_defined f n (w : World) :
  0 <= last_applied_ (fst w) → n < 2 ^ 64 → (Z.to_nat (n - commit_index_ (fst w)) < f)%nat →
  ∃ w', AdvanceCommitIndex_loop apply_cb_ f n w = Some w'.
Proof.
  revert n. induction f as [|f IH]; intros n H0 Hn Hf; [lia|]. cbn [AdvanceCommitIndex_loop].
  destruct (Z.ltb_spec (commit_index_ (fst w)) n) as [Hlt|]; [|by eexists].
  assert (∃ w', AdvanceCommitIndex_loop apply_cb_ f (n - 1) w = Some w') as Hnext by (apply IH; lia).
  destruct (GetLogEntry _ _); [|done]. destruct (_ && _); [|done]. by apply ApplyCommitted_defined.
Qed.

Lemma append_entries_defined es st : log_ st ≠ [] → ∃ log, append_entries es st = Some (set_log_ log st) ∧ log ≠ [].
Proof.
  revert st. induction es as [|x es IH]; intros st Hne; cbn [append_entries].
  { exists (log_ st). split; [by destruct st|done]. }
  unfold log_back. rewrite log_back_last by done. cbn [mbind option_bind].
  destruct (_ <? le_index x); [|by apply IH].
  destruct (IH (set_log_ (log_ st ++ [x]) st)) as (log & -> & Hl); [by destruct (log_ st)|].
  exists log. split; [by destruct st|done].
Qed.

Lemma accept_entries_defined req (w : World) :
  log_ (fst w) ≠ [] → 0 <= last_applied_ (fst w) → ae_leader_commit req < 2 ^ 64 →
  ∃ w', accept_entries apply_cb_ req w = Some w'.
Proof.
  destruct w as [st e]. cbn [fst]. intros Hne H0 Hc. unfold accept_entries. cbn [fst snd].
  destruct (append_entries_defined (ae_entries req) st Hne) as (log & -> & Hl). cbn [mbind option_bind].
  destruct (PersistState_file (set_log_ log st)) as [f ->]. set (s := set_state_file f (set_log_ log st)).
  assert (∃ l, log_back s = Some l) as (l & ->) by (exists (log_last log); by apply log_back_last).
  cbn [mbind option_bind fst].
  match goal with |- ∃ w', (_ ← ?m; _) = Some w' => assert (∃ w1, m = Some w1 ∧ log_ (fst w1) = log) as (w1 & -> & H1) end.
  { destruct (_ <? ae_leader_commit req); [|by eexists]. destruct (_ <? Z.min _ _); [|by eexists].
    destruct (ApplyCommitted_defined (Z.min (ae_leader_commit req) (le_index l))
      (on_node (set_commit_index_ (Z.min (ae_leader_commit req) (le_index l))) (s, e))) as [w1 Hw]; [done|lia|].
    exists w1. split; [exact Hw|]. apply ApplyCommitted_loop_same in Hw as (_ & _ & Hlog & _). exact Hlog. }
  cbn [mbind option_bind]. unfold log_back. rewrite H1, log_back_last by done. by eexists.
Qed.

Lemma pop_back_while_defined idx rlog :
  (∃ x, x ∈ rlog ∧ le_index x < idx) → ∃ r, pop_back_while idx rlog = Some r ∧ r ≠ [].
Proof.
  induction rlog as [|y rlog IH]; intros (x & Hx & Hlt); [by apply elem_of_nil in Hx|]. cbn [pop_back_while].
  destruct (Z.leb_spec idx (le_index y)) as [Hle|]; [|by eexists]. apply IH. exists x.
  apply elem_of_cons in Hx as [->|Hx]; [lia|done].
Qed.

Lemma pop_back_while_all idx rlog : Forall (λ x, idx <= le_index x) rlog → pop_back_while idx rlog = None.
Proof.
  induction 1 as [|y rlog Hy _ IH]; [done|]. cbn [pop_back_while]. by destruct (Z.leb_spec idx (le_index y)); [|lia].
Qed.

(** The conflict of the previous entry: the log is cut, unless at the sentinel. *)
Lemma truncate_conflict_defined f idx t st prev l :
  headed (log_ st) → Forall entry_ints (log_ st) → 0 <= idx <= le_index l → log_back st = Some l → GetLogEntry st idx = Some prev → le_term prev ≠ t →
  (idx = 0 → truncate_conflict (S f) idx t st = None) ∧
  (0 < idx → ∃ st' l', truncate_conflict (S f) idx t st = Some st' ∧ log_back st' = Some l').
Proof.
  intros Hh Hes Hidx Hl Hg Ht. cbn [truncate_conflict]. rewrite Hl. cbn [mbind option_bind].
  destruct (Z.leb_spec idx (le_index l)); [|lia]. rewrite Hg. destruct (Z.eqb_spec (le_term prev) t); [done|]. split.
  - intros ->. rewrite pop_back_while_all; [done|]. apply Forall_rev.
    eapply Forall_impl; [exact Hes|]. by intros x [_ [? _]].
  - intros Hpos. destruct (pop_back_while_defined idx (rev (log_ st))) as (r & -> & Hr).
    + exists dummy_entry. split; [|done]. apply list_elem_of_In, in_rev. rewrite rev_involutive. apply list_elem_of_In.
      unfold headed in Hh. destruct (log_ st); [done|]. injection Hh as ->. left.
    + cbn [mbind option_bind]. eexists _, (log_last (rev r)). split; [done|]. unfold log_back. apply log_back_last.
      intros E0. apply Hr. rewrite <- (rev_involutive r). change (log_ (set_log_ (rev r) st)) with (rev r) in E0. by rewrite E0.
Qed.

Lemma HandleAppendEntries_defined from req st (e : E) :
  typed st → message_ints (APPEND_ENTRIES req) →
  HandleAppendEntries now uniform_int apply_cb_ from req (st, e) = None ↔ pops_sentinel req st.
Proof.
  intros Hty (Ht & Hc & Hes & Hp). unfold HandleAppendEntries, pops_sentinel. cbn [on_node fst snd].
  change (current_term_ (ae_resp_set_term (current_term_ st) st)) with (current_term_ st).
  destruct (Z.ltb_spec (ae_term req) (current_term_ st)) as [Hlt|Hge]; [split; [done|lia]|].
  destruct (append_prepare now uniform_int from req st e Hge) as (st2 & Hprep & L2 & C2 & A2 & S2 & _).
  match goal with |- context [ResetElectionTimer now uniform_int ?w] =>
    erewrite (eq_trans (eq_refl (ResetElectionTimer now uniform_int w)) Hprep) end. clear Hprep.
  set (e1 := snd (uniform_int _ _ e)). clearbody e1.
  destruct (headed_back st (ty_headed _ Hty)) as [l Hl]. pose proof Hl as Hl2. unfold log_back in *. cbn [fst snd].
  rewrite L2, Hl. cbn [mbind option_bind]. rewrite S2.
  pose proof (typed_last _ _ Hty Hl) as [_ Hli]. pose proof (ty_snapshot_index _ Hty) as Hsn.
  assert (log_ st ≠ []) as Hne by (intros E0; by rewrite E0 in Hl).
  assert (∃ w', accept_entries apply_cb_ req (st2, e1) = Some w') as [w' Hacc].
  { apply accept_entries_defined; cbn [fst]; [by rewrite L2|rewrite A2; apply (ty_applied _ Hty)|apply Hc]. }
  unfold in_u64 in *.
  destruct (Z.ltb_spec (le_index l) (ae_prev_log_index req)) as [|Hle]; [split; [done|lia]|].
  destruct (Z.leb_spec (snapshot_last_index_ st) (ae_prev_log_index req)).
  - unfold GetLogEntry. rewrite L2. destruct (find_index (ae_prev_log_index req) (log_ st)) as [prev|] eqn:Hf.
    2:{ rewrite Hacc. split; [done|]. intros (_ & H0 & _). rewrite H0 in Hf.
        pose proof (ty_headed _ Hty) as Hh. unfold headed in Hh. destruct (log_ st); [done|]. by injection Hh as ->. }
    destruct (Z.eqb_spec (le_term prev) (ae_prev_log_term req)) as [Heq|Hdiff].
    + rewrite Hacc. split; [done|]. intros (_ & H0 & H1 & _). rewrite H0 in Hf.
      pose proof (ty_headed _ Hty) as Hh. unfold headed in Hh. destruct (log_ st); [done|]. injection Hh as ->.
      cbn in Hf. injection Hf as <-. by rewrite <- Heq in H1.
    + destruct (truncate_conflict_defined (S (Z.to_nat (le_index l - ae_prev_log_index req))) (ae_prev_log_index req)
        (ae_prev_log_term req) st2 prev l) as [T0 T1]; unfold log_back, GetLogEntry; rewrite ?L2; try done;
        [apply (ty_headed _ Hty)|apply (ty_entries _ Hty)|lia|].
      destruct (decide (ae_prev_log_index req = 0)) as [H0|Hne0].
      * rewrite T0 by done. split; [|done]. intros _. rewrite H0 in Hf.
        pose proof (ty_headed _ Hty) as Hh. unfold headed in Hh. destruct (log_ st); [done|]. injection Hh as ->.
        cbn in Hf. injection Hf as <-. split_and!; [lia|done| |lia]. by intros H1; rewrite H1 in Hdiff.
      * destruct T1 as (st3 & l3 & -> & Hl3); [lia|]. cbn [mbind option_bind]. unfold log_back in Hl3. rewrite Hl3.
        split; [done|]. by intros (_ & ? & _).
  - rewrite Hacc. destruct (_ || _); split; try done; lia.
Qed.

Lemma HandleRequestVote_defined from req (w : World) :
  typed (fst w) → is_Some (HandleRequestVote now uniform_int from req w).
Proof.
  destruct w as [st e]. intros Hty. destruct (headed_back st (ty_headed _ Hty)) as [l Hl].
  destruct (HandleRequestVote_cases now uniform_int from req st e l Hl) as (w' & -> & _). done.
Qed.

Lemma HandleAppendEntriesResponse_defined from resp (w : World) :
  typed (fst w) → is_Some (HandleAppendEntriesResponse apply_cb_ from resp w).
Proof.
  destruct w as [st e]. intros Hty. unfold HandleAppendEntriesResponse. cbn [fst] in *.
  destruct (_ <? ar_term resp); [done|]. destruct (negb _); [done|]. destruct (ar_success resp); [|done].
  unfold AdvanceCommitIndex, on_node. cbn [fst snd]. destruct (headed_back st (ty_headed _ Hty)) as [l Hl].
  unfold log_back in *. cbn [log_ set_next_index_ set_match_index_]. rewrite Hl. cbn [mbind option_bind].
  pose proof (typed_last _ _ Hty Hl) as [_ [_ Hli]].
  match goal with |- is_Some (AdvanceCommitIndex_loop _ ?f ?n ?w) =>
    destruct (AdvanceCommitIndex_loop_defined f n w) as [w' ->]; [apply (ty_applied _ Hty)|done|cbn; lia|done] end.
Qed.

Lemma HandleInstallSnapshot_defined from req (w : World) :
  typed (fst w) → is_Some (HandleInstallSnapshot now uniform_int restore_cb_ SerializeSnapshot from req w).
Proof.
  destruct w as [st e]. intros Hty. unfold HandleInstallSnapshot. cbn [fst] in Hty. raft_simpl.
  destruct (is_term req <? current_term_ st); [done|].
  set (w1 := if current_term_ st <? is_term req then _ else _).
  assert (log_ (fst w1) = log_ st) as H1.
  { subst w1. destruct (_ <? _); [|done]. raft_simpl. unfold PersistState. by destruct (written _ _). }
  set (w2 := ResetElectionTimer _ _ _). assert (log_ (fst w2) = log_ st) as H2.
  { subst w2. match goal with |- context [ResetElectionTimer _ _ ?w] =>
      destruct (ResetElectionTimer_deadline now uniform_int w) as (d & e2 & ->) end. exact H1. }
  clearbody w2. destruct (_ || _); [done|]. destruct (written _ _) as [f|]; [|done].
  set (w3 := match restore_cb_ with Some _ => _ | None => _ end).
  assert (log_ (fst w3) = log_ st) as H3.
  { subst w3. destruct restore_cb_; [destruct (bool_decide _)|]; exact H2. }
  clearbody w3. unfold adopt_snapshot. raft_simpl. rewrite H3. pose proof (ty_headed _ Hty) as Hh. unfold headed in Hh.
  by destruct (log_ st).
Qed.

(** ** Methods that send *)

Section Sending.
Context (send : bytes → RaftMessage → World → option World).
Hypothesis send_keeps : ∀ peer msg w w', send peer msg w = Some w' → keeps (fst w) (fst w').

Lemma SendHeartbeats_keeps w w' : SendHeartbeats send w = Some w' → keeps (fst w) (fst w').
Proof using send_keeps.
  unfold SendHeartbeats. destruct (bool_decide _); [|by intros [= <-]].
  generalize (peers (config_ (fst w))). intros targets. revert w.
  induction targets as [|p targets IH]; intros w; simpl; [by intros [= <-]|].
  destruct (bool_decide _); [apply IH|]. destruct (subscript _ _) as [next i] eqn:Hsub.
  intros H. apply bind_Some in H as (w1 & H1 & H). apply IH in H.
  apply send_keeps in H1. etransitivity; [|exact H]. etransitivity; [|exact H1]. intros Hty.
  destruct (subscript_in p _ (ty_next _ Hty)) as [Hn _]. rewrite Hsub in Hn. destruct Hty. by split.
Qed.

Lemma BecomeLeader_keeps w w' : BecomeLeader now uniform_int send w = Some w' → keeps (fst w) (fst w').
Proof using send_keeps.
  unfold BecomeLeader. intros H. apply bind_Some in H as (st & Hl & H).
  apply bind_Some in H as (w1 & H1 & H). injection H as <-. apply SendHeartbeats_keeps in H1.
  etransitivity; [|apply ResetElectionTimer_keeps]. etransitivity; [|exact H1]. cbn [fst].
  unfold lead in Hl. apply bind_Some in Hl as (l & _ & Hl).
  match type of Hl with context [init_progress ?a ?b] => pose proof (init_progress_in a b) as [Hn Hm] end.
  destruct (init_progress _ _). injection Hl as <-. intros []. by split.
Qed.

Lemma HandleRequestVoteResponse_keeps from resp w w' :
  in_u64 (vr_term resp) → HandleRequestVoteResponse now uniform_int send from resp w = Some w' →
  keeps (fst w) (fst w').
Proof using send_keeps.
  intros Ht. unfold HandleRequestVoteResponse. destruct (_ <? vr_term resp).
  { intros [= <-]. by apply step_down_keeps. }
  destruct (negb _); [by intros [= <-]|]. destruct (_ <? _); [by intros [= <-]|].
  destruct (vr_granted resp); [|by intros [= <-]]. cbv zeta. destruct (_ <=? _); [|intros [= <-]; keep].
  intros H. apply BecomeLeader_keeps in H. etransitivity; [|exact H]. keep.
Qed.

Lemma RequestVotes_loop_keeps msg targets w w' :
  RequestVotes_loop send msg targets w = Some w' → keeps (fst w) (fst w').
Proof using send_keeps.
  revert w. induction targets as [|p targets IH]; intros w; simpl; [by intros [= <-]|].
  destruct (bool_decide _); [apply IH|].
  intros H. apply bind_Some in H as (w1 & H1 & H). apply IH in H.
  apply send_keeps in H1. etransitivity; [exact H1|exact H].
Qed.

Lemma OnElectionTimeout_keeps w w' : OnElectionTimeout now uniform_int send w = Some w' → keeps (fst w) (fst w').
Proof using send_keeps.
  unfold OnElectionTimeout, StartElection. destruct (bool_decide _); intros H.
  - apply bind_Some in H as (w1 & H1 & H). injection H as <-.
    apply SendHeartbeats_keeps in H1. etransitivity; [exact H1|apply ResetElectionTimer_keeps].
  - apply bind_Some in H as (w1 & H1 & H). injection H as <-.
    etransitivity; [|apply ResetElectionTimer_keeps]. etransitivity; [apply BecomeCandidate_keeps|].
    apply bind_Some in H1 as (req & _ & H1). apply bind_Some in H1 as (w2 & H2 & H1).
    apply RequestVotes_loop_keeps in H2. etransitivity; [exact H2|].
    destruct (_ && _); [by apply BecomeLeader_keeps in H1|by injection H1 as <-].
Qed.
End Sending.

(** ** Executions *)

(** What the parsers give has the integers of the messages' fields. *)
Hypothesis ParseMessage_ints : ∀ b m, ParseMessage b = Some m → message_ints m.
Hypothesis ParseSnapshot_ints : ∀ b s, ParseSnapshot b = Some s → snapshot_ints s.

Lemma SendMessage_keeps depth peer msg w w' b :
  SendMessage now uniform_int apply_cb_ SerializeMessage ParseMessage exchange depth peer msg w =
    Some (w', b) →
  keeps (fst w) (fst w').
Proof using ParseMessage_ints.
  revert peer msg w w' b. induction depth as [|depth IH]; intros peer msg w w' b; [done|].
  cbn [SendMessage]. destruct (rfind x3a peer); [|by intros [= <- _]].
  intros H. apply bind_Some in H as (port & _ & H).
  destruct (exchange _ _ _ (snd w)) as [e [r|]]; [|by injection H as <- _].
  apply bind_Some in H as (w1 & H1 & H). injection H as <- _.
  destruct (is_request msg); [|by injection H1 as <-].
  destruct r as [r|]; [|by injection H1 as <-]. cbn [mbind option_bind] in H1.
  destruct (ParseMessage r) as [m|] eqn:Hm; [|by injection H1 as <-]. apply ParseMessage_ints in Hm.
  destruct m as [|resp| |resp| |]; try (by injection H1 as <-).
  - apply HandleRequestVoteResponse_keeps in H1; [exact H1| |exact Hm].
    intros p m v v' Hs. apply fmap_Some in Hs as ([v1 b1] & Hs & ->). by eapply IH.
  - destruct Hm. by apply HandleAppendEntriesResponse_keeps in H1.
Qed.

Lemma rpc_keeps peer msg w w' :
  send_rpc now uniform_int apply_cb_ SerializeMessage ParseMessage exchange peer msg w = Some w' →
  keeps (fst w) (fst w').
Proof using ParseMessage_ints.
  unfold send_rpc. intros Hs. apply fmap_Some in Hs as ([v b] & Hs & ->). by eapply SendMessage_keeps.
Qed.

Lemma OnMessage_keeps data w w' reply :
  OnMessage now uniform_int apply_cb_ restore_cb_ SerializeSnapshot SerializeMessage
    ParseMessage exchange data w = Some (w', reply) →
  keeps (fst w) (fst w').
Proof using ParseMessage_ints.
  unfold OnMessage. destruct (ParseMessage data) as [m|] eqn:Hm; [|by intros [= <- _]].
  apply ParseMessage_ints in Hm. destruct m as [r|r|r|r|r|r]; cbn [message_ints] in Hm; intros H;
    try (apply bind_Some in H as (w1 & H1 & H)); injection H as <- _.
  - by eapply HandleRequestVote_keeps.
  - eapply HandleRequestVoteResponse_keeps; [|exact Hm|exact H1]. apply rpc_keeps.
  - destruct Hm as (? & ? & ? & _). by eapply HandleAppendEntries_keeps.
  - destruct Hm. by eapply HandleAppendEntriesResponse_keeps.
  - destruct Hm as (? & ? & ?). by eapply HandleInstallSnapshot_keeps.
  - done.
Qed.

(** A snapshot that is being finished was begun by a node of the same types
    ([TakeSnapshot_begin_ints]). *)
Definition finishes_typed (w w' : World) : Prop :=
  ∀ snap, TakeSnapshot_finish snap (fst w) = Some (fst w') → snapshot_ints snap.

Lemma TakeSnapshot_begin_ints (snapshot_cb_ : option (E → bytes)) (w : World) snap :
  typed (fst w) → TakeSnapshot_begin snapshot_cb_ w = Some snap → snapshot_ints snap.
Proof using Type.
  intros Hty Hs. unfold TakeSnapshot_begin in Hs. apply bind_Some in Hs as (cb & _ & Hs).
  destruct (_ <=? _); [done|]. injection Hs as <-. split; [apply Hty|]. cbn [sm_last_included_term].
  destruct (GetLogEntry _ _) as [entry|] eqn:Hg; [|apply Hty].
  apply find_index_elem in Hg as [Hg _]. pose proof (ty_entries _ Hty) as He. rewrite Forall_forall in He. by apply He.
Qed.

Abbreviation step := (raft_step now uniform_int apply_cb_ restore_cb_ SerializeSnapshot ParseSnapshot
  SerializeMessage ParseMessage exchange).

Lemma raft_step_typed w w' :
  step w w' → finishes_typed w w' → mirrored (fst w) → typed (fst w) → typed (fst w').
Proof using All.
  intros Hs Hf Hm. destruct Hs as [data w w' reply H|w w' Ht H|w Ht|peer msg w w' H|w w' H|w w' H|w|cmd st st' r e H
    |w w' H|snap st st' e H|snap st st' e H|config st e e' w' Hfit H|st e e'].
  - by eapply OnMessage_keeps.
  - eapply OnElectionTimeout_keeps; [|exact H]. apply rpc_keeps.
  - apply BecomeCandidate_keeps.
  - by eapply rpc_keeps.
  - eapply BecomeLeader_keeps; [|exact H]. apply rpc_keeps.
  - eapply SendHeartbeats_keeps; [|exact H]. apply rpc_keeps.
  - apply ResetElectionTimer_keeps.
  - by eapply Propose_append_keeps.
  - by eapply AdvanceCommitIndex_keeps.
  - unfold TakeSnapshot_write in H. destruct (written _ _); [|done]. injection H as <-. keep.
  - eapply TakeSnapshot_finish_keeps; [|exact H]. by apply Hf.
  - intros Hty. by eapply restart_typed.
  - done.
Qed.

Lemma finished_ints snap st st' :
  TakeSnapshot_finish snap st = Some st' → in_u64 (snapshot_last_index_ st') → in_u64 (snapshot_last_term_ st') →
  snapshot_ints snap.
Proof using Type.
  unfold TakeSnapshot_finish. intros Hs. apply bind_Some in Hs as (log & _ & Hs). injection Hs as <-.
  unfold PersistState. by destruct (written _ _).
Qed.

(** What the memory of a machine can hold: no string and no log is longer than its
    type allows. *)
Definition memory_ok (st : RaftNode) : Prop :=
  zlen (voted_for_ st) <= max_size ∧ Forall (λ e, zlen (le_command e) <= max_size) (log_ st) ∧
  zlen (log_ st) < 2 ^ 64.

Lemma typed_fits st : typed st → memory_ok st → fits st.
Proof using Type.
  intros [] (Hv & Hc & Hz). split; try done.
  - unfold headed in *. destruct (log_ st) as [|e log]; [done|]. by injection ty_headed0 as ->.
  - rewrite Forall_forall in *. intros e He. destruct (ty_entries0 e He). split_and!; try done; try apply H; try apply H0.
    by apply Hc.
Qed.

End Types.

(** * A concrete node *)

Definition typed_node : RaftNode := RaftNode_new (mkConfig (str "n1") demo_peers [] 3000 500 10000) Whole None None.

Lemma typed_new : typed typed_node.
Proof. split; cbn; try done; try apply map_Forall_empty. apply Forall_cons. by split. Qed.

