(* ===== verification/RaftReign.v ===== *)
(** Replication under one leader: src/raft/raft_node.cc, a cluster in which a single
    node takes proposals and sends append messages.

    Other nodes may time out, vote and answer as they like, append messages may be
    lost, delayed, repeated and reordered, and the answers the leader counts may be
    any; no node restarts or replaces its log by a snapshot.  Then the logs are prefixes of the leader's log and every state machine is
    the result of the leader's commands up to the node's commit position: the
    nodes implement one replicated log. *)
From S2P Require Import Prelude Coding Raft RaftRpc RaftDurable RaftElection RaftReplication RaftLog.

(** * Logs without gaps *)

(** The entry at position [i] has the index [off + i]. *)
Definition numbered (off : Z) (l : list LogEntry) : Prop :=
  ∀ i e, l !! i = Some e → le_index e = off + Z.of_nat i.

Lemma numbered_drop off l n : numbered off l → numbered (off + Z.of_nat n) (drop n l).
Proof. intros H i e. rewrite lookup_drop. intros He. rewrite (H _ _ He). lia. Qed.

Lemma numbered_prefix off l l' : numbered off l → l' `prefix_of` l → numbered off l'.
Proof. intros H [k ->] i e He. apply H. by apply lookup_app_l_Some. Qed.

Lemma numbered_tail off e l : numbered off (e :: l) → le_index e = off ∧ numbered (off + 1) l.
Proof.
  intros H. split; [rewrite (H 0%nat e eq_refl); lia|]. intros i x Hx. rewrite (H (S i) x Hx). lia.
Qed.

(** The entries from index [n] on. *)
Lemma numbered_filter off l n :
  numbered off l → filter (λ e, n <= le_index e) l = drop (Z.to_nat (n - off)) l.
Proof.
  revert off. induction l as [|e l IH]; intros off H; [by rewrite drop_nil|].
  apply numbered_tail in H as [He Hl]. rewrite filter_cons. destruct (decide (n <= le_index e)).
  - replace (Z.to_nat (n - off)) with 0%nat by lia. cbn [drop]. f_equal.
    rewrite (IH _ Hl). by replace (Z.to_nat (n - (off + 1))) with 0%nat by lia.
  - replace (Z.to_nat (n - off)) with (S (Z.to_nat (n - (off + 1)))) by lia. cbn [drop]. by apply IH.
Qed.

Lemma numbered_find off l n :
  numbered off l → off <= n → find_index n l = l !! Z.to_nat (n - off).
Proof.
  revert off. induction l as [|e l IH]; intros off H Hn; [done|].
  apply numbered_tail in H as [He Hl]. cbn [find_index]. destruct (Z.eqb_spec (le_index e) n).
  - by replace (Z.to_nat (n - off)) with 0%nat by lia.
  - replace (Z.to_nat (n - off)) with (S (Z.to_nat (n - (off + 1)))) by lia. apply IH; [done|lia].
Qed.

(** A log as the code makes it when no snapshot trims it. *)
Definition dense (log : list LogEntry) : Prop := wf_log log ∧ numbered 0 log.

Lemma dense_last log : dense log → last_index log = zlen log - 1.
Proof.
  intros [Hw Hn]. pose proof (log_back_last _ (wf_log_nonempty _ Hw)) as Hl. unfold last_index.
  rewrite last_lookup in Hl. rewrite (Hn _ _ Hl). unfold zlen. pose proof (wf_log_nonempty _ Hw).
  destruct log; [done|]. cbn [length]. lia.
Qed.

Lemma dense_length log : dense log → 1 <= zlen log.
Proof.
  intros [Hw _]. pose proof (wf_log_nonempty _ Hw). destruct log; [done|]. rewrite zlen_cons. pose proof (zlen_nonneg log). lia.
Qed.

Lemma wf_log_prefix log log' : wf_log log → log' `prefix_of` log → log' ≠ [] → wf_log log'.
Proof.
  intros [Hh Hs Hr] [k ->] Hne. split.
  - destruct log' as [|e l]; [done|]. cbn in Hh. by injection Hh as ->.
  - by eapply StronglySorted_app_1_l.
  - by apply Forall_app in Hr as [? _].
Qed.

Lemma dense_prefix log log' : dense log → log' `prefix_of` log → log' ≠ [] → dense log'.
Proof. intros [Hw Hn] Hp Hne. split; [by eapply wf_log_prefix|by eapply numbered_prefix]. Qed.

Lemma dense_snoc log t c :
  dense log → last_index log + 1 < 2 ^ 64 → dense (log ++ [mkEntry t (last_index log + 1) c]).
Proof.
  intros Hd Hlt. pose proof (dense_last _ Hd) as Hl. destruct Hd as [Hw Hn]. split.
  - apply wf_log_snoc; [done|]. cbn. lia.
  - intros i e. rewrite lookup_app_Some. intros [He|[Hle He]]; [by apply Hn|].
    apply list_lookup_singleton_Some in He as [Hi <-]. cbn [le_index]. unfold zlen in Hl. lia.
Qed.

(** Two prefixes of one log; the longer one brings exactly what is missing. *)
Lemma prefix_extend (L a : list LogEntry) m :
  a `prefix_of` L → (m <= length L)%nat → a ++ drop (length a) (take m L) = take (Nat.max (length a) m) L.
Proof.
  intros [k ->] Hm. destruct (Nat.max_spec (length a) m) as [[Hlt ->]|[Hle ->]].
  - rewrite take_app_ge, drop_app_length by lia. by rewrite ?take_app_ge by lia.
  - rewrite take_app_le, drop_ge, app_nil_r by (rewrite ?length_take; lia). by rewrite take_app_length.
Qed.

(** The entries an append message with next index [n] adds to a log. *)
Lemma new_entries_prefix L a m n :
  dense L → a `prefix_of` L → a ≠ [] → (n <= length a)%nat → (m <= length L)%nat →
  a ++ new_entries a (drop n (take m L)) = take (Nat.max (length a) m) L.
Proof.
  intros Hd Ha Hne Hn Hm. pose proof (dense_prefix _ _ Hd Ha Hne) as Hda.
  rewrite <- (prefix_extend L a m Ha Hm). f_equal. unfold new_entries. rewrite (dense_last _ Hda).
  assert (numbered (Z.of_nat n) (drop n (take m L))) as Hnum.
  { apply (numbered_drop 0 (take m L) n). apply (numbered_prefix 0 L); [apply Hd|]. exists (drop m L). by rewrite take_drop. }
  rewrite (list_filter_iff _ (λ e, zlen a <= le_index e)) by (intros e; lia).
  rewrite (numbered_filter _ _ _ Hnum), drop_drop. f_equal. unfold zlen. lia.
Qed.

(** * Commands up to a position *)

Lemma entries_in_app_above a b lo hi : Forall (λ x, hi < le_index x) b → entries_in (a ++ b) lo hi = entries_in a lo hi.
Proof. intros Hb. unfold entries_in. rewrite filter_app. fold (entries_in b lo hi). by rewrite entries_in_above, app_nil_r. Qed.

(** A prefix that reaches beyond a position has the same commands up to it. *)
Lemma entries_in_prefix L a lo hi :
  StronglySorted index_lt L → a `prefix_of` L → a ≠ [] → hi <= last_index a → entries_in a lo hi = entries_in L lo hi.
Proof.
  intros Hs [k ->] Hne Hhi. rewrite entries_in_app_above; [done|]. apply Forall_forall. intros x Hx.
  pose proof (log_back_last _ Hne) as Hl. apply last_Some_elem_of in Hl. unfold last_index in Hhi.
  pose proof (StronglySorted_app_1_elem_of index_lt _ _ _ x Hs Hl Hx). cbn in *. lia.
Qed.

Lemma entries_in_split log lo mid hi :
  StronglySorted index_lt log → lo <= mid <= hi →
  entries_in log lo hi = entries_in log lo mid ++ entries_in log mid hi.
Proof.
  intros Hs Hm. induction Hs as [|x log Hs IH Hx]; [done|]. unfold entries_in in *. rewrite !filter_cons.
  destruct (decide (applies lo hi x)) as [H1|H1], (decide (applies lo mid x)) as [H2|H2], (decide (applies mid hi x)) as [H3|H3];
    unfold applies in H1, H2, H3; destruct (Z.le_gt_cases (le_index x) mid);
    try (exfalso; first [apply H1; split_and!; (lia || tauto)|apply H2; split_and!; (lia || tauto)|apply H3; split_and!; (lia || tauto)|lia]);
    rewrite ?IH; try done.
  - pose proof (entries_in_above log lo mid) as HA. unfold entries_in in HA. rewrite HA; [done|].
    eapply Forall_impl; [exact Hx|]. cbn. lia.
Qed.

(** * The replicas *)

(** What an append message holds that was built from the log [L] when it had [m]
    entries and the leader's commit position was at most [c]. *)
Definition sent_ok (L : list LogEntry) (c : Z) (req : AppendEntriesRequest) : Prop :=
  ∃ n m, (1 <= n <= m)%nat ∧ (m <= length L)%nat ∧ ae_entries req = drop n (take m L) ∧
    ae_prev_log_index req = Z.of_nat n - 1 ∧
    (∀ e, L !! (n - 1)%nat = Some e → ae_prev_log_term req = le_term e) ∧ 0 <= ae_leader_commit req <= c.

Lemma sent_ok_more L L' c c' req : L `prefix_of` L' → c <= c' → sent_ok L c req → sent_ok L' c' req.
Proof.
  intros [k ->] Hc (n & m & Hnm & Hm & He & Hp & Ht & Hcm). exists n, m.
  rewrite length_app, take_app_le by done. split_and!; try done; try lia.
  intros e He'. apply Ht. rewrite lookup_app_l in He' by lia. done.
Qed.

(** The message [SendHeartbeats] builds for a next index within the log. *)
Lemma heartbeat_sent_ok st next :
  dense (log_ st) → snapshot_last_index_ st = 0 → snapshot_last_term_ st = 0 → 0 <= commit_index_ st →
  1 <= next <= last_index (log_ st) + 1 → last_index (log_ st) < 2 ^ 64 →
  sent_ok (log_ st) (commit_index_ st) (heartbeat_request st next).
Proof.
  intros Hd Hs Ht Hc Hn Hlt. pose proof (dense_last _ Hd) as Hl. pose proof Hd as [Hw Hnum].
  exists (Z.to_nat next), (length (log_ st)). unfold zlen in Hl.
  assert (u64 (next - 1) = next - 1) as Hu by (apply Z.mod_small; lia).
  split_and!; [lia|lia|lia| | | |exact Hc|apply Z.le_refl]; cbn [heartbeat_request ae_entries ae_prev_log_index ae_prev_log_term ae_leader_commit].
  - rewrite firstn_all, (numbered_filter 0) by done. by replace (next - 0) with next by lia.
  - rewrite Hu. lia.
  - intros e He. rewrite Hs, Hu. destruct (Z.ltb_spec 0 (next - 1)).
    + unfold GetLogEntry. rewrite (numbered_find 0) by (done || lia).
      replace (Z.to_nat (next - 1 - 0)) with (Z.to_nat next - 1)%nat by lia. by rewrite He.
    + replace (next - 1) with 0 by lia. cbn. replace (Z.to_nat next - 1)%nat with 0%nat in He by lia.
      rewrite (wf_head _ Hw) in He. cbn in He. injection He as <-. by rewrite Ht.
Qed.

(** What the node expects of the callback that runs committed commands: inside the
    environment there is a state machine [sm] that a command changes as [exec]
    says, if the environment is ready for the command.  Running a command keeps the
    environment ready for others, and drawing a random time-out changes nothing. *)
Class StateMachine {E S : Type} (uniform_int : Z → Z → E → Z * E) (apply : Z → bytes → E → E) := {
  sm : E → S;
  exec : Z → bytes → S → S;
  sm_valid : E → Prop;
  sm_ready : bytes → E → Prop;
  sm_apply : ∀ i c e, sm_valid e → sm_ready c e → sm (apply i c e) = exec i c (sm e) ∧ sm_valid (apply i c e);
  sm_apply_ready : ∀ i c e c', sm_valid e → sm_ready c e → sm_ready c' e → sm_ready c' (apply i c e);
  sm_random : ∀ a b e, sm (snd (uniform_int a b e)) = sm e;
  sm_random_valid : ∀ a b e, sm_valid e → sm_valid (snd (uniform_int a b e));
  sm_random_ready : ∀ a b e c, sm_ready c e → sm_ready c (snd (uniform_int a b e)) }.

Section Reign.
Context {E S : Type} (now : E → Z) (uniform_int : Z → Z → E → Z * E).
Context (apply : Z → bytes → E → E) {SM : StateMachine (S := S) uniform_int apply} (s0 : S).
Abbreviation World := (RaftNode * E)%type.

(** A node with a part of the log [L], no position beyond [c], and a state machine
    that has run what its position says. *)
Record replica (L : list LogEntry) (c : Z) (w : World) : Prop := {
  rp_wf : wf_node (fst w);
  rp_index : snapshot_last_index_ (fst w) = 0;
  rp_term : snapshot_last_term_ (fst w) = 0;
  rp_log : log_ (fst w) `prefix_of` L;
  rp_bound : commit_index_ (fst w) <= c;
  rp_commit : commit_index_ (fst w) <= last_index (log_ (fst w));
  rp_valid : sm_valid (snd w);
  rp_state : sm (snd w) = apply_all exec (entries_in (log_ (fst w)) 0 (commit_index_ (fst w))) s0 }.

Lemma replica_more L L' c c' w : L `prefix_of` L' → c <= c' → replica L c w → replica L' c' w.
Proof using Type. intros HL Hc []. split; try done; [by etransitivity|lia]. Qed.

(** The environment is ready for every command of a list. *)
Definition all_ready (es : list LogEntry) (e : E) : Prop := ∀ x, x ∈ es → sm_ready (le_command x) e.

Lemma sm_apply_all es e :
  sm_valid e → all_ready es e → sm (apply_all apply es e) = apply_all exec es (sm e) ∧ sm_valid (apply_all apply es e).
Proof using Type.
  unfold apply_all. revert e. induction es as [|x es IH]; intros e Hv Hr; cbn [foldl]; [done|].
  assert (sm_ready (le_command x) e) as Hx by (apply Hr; by left).
  destruct (sm_apply (le_index x) (le_command x) e Hv Hx) as [Hs Hv']. rewrite <- Hs.
  apply IH; [done|]. intros y Hy. apply sm_apply_ready; [done|done|]. apply Hr. by right.
Qed.

Lemma apply_all_app (es es' : list LogEntry) (s : S) :
  apply_all exec (es ++ es') s = apply_all exec es' (apply_all exec es s).
Proof using Type. unfold apply_all. by rewrite foldl_app. Qed.

(** Moving the position of a node over a longer log. *)
Lemma replica_moves L c w log' n st' e' :
  replica L c w → dense L → log' `prefix_of` L → log_ (fst w) `prefix_of` log' →
  commit_index_ (fst w) <= n <= last_index log' → n <= c →
  wf_node st' → snapshot_last_index_ st' = 0 → snapshot_last_term_ st' = 0 →
  log_ st' = log' → commit_index_ st' = n →
  sm e' = apply_all exec (entries_in log' (commit_index_ (fst w)) n) (sm (snd w)) → sm_valid e' →
  replica L c (st', e').
Proof using Type.
  intros [Hwf Hi Ht Hl Hb Hc _ Hs] Hd Hl' Hll Hn Hnc Hwf' Hi' Ht' E1 E2 E3 Hv.
  split; cbn [fst snd]; rewrite ?E1, ?E2; try done; [lia|].
  assert (log_ (fst w) ≠ []) as Hne by (apply wf_log_nonempty, Hwf).
  assert (StronglySorted index_lt log') as Hsort by (rewrite <- E1; apply Hwf').
  rewrite E3, Hs, (entries_in_prefix log' (log_ (fst w))), <- apply_all_app by done.
  rewrite <- entries_in_split; [done|done|]. destruct (wf_commit _ Hwf). lia.
Qed.

Lemma sent_ok_request L c req : dense L → c < 2 ^ 64 → sent_ok L c req → request_ok req.
Proof using Type.
  intros [[Hh Hs Hr] Hn] Hc (n & m & Hnm & Hm & He & Hp & Ht & Hcm). rewrite <- (take_drop m L) in Hs, Hr.
  apply StronglySorted_app_1_l in Hs. apply Forall_app in Hr as [Hr _].
  rewrite <- (take_drop n (take m L)) in Hs, Hr. apply StronglySorted_app_1_r in Hs. apply Forall_app in Hr as [_ Hr].
  split; rewrite ?He; [done| |lia|lia|].
  - eapply Forall_impl; [exact Hr|]. cbn. lia.
  - intros H0. apply (Ht dummy_entry). rewrite Hh. replace (n - 1)%nat with 0%nat by lia. done.
Qed.

Lemma append_world_keeps req st e :
  sm_valid e → sm (append_world uniform_int req st e) = sm e ∧ sm_valid (append_world uniform_int req st e) ∧
  ∀ es, all_ready es e → all_ready es (append_world uniform_int req st e).
Proof using Type.
  intros Hv. unfold append_world.
  destruct (append_case_of req st); (split_and!; [by rewrite ?sm_random|by try apply sm_random_valid|]);
    intros es Hr x Hx; try apply sm_random_ready; by apply Hr.
Qed.

(** In a step from [w] to [w'], the environment is ready for what gets applied. *)
Definition ready_for (w w' : World) : Prop :=
  all_ready (entries_in (log_ (fst w')) (commit_index_ (fst w)) (commit_index_ (fst w'))) (snd w).

(** [HandleAppendEntries] of a replica: the message is stale, or comes too early, or
    its entries fit. *)
Lemma replica_append L c w from req w' :
  replica L c w → dense L → c < 2 ^ 64 → sent_ok L c req →
  HandleAppendEntries now uniform_int (Some apply) from req w = Some w' → ready_for w w' →
  replica L c w' ∧ log_ (fst w) `prefix_of` log_ (fst w') ∧
  (ar_success (ae_resp_ (fst w')) = true → ar_match_index (ae_resp_ (fst w')) = last_index (log_ (fst w'))).
Proof using Type.
  intros Hrp Hd Hc Hso Hs Hready. pose proof (sent_ok_request L c req Hd Hc Hso) as Hreq. destruct w as [st e].
  destruct (append_branches now uniform_int apply from req st e (rp_wf _ _ _ Hrp) Hreq)
    as (st' & E0 & Hwf' & Hlog & Hcom & Hresp & _ & _ & Hi & Ht).
  rewrite E0 in Hs. apply (inj Some) in Hs as <-. pose proof Hrp as [Hwf Hi0 Ht0 Hl Hb Hcl Hv _]. cbn [fst snd] in *.
  assert (all_ready (entries_in (log_ st') (commit_index_ st) (commit_index_ st')) e) as Hrd by exact Hready.
  rewrite Hlog, Hcom in Hrd. clear Hready.
  destruct (append_world_keeps req st e Hv) as (Hw & Hwv & Hwr).
  assert (log_ st ≠ []) as Hne by (apply wf_log_nonempty, Hwf).
  assert (log_ st `prefix_of` append_log req st ∧ append_log req st `prefix_of` L ∧
    commit_index_ st <= append_commit req st <= last_index (append_log req st) ∧ append_commit req st <= c) as (A & B & C & D).
  { destruct Hso as (n & m & Hnm & Hm & He & Hp & Htm & Hcm). unfold append_log, append_commit.
    destruct (append_case_of req st) eqn:Hcase; try (split_and!; done || lia); unfold append_case_of in Hcase;
      destruct (_ <? current_term_ st); try done;
      destruct (Z.ltb_spec (last_index (log_ st)) (ae_prev_log_index req)) as [|Hlast]; try done;
      destruct (_ <? snapshot_last_index_ st); try done.
    - exfalso. destruct (GetLogEntry st _) as [prev|] eqn:Hg; [|done].
      destruct (Z.eqb_spec (le_term prev) (ae_prev_log_term req)) as [|Hne']; [done|]. apply Hne'. symmetry. apply Htm.
      unfold GetLogEntry in Hg. destruct Hl as [k Hk]. rewrite (numbered_find 0) in Hg; [| |lia].
      + rewrite Hk. apply lookup_app_l_Some. rewrite Hp in Hg. by replace (n - 1)%nat with (Z.to_nat (Z.of_nat n - 1 - 0)) by lia.
      + apply (numbered_prefix 0 L); [apply Hd|by exists k].
    - pose proof (dense_prefix _ _ Hd Hl Hne) as Hdl. pose proof (dense_last _ Hdl) as Hll. unfold zlen in Hll.
      assert (extended_log req st = take (Nat.max (length (log_ st)) m) L) as Hx.
      { unfold extended_log. rewrite He. apply new_entries_prefix; try done. lia. }
      assert (log_ st `prefix_of` extended_log req st) as Hpre by (by exists (new_entries (log_ st) (ae_entries req))).
      assert (extended_log req st `prefix_of` L) as HpL by (rewrite Hx; by eexists; rewrite take_drop).
      assert (last_index (log_ st) <= last_index (extended_log req st)).
      { rewrite Hll, dense_last by (eapply dense_prefix; [exact Hd|done|intros E1; rewrite E1 in Hpre; by apply prefix_nil_inv in Hpre]).
        apply prefix_length in Hpre. unfold zlen. lia. }
      unfold advanced_commit. split_and!; [done|done|lia|lia|lia]. }
  destruct (sm_apply_all _ _ Hwv (Hwr _ Hrd)) as [Hsm Hsv]. rewrite Hw in Hsm.
  split.
  { eapply replica_moves; [exact Hrp|exact Hd|exact B|exact A|exact C|exact D|done|lia|lia|done|done|exact Hsm|exact Hsv]. }
  cbn [fst]. rewrite Hlog, Hresp. split; [exact A|]. unfold append_response. cbn [ar_success ar_match_index].
  by destruct (append_case_of req st).
Qed.

(** ** Steps that leave a replica as it is *)

Definition same_replica (w w' : World) : Prop :=
  same_log (fst w) (fst w') ∧ commit_index_ (fst w') = commit_index_ (fst w) ∧
  last_applied_ (fst w') = last_applied_ (fst w) ∧ sm (snd w') = sm (snd w) ∧
  (sm_valid (snd w) → sm_valid (snd w')).

#[local] Instance same_replica_preorder : PreOrder same_replica.
Proof using Type.
  split; [by intros w|]. intros w1 w2 w3 (A1 & B1 & C1 & D1 & E1) (A2 & B2 & C2 & D2 & E2).
  split; [by etransitivity|]. split_and!; [congruence..|auto].
Qed.

Lemma replica_same L c w w' : replica L c w → same_replica w w' → replica L c w'.
Proof using Type.
  intros [[Hw Hc Ha] ? ? ? ? ? ? ?] ((Hl & Hi & Ht) & Hco & Hap & Hs & Hv).
  split; rewrite ?Hl, ?Hi, ?Ht, ?Hco, ?Hs; auto. split; by rewrite ?Hl, ?Hco, ?Hap.
Qed.

Lemma ResetElectionTimer_replica w : same_replica w (ResetElectionTimer now uniform_int w).
Proof using Type.
  destruct w as [st e]. unfold ResetElectionTimer, RandomElectionTimeout. cbn [fst snd].
  set (b := election_timeout_ms (config_ st)).
  pose proof (sm_random b (b * 2) e) as Hr. pose proof (sm_random_valid b (b * 2) e) as Hv.
  destruct (state_ st); destruct (uniform_int b (b * 2) e) as [d e1]; by split_and!.
Qed.

Lemma PersistState_replica st e : same_replica (st, e) (PersistState st, e).
Proof using Type. unfold PersistState. by destruct (written _ _). Qed.

Lemma BecomeCandidate_replica st e : same_replica (st, e) (BecomeCandidate st, e).
Proof using Type. unfold BecomeCandidate. etransitivity; [|apply PersistState_replica]. by split_and!. Qed.

Lemma step_down_replica t st e : same_replica (st, e) (step_down t st, e).
Proof using Type. unfold step_down. etransitivity; [|apply PersistState_replica]. by split_and!. Qed.

Lemma HandleRequestVote_replica from req w w' :
  HandleRequestVote now uniform_int from req w = Some w' → same_replica w w'.
Proof using Type.
  destruct w as [st e]. unfold HandleRequestVote. raft_simpl.
  destruct (rv_term req <? current_term_ st); [by intros [= <-]|].
  set (w1 := if current_term_ st <? rv_term req then _ else _).
  assert (same_replica (st, e) w1) as H1.
  { subst w1. destruct (_ <? _); [|done]. unfold on_node, PersistState. raft_simpl. by destruct (written _ _). }
  clearbody w1. intros Hs. apply bind_Some in Hs as (can & _ & Hs). etransitivity; [exact H1|].
  destruct w1 as [st1 e1]. destruct can; injection Hs as <-; [|done].
  etransitivity; [|apply ResetElectionTimer_replica].
  unfold on_node, PersistState. raft_simpl. by destruct (written _ _).
Qed.

(** ** Steps of the leader *)

Lemma replica_propose c st e command st' r :
  replica (log_ st) c (st, e) → dense (log_ st) → last_index (log_ st) + 1 < 2 ^ 64 →
  Propose_append command st = Some (st', r) →
  replica (log_ st') c (st', e) ∧ dense (log_ st') ∧ log_ st `prefix_of` log_ st' ∧
  commit_index_ st' = commit_index_ st.
Proof using Type.
  intros Hrp Hd Hlt Hs. unfold Propose_append in Hs.
  destruct (bool_decide _); [|injection Hs as <- _; by split_and!].
  apply bind_Some in Hs as (l & Hl & Hs). injection Hs as <- _.
  assert (last_index (log_ st) = le_index l) as Hli by (unfold last_index, log_last; unfold log_back in Hl; by rewrite Hl).
  pose proof (wf_log_last_range _ (proj1 Hd)).
  assert (u64 (le_index l + 1) = last_index (log_ st) + 1) as -> by (rewrite <- Hli; apply Z.mod_small; lia).
  set (x := mkEntry _ _ command). set (st1 := PersistState (set_log_ (log_ st ++ [x]) st)).
  assert (same_replica (set_log_ (log_ st ++ [x]) st, e) (st1, e)) as Hp by apply PersistState_replica.
  destruct Hp as ((Hlog & Hi & Ht) & Hc & Ha & _). cbn [fst snd set_log_ log_ snapshot_last_index_ snapshot_last_term_ commit_index_ last_applied_] in *.
  pose proof (dense_snoc _ (current_term_ st) command Hd Hlt) as Hd'. fold x in Hd'.
  assert (log_ st `prefix_of` log_ st ++ [x]) as Hpre by by apply prefix_app_r.
  raft_simpl. rewrite Hlog. split; [|split_and!; [done|done|done]].
  pose proof Hrp as [[Hw Hcr Hap] Hi0 Ht0 _ Hb Hcl Hv Hst]. cbn [fst snd] in *.
  assert (last_index (log_ st) <= last_index (log_ st ++ [x])) by (rewrite last_index_snoc; cbn; lia).
  eapply (replica_moves (log_ st ++ [x]) c (st, e) (log_ st ++ [x]) (commit_index_ st)); cbn [fst snd];
    [eapply replica_more; [exact Hpre|reflexivity|exact Hrp]|done|done|done|lia|done| |raft_simpl; lia|raft_simpl; lia|done|done| |done].
  - split; raft_simpl; rewrite ?Hlog, ?Hc, ?Ha; try done. apply Hd'.
  - by rewrite entries_in_nil.
Qed.

Lemma replica_advance c w w' :
  replica (log_ (fst w)) c w → dense (log_ (fst w)) → AdvanceCommitIndex (Some apply) w = Some w' → ready_for w w' →
  log_ (fst w') = log_ (fst w) ∧ commit_index_ (fst w) <= commit_index_ (fst w') ∧
  replica (log_ (fst w)) (commit_index_ (fst w')) w'.
Proof using Type.
  destruct w as [st e]. cbn [fst]. intros Hrp Hd Hs Hready. pose proof Hrp as [Hwf Hi Ht _ Hb Hcl Hv Hst]. cbn [fst snd] in *.
  destruct (AdvanceCommitIndex_moves apply st e Hwf) as (n & Hn & Hor & _ & E0). rewrite E0 in Hs.
  apply (inj Some) in Hs as <-. raft_simpl. split; [done|]. split; [done|].
  destruct (sm_apply_all _ _ Hv Hready) as [Hsm Hsv]. raft_simpl.
  assert (n <= last_index (log_ st)) by (destruct Hor as [->|[? _]]; lia).
  pose proof (wf_log_last_range _ (proj1 Hd)).
  eapply (replica_moves (log_ st) n (st, e)); cbn [fst snd]; [|done|done|done| |reflexivity| |done|done|done|done|exact Hsm|exact Hsv].
  - destruct Hrp. by split.
  - done.
  - destruct Hwf as [Hw Hc _]. split; raft_simpl; [done|lia|done].
Qed.

Lemma replica_response c from resp w w' :
  replica (log_ (fst w)) c w → dense (log_ (fst w)) →
  HandleAppendEntriesResponse (Some apply) from resp w = Some w' → ready_for w w' →
  log_ (fst w') = log_ (fst w) ∧ commit_index_ (fst w) <= commit_index_ (fst w') ∧
  replica (log_ (fst w)) (Z.max c (commit_index_ (fst w'))) w'.
Proof using Type.
  intros Hrp Hd Hs Hready. assert (same_replica w w' → log_ (fst w') = log_ (fst w) ∧
    commit_index_ (fst w) <= commit_index_ (fst w') ∧ replica (log_ (fst w)) (Z.max c (commit_index_ (fst w'))) w') as Hsame.
  { intros Hsm. pose proof Hsm as ((Hl & _) & Hc & _). split_and!; [done|lia|].
    apply (replica_same _ _ w); [|done]. eapply replica_more; [reflexivity|apply Z.le_max_l|done]. }
  destruct w as [st e]. unfold HandleAppendEntriesResponse in Hs. cbn [fst snd on_node] in Hs.
  destruct (_ <? ar_term resp); [injection Hs as <-; apply Hsame, step_down_replica|].
  destruct (negb _); [injection Hs as <-; by apply Hsame|].
  destruct (ar_success resp).
  - set (u := on_node _ _) in Hs. assert (same_replica (st, e) u) as Hu by (by split_and!).
    destruct (replica_advance c u w' (replica_same _ _ _ _ Hrp Hu) Hd Hs Hready) as (Hl & Hc & Hr).
    split_and!; [done|done|]. eapply replica_more; [reflexivity|apply Z.le_max_r|exact Hr].
  - injection Hs as <-. apply Hsame. unfold on_node. cbn [fst snd]. destruct (subscript _ _). by destruct (_ <? _).
Qed.

(** * The reign of one leader *)

Abbreviation Members := (gmap bytes World).
Abbreviation State := (Members * list AppendEntriesRequest)%type.

(** Only [l] takes proposals and sends append messages, its next indices within its
    log; every node votes and times out; the rest of an environment changes as it
    likes. *)
Inductive quiet_step (l : bytes) : State → State → Prop :=
| qs_send c sent w next_idx :
    c !! l = Some w → 1 <= next_idx <= last_index (log_ (fst w)) + 1 →
    quiet_step l (c, sent) (c, heartbeat_request (fst w) next_idx :: sent)
| qs_propose c sent st e command st' r :
    c !! l = Some (st, e) → last_index (log_ st) + 1 < 2 ^ 64 → Propose_append command st = Some (st', r) →
    quiet_step l (c, sent) (<[l := (st', e)]> c, sent)
| qs_vote c sent id w from req w' :
    c !! id = Some w → HandleRequestVote now uniform_int from req w = Some w' →
    quiet_step l (c, sent) (<[id := w']> c, sent)
| qs_candidate c sent id st e :
    c !! id = Some (st, e) → quiet_step l (c, sent) (<[id := (BecomeCandidate st, e)]> c, sent)
| qs_timer c sent id w :
    c !! id = Some w → quiet_step l (c, sent) (<[id := ResetElectionTimer now uniform_int w]> c, sent)
| qs_env c sent id st e e' :
    c !! id = Some (st, e) → sm e' = sm e → (sm_valid e → sm_valid e') →
    quiet_step l (c, sent) (<[id := (st, e')]> c, sent).

(** Besides, the others handle the append messages, in any order and any number of
    times, and [l] handles any answers. *)
Inductive reign_step (l : bytes) : State → State → Prop :=
| rs_append c sent id w from req w' :
    id ≠ l → c !! id = Some w → req ∈ sent →
    HandleAppendEntries now uniform_int (Some apply) from req w = Some w' → ready_for w w' →
    reign_step l (c, sent) (<[id := w']> c, sent)
| rs_response c sent w from resp w' :
    c !! l = Some w → HandleAppendEntriesResponse (Some apply) from resp w = Some w' → ready_for w w' →
    reign_step l (c, sent) (<[l := w']> c, sent)
| rs_quiet x y : quiet_step l x y → reign_step l x y.

Definition reign_ok (l : bytes) (s : State) : Prop :=
  ∃ w, fst s !! l = Some w ∧ dense (log_ (fst w)) ∧
    (∀ id u, fst s !! id = Some u → replica (log_ (fst w)) (commit_index_ (fst w)) u) ∧
    (∀ req, req ∈ snd s → sent_ok (log_ (fst w)) (commit_index_ (fst w)) req).

(** A step of the leader: its log and its position grow. *)
Lemma reign_leads l c sent w w' :
  reign_ok l (c, sent) → c !! l = Some w → dense (log_ (fst w')) → log_ (fst w) `prefix_of` log_ (fst w') →
  commit_index_ (fst w) <= commit_index_ (fst w') → replica (log_ (fst w')) (commit_index_ (fst w')) w' →
  reign_ok l (<[l := w']> c, sent).
Proof using Type.
  intros (w0 & Hw0 & _ & Hall & Hsent) Hw Hd Hl Hc Hr. cbn [fst snd] in *. rewrite Hw in Hw0. injection Hw0 as <-.
  exists w'. cbn [fst snd]. split; [apply lookup_insert_eq|]. split; [done|]. split.
  - intros id u. rewrite lookup_insert_Some. intros [[_ <-]|[_ Hu]]; [done|].
    eapply replica_more; [exact Hl|exact Hc|by apply (Hall id)].
  - intros req Hreq. eapply sent_ok_more; [exact Hl|exact Hc|by apply Hsent].
Qed.

(** A node changes, and if it is the leader only in what no replica sees. *)
Lemma reign_member l c sent id w w' :
  reign_ok l (c, sent) → c !! id = Some w → same_replica w w' → reign_ok l (<[id := w']> c, sent).
Proof using Type.
  intros Hok Hw Hs. pose proof Hok as (wl & Hwl & Hd & Hall & Hsent). cbn [fst snd] in *.
  pose proof (replica_same _ _ _ _ (Hall id w Hw) Hs) as Hr. destruct (decide (id = l)) as [->|Hne].
  - rewrite Hwl in Hw. injection Hw as <-. destruct Hs as ((Hl & _) & Hc & _).
    apply (reign_leads l c sent wl); try done; rewrite ?Hl, ?Hc; done.
  - exists wl. cbn [fst snd]. rewrite lookup_insert_ne by done. split_and!; [done|done| |done].
    intros i u. rewrite lookup_insert_Some. intros [[_ <-]|[_ Hu]]; [done|by apply (Hall i)].
Qed.

Lemma quiet_step_ok l s s' : reign_ok l s → quiet_step l s s' → reign_ok l s'.
Proof using Type.
  intros Hok Hs. destruct Hs as [c sent w next Hw Hn|c sent st e cmd st' r Hw Hlt Hs
    |c sent id w from req w' Hw Hs|c sent id st e Hw|c sent id w Hw|c sent id st e e' Hw Hsm Hv].
  - destruct Hok as (wl & Hwl & Hd & Hall & Hsent). cbn [fst snd] in *. rewrite Hw in Hwl. injection Hwl as <-.
    pose proof (Hall l w Hw) as [Hwf Hi Ht _ _ _ _ _].
    exists w. split_and!; [done|done|done|]. intros req [->|Hreq]%elem_of_cons; [|by apply Hsent].
    apply heartbeat_sent_ok; try done; [apply (wf_commit _ Hwf)|apply (wf_log_last_range _ (proj1 Hd))].
  - pose proof Hok as (wl & Hwl & Hd & Hall & _). cbn [fst snd] in *. rewrite Hw in Hwl. injection Hwl as <-.
    destruct (replica_propose _ _ _ _ _ _ (Hall l _ Hw) Hd Hlt Hs) as (Hr & Hd' & Hl & Hc). cbn [fst] in *.
    apply (reign_leads l c sent (st, e)); cbn [fst]; rewrite ?Hc; done.
  - eapply reign_member; [done|done|by eapply HandleRequestVote_replica].
  - eapply reign_member; [done|done|apply BecomeCandidate_replica].
  - eapply reign_member; [done|done|apply ResetElectionTimer_replica].
  - eapply reign_member; [done|done|by split_and!].
Qed.

Lemma reign_step_ok l s s' : reign_ok l s → reign_step l s s' → reign_ok l s'.
Proof using Type.
  intros Hok Hs. destruct Hs as [c sent id w from req w' Hne Hw Hreq Hs Hrd|c sent w from resp w' Hw Hs Hrd|x y Hs].
  - destruct Hok as (wl & Hwl & Hd & Hall & Hsent). cbn [fst snd] in *. exists wl. cbn [fst snd].
    rewrite lookup_insert_ne by done. split_and!; [done|done| |done].
    intros i u. rewrite lookup_insert_Some. intros [[_ <-]|[_ Hu]]; [|by apply (Hall i)].
    eapply (replica_append _ _ w); [by apply (Hall id)|done| |by apply Hsent|done|done].
    apply (wf_commit _ (rp_wf _ _ _ (Hall l wl Hwl))).
  - pose proof Hok as (wl & Hwl & Hd & Hall & _). cbn [fst snd] in *. rewrite Hw in Hwl. injection Hwl as <-.
    destruct (replica_response _ _ _ _ _ (Hall l _ Hw) Hd Hs Hrd) as (Hl & Hc & Hr).
    apply (reign_leads l c sent w); rewrite ?Hl; try done. by rewrite Z.max_r in Hr.
  - by eapply quiet_step_ok.
Qed.

(** The leader and the others before the first proposal. *)
Definition enthroned (l : bytes) (c : Members) : Prop :=
  is_Some (c !! l) ∧ ∀ id w, c !! id = Some w →
    log_ (fst w) = [dummy_entry] ∧ commit_index_ (fst w) = 0 ∧ last_applied_ (fst w) = 0 ∧
    snapshot_last_index_ (fst w) = 0 ∧ snapshot_last_term_ (fst w) = 0 ∧ sm (snd w) = s0 ∧ sm_valid (snd w).

Lemma dense_dummy : dense [dummy_entry].
Proof using Type.
  split; [split; [done|by repeat constructor|]|].
  - by apply Forall_singleton.
  - intros i e He. apply list_lookup_singleton_Some in He as [-> <-]. done.
Qed.

Lemma enthroned_ok l c : enthroned l c → reign_ok l (c, []).
Proof using Type.
  intros [[w Hw] Hall]. destruct (Hall l w Hw) as (Hl & Hc & _). exists w. cbn [fst snd]. rewrite Hl, Hc.
  split_and!; [done|apply dense_dummy| |by intros req ?%not_elem_of_nil].
  intros id u Hu. destruct (Hall id u Hu) as (Hl' & Hc' & Ha' & Hi' & Ht' & Hs' & Hv').
  split; rewrite ?Hl', ?Hc'; try done. split; rewrite ?Hl', ?Hc'; [apply dense_dummy|lia|done].
Qed.

Lemma reign_run_ok l x y : reign_ok l x → rtc (reign_step l) x y → reign_ok l y.
Proof using Type. intros Hok Hs. induction Hs as [|x y z H1 _ IH]; [done|]. by apply IH, (reign_step_ok l x). Qed.

(** The others have a part of the leader's log. *)
Lemma reign_ok_replicas l c sent wl id w :
  reign_ok l (c, sent) → c !! l = Some wl → c !! id = Some w →
  dense (log_ (fst wl)) ∧ replica (log_ (fst wl)) (commit_index_ (fst wl)) w.
Proof using Type.
  intros (w1 & Hw1 & Hd & Hall & _) Hwl Hw. cbn [fst snd] in *. rewrite Hwl in Hw1. injection Hw1 as <-.
  split; [done|by apply (Hall id)].
Qed.

(** C4: one replicated log.  While a single node takes the proposals and sends the
    append messages and none restarts or takes a snapshot, whatever is lost, delayed,
    repeated or reordered and whatever the leader is answered, every node's log is a prefix of the leader's, no node is
    ahead of the leader's commit position, and the state machine of a node is the
    result of the leader's commands up to the node's own position, each applied
    once and in order. *)
Theorem one_leader_replicates l c0 c sent wl id w :
  enthroned l c0 → rtc (reign_step l) (c0, []) (c, sent) → c !! l = Some wl → c !! id = Some w →
  log_ (fst w) `prefix_of` log_ (fst wl) ∧ commit_index_ (fst w) <= commit_index_ (fst wl) ∧
  sm (snd w) = apply_all exec (entries_in (log_ (fst wl)) 0 (commit_index_ (fst w))) s0.
Proof using Type.
  intros H0 Hs Hwl Hw. pose proof (reign_run_ok _ _ _ (enthroned_ok _ _ H0) Hs) as Hok.
  destruct (reign_ok_replicas _ _ _ _ _ _ Hok Hwl Hw) as [Hd [Hwf _ _ Hl Hb Hc _ Hst]].
  split_and!; [done|done|]. rewrite Hst. f_equal.
  apply entries_in_prefix; [apply Hd|done|apply wf_log_nonempty, Hwf|done].
Qed.
End Reign.

(** * A concrete reign *)

Abbreviation demo_world := (RaftNode * list (Z * bytes))%type.

#[export] Instance demo_machine : StateMachine (S := list (Z * bytes)) RaftReplication.draw record_apply.
Proof.
  refine {| sm := λ e, e; exec := record_apply; sm_valid := λ _, True; sm_ready := λ _ _, True |}; done.
Defined.

Abbreviation demo_advance := (reign_step RaftReplication.tick RaftReplication.draw record_apply (str "n1")).

(** [n1] leads term 1; it takes a proposal and sends it, [n2] appends it, the answer
    commits it and the next message lets [n2] apply it. *)
Definition crowned : RaftNode :=
  set_match_index_ {[ str "n1" := 0; str "n2" := 0; str "n3" := 0 ]}
    (set_state_ LEADER (set_current_term_ 1 (demo_member "n1"))).
Definition crowned_1 : RaftNode := default crowned (fst <$> Propose_append (str "put") crowned).
Definition throne : demo_world := (crowned, []).
Definition subject : demo_world := (demo_member "n2", []).
Definition throne_1 : demo_world := (crowned_1, []).
Definition order_1 : AppendEntriesRequest := heartbeat_request crowned_1 1.
Definition subject_1 : demo_world :=
  default subject (HandleAppendEntries RaftReplication.tick RaftReplication.draw (Some record_apply) (str "n1") order_1 subject).
Definition throne_2 : demo_world :=
  default throne_1 (HandleAppendEntriesResponse (Some record_apply) (str "n2") (ae_resp_ (fst subject_1)) throne_1).
Definition order_2 : AppendEntriesRequest := heartbeat_request (fst throne_2) 2.
Definition subject_2 : demo_world :=
  default subject_1 (HandleAppendEntries RaftReplication.tick RaftReplication.draw (Some record_apply) (str "n1") order_2 subject_1).

Definition reign_0 : gmap bytes demo_world := {[ str "n1" := throne; str "n2" := subject ]}.
Definition reign_1 : gmap bytes demo_world := <[str "n1" := throne_1]> reign_0.
Definition reign_2 : gmap bytes demo_world := <[str "n2" := subject_1]> reign_1.
Definition reign_3 : gmap bytes demo_world := <[str "n1" := throne_2]> reign_2.
Definition reign_4 : gmap bytes demo_world := <[str "n2" := subject_2]> reign_3.

Lemma demo_enthroned : enthroned RaftReplication.draw record_apply [] (str "n1") reign_0.
Proof.
  split; [by eexists; vm_compute|].
  assert (map_Forall (λ (_ : bytes) (w : demo_world), log_ (fst w) = [dummy_entry] ∧ commit_index_ (fst w) = 0 ∧
    last_applied_ (fst w) = 0 ∧ snapshot_last_index_ (fst w) = 0 ∧ snapshot_last_term_ (fst w) = 0 ∧ snd w = []) reign_0) as HF
    by (apply (bool_decide_unpack _); by vm_compute).
  intros id w Hw. by destruct (HF id w Hw) as (? & ? & ? & ? & ? & ?).
Qed.

Lemma throne_proposes : ∃ r, Propose_append (str "put") crowned = Some (crowned_1, r).
Proof.
  assert (is_Some (Propose_append (str "put") crowned)) as [[st r] E]
    by (apply (bool_decide_unpack _); by vm_compute).
  exists r. unfold crowned_1. by rewrite E.
Qed.

Abbreviation demo_quiet := (quiet_step RaftReplication.tick RaftReplication.draw record_apply (str "n1")).

Lemma demo_proposal : demo_quiet (reign_0, []) (reign_1, []).
Proof.
  destruct throne_proposes as [r Hr]. apply (qs_propose _ _ _ _ _ _ crowned [] (str "put") crowned_1 r);
    [by vm_compute|by vm_compute|exact Hr].
Qed.

Lemma demo_sending : demo_quiet (reign_1, []) (reign_1, [order_1]).
Proof. apply (qs_send _ _ _ _ _ _ throne_1 1); by vm_compute. Qed.

Lemma demo_reign_2 : demo_advance (reign_1, [order_1]) (reign_2, [order_1]).
Proof.
  apply (rs_append _ _ _ _ _ _ (str "n2") subject (str "n1") order_1);
    [by apply (bool_decide_unpack _); vm_compute|by vm_compute|by left|computed|done].
Qed.

Lemma demo_reign_3 : demo_advance (reign_2, [order_1]) (reign_3, [order_1]).
Proof.
  apply (rs_response _ _ _ _ _ _ throne_1 (str "n2") (ae_resp_ (fst subject_1))); [by vm_compute|computed|done].
Qed.

Lemma demo_reign_4 : demo_advance (reign_3, [order_2; order_1]) (reign_4, [order_2; order_1]).
Proof.
  apply (rs_append _ _ _ _ _ _ (str "n2") subject_1 (str "n1") order_2);
    [by apply (bool_decide_unpack _); vm_compute|by vm_compute|by left|computed|done].
Qed.

Lemma demo_reign : rtc demo_advance (reign_0, []) (reign_4, [order_2; order_1]).
Proof.
  eapply rtc_l; [apply rs_quiet, demo_proposal|].
  eapply rtc_l; [apply rs_quiet, demo_sending|].
  eapply rtc_l; [exact demo_reign_2|]. eapply rtc_l; [exact demo_reign_3|].
  eapply rtc_l; [apply rs_quiet, (qs_send _ _ _ _ _ _ throne_2 2); by vm_compute|].
  eapply rtc_l; [exact demo_reign_4|apply rtc_refl].
Qed.

Lemma reign_4_leader : reign_4 !! str "n1" = Some throne_2.
Proof. unfold reign_4, reign_3. rewrite lookup_insert_ne by done. apply lookup_insert_eq. Qed.

Lemma reign_4_follower : reign_4 !! str "n2" = Some subject_2.
Proof. apply lookup_insert_eq. Qed.

Lemma one_leader_replicates_witness :
  snd subject_2 = [(1, str "put")] ∧
  log_ (fst subject_2) `prefix_of` log_ (fst throne_2) ∧
  commit_index_ (fst subject_2) <= commit_index_ (fst throne_2) ∧
  sm (StateMachine := demo_machine) (snd subject_2) =
    apply_all (exec (StateMachine := demo_machine))
      (entries_in (log_ (fst throne_2)) 0 (commit_index_ (fst subject_2))) [].
Proof.
  split; [by vm_compute|].
  exact (one_leader_replicates RaftReplication.tick RaftReplication.draw record_apply (SM := demo_machine) []
    (str "n1") reign_0 reign_4 [order_2; order_1] throne_2 (str "n2") subject_2
    demo_enthroned demo_reign reign_4_leader reign_4_follower).
Defined.
