(* ===== verification/RaftCommit.v ===== *)
(** What a commit position means: src/raft/raft_node.cc, a reign as in [RaftReign] in
    which the leader is answered by its followers.

    The answers of [HandleAppendEntries] may be lost, delayed, repeated and handled
    in any order; [AdvanceCommitIndex] counts them.  Then whatever the leader takes
    as committed is in the logs of a majority. *)
From S2P Require Import Prelude Coding Raft RaftRpc RaftDurable RaftElection RaftReplication RaftLog RaftReign.

Lemma filter_none {A} (P : A → Prop) `{∀ x, Decision (P x)} (l : list A) : (∀ x, x ∈ l → ¬ P x) → filter P l = [].
Proof.
  induction l as [|x l IH]; intros HP; [done|]. rewrite filter_cons, decide_False by (apply HP; by left).
  apply IH. intros y Hy. apply HP. by right.
Qed.

(** The entries of a log up to an index. *)
Definition upto (n : Z) (log : list LogEntry) : list LogEntry := filter (λ e, le_index e <= n) log.

Lemma upto_extended n L a :
  StronglySorted index_lt L → a `prefix_of` L → a ≠ [] → n <= last_index a → upto n a = upto n L.
Proof.
  intros Hs [k ->] Hne Hn. unfold upto. rewrite filter_app. enough (filter (λ e, le_index e <= n) k = []) as ->.
  { by rewrite app_nil_r. }
  apply filter_none. intros x Hx.
  pose proof (log_back_last _ Hne) as Hl. apply last_Some_elem_of in Hl. unfold last_index in Hn.
  pose proof (StronglySorted_app_1_elem_of index_lt _ _ _ x Hs Hl Hx). cbn in *. lia.
Qed.

Lemma upto_prefix n log : StronglySorted index_lt log → upto n log `prefix_of` log.
Proof.
  intros Hs. induction Hs as [|x log Hs IH Hx]; [done|]. unfold upto in *. rewrite filter_cons.
  destruct (decide (le_index x <= n)); [by apply prefix_cons|].
  enough (filter (λ e, le_index e <= n) log = []) as -> by apply prefix_nil.
  apply filter_none. intros y Hy. rewrite Forall_forall in Hx. specialize (Hx y Hy). cbn in *. lia.
Qed.

Section Commit.
Context {E S : Type} (now : E → Z) (uniform_int : Z → Z → E → Z * E).
Context (apply : Z → bytes → E → E) {SM : StateMachine (S := S) uniform_int apply} (s0 : S).
Abbreviation World := (RaftNode * E)%type.
Abbreviation Members := (gmap bytes World).
Abbreviation State := (Members * list AppendEntriesRequest)%type.
Abbreviation Answers := (list (bytes * AppendEntriesResponse)).
Abbreviation quiet := (quiet_step now uniform_int apply).
Abbreviation ok := (reign_ok uniform_int apply s0).

(** As [reign_step], and every answer the leader handles is one of a follower: the
    response [HandleAppendEntries] leaves, under the follower's name. *)
Inductive answered_step (l : bytes) : State * Answers → State * Answers → Prop :=
| as_append c sent ans id w from req w' :
    id ≠ l → c !! id = Some w → req ∈ sent →
    HandleAppendEntries now uniform_int (Some apply) from req w = Some w' → ready_for uniform_int apply w w' →
    answered_step l (c, sent, ans) (<[id := w']> c, sent, (id, ae_resp_ (fst w')) :: ans)
| as_response c sent ans w from resp w' :
    c !! l = Some w → (from, resp) ∈ ans →
    HandleAppendEntriesResponse (Some apply) from resp w = Some w' → ready_for uniform_int apply w w' →
    answered_step l (c, sent, ans) (<[l := w']> c, sent, ans)
| as_quiet x y ans : quiet l x y → answered_step l (x, ans) (y, ans).

Lemma answered_reign_step l x y :
  answered_step l x y → reign_step now uniform_int apply l (fst x) (fst y).
Proof using Type. intros []; cbn [fst]; [by eapply rs_append|by eapply rs_response|by apply rs_quiet]. Qed.

(** ** How far the logs reach *)

Definition reaches (c : Members) (n : Z) (p : bytes) : Prop :=
  match c !! p with Some w => n <= last_index (log_ (fst w)) | None => False end.
#[local] Instance reaches_dec c n p : Decision (reaches c n p).
Proof using Type. unfold reaches. destruct (c !! p); apply _. Defined.

Lemma reaches_spec c n p : reaches c n p ↔ ∃ w, c !! p = Some w ∧ n <= last_index (log_ (fst w)).
Proof using Type. unfold reaches. destruct (c !! p); naive_solver. Qed.

(** No log gets shorter. *)
Definition grows (c c' : Members) : Prop := ∀ n p, reaches c n p → reaches c' n p.

Lemma grows_insert c id w w' :
  c !! id = Some w → last_index (log_ (fst w)) <= last_index (log_ (fst w')) → grows c (<[id := w']> c).
Proof using Type.
  intros Hw Hle n p. unfold reaches. destruct (decide (p = id)) as [->|Hne].
  - rewrite lookup_insert_eq, Hw. lia.
  - by rewrite lookup_insert_ne.
Qed.

Definition on_majority (c : Members) (ps : list bytes) (n : Z) : Prop :=
  zlen ps < 2 * zlen (filter (reaches c n) ps).

Lemma filter_zlen_le {A} (P Q : A → Prop) `{∀ x, Decision (P x), ∀ x, Decision (Q x)} (l : list A) :
  (∀ x, P x → Q x) → zlen (filter P l) <= zlen (filter Q l).
Proof using Type.
  intros HPQ. induction l as [|x l IH]; [done|]. rewrite !filter_cons.
  destruct (decide (P x)) as [HP|HP], (decide (Q x)) as [HQ|HQ]; rewrite ?zlen_cons; try lia.
  by destruct HQ; apply HPQ.
Qed.

Lemma on_majority_grows c c' ps n : grows c c' → on_majority c ps n → on_majority c' ps n.
Proof using Type.
  intros Hg Hm. unfold on_majority in *. pose proof (filter_zlen_le (reaches c n) (reaches c' n) ps (Hg n)). lia.
Qed.

Lemma filter_zlen_lt {A} (P Q : A → Prop) `{∀ x, Decision (P x), ∀ x, Decision (Q x)} (l : list A) y :
  (∀ x, P x → Q x) → y ∈ l → ¬ P y → Q y → 1 + zlen (filter P l) <= zlen (filter Q l).
Proof using Type.
  intros HPQ Hy HnP HQy. induction l as [|x l IH]; [by apply elem_of_nil in Hy|]. rewrite !filter_cons.
  pose proof (filter_zlen_le P Q l HPQ). apply elem_of_cons in Hy as [<-|Hy].
  - rewrite decide_False, decide_True, zlen_cons by done. lia.
  - specialize (IH Hy). destruct (decide (P x)) as [HP|HP], (decide (Q x)) as [HQ|HQ]; rewrite ?zlen_cons; try lia.
    by destruct HQ; apply HPQ.
Qed.

(** ** The invariant *)

Record commit_inv (l : bytes) (ps : list bytes) (c : Members) (ans : Answers) (st : RaftNode) : Prop := {
  ci_answer : ∀ p resp, (p, resp) ∈ ans → ar_success resp = true → reaches c (ar_match_index resp) p;
  ci_name : my_id_ st = l;
  ci_peers : peers (config_ st) = ps;
  ci_match : ∀ p m, match_index_ st !! p = Some m → 0 < m → reaches c m p;
  ci_commit : 0 < commit_index_ st → on_majority c ps (commit_index_ st) }.

(** The step leaves the leader's knowledge as it is. *)
Definition same_progress (st st' : RaftNode) : Prop :=
  config_ st' = config_ st ∧ my_id_ st' = my_id_ st ∧ match_index_ st' = match_index_ st ∧
  commit_index_ st' = commit_index_ st.

Lemma commit_inv_grows l ps c c' ans st st' :
  commit_inv l ps c ans st → grows c c' → same_progress st st' → commit_inv l ps c' ans st'.
Proof using Type.
  intros [Ha Hn Hp Hm Hc] Hg (E1 & E2 & E3 & E4). split; rewrite ?E1, ?E2, ?E3, ?E4; try done.
  - intros p resp Hr Hs. by apply Hg, (Ha p resp).
  - intros p m Hpm H0. by apply Hg, (Hm p m).
  - intros H0. by apply (on_majority_grows c), Hc.
Qed.

(** What [AdvanceCommitIndex] counts is a majority. *)
Lemma committable_majority l ps c ans st e n :
  commit_inv l ps c ans st → c !! l = Some (st, e) → l ∈ ps → 0 < n <= last_index (log_ st) →
  committable st n → on_majority c ps n.
Proof using Type.
  intros [_ Hn Hp Hm _] Hl Hin H0 (x & _ & _ & Hcount). unfold on_majority, holders in *. rewrite Hp in Hcount.
  pose proof (filter_zlen_lt (λ p, p ≠ my_id_ st ∧ n <= default 0 (match_index_ st !! p)) (reaches c n) ps l) as Hlt.
  enough (1 + zlen (filter (λ p, p ≠ my_id_ st ∧ n <= default 0 (match_index_ st !! p)) ps) <= zlen (filter (reaches c n) ps)) by lia.
  apply Hlt; [|done|by intros [Hne _]; apply Hne|].
  - intros p [_ Hle]. destruct (match_index_ st !! p) as [m|] eqn:Epm; cbn in Hle; [|lia].
    apply reaches_spec. destruct (proj1 (reaches_spec c m p) (Hm p m Epm ltac:(lia))) as (w & Hw & Hmw).
    exists w. split; [done|lia].
  - apply reaches_spec. exists (st, e). split; [done|]. cbn. lia.
Qed.

(** ** Steps that leave the leader's knowledge *)

#[local] Instance same_progress_preorder : PreOrder same_progress.
Proof using Type.
  split; [by intros st|]. intros st1 st2 st3 (A1 & B1 & C1 & D1) (A2 & B2 & C2 & D2). split_and!; congruence.
Qed.

Lemma PersistState_progress st : same_progress st (PersistState st).
Proof using Type. unfold PersistState. by destruct (written _ _). Qed.

Lemma ResetElectionTimer_progress w : same_progress (fst w) (fst (ResetElectionTimer now uniform_int w)).
Proof using Type.
  destruct w as [st e]. unfold ResetElectionTimer, RandomElectionTimeout. cbn [fst snd].
  set (b := election_timeout_ms (config_ st)).
  destruct (state_ st); destruct (uniform_int b (b * 2) e); by split_and!.
Qed.

Lemma HandleRequestVote_progress from req w w' :
  HandleRequestVote now uniform_int from req w = Some w' → same_progress (fst w) (fst w').
Proof using Type.
  destruct w as [st e]. unfold HandleRequestVote. raft_simpl.
  destruct (rv_term req <? current_term_ st); [by intros [= <-]|].
  set (w1 := if current_term_ st <? rv_term req then _ else _).
  assert (same_progress st (fst w1)) as H1.
  { subst w1. destruct (_ <? _); [|done]. raft_simpl. unfold PersistState. by destruct (written _ _). }
  intros Hs. apply bind_Some in Hs as (can & _ & Hs). etransitivity; [exact H1|].
  destruct can; injection Hs as <-; [|done].
  etransitivity; [|apply ResetElectionTimer_progress]. raft_simpl. unfold PersistState. by destruct (written _ _).
Qed.

(** ** Steps of the leader *)

Lemma propose_progress l ps c ans st e command st' r :
  commit_inv l ps c ans st → c !! l = Some (st, e) → Propose_append command st = Some (st', r) →
  last_index (log_ st) + 1 < 2 ^ 64 → wf_log (log_ st) → commit_inv l ps (<[l := (st', e)]> c) ans st'.
Proof using Type.
  intros HI Hl Hs Hlt Hwf. unfold Propose_append in Hs. destruct (bool_decide _);
    [|injection Hs as <- _; apply (commit_inv_grows l ps c _ ans st); [done|by eapply grows_insert|done]].
  apply bind_Some in Hs as (x & Hx & Hs). injection Hs as <- _.
  assert (last_index (log_ st) = le_index x) as Hli by (unfold last_index, log_last; unfold log_back in Hx; by rewrite Hx).
  pose proof (wf_log_last_range _ Hwf).
  assert (u64 (le_index x + 1) = last_index (log_ st) + 1) as -> by (rewrite <- Hli; apply Z.mod_small; lia).
  set (y := mkEntry _ _ command). set (st1 := PersistState (set_log_ (log_ st ++ [y]) st)).
  assert (same_progress st st1 ∧ log_ st1 = log_ st ++ [y]) as [Hp Hlog].
  { subst st1. unfold PersistState. by destruct (written _ _). }
  match goal with |- commit_inv _ _ (<[_ := (?s, _)]> _) _ _ => set (st2 := s) end.
  assert (log_ st2 = log_ st ++ [y]) as Hlog2 by (subst st2; raft_simpl; exact Hlog).
  assert (grows c (<[l := (st2, e)]> c)) as Hg.
  { eapply grows_insert; [exact Hl|]. cbn [fst]. rewrite Hlog2, last_index_snoc. cbn. lia. }
  destruct (commit_inv_grows l ps c _ ans st st1 HI Hg Hp) as [Ha Hn Hps Hm Hc].
  split; subst st2; raft_simpl; try done. intros p m. rewrite lookup_insert_Some. intros [[<- <-]|[_ Hpm]] H0; [|by apply Hm].
  rewrite Hn. apply reaches_spec. eexists. split; [apply lookup_insert_eq|]. cbn [fst].
  raft_simpl. rewrite Hlog, last_index_snoc. cbn. lia.
Qed.

Lemma response_progress l ps c ans st e from resp w' :
  commit_inv l ps c ans st → c !! l = Some (st, e) → l ∈ ps → wf_node st → (from, resp) ∈ ans →
  HandleAppendEntriesResponse (Some apply) from resp (st, e) = Some w' →
  commit_inv l ps (<[l := w']> c) ans (fst w').
Proof using Type.
  intros HI Hl Hin Hwf Hans Hs.
  assert (∀ w1, same_progress st (fst w1) → log_ (fst w1) = log_ st → commit_inv l ps (<[l := w1]> c) ans (fst w1)) as Hsame.
  { intros w1 Hp Hlog. apply (commit_inv_grows l ps c _ ans st); [done| |done].
    eapply grows_insert; [exact Hl|]. by rewrite Hlog. }
  unfold HandleAppendEntriesResponse in Hs. cbn [fst snd on_node] in Hs.
  destruct (_ <? ar_term resp).
  { injection Hs as <-. apply Hsame; unfold on_node, step_down, PersistState; raft_simpl; by destruct (written _ _). }
  destruct (negb _); [injection Hs as <-; by apply Hsame|].
  destruct (ar_success resp) eqn:Hok.
  - set (u := on_node _ _) in Hs. pose proof HI as [Ha Hn Hps Hm Hc].
    assert (commit_inv l ps (<[l := u]> c) ans (fst u)) as Hu.
    { assert (grows c (<[l := u]> c)) as Hg by by eapply grows_insert.
      destruct (commit_inv_grows l ps c _ ans st st HI Hg ltac:(by split_and!)) as [Ha' Hn' Hps' Hm' Hc'].
      split; subst u; unfold on_node; raft_simpl; try done.
      intros p m. rewrite lookup_insert_Some. intros [[<- <-]|[_ Hpm]] H0; [by apply Hg, Ha|by apply Hm']. }
    assert (wf_node (fst u)) as Hwfu by (destruct Hwf; by split).
    destruct (AdvanceCommitIndex_moves apply (fst u) e Hwfu) as (n & Hn0 & Hor & _ & E0).
    change (fst u, e) with u in E0. rewrite E0 in Hs. apply (inj Some) in Hs as <-.
    assert (<[l := u]> c !! l = Some (fst u, e)) as Hlu by apply lookup_insert_eq.
    match goal with |- commit_inv _ _ (<[_ := ?v]> _) _ _ => set (w' := v) end.
    assert (grows (<[l := u]> c) (<[l := w']> c)) as Hg.
    { rewrite <- (insert_insert_eq c l w' u). by eapply grows_insert. }
    destruct (commit_inv_grows l ps _ _ ans _ (fst u) Hu Hg ltac:(by split_and!)) as [Ha' Hn' Hps' Hm' Hc'].
    split; try done. intros Hpos. change (commit_index_ (fst w')) with n in *.
    destruct Hor as [->|[Hle Hcm]]; [by apply Hc'|].
    apply (on_majority_grows _ _ _ _ Hg). by eapply committable_majority.
  - injection Hs as <-. apply Hsame; unfold on_node; cbn [fst snd]; destruct (subscript _ _); by destruct (_ <? _).
Qed.

(** ** The reign *)

Definition answered_ok (l : bytes) (ps : list bytes) (x : State * Answers) : Prop :=
  ok l (fst x) ∧ ∃ w, fst (fst x) !! l = Some w ∧ commit_inv l ps (fst (fst x)) (snd x) (fst w).

Lemma prefix_last_index L a b :
  dense L → a `prefix_of` b → b `prefix_of` L → a ≠ [] → last_index a <= last_index b.
Proof using Type.
  intros Hd Hab Hb Hne. assert (b ≠ []) as Hneb by (intros ->; by apply prefix_nil_inv in Hab).
  rewrite (dense_last a), (dense_last b) by (eapply dense_prefix; [exact Hd|by try etransitivity|done]).
  apply prefix_length in Hab. unfold zlen. lia.
Qed.

(** A step of one node that changes neither its log nor what a leader knows. *)
Lemma answered_member l ps c sent ans id w w' sent' :
  answered_ok l ps (c, sent, ans) → c !! id = Some w → ok l (<[id := w']> c, sent') →
  log_ (fst w') = log_ (fst w) → same_progress (fst w) (fst w') → answered_ok l ps (<[id := w']> c, sent', ans).
Proof using Type.
  intros (Hok & wl & Hwl & HI) Hw Hok' Hlog Hp. split; [done|]. cbn [fst snd] in *.
  assert (grows c (<[id := w']> c)) as Hg by (eapply grows_insert; [exact Hw|]; by rewrite Hlog).
  destruct (decide (id = l)) as [->|Hne].
  - exists w'. split; [apply lookup_insert_eq|]. rewrite Hw in Hwl. injection Hwl as <-.
    by apply (commit_inv_grows l ps c _ ans (fst w)).
  - exists wl. split; [by rewrite lookup_insert_ne|]. by apply (commit_inv_grows l ps c _ ans (fst wl)).
Qed.

Lemma quiet_answered_ok l ps x y ans :
  answered_ok l ps (x, ans) → quiet l x y → answered_ok l ps (y, ans).
Proof using Type.
  intros Ha Hs. pose proof Ha as (Hok & wl & Hwl & HI). cbn [fst snd] in *.
  pose proof (quiet_step_ok now uniform_int apply s0 l x y Hok Hs) as Hok'.
  destruct Hs as [c sent w next Hw Hn|c sent st e cmd st' r Hw Hlt Hs
    |c sent id w from req w' Hw Hs|c sent id st e Hw|c sent id w Hw|c sent id st e e' Hw Hsm Hv].
  - split; [done|]. by exists wl.
  - split; [done|]. cbn [fst snd] in *. exists (st', e). split; [apply lookup_insert_eq|].
    rewrite Hw in Hwl. injection Hwl as <-.
    destruct (reign_ok_replicas uniform_int apply s0 _ _ _ _ _ _ Hok Hw Hw) as [[Hwf _] _].
    by eapply propose_progress.
  - eapply answered_member; [exact Ha|exact Hw|done| |by eapply HandleRequestVote_progress].
    by destruct (HandleRequestVote_log _ _ _ _ _ _ Hs) as [? _].
  - eapply answered_member; [exact Ha|exact Hw|done|..]; unfold BecomeCandidate, PersistState; cbn [fst]; by destruct (written _ _).
  - eapply answered_member; [exact Ha|exact Hw|done| |apply ResetElectionTimer_progress].
    by destruct (ResetElectionTimer_log now uniform_int w) as [? _].
  - by eapply answered_member; [exact Ha|exact Hw|done|..].
Qed.

Lemma answered_step_ok l ps x y :
  l ∈ ps → answered_ok l ps x → answered_step l x y → answered_ok l ps y.
Proof using Type.
  intros Hin Ha Hs. pose proof Ha as (Hok & wl & Hwl & HI).
  pose proof (reign_step_ok now uniform_int apply s0 l _ _ Hok (answered_reign_step l x y Hs)) as Hok'.
  destruct Hs as [c sent ans id w from req w' Hne Hw Hreq Hs Hrd|c sent ans w from resp w' Hw Hans Hs Hrd|x y ans Hs];
    [| |by eapply quiet_answered_ok]; cbn [fst snd] in *; (split; [done|]); cbn [fst snd].
  - pose proof Hok as (wl0 & Hwl0 & Hd & Hall & Hsent). cbn [fst snd] in *. rewrite Hwl in Hwl0. injection Hwl0 as <-.
    destruct (replica_append now uniform_int apply s0 _ _ w from req w' (Hall id w Hw) Hd) as (Hr & Hpre & Hresp);
      [apply (wf_commit _ (rp_wf _ _ _ _ _ _ (Hall l wl Hwl)))|by apply Hsent|done|done|].
    assert (grows c (<[id := w']> c)) as Hg.
    { eapply grows_insert; [exact Hw|]. eapply prefix_last_index; [exact Hd|exact Hpre|apply (rp_log _ _ _ _ _ _ Hr)|].
      apply wf_log_nonempty, (rp_wf _ _ _ _ _ _ (Hall id w Hw)). }
    exists wl. rewrite lookup_insert_ne by done. split; [done|].
    destruct (commit_inv_grows l ps c _ ans _ (fst wl) HI Hg ltac:(by split_and!)) as [Hans Hn Hps Hm Hc].
    split; try done. intros p resp [[= -> ->]|Hp]%elem_of_cons Hs1; [|by apply Hans].
    apply reaches_spec. exists w'. split; [apply lookup_insert_eq|]. rewrite Hresp by done. lia.
  - rewrite Hwl in Hw. injection Hw as <-. destruct wl as [st e]. exists w'. split; [apply lookup_insert_eq|].
    destruct (reign_ok_replicas uniform_int apply s0 _ _ _ _ _ _ Hok Hwl Hwl) as [_ Hr].
    eapply response_progress; try done. apply (rp_wf _ _ _ _ _ _ Hr).
Qed.

Lemma answered_run_ok l ps x y :
  l ∈ ps → answered_ok l ps x → rtc (answered_step l) x y → answered_ok l ps y.
Proof using Type. intros Hin Hok Hs. induction Hs as [|x y z H1 _ IH]; [done|]. by apply IH, (answered_step_ok l ps x). Qed.

(** The leader of the peers [ps], when it knows of no entry of theirs. *)
Definition leads_peers (l : bytes) (ps : list bytes) (st : RaftNode) : Prop :=
  my_id_ st = l ∧ peers (config_ st) = ps ∧ ∀ p m, match_index_ st !! p = Some m → m <= 0.

(** A node holds [es] at the head of its log. *)
Definition holds (c : Members) (es : list LogEntry) (p : bytes) : Prop :=
  match c !! p with Some w => es `prefix_of` log_ (fst w) | None => False end.
#[export] Instance holds_dec c es p : Decision (holds c es p).
Proof using Type. unfold holds. destruct (c !! p); apply _. Defined.

(** C3: a commit position is a promise.  In a reign whose leader handles answers of
    its followers, late, repeated, out of order or never, whatever entries a node
    takes as committed are, as that node has them, at the head of the logs of a
    majority of the peers. *)
Theorem committed_on_majority l ps c0 w0 c sent ans id w :
  enthroned uniform_int apply s0 l c0 → l ∈ ps → c0 !! l = Some w0 → leads_peers l ps (fst w0) →
  rtc (answered_step l) (c0, [], []) (c, sent, ans) → c !! id = Some w → 0 < commit_index_ (fst w) →
  zlen ps < 2 * zlen (filter (holds c (upto (commit_index_ (fst w)) (log_ (fst w)))) ps).
Proof using Type.
  intros H0 Hin Hw0 (Hn & Hps & Hm) Hs Hw Hpos.
  assert (answered_ok l ps (c0, [], [])) as Hok0.
  { split; [by apply enthroned_ok|]. exists w0. split; [done|]. split; cbn [fst snd]; try done.
    - by intros p resp ?%elem_of_nil.
    - intros p m Hpm Hlt. specialize (Hm p m Hpm). lia.
    - destruct (proj2 H0 l w0 Hw0) as (_ & -> & _). lia. }
  destruct (answered_run_ok _ _ _ _ Hin Hok0 Hs) as (Hok & wl & Hwl & HI). cbn [fst snd] in *.
  destruct (reign_ok_replicas uniform_int apply s0 _ _ _ _ _ _ Hok Hwl Hw) as [Hd Hr].
  pose proof (rp_bound _ _ _ _ _ _ Hr). pose proof (ci_commit _ _ _ _ _ HI ltac:(lia)) as Hmaj. unfold on_majority in Hmaj.
  enough (zlen (filter (reaches c (commit_index_ (fst wl))) ps) <=
    zlen (filter (holds c (upto (commit_index_ (fst w)) (log_ (fst w)))) ps)) by lia.
  apply filter_zlen_le. intros p (u & Hu & Hlu)%reaches_spec. unfold holds. rewrite Hu.
  destruct (reign_ok_replicas uniform_int apply s0 _ _ _ _ _ _ Hok Hwl Hu) as [_ Hru].
  pose proof (rp_commit _ _ _ _ _ _ Hr) as Hcl. destruct Hr as [Hwf _ _ Hl _ _ _ _], Hru as [Hwfu _ _ Hlog _ _ _ _].
  rewrite (upto_extended _ (log_ (fst wl)) (log_ (fst w))), <- (upto_extended _ (log_ (fst wl)) (log_ (fst u)));
    [apply upto_prefix, Hwfu|apply Hd|done|apply wf_log_nonempty, Hwfu|lia|apply Hd|done|apply wf_log_nonempty, Hwf|done].
Qed.
End Commit.

(** * A concrete reign *)

Abbreviation demo_answered := (answered_step RaftReplication.tick RaftReplication.draw record_apply (str "n1")).
Definition answer_1 : bytes * AppendEntriesResponse := (str "n2", ae_resp_ (fst subject_1)).

Lemma demo_answered_1 : demo_answered (reign_1, [order_1], []) (reign_2, [order_1], [answer_1]).
Proof.
  apply (as_append _ _ _ _ _ _ _ (str "n2") subject (str "n1") order_1);
    [by apply (bool_decide_unpack _); vm_compute|by vm_compute|by left|computed|done].
Qed.

Lemma demo_answered_2 : demo_answered (reign_2, [order_1], [answer_1]) (reign_3, [order_1], [answer_1]).
Proof.
  apply (as_response _ _ _ _ _ _ _ throne_1 (str "n2") (ae_resp_ (fst subject_1))); [by vm_compute|by left|computed|done].
Qed.

Lemma demo_answered_run : rtc demo_answered (reign_0, [], []) (reign_3, [order_1], [answer_1]).
Proof.
  eapply rtc_l; [apply as_quiet, demo_proposal|].
  eapply rtc_l; [apply as_quiet, demo_sending|].
  eapply rtc_l; [exact demo_answered_1|]. eapply rtc_l; [exact demo_answered_2|apply rtc_refl].
Qed.

Lemma demo_leads : leads_peers (str "n1") demo_peers (fst throne).
Proof.
  split_and!; [by vm_compute|by vm_compute|].
  assert (map_Forall (λ (_ : bytes) (m : Z), m <= 0) (match_index_ (fst throne))) as HF
    by (apply (bool_decide_unpack _); by vm_compute).
  exact HF.
Qed.

Lemma committed_on_majority_witness :
  commit_index_ (fst throne_2) = 1 ∧
  zlen demo_peers < 2 * zlen (filter (holds reign_3 (upto (commit_index_ (fst throne_2)) (log_ (fst throne_2)))) demo_peers).
Proof.
  split; [by vm_compute|].
  assert (0 < commit_index_ (fst throne_2)) as Hpos by by vm_compute.
  assert (str "n1" ∈ demo_peers) as Hin by by left.
  exact (committed_on_majority RaftReplication.tick RaftReplication.draw record_apply (SM := demo_machine) []
    (str "n1") demo_peers reign_0 throne reign_3 [order_1] [answer_1] (str "n1") throne_2
    demo_enthroned Hin (lookup_insert_eq _ _ _) demo_leads demo_answered_run (lookup_insert_eq _ _ _) Hpos).
Defined.
