(* ===== verification/RaftScenarios.v ===== *)
(** What goes wrong between nodes: executions of the node's own methods, with the
    messages delivered synchronously as [RaftRPC] does, that end in states Raft
    excludes. *)
From S2P Require Import Prelude Coding Raft RaftRpc RaftDurable RaftReplication.

(** * A synchronous cluster

    A node's world: what its state machine was given, the other nodes with what
    theirs were given, and which of them can be reached. *)
Record Net := mkNet {
  applied : list (Z * bytes);
  others : gmap bytes (RaftNode * list (Z * bytes));
  reachable : list bytes;
}.

Definition net_now (_ : Net) : Z := 0.
Definition net_random (a _ : Z) (e : Net) : Z * Net := (a, e).
Definition net_apply (i : Z) (c : bytes) (e : Net) : Net :=
  mkNet (applied e ++ [(i, c)]) (others e) (reachable e).

(** The request served by the peer: its response. *)
Definition serve (msg : RaftMessage) (w : RaftNode * list (Z * bytes)) :
    option (RaftNode * list (Z * bytes) * RaftMessage) :=
  match msg with
  | REQUEST_VOTE req =>
      w ← HandleRequestVote tick draw (rv_candidate_id req) req w;
      Some (w, REQUEST_VOTE_RESPONSE (vote_resp_ (fst w)))
  | APPEND_ENTRIES req =>
      w ← HandleAppendEntries tick draw (Some record_apply) (ae_leader_id req) req w;
      Some (w, APPEND_ENTRIES_RESPONSE (ae_resp_ (fst w)))
  | _ => None
  end.

(** [send_rpc_cb_]: request, response and the response's handler in one call. *)
Fixpoint deliver (depth : nat) (peer : bytes) (msg : RaftMessage) (w : RaftNode * Net) :
    option (RaftNode * Net) :=
  match depth with
  | O => None
  | S depth =>
      let '(st, e) := w in
      if bool_decide (peer ∈ reachable e) then
        wp ← others e !! peer;
        '(wp, reply) ← serve msg wp;
        let w := (st, mkNet (applied e) (<[peer := wp]> (others e)) (reachable e)) in
        match reply with
        | REQUEST_VOTE_RESPONSE r =>
            HandleRequestVoteResponse net_now net_random (deliver depth) peer r w
        | APPEND_ENTRIES_RESPONSE r => HandleAppendEntriesResponse (Some net_apply) peer r w
        | _ => Some w
        end
      else Some w
  end.

Abbreviation Cluster := (gmap bytes (RaftNode * list (Z * bytes))).

(** Node [me] acts while only [reach] can be reached. *)
Definition acts (me : bytes) (reach : list bytes) (f : RaftNode * Net → option (RaftNode * Net))
    (c : Cluster) : option Cluster :=
  '(st, ap) ← c !! me;
  '(st, e) ← f (st, mkNet ap (delete me c) reach);
  Some (<[me := (st, applied e)]> (others e)).

Definition timeout : RaftNode * Net → option (RaftNode * Net) :=
  OnElectionTimeout net_now net_random (deliver 2).

Definition propose (command : bytes) (w : RaftNode * Net) : option (RaftNode * Net) :=
  fst <$> Propose (Some net_apply) (deliver 2) command [] w.

Definition member (me : bytes) : RaftNode * list (Z * bytes) :=
  (RaftNode_new (mkConfig me [str "a"; str "b"; str "c"] (str "/raft") 3000 500 10000)
     Whole None None, []).

Definition fresh_cluster : Cluster :=
  {[ str "a" := member (str "a"); str "b" := member (str "b"); str "c" := member (str "c") ]}.

(** * Two state machines diverge

    [a] leads term 1 and accepts [x] while it is cut off; [b] leads term 2 and
    commits [y] with [c]; the next heartbeat that reaches [a] carries [y] and the
    commit position, and [a] applies [x]. *)
Definition divergence (x y : bytes) (c : Cluster) : option Cluster :=
  c ← acts (str "a") [str "b"; str "c"] timeout c;
  c ← acts (str "a") [] (propose x) c;
  c ← acts (str "b") [str "c"] timeout c;
  c ← acts (str "b") [str "c"] (propose y) c;
  acts (str "b") [str "a"] timeout c.

(** C29: state machine safety does not hold: in a cluster of three nodes with no
    crash, a partition that heals is enough for two nodes to apply different
    commands at the same index, because a follower acknowledges and commits at an
    index where it holds another entry. *)
Theorem raft_state_machines_diverge :
  ∃ c sa sb, divergence (str "x") (str "y") fresh_cluster = Some c ∧
    c !! str "a" = Some (sa, [(1, str "x")]) ∧ c !! str "b" = Some (sb, [(1, str "y")]) ∧
    GetLogEntry sa 1 = Some (mkEntry 1 1 (str "x")) ∧
    GetLogEntry sb 1 = Some (mkEntry 2 1 (str "y")) ∧
    commit_index_ sa = 1 ∧ commit_index_ sb = 1 ∧ match_index_ sb !! str "a" = Some 1.
Proof.
  assert ((c ← divergence (str "x") (str "y") fresh_cluster;
           pa ← c !! str "a"; pb ← c !! str "b";
           Some ((snd pa, GetLogEntry (fst pa) 1, commit_index_ (fst pa)),
             (snd pb, GetLogEntry (fst pb) 1, commit_index_ (fst pb),
              match_index_ (fst pb) !! str "a"))) =
    Some (([(1, str "x")], Some (mkEntry 1 1 (str "x")), 1),
      ([(1, str "y")], Some (mkEntry 2 1 (str "y")), 1, Some 1))) as H
    by (vm_compute; reflexivity).
  apply bind_Some in H as (c & Hc & H). apply bind_Some in H as ([sa la] & Ha & H).
  apply bind_Some in H as ([sb lb] & Hb & H). cbn [fst snd] in H.
  apply (inj Some) in H. apply pair_equal_spec in H as [Ea Eb].
  injection Ea as -> Ga Ca. injection Eb as -> Gb Cb Mb.
  exists c, sa, sb. exact (conj Hc (conj Ha (conj Hb (conj Ga (conj Gb (conj Ca (conj Cb Mb))))))).
Qed.

(** * A deposed leader keeps broadcasting *)

(** A leader that learns of a newer term from the answer of one peer still
    sends the rest of its broadcast: the next peer receives an [AppendEntries] of
    that newer term, in which the sender is a follower and was never elected. *)
Theorem heartbeats_outlive_leadership {E} (send : bytes → RaftMessage → RaftNode * E → option (RaftNode * E))
    st e p q term :
  state_ st = LEADER → peers (config_ st) = [p; q] → p ≠ my_id_ st → q ≠ my_id_ st →
  (∀ m st' e', ∃ e'', send p m (st', e') = Some (step_down term st', e'')) →
  ∃ w req, SendHeartbeats send (st, e) = (w ← send q (APPEND_ENTRIES req) w; Some w) ∧
    state_ (fst w) = FOLLOWER ∧ current_term_ (fst w) = term ∧
    ae_term req = term ∧ ae_leader_id req = my_id_ st.
Proof.
  intros Hst Hp Hpm Hqm Hsend. unfold SendHeartbeats. cbn [fst].
  rewrite bool_decide_eq_true_2 by done. rewrite Hp. cbn [SendHeartbeats_loop fst].
  rewrite bool_decide_eq_false_2 by done. destruct (subscript p (next_index_ st)) as [n1 i1].
  unfold on_node. cbn [fst snd].
  match goal with |- context [send p ?m (?s, ?e)] => destruct (Hsend m s e) as [e1 ->] end.
  cbn [mbind option_bind fst]. unfold step_down.
  match goal with |- context [PersistState ?s] => destruct (PersistState_file s) as [f ->] end.
  raft_simpl. rewrite bool_decide_eq_false_2 by done.
  destruct (subscript q n1) as [n2 i2]. raft_simpl.
  eexists _, _. split; [reflexivity|]. by raft_simpl.
Qed.

(** The callback of the witness: every peer is in term 9. *)
Definition newer_term (p : bytes) (_ : RaftMessage) (w : RaftNode * unit) : option (RaftNode * unit) :=
  Some (step_down 9 (fst w), snd w).
Definition two_peers : RaftNode :=
  set_state_ LEADER (RaftNode_new (mkConfig (str "a") [str "b"; str "c"] (str "/raft") 3000 500 10000)
    Whole None None).

Lemma heartbeats_outlive_leadership_witness :
  ∃ w req, SendHeartbeats newer_term (two_peers, ()) =
      (w ← newer_term (str "c") (APPEND_ENTRIES req) w; Some w) ∧
    state_ (fst w) = FOLLOWER ∧ current_term_ (fst w) = 9 ∧
    ae_term req = 9 ∧ ae_leader_id req = my_id_ two_peers.
Proof.
  apply (heartbeats_outlive_leadership newer_term two_peers () (str "b") (str "c") 9);
    [done|done|by vm_compute|by vm_compute|by intros ? ? []; eexists].
Defined.

(** The effect on the cluster: [c] was elected in term 2 by [b]; the last
    broadcast of the deposed [a] makes [c] a follower of [a], which is a follower
    too. *)
Definition usurped (c : Cluster) : option Cluster :=
  c ← acts (str "a") [str "b"; str "c"] timeout c;
  c ← acts (str "c") [str "b"] timeout c;
  acts (str "a") [str "b"; str "c"] timeout c.

Example heartbeats_depose_the_elected_leader :
  (c ← acts (str "a") [str "b"; str "c"] timeout fresh_cluster;
   c ← acts (str "c") [str "b"] timeout c;
   '(sc, _) ← c !! str "c"; Some (state_ sc, current_term_ sc)) = Some (LEADER, 2) ∧
  (c ← usurped fresh_cluster;
   '(sa, _) ← c !! str "a"; '(sc, _) ← c !! str "c";
   Some ((state_ sa, current_term_ sa), (state_ sc, current_term_ sc, leader_id_ sc))) =
    Some ((FOLLOWER, 2), (FOLLOWER, 2, str "a")).
Proof. split; vm_compute; reflexivity. Qed.

(** * After a snapshot *)

(** Once a snapshot has emptied the log, the next command a leader accepts
    gets index 1 again: [Propose] reports it committed at once, and it is neither
    replicated by a majority nor ever applied. *)
Theorem propose_after_snapshot_is_lost {E} (apply : Z → bytes → E → E) command st :
  wf_node st → state_ st = LEADER → log_ st = [dummy_entry] → 1 <= commit_index_ st →
  ∃ st' r, Propose_append command st = Some (st', r) ∧ pr_index r = Some 1 ∧
    Propose_poll r st' = Some (mkResult (Some 1) true true []) ∧
    ∀ e, AdvanceCommitIndex (Some apply) (st', e) = Some (st', e).
Proof.
  intros [_ Hc _] Hst Hl Hc1. unfold Propose_append, log_back. rewrite Hst, Hl.
  rewrite bool_decide_eq_true_2 by done. cbn [last mbind option_bind le_index dummy_entry].
  change (u64 (0 + 1)) with 1.
  match goal with |- context [PersistState ?s] => destruct (PersistState_file s) as [f ->] end.
  raft_simpl. eexists _, _. split; [reflexivity|]. split; [done|]. split.
  - unfold Propose_poll. raft_simpl. cbn [pr_index default from_option pr_is_leader pr_leader_id].
    simpl. by destruct (Z.leb_spec 1 (commit_index_ st)); [|lia].
  - intros e. unfold AdvanceCommitIndex, log_back. raft_simpl.
    cbn [app last mbind option_bind le_index AdvanceCommitIndex_loop]. raft_simpl.
    by destruct (Z.ltb_spec (commit_index_ st) 1); [lia|].
Qed.

Definition after_snapshot : RaftNode :=
  set_snapshot_last_index_ 7 (set_last_applied_ 7 (set_commit_index_ 7
    (set_state_ LEADER (set_current_term_ 3 demo_node)))).

Lemma propose_after_snapshot_is_lost_witness :
  ∃ st' r, Propose_append (str "mkdir") after_snapshot = Some (st', r) ∧ pr_index r = Some 1 ∧
    Propose_poll r st' = Some (mkResult (Some 1) true true []) ∧
    ∀ e, AdvanceCommitIndex (Some record_apply) (st', e) = Some (st', e).
Proof.
  apply (propose_after_snapshot_is_lost record_apply (str "mkdir") after_snapshot);
    [split; [solve_log|by vm_compute|done]|done|done|by vm_compute].
Defined.

(** A node whose log was emptied by a snapshot votes for a candidate that has
    no entry at all: the comparison of the logs leaves the snapshot out. *)
Theorem vote_ignores_snapshot {E} (now : E → Z) (uniform_int : Z → Z → E → Z * E)
    from candidate term st e :
  log_ st = [dummy_entry] → current_term_ st < term →
  ∃ w', HandleRequestVote now uniform_int from (mkRequestVote term candidate 0 0) (st, e) = Some w' ∧
    vr_granted (vote_resp_ (fst w')) = true.
Proof.
  intros Hl Ht.
  destruct (HandleRequestVote_cases now uniform_int from (mkRequestVote term candidate 0 0) st e
    dummy_entry) as (w' & Hw & _ & _ & Hg & _); [unfold log_back; by rewrite Hl|].
  exists w'. split; [done|].
  apply Hg. cbn [rv_term rv_candidate_id]. split_and!; [lia|done|by left].
Qed.

Lemma vote_ignores_snapshot_witness :
  snapshot_last_index_ after_snapshot = 7 ∧
  ∃ w', HandleRequestVote tick draw (str "n2") (mkRequestVote 4 (str "n2") 0 0) (after_snapshot, []) =
      Some w' ∧
    vr_granted (vote_resp_ (fst w')) = true.
Proof.
  split; [done|]. apply (vote_ignores_snapshot tick draw (str "n2") (str "n2") 4 after_snapshot []);
    by vm_compute.
Defined.
