(* ===== verification/RaftLocks.v ===== *)
(** The mutexes of a Raft node: src/raft/raft_node.cc.

    [Raft] models each method as if it had the mutexes it asks for.  Here a method is
    the order in which it takes and releases them, and the threads of a node (the
    timer, the loops that serve peers and clients) interleave at these points.
    [propose_mutex_] is left out: only [Propose] takes it, while it holds nothing. *)
From S2P Require Import Prelude.

(** * Threads and mutexes *)

Inductive Mutex := timer_mutex_ | state_mutex_.

#[export] Instance Mutex_eq_dec : EqDecision Mutex.
Proof. solve_decision. Defined.

(** [state_mutex_] is a [std::recursive_mutex]. *)
Definition recursive (m : Mutex) : bool := bool_decide (m = state_mutex_).

Inductive LockOp := Lock (m : Mutex) | Unlock (m : Mutex).

(** The scope of a [std::lock_guard]. *)
Definition guarded (m : Mutex) (body : list LockOp) : list LockOp := Lock m :: body ++ [Unlock m].

(** What a thread holds, once per acquisition, and what it has still to do. *)
Record LockThread := mkLocker { holding : list Mutex; todo : list LockOp }.

Fixpoint release (m : Mutex) (h : list Mutex) : list Mutex :=
  match h with
  | [] => []
  | x :: h => if bool_decide (x = m) then h else x :: release m h
  end.

(** Some thread other than [i] holds [m]. *)
Definition taken_from (i : nat) (m : Mutex) (ts : list LockThread) : bool :=
  existsb (λ '(j, t), negb (Nat.eqb i j) && bool_decide (m ∈ holding t)) (imap pair ts).

(** The next operation of thread [i]; [None]: it waits, or has nothing to do. *)
Definition lock_step (i : nat) (ts : list LockThread) : option (list LockThread) :=
  t ← ts !! i;
  match todo t with
  | [] => None
  | Lock m :: ops =>
      if taken_from i m ts || (bool_decide (m ∈ holding t) && negb (recursive m)) then None
      else Some (<[i := mkLocker (m :: holding t) ops]> ts)
  | Unlock m :: ops => Some (<[i := mkLocker (release m (holding t)) ops]> ts)
  end.

Definition locks_step (ts ts' : list LockThread) : Prop := ∃ i, lock_step i ts = Some ts'.

(** Nobody can go on, although somebody has something to do. *)
Definition deadlocked (ts : list LockThread) : Prop :=
  (∀ i, lock_step i ts = None) ∧ ∃ t, t ∈ ts ∧ todo t ≠ [].

Definition starts (ops : list LockOp) : LockThread := mkLocker [] ops.

(** * The methods *)

Definition ResetElectionTimer_locks : list LockOp := guarded timer_mutex_ (guarded state_mutex_ []).

(** The handlers of requests; the flag says whether the branch taken resets the timer. *)
Definition HandleRequestVote_locks (grants : bool) : list LockOp :=
  guarded state_mutex_ (if grants then ResetElectionTimer_locks else []).
Definition HandleAppendEntries_locks (term_ok : bool) : list LockOp :=
  guarded state_mutex_ (if term_ok then ResetElectionTimer_locks else []).
Definition HandleInstallSnapshot_locks (term_ok : bool) : list LockOp :=
  guarded state_mutex_ (if term_ok then ResetElectionTimer_locks else []).

(** [send_rpc_cb_] handles the answer before it returns: [answers] says to how many
    heartbeats an answer came. *)
Definition HandleAppendEntriesResponse_locks : list LockOp := guarded state_mutex_ [].
Definition SendHeartbeats_locks (answers : nat) : list LockOp :=
  guarded state_mutex_ (mjoin (replicate answers HandleAppendEntriesResponse_locks)).
Definition BecomeLeader_locks (answers : nat) : list LockOp :=
  guarded state_mutex_ [] ++ SendHeartbeats_locks answers ++ ResetElectionTimer_locks.

(** An answer to a request for a vote: the one that makes a majority elects. *)
Definition HandleRequestVoteResponse_locks (elects : option nat) : list LockOp :=
  guarded state_mutex_ (match elects with Some answers => BecomeLeader_locks answers | None => [] end).

Definition BecomeFollower_locks : list LockOp := guarded state_mutex_ [].
Definition BecomeCandidate_locks : list LockOp := guarded state_mutex_ [].
Definition StartElection_locks (votes : list (option nat)) (leads : option nat) : list LockOp :=
  guarded state_mutex_ [] ++ mjoin (map HandleRequestVoteResponse_locks votes) ++ guarded state_mutex_ [] ++
  match leads with Some answers => BecomeLeader_locks answers | None => [] end.

Inductive Role := RLeader (answers : nat) | RCandidate (votes : list (option nat)) (leads : option nat).

Definition OnElectionTimeout_work (r : Role) : list LockOp :=
  guarded state_mutex_ [] ++
  match r with
  | RLeader answers => SendHeartbeats_locks answers
  | RCandidate votes leads => BecomeCandidate_locks ++ StartElection_locks votes leads
  end.
Definition OnElectionTimeout_locks (r : Role) : list LockOp :=
  OnElectionTimeout_work r ++ ResetElectionTimer_locks.

(** A turn of [TimerLoop] in which the timer fires. *)
Definition TimerLoop_locks (r : Role) : list LockOp :=
  guarded timer_mutex_ [] ++ OnElectionTimeout_locks r.

(** The critical sections of [Propose] up to its wait, and of a query. *)
Definition Propose_locks (answers : nat) : list LockOp :=
  guarded state_mutex_ [] ++ guarded state_mutex_ [] ++ SendHeartbeats_locks answers.
Definition Query_locks : list LockOp := guarded state_mutex_ [].

(** * The timer against a handler *)

(** A list of operations that a thread gets through while the other holds nothing. *)
Definition passes (ops : list LockOp) : Prop :=
  ∀ h rest u, holding u = [] → timer_mutex_ ∉ h →
    rtc locks_step [mkLocker h (ops ++ rest); u] [mkLocker h rest; u].

Lemma step_lock m h ops u :
  holding u = [] → (m ∈ h → recursive m = true) →
  locks_step [mkLocker h (Lock m :: ops); u] [mkLocker (m :: h) ops; u].
Proof.
  intros Hu Hm. exists 0%nat. destruct u as [hu tu]. cbn in Hu. subst hu. unfold lock_step, taken_from. cbn.
  destruct (bool_decide_reflect (m ∈ h)) as [Hin|]; [by rewrite Hm|done].
Qed.

Lemma step_unlock m h ops u :
  locks_step [mkLocker (m :: h) (Unlock m :: ops); u] [mkLocker h ops; u].
Proof. exists 0%nat. unfold lock_step. cbn. by rewrite bool_decide_eq_true_2. Qed.

Lemma passes_app a b : passes a → passes b → passes (a ++ b).
Proof.
  intros Ha Hb h rest u Hu Hh. rewrite <- app_assoc. etransitivity; [by apply Ha|by apply Hb].
Qed.

Lemma passes_nil : passes [].
Proof. intros h rest u _ _. apply rtc_refl. Qed.

Lemma passes_join (ls : list (list LockOp)) : Forall passes ls → passes (mjoin ls).
Proof. induction 1; [apply passes_nil|by apply passes_app]. Qed.

Lemma passes_state body : passes body → passes (guarded state_mutex_ body).
Proof.
  intros Hb h rest u Hu Hh. unfold guarded. cbn [app]. rewrite <- app_assoc.
  eapply rtc_l; [by apply step_lock|]. etransitivity; [apply Hb; [done|]|].
  - by intros [?|?]%elem_of_cons.
  - eapply rtc_l; [apply step_unlock|apply rtc_refl].
Qed.

Lemma passes_timer : passes (guarded timer_mutex_ []).
Proof.
  intros h rest u Hu Hh. eapply rtc_l; [by apply step_lock|]. eapply rtc_l; [apply step_unlock|apply rtc_refl].
Qed.

Lemma passes_reset : passes ResetElectionTimer_locks.
Proof.
  intros h rest u Hu Hh. eapply rtc_l; [by apply step_lock|]. eapply rtc_l; [by apply step_lock|].
  eapply rtc_l; [apply step_unlock|]. eapply rtc_l; [apply step_unlock|apply rtc_refl].
Qed.

Create HintDb locks.
#[local] Hint Resolve passes_app passes_nil passes_join passes_state passes_timer passes_reset : locks.

Lemma passes_heartbeats n : passes (SendHeartbeats_locks n).
Proof. apply passes_state, passes_join, Forall_replicate. apply passes_state, passes_nil. Qed.

Lemma passes_leader n : passes (BecomeLeader_locks n).
Proof. unfold BecomeLeader_locks. auto using passes_heartbeats with locks. Qed.

Lemma passes_work r : passes (OnElectionTimeout_work r).
Proof.
  assert (∀ o, passes match o with Some n => BecomeLeader_locks n | None => [] end) as Ho.
  { intros [n|]; auto using passes_leader with locks. }
  unfold OnElectionTimeout_work. destruct r as [n|votes leads]; [auto using passes_heartbeats with locks|].
  unfold StartElection_locks, BecomeCandidate_locks. repeat apply passes_app; auto with locks.
  apply passes_join, Forall_fmap, Forall_true. intros o. apply passes_state, Ho.
Qed.

(** C26: every turn of the timer that fires can end for ever, and with it the whole node:
    [ResetElectionTimer] takes [timer_mutex_] and then [state_mutex_], whereas the
    handlers of requests hold [state_mutex_] when they call it.  Whatever the turn did
    before, and whichever of the handlers runs beside it, the two can meet so that
    each waits for the mutex the other holds. *)
Theorem election_timer_deadlock r h :
  h ∈ [HandleRequestVote_locks true; HandleAppendEntries_locks true; HandleInstallSnapshot_locks true] →
  ∃ ts, rtc locks_step [starts (TimerLoop_locks r); starts h] ts ∧ deadlocked ts ∧
    Forall (λ t, todo t ≠ []) ts.
Proof.
  intros Hh. assert (h = guarded state_mutex_ ResetElectionTimer_locks) as ->.
  { repeat (apply elem_of_cons in Hh as [->|Hh]; [done|]). by apply elem_of_nil in Hh. }
  eexists. split; [|split].
  - transitivity [starts ResetElectionTimer_locks; starts (guarded state_mutex_ ResetElectionTimer_locks)].
    { unfold TimerLoop_locks, OnElectionTimeout_locks. rewrite app_assoc.
      apply (passes_app _ _ passes_timer (passes_work r) [] ResetElectionTimer_locks (starts _));
        [done|by intros ?%elem_of_nil]. }
    eapply rtc_l; [apply (step_lock timer_mutex_ [] [Lock state_mutex_; Unlock state_mutex_; Unlock timer_mutex_] (starts _));
      [done|by intros ?%elem_of_nil]|].
    eapply rtc_l; [exists 1%nat; reflexivity|apply rtc_refl].
  - split; [by intros [|[|i]]|]. eexists. split; [by left|done].
  - by repeat constructor.
Qed.

(** * Without the timer *)

(** What a thread may still do with what it holds: it takes [timer_mutex_] only with
    [state_mutex_], gives back what it took, and ends with nothing. *)
Definition held_ok (h : list Mutex) : Prop := timer_mutex_ ∈ h → state_mutex_ ∈ h.

Fixpoint nested (h : list Mutex) (ops : list LockOp) (h' : list Mutex) : Prop :=
  held_ok h ∧
  match ops with
  | [] => h = h'
  | Lock m :: ops => (m = timer_mutex_ → state_mutex_ ∈ h ∧ timer_mutex_ ∉ h) ∧ nested (m :: h) ops h'
  | Unlock m :: ops => m ∈ h ∧ nested (release m h) ops h'
  end.

Lemma nested_app h a b h1 h2 : nested h a h1 → nested h1 b h2 → nested h (a ++ b) h2.
Proof.
  revert h. induction a as [|[m|m] a IH]; intros h [Hh Ha] Hb; cbn [app]; [by subst|..]; split; try done;
    destruct Ha as [? Ha]; (split; [done|by apply IH]).
Qed.

(** With [state_mutex_] and not [timer_mutex_], and without both. *)
Definition safe_inside (ops : list LockOp) : Prop :=
  ∀ h, state_mutex_ ∈ h → timer_mutex_ ∉ h → nested h ops h.
Definition safe (ops : list LockOp) : Prop := ∀ h, timer_mutex_ ∉ h → nested h ops h.

Lemma held_free h : timer_mutex_ ∉ h → held_ok h.
Proof. by intros ? ?. Qed.
Lemma held_with h : state_mutex_ ∈ h → held_ok h.
Proof. by intros ? ?. Qed.
#[local] Hint Resolve held_free held_with : locks.

Lemma safe_is_inside ops : safe ops → safe_inside ops.
Proof. intros Hs h _. apply Hs. Qed.

Lemma safe_guarded body : safe_inside body → safe (guarded state_mutex_ body).
Proof.
  intros Hb h Hh. split; [auto with locks|]. split; [done|]. apply (nested_app _ _ _ (state_mutex_ :: h)).
  - apply Hb; [by left|]. by intros [?|?]%elem_of_cons.
  - split; [apply held_with; by left|]. split; [by left|]. split; [auto with locks|done].
Qed.

Lemma safe_nil : safe [].
Proof. intros h Hh. split; auto with locks. Qed.

Lemma safe_app a b : safe a → safe b → safe (a ++ b).
Proof. intros Ha Hb h Hh. by eapply nested_app; [apply Ha|apply Hb]. Qed.

Lemma safe_inside_app a b : safe_inside a → safe_inside b → safe_inside (a ++ b).
Proof. intros Ha Hb h Hs Hh. by eapply nested_app; [apply Ha|apply Hb]. Qed.

Lemma safe_join (ls : list (list LockOp)) : Forall safe ls → safe (mjoin ls).
Proof. induction 1; [apply safe_nil|by apply safe_app]. Qed.

Lemma reset_inside : safe_inside ResetElectionTimer_locks.
Proof.
  intros h Hs Hh. cbn.
  split_and!; try done; repeat first [apply held_with; by repeat right|apply held_with; by left|by left].
  all: try (by right); try (apply held_with; by right; right).
Qed.

(** What the threads of a node call, all but the turns of its timer. *)
Inductive NodeCall :=
| CallRequestVote (grants : bool) | CallAppendEntries (term_ok : bool) | CallInstallSnapshot (term_ok : bool)
| CallRequestVoteResponse (elects : option nat) | CallAppendEntriesResponse
| CallPropose (answers : nat) | CallQuery.

Definition call_locks (c : NodeCall) : list LockOp :=
  match c with
  | CallRequestVote b => HandleRequestVote_locks b
  | CallAppendEntries b => HandleAppendEntries_locks b
  | CallInstallSnapshot b => HandleInstallSnapshot_locks b
  | CallRequestVoteResponse o => HandleRequestVoteResponse_locks o
  | CallAppendEntriesResponse => HandleAppendEntriesResponse_locks
  | CallPropose n => Propose_locks n
  | CallQuery => Query_locks
  end.

Lemma safe_query : safe (guarded state_mutex_ []).
Proof. apply safe_guarded, safe_is_inside, safe_nil. Qed.

Lemma safe_heartbeats n : safe (SendHeartbeats_locks n).
Proof. apply safe_guarded, safe_is_inside, safe_join, Forall_replicate, safe_query. Qed.

Lemma call_safe c : safe (call_locks c).
Proof.
  assert (∀ b : bool, safe (guarded state_mutex_ (if b then ResetElectionTimer_locks else []))) as Hb.
  { intros []; apply safe_guarded; [apply reset_inside|apply safe_is_inside, safe_nil]. }
  destruct c as [b|b|b|o| |n|]; cbn [call_locks]; try apply Hb; try apply safe_query.
  - apply safe_guarded. destruct o as [n|]; [|apply safe_is_inside, safe_nil].
    unfold BecomeLeader_locks. repeat apply safe_inside_app; [..|apply reset_inside]; apply safe_is_inside;
      [apply safe_query|apply safe_heartbeats].
  - unfold Propose_locks. repeat apply safe_app; [apply safe_query..|apply safe_heartbeats].
Qed.

Lemma taken_from_spec i m ts :
  taken_from i m ts = true ↔ ∃ j t, ts !! j = Some t ∧ i ≠ j ∧ m ∈ holding t.
Proof.
  unfold taken_from. rewrite existsb_exists. split.
  - intros ([j t] & Hin & Hb). apply list_elem_of_In, elem_of_lookup_imap in Hin as (j' & t' & [= -> ->] & Hj).
    apply andb_true_iff in Hb as [Hne Hm]. exists j', t'. split_and!; [done| |by apply bool_decide_eq_true in Hm].
    by apply negb_true_iff, Nat.eqb_neq in Hne.
  - intros (j & t & Hj & Hne & Hm). exists (j, t). split.
    + apply list_elem_of_In, elem_of_lookup_imap. by exists j, t.
    + apply andb_true_iff. split; [by apply negb_true_iff, Nat.eqb_neq|by apply bool_decide_eq_true].
Qed.

(** Each thread is in the middle of its calls, and no two hold the same mutex. *)
Record locks_ok (ts : list LockThread) : Prop := {
  lo_nested : ∀ i t, ts !! i = Some t → nested (holding t) (todo t) [];
  lo_apart : ∀ i j t u m, ts !! i = Some t → ts !! j = Some u → m ∈ holding t → m ∈ holding u → i = j }.

Lemma nested_held h ops h' : nested h ops h' → held_ok h.
Proof. by destruct ops; intros [? _]. Qed.

Lemma release_in m x h : x ∈ release m h → x ∈ h.
Proof.
  induction h as [|y h IH]; cbn; [done|]. destruct (bool_decide _); [by right|].
  intros [->|Hx]%elem_of_cons; [by left|right; by apply IH].
Qed.

Lemma locks_ok_step ts ts' : locks_ok ts → locks_step ts ts' → locks_ok ts'.
Proof.
  intros [Hn Ha] (i & Hs). unfold lock_step in Hs. apply bind_Some in Hs as ([h ops] & Hi & Hs). cbn in Hs.
  pose proof (Hn _ _ Hi) as Hni. cbn in Hni. pose proof (lookup_lt_Some _ _ _ Hi) as Hlt.
  assert (∀ t', nested (holding t') (todo t') [] →
    (∀ m, m ∈ holding t' → m ∈ h ∨ taken_from i m ts = false) → locks_ok (<[i := t']> ts)) as Hok.
  { intros t' Hn' Hh. split.
    - intros j t. rewrite list_lookup_insert_Some. intros [(<- & <- & _)|[_ Hj]]; [done|by apply (Hn j)].
    - assert (∀ j u m, ts !! j = Some u → i ≠ j → m ∈ holding t' → m ∈ holding u → False) as Hdis.
      { intros j u m Hj Hne Hm Hu. destruct (Hh m Hm) as [Hmh|Hfree].
        - apply Hne, (Ha i j (mkLocker h ops) u m); done.
        - enough (taken_from i m ts = true) by congruence. apply taken_from_spec. by exists j, u. }
      intros j k t u m. rewrite !list_lookup_insert_Some.
      intros [(<- & <- & _)|[Hj Hjt]] [(<- & <- & _)|[Hk Hku]] Hm Hu; [done|by exfalso; eapply Hdis..|].
      by apply (Ha j k t u m). }
  destruct ops as [|[m|m] ops]; [done|..].
  - destruct (taken_from i m ts) eqn:Ht; [done|]. destruct (_ && _); [done|]. injection Hs as <-.
    destruct Hni as (_ & _ & Hni). apply Hok; [done|]. cbn. intros x [->|Hx]%elem_of_cons; [by right|by left].
  - injection Hs as <-. destruct Hni as (_ & _ & Hni). apply Hok; [done|]. cbn. intros x Hx. left. by eapply release_in.
Qed.

Lemma locks_ok_progress ts : locks_ok ts → ¬ deadlocked ts.
Proof.
  intros [Hn Ha] [Hstuck (t & (i & Hi)%list_elem_of_lookup & Ht)].
  destruct (decide (Exists (λ t, state_mutex_ ∈ holding t) ts)) as [Hex|Hno].
  - apply Exists_exists in Hex as (u & (j & Hj)%list_elem_of_lookup & Hs). specialize (Hstuck j). pose proof (Hn _ _ Hj) as Hnu.
    unfold lock_step in Hstuck. rewrite Hj in Hstuck. cbn [mbind option_bind] in Hstuck.
    destruct (todo u) as [|[m|m] ops].
    + destruct Hnu as [_ Hnu]. rewrite Hnu in Hs. by apply elem_of_nil in Hs.
    + destruct Hnu as (_ & Hm & _). destruct (taken_from j m ts) eqn:Htk.
      * apply taken_from_spec in Htk as (k & v & Hk & Hne & Hmv). destruct m.
        { pose proof (nested_held _ _ _ (Hn _ _ Hk) Hmv) as Hsv. by apply Hne, (Ha j k u v state_mutex_). }
        by apply Hne, (Ha j k u v state_mutex_).
      * destruct m; [|by rewrite andb_false_r in Hstuck].
        destruct (Hm eq_refl) as [_ Hnt]. by rewrite bool_decide_eq_false_2 in Hstuck.
    + done.
  - assert (∀ j u m, ts !! j = Some u → m ∉ holding u) as Hnone.
    { intros j u m Hj Hm. apply Hno, Exists_exists. exists u. split; [by eapply list_elem_of_lookup_2|].
      destruct m; [|done]. by apply (nested_held _ _ _ (Hn _ _ Hj)). }
    specialize (Hstuck i). pose proof (Hn _ _ Hi) as Hnt.
    unfold lock_step in Hstuck. rewrite Hi in Hstuck. cbn [mbind option_bind] in Hstuck.
    destruct (todo t) as [|[m|m] ops]; [done| |done]. rewrite (bool_decide_eq_false_2 (m ∈ _)) in Hstuck by by eapply Hnone.
    destruct (taken_from i m ts) eqn:Htk; [|done]. apply taken_from_spec in Htk as (k & v & Hk & _ & Hmv).
    by apply (Hnone k v m).
Qed.

(** The fault is the timer's alone: however many threads serve requests, answers,
    proposals and queries, one call after the other, they never block one another. *)
Theorem calls_never_deadlock (calls : list (list NodeCall)) ts :
  rtc locks_step (map (λ cs, starts (mjoin (map call_locks cs))) calls) ts → ¬ deadlocked ts.
Proof.
  intros Hs. apply locks_ok_progress.
  assert (locks_ok (map (λ cs, starts (mjoin (map call_locks cs))) calls)) as H0.
  { split.
    - intros i t Hi. apply list_lookup_fmap_Some in Hi as (cs & -> & _). cbn [holding todo starts].
      apply safe_join; [|by intros ?%elem_of_nil]. apply Forall_fmap, Forall_true, call_safe.
    - intros i j t u m Hi _ Hm. apply list_lookup_fmap_Some in Hi as (cs & -> & _). by apply elem_of_nil in Hm. }
  induction Hs as [|x y z H1 _ IH]; [done|]. by apply IH, (locks_ok_step x).
Qed.

(** * Witnesses *)

Lemma election_timer_deadlock_witness :
  ∃ ts, rtc locks_step [starts (TimerLoop_locks (RCandidate [None; None] None)); starts (HandleAppendEntries_locks true)] ts ∧
    deadlocked ts ∧ Forall (λ t, todo t ≠ []) ts.
Proof.
  apply (election_timer_deadlock (RCandidate [None; None] None) (HandleAppendEntries_locks true)). right. by left.
Defined.
