(* ===== verification/Metadata.v ===== *)
(** The name node's tables: src/common/common_types.h and, in src/namenode, the
    metadata store (files and blocks), the data node manager (liveness) and the
    block manager (identifiers and placement).

    Each table has its own mutex, so every method is one step.  The time is an
    argument.  A [std::unordered_map] is a [gmap] whose iteration order is left
    open: a class gives some enumeration of the elements. *)
From S2P Require Import Prelude.

(** * common_types.h *)

Definition kInvalidBlockId : Z := 0.
Definition kBlockSize : Z := 4 * 1024 * 1024.
Definition kReplicationFactor : Z := 3.
Definition kHeartbeatTimeoutSec : Z := 30.

Record BlockInfo := mkBlock { block_id : Z; block_size : Z; block_locations : list bytes }.

Record FileInfo := mkFile {
  file_path : bytes; file_size : Z; file_create_time : Z; file_modify_time : Z;
  file_blocks : list Z }.

Inductive DataNodeStatus := ALIVE | SUSPECT | DEAD.

#[export] Instance DataNodeStatus_eq_dec : EqDecision DataNodeStatus.
Proof. solve_decision. Defined.

Record DataNodeInfo := mkDataNode {
  dn_id : bytes; dn_host : bytes; dn_port : Z; dn_status : DataNodeStatus;
  dn_last_heartbeat : Z; dn_free_space : Z; dn_block_count : Z }.

Definition default_block : BlockInfo := mkBlock kInvalidBlockId 0 [].

(** * Iteration over an unordered map *)

Class Iteration := {
  elements_of : ∀ {K V} `{Countable K}, gmap K V → list (K * V);
  elements_of_perm : ∀ {K V} `{Countable K} (m : gmap K V), elements_of m ≡ₚ map_to_list m;
}.

#[export] Instance canonical_iteration : Iteration :=
  { elements_of := λ K V _ _ m, map_to_list m; elements_of_perm := λ K V _ _ m, reflexivity _ }.

Lemma elem_of_elements `{Iteration} {K V} `{Countable K} (m : gmap K V) k v :
  (k, v) ∈ elements_of m ↔ m !! k = Some v.
Proof. rewrite elements_of_perm. apply elem_of_map_to_list. Qed.

Lemma NoDup_elements `{Iteration} {K V} `{Countable K} (m : gmap K V) :
  NoDup (map fst (elements_of m)).
Proof. rewrite elements_of_perm. apply NoDup_fst_map_to_list. Qed.

(** * MetadataStore *)

Record MetadataStore := mkStore {
  files_ : gmap bytes FileInfo;
  blocks_ : gmap Z BlockInfo;
}.

Definition MetadataStore_new : MetadataStore := mkStore ∅ ∅.

Definition set_files (f : gmap bytes FileInfo) (m : MetadataStore) := mkStore f (blocks_ m).
Definition set_blocks (b : gmap Z BlockInfo) (m : MetadataStore) := mkStore (files_ m) b.

(** [CreateFile(path, out_info)]: the new entry, or [None] when it exists. *)
Definition CreateFile (now : Z) (path : bytes) (m : MetadataStore) :
    MetadataStore * option FileInfo :=
  match files_ m !! path with
  | Some _ => (m, None)
  | None =>
      let info := mkFile path 0 now now [] in
      (set_files (<[path := info]> (files_ m)) m, Some info)
  end.

Definition GetFile (path : bytes) (m : MetadataStore) : option FileInfo := files_ m !! path.

Definition UpdateFile (now : Z) (path : bytes) (info : FileInfo) (m : MetadataStore) :
    MetadataStore * bool :=
  match files_ m !! path with
  | None => (m, false)
  | Some _ =>
      let info := mkFile (file_path info) (file_size info) (file_create_time info) now
                    (file_blocks info) in
      (set_files (<[path := info]> (files_ m)) m, true)
  end.

Definition DeleteFile (path : bytes) (m : MetadataStore) : MetadataStore * bool :=
  (set_files (delete path (files_ m)) m, bool_decide (is_Some (files_ m !! path))).

(** [path.find(prefix) == 0]. *)
Fixpoint starts_with (pre s : bytes) : bool :=
  match pre, s with
  | [], _ => true
  | x :: pre, y :: s => bool_decide (x = y) && starts_with pre s
  | _ :: _, [] => false
  end.

Definition ListFiles `{Iteration} (dir_prefix : bytes) (m : MetadataStore) : list FileInfo :=
  map snd (filter (λ pf, starts_with dir_prefix (fst pf) = true) (elements_of (files_ m))).

Definition AddBlock (block : BlockInfo) (m : MetadataStore) : MetadataStore :=
  set_blocks (<[block_id block := block]> (blocks_ m)) m.

Definition GetBlock (id : Z) (m : MetadataStore) : option BlockInfo := blocks_ m !! id.

Definition UpdateBlock (block : BlockInfo) (m : MetadataStore) : MetadataStore * bool :=
  match blocks_ m !! block_id block with
  | None => (m, false)
  | Some _ => (set_blocks (<[block_id block := block]> (blocks_ m)) m, true)
  end.

Definition DeleteBlock (id : Z) (m : MetadataStore) : MetadataStore * bool :=
  (set_blocks (delete id (blocks_ m)) m, bool_decide (is_Some (blocks_ m !! id))).

(** [UpdateBlockLocation(block_id, dn_id)]: [blocks_[block_id]] makes an entry for
    a block the store does not know. *)
Definition UpdateBlockLocation (id : Z) (dn : bytes) (m : MetadataStore) : MetadataStore :=
  let block := default default_block (blocks_ m !! id) in
  let locs := block_locations block in
  let locs := if bool_decide (dn ∈ locs) then locs else locs ++ [dn] in
  set_blocks (<[id := mkBlock id (block_size block) locs]> (blocks_ m)) m.

Definition GetBlockLocations (id : Z) (m : MetadataStore) : list bytes :=
  match blocks_ m !! id with Some b => block_locations b | None => [] end.

Definition FileCount (m : MetadataStore) : Z := Z.of_nat (size (files_ m)).
Definition BlockCount (m : MetadataStore) : Z := Z.of_nat (size (blocks_ m)).

(** * DataNodeManager *)

Abbreviation DataNodeManager := (gmap bytes DataNodeInfo).

Definition RegisterDataNode (now : Z) (info : DataNodeInfo) (nodes : DataNodeManager) :
    DataNodeManager :=
  <[dn_id info := mkDataNode (dn_id info) (dn_host info) (dn_port info) ALIVE now
      (dn_free_space info) (dn_block_count info)]> nodes.

(** [HandleHeartbeat]: [false] for a node that is not registered. *)
Definition HandleHeartbeat (now : Z) (id : bytes) (free_space block_count : Z)
    (nodes : DataNodeManager) : DataNodeManager * bool :=
  match nodes !! id with
  | None => (nodes, false)
  | Some n =>
      (<[id := mkDataNode (dn_id n) (dn_host n) (dn_port n) ALIVE now free_space block_count]> nodes,
       true)
  end.

Definition GetAliveDataNodes `{Iteration} (nodes : DataNodeManager) : list DataNodeInfo :=
  filter (λ n, dn_status n = ALIVE) (map snd (elements_of nodes)).

Definition GetDataNode (id : bytes) (nodes : DataNodeManager) : option DataNodeInfo := nodes !! id.

Definition set_status (s : DataNodeStatus) (n : DataNodeInfo) : DataNodeInfo :=
  mkDataNode (dn_id n) (dn_host n) (dn_port n) s (dn_last_heartbeat n) (dn_free_space n)
    (dn_block_count n).

(** The body of the loop of [CheckDataNodeHealth]. *)
Definition check_health (now : Z) (info : DataNodeInfo) : DataNodeInfo :=
  let timeout_ms := kHeartbeatTimeoutSec * 1000 in
  let suspect_ms := kHeartbeatTimeoutSec / 3 * 1000 in
  if bool_decide (dn_status info = DEAD) then info
  else
    let elapsed := now - dn_last_heartbeat info in
    if timeout_ms <? elapsed then set_status DEAD info
    else if (suspect_ms <? elapsed) && bool_decide (dn_status info = ALIVE)
    then set_status SUSPECT info
    else info.

Definition CheckDataNodeHealth (now : Z) (nodes : DataNodeManager) : DataNodeManager :=
  check_health now <$> nodes.

Definition TotalCount (nodes : DataNodeManager) : Z := Z.of_nat (size nodes).
Definition AliveCount `{Iteration} (nodes : DataNodeManager) : Z := zlen (GetAliveDataNodes nodes).

(** * BlockManager *)

Record BlockManager := mkBlockManager {
  next_block_id_ : Z;
  round_robin_index_ : Z;
}.

Definition BlockManager_new : BlockManager := mkBlockManager 1 0.

(** [SelectDataNodes(available, n)]: [n] nodes in turn from the cursor.  C++'s
    [%] truncates; an empty [available] divides by zero. *)
Fixpoint take_in_turn (available : list DataNodeInfo) (start sz : Z) (i : Z) (n : nat) :
    option (list bytes) :=
  match n with
  | O => Some []
  | S n =>
      dn ← available !! Z.to_nat (Z.rem (start + i) sz);
      rest ← take_in_turn available start sz (i + 1) n;
      Some (dn_id dn :: rest)
  end.

Definition SelectDataNodes (available : list DataNodeInfo) (n : Z) (b : BlockManager) :
    option (BlockManager * list bytes) :=
  let sz := int32 (zlen available) in
  if sz =? 0 then None
  else
    let start := Z.rem (round_robin_index_ b) sz in
    selected ← take_in_turn available start sz 0 (Z.to_nat n);
    Some (mkBlockManager (next_block_id_ b) (Z.rem (start + n) sz), selected).

Definition usable_nodes (available : list DataNodeInfo) : list DataNodeInfo :=
  filter (λ dn, dn_status dn = ALIVE ∧ kBlockSize <= dn_free_space dn) available.

(** [AllocateBlock(available_nodes)]: [Some None] is the exception
    "No available DataNode to allocate block". *)
Definition AllocateBlock (available_nodes : list DataNodeInfo) (b : BlockManager) :
    option (BlockManager * option BlockInfo) :=
  let usable := usable_nodes available_nodes in
  match usable with
  | [] => Some (b, None)
  | _ =>
      let replicas := Z.min (int32 (zlen usable)) kReplicationFactor in
      '(b, selected) ← SelectDataNodes usable replicas b;
      Some (mkBlockManager (u64 (next_block_id_ b + 1)) (round_robin_index_ b),
        Some (mkBlock (next_block_id_ b) 0 selected))
  end.

Definition CommitBlock (block : BlockInfo) (m : MetadataStore) : MetadataStore := AddBlock block m.
Definition GetBlockInfo (id : Z) (m : MetadataStore) : option BlockInfo := GetBlock id m.
Definition GetBlockCount (m : MetadataStore) : Z := BlockCount m.

(** * Placement in turn *)

Lemma Zrem_mod a b : 0 <= a → 0 < b → Z.rem a b = a mod b.
Proof. intros Ha Hb. apply Z.rem_mod_nonneg; lia. Qed.

Lemma int32_zlen {A} (l : list A) : zlen l < 2 ^ 31 → int32 (zlen l) = zlen l.
Proof. intros H. apply int32_small. pose proof (zlen_nonneg l). lia. Qed.

(** The node at a position of the endless repetition of the list. *)
Definition in_turn (available : list DataNodeInfo) (k : Z) : option bytes :=
  dn_id <$> available !! Z.to_nat (k mod zlen available).

Lemma in_turn_some available k : available ≠ [] → is_Some (in_turn available k).
Proof.
  intros Hne. unfold in_turn. rewrite fmap_is_Some. apply lookup_lt_is_Some.
  pose proof (zlen_pos available Hne).
  pose proof (Z.mod_pos_bound k (zlen available) ltac:(done)). unfold zlen in *. lia.
Qed.

Lemma take_in_turn_spec available start i n :
  available ≠ [] → 0 <= start → 0 <= i →
  ∃ l, take_in_turn available start (zlen available) i n = Some l ∧ length l = n ∧
    ∀ j : nat, (j < n)%nat → l !! j = in_turn available (start + i + Z.of_nat j).
Proof.
  intros Hne Hs. pose proof (zlen_pos available Hne) as Hpos.
  revert i. induction n as [|n IH]; intros i Hi; cbn [take_in_turn].
  { exists []. split_and!; [done|done|lia]. }
  rewrite Zrem_mod by lia.
  destruct (in_turn_some available (start + i) Hne) as [d Hd].
  unfold in_turn in Hd. apply fmap_Some in Hd as (x & Hx & ->). rewrite Hx.
  cbn [mbind option_bind]. destruct (IH (i + 1)) as (l & -> & Hl & Hlk); [lia|].
  cbn [mbind option_bind]. eexists. split; [done|]. split; [simpl; lia|].
  intros [|j] Hj; simpl.
  - rewrite Z.add_0_r. unfold in_turn. by rewrite Hx.
  - rewrite Hlk by lia. f_equal. lia.
Qed.

Lemma in_turn_inj available a b x :
  NoDup (map dn_id available) → 0 <= a <= b → b < a + zlen available →
  in_turn available a = Some x → in_turn available b = Some x → a = b.
Proof.
  intros Hnd Hab Hb Ha Hbx. unfold in_turn in *. assert (0 < zlen available) as Hp by lia.
  apply fmap_Some in Ha as (na & Ha & ->). apply fmap_Some in Hbx as (nb & Hbb & Heq).
  assert (Z.to_nat (a mod zlen available) = Z.to_nat (b mod zlen available)) as Hm.
  { apply (NoDup_lookup (map dn_id available) _ _ (dn_id na)); [done|..];
      rewrite list_lookup_fmap; [by rewrite Ha|]. rewrite Hbb. simpl. by rewrite Heq. }
  set (L := zlen available) in *.
  pose proof (Z.mod_pos_bound a L Hp). pose proof (Z.mod_pos_bound b L Hp).
  assert (a mod L = b mod L) as Hmod by (apply Z2Nat.inj; tauto).
  assert (L ≠ 0) as Hn0 by lia.
  pose proof (Z.div_mod a L Hn0). pose proof (Z.div_mod b L Hn0).
  assert (b - a = L * (b / L - a / L)) as Hd by lia. set (q := b / L - a / L) in *.
  destruct (Z.lt_trichotomy q 0) as [Hq|[Hq|Hq]]; [|rewrite Hq in Hd; lia|].
  - assert (L * q <= L * -1) by (apply Z.mul_le_mono_nonneg_l; lia). lia.
  - assert (L * 1 <= L * q) by (apply Z.mul_le_mono_nonneg_l; lia). lia.
Qed.

(** What one allocation gives. *)
Lemma AllocateBlock_cases available b :
  zlen (usable_nodes available) < 2 ^ 31 → 0 <= round_robin_index_ b →
  usable_nodes available ≠ [] →
  let usable := usable_nodes available in
  let n := Z.min (zlen usable) kReplicationFactor in
  ∃ b' locs, AllocateBlock available b = Some (b', Some (mkBlock (next_block_id_ b) 0 locs)) ∧
    next_block_id_ b' = u64 (next_block_id_ b + 1) ∧
    round_robin_index_ b' = (round_robin_index_ b + n) mod zlen usable ∧
    zlen locs = n ∧
    ∀ j : nat, Z.of_nat j < n → locs !! j = in_turn usable (round_robin_index_ b + Z.of_nat j).
Proof.
  intros Hlen Hrr Hne usable n. subst usable n. unfold AllocateBlock.
  set (usable := usable_nodes available) in *.
  pose proof (zlen_pos usable Hne) as Hpos.
  assert (match usable with [] => Some (b, None) | _ =>
    '(b, selected) ← SelectDataNodes usable (Z.min (int32 (zlen usable)) kReplicationFactor) b;
    Some (mkBlockManager (u64 (next_block_id_ b + 1)) (round_robin_index_ b),
        Some (mkBlock (next_block_id_ b) 0 selected)) end =
    ('(b, selected) ← SelectDataNodes usable (Z.min (int32 (zlen usable)) kReplicationFactor) b;
    Some (mkBlockManager (u64 (next_block_id_ b + 1)) (round_robin_index_ b),
        Some (mkBlock (next_block_id_ b) 0 selected)))) as -> by (by destruct usable).
  rewrite int32_zlen by done. unfold SelectDataNodes. rewrite int32_zlen by done.
  destruct (Z.eqb_spec (zlen usable) 0); [lia|].
  rewrite (Zrem_mod (round_robin_index_ b)) by lia.
  pose proof (Z.mod_pos_bound (round_robin_index_ b) (zlen usable) Hpos).
  set (n0 := Z.min (zlen usable) kReplicationFactor).
  assert (0 <= n0) by (subst n0; unfold kReplicationFactor; lia).
  destruct (take_in_turn_spec usable (round_robin_index_ b mod zlen usable) 0 (Z.to_nat n0) Hne)
    as (l & -> & Hl & Hlk); [lia|lia|].
  cbn [mbind option_bind next_block_id_ round_robin_index_].
  eexists _, _. split; [reflexivity|]. cbn [next_block_id_ round_robin_index_].
  split; [done|]. split.
  { rewrite Zrem_mod by lia. rewrite Z.add_mod_idemp_l by lia. done. }
  split; [unfold zlen at 1; lia|]. intros j Hj. rewrite Hlk by lia.
  unfold in_turn. rewrite Z.add_0_r. rewrite Z.add_mod_idemp_l by lia. done.
Qed.

Lemma usable_elem available x :
  x ∈ usable_nodes available → x ∈ available ∧ dn_status x = ALIVE ∧ kBlockSize <= dn_free_space x.
Proof. intros [[H1 H2] H3]%list_elem_of_filter. done. Qed.

Lemma usable_NoDup available : NoDup (map dn_id available) → NoDup (map dn_id (usable_nodes available)).
Proof.
  unfold usable_nodes. induction available as [|x l IH]; [done|].
  cbn [map]. intros [Hx Hl]%NoDup_cons. rewrite filter_cons. case_decide; [|by apply IH].
  cbn [map]. apply NoDup_cons. split; [|by apply IH].
  intros (y & Hxy & Hy)%list_elem_of_fmap_1. apply Hx. rewrite Hxy.
  apply list_elem_of_fmap_2. by apply list_elem_of_filter in Hy as [_ Hy].
Qed.

(** An allocated block gets the next identifier and [min(3, usable)] distinct
    locations, all of them alive nodes with room for a block. *)
Lemma AllocateBlock_places_replicas available b :
  NoDup (map dn_id available) → zlen (usable_nodes available) < 2 ^ 31 →
  0 <= round_robin_index_ b → usable_nodes available ≠ [] →
  ∃ b' locs, AllocateBlock available b = Some (b', Some (mkBlock (next_block_id_ b) 0 locs)) ∧
    next_block_id_ b' = u64 (next_block_id_ b + 1) ∧ 0 <= round_robin_index_ b' ∧
    zlen locs = Z.min (zlen (usable_nodes available)) 3 ∧ NoDup locs ∧
    ∀ id, id ∈ locs → ∃ x, x ∈ available ∧ dn_id x = id ∧ dn_status x = ALIVE ∧
      kBlockSize <= dn_free_space x.
Proof.
  intros Hnd Hlen Hrr Hne.
  destruct (AllocateBlock_cases available b Hlen Hrr Hne) as (b' & locs & -> & Hn & Hr & Hl & Hlk).
  pose proof (zlen_pos _ Hne) as Hpos.
  eexists _, _. split; [done|]. split; [done|]. split.
  { rewrite Hr. by apply Z.mod_pos_bound. }
  split; [done|]. unfold kReplicationFactor in *. split.
  - pose proof (usable_NoDup available Hnd) as Hnu. set (usable := usable_nodes available) in *.
    apply NoDup_alt. intros i j x Hi Hj.
    assert (∀ k, locs !! k = Some x → Z.of_nat k < zlen usable ∧
      in_turn usable (round_robin_index_ b + Z.of_nat k) = Some x) as Hk.
    { intros k Hkx. pose proof (lookup_lt_Some _ _ _ Hkx).
      assert (Z.of_nat k < zlen locs) by (unfold zlen; lia).
      rewrite Hlk in Hkx by lia. split; [lia|done]. }
    destruct (Hk i Hi) as [Hin Ti]. destruct (Hk j Hj) as [Hjn Tj].
    destruct (decide (i ≤ j)%nat).
    + enough (round_robin_index_ b + Z.of_nat i = round_robin_index_ b + Z.of_nat j) by lia.
      apply (in_turn_inj usable _ _ x); [done|lia|lia|done|done].
    + enough (round_robin_index_ b + Z.of_nat j = round_robin_index_ b + Z.of_nat i) by lia.
      apply (in_turn_inj usable _ _ x); [done|lia|lia|done|done].
  - intros id Hid. apply list_elem_of_lookup in Hid as [j Hj].
    pose proof (lookup_lt_Some _ _ _ Hj).
    assert (Z.of_nat j < zlen locs) by (unfold zlen; lia). rewrite Hlk in Hj by lia.
    unfold in_turn in Hj. apply fmap_Some in Hj as (x & Hx & ->).
    apply list_elem_of_lookup_2 in Hx. apply usable_elem in Hx as (?&?&?). eauto.
Qed.

(** Allocations in a row from the same nodes. *)
Fixpoint allocate_many (m : nat) (available : list DataNodeInfo) (b : BlockManager) :
    option (BlockManager * list BlockInfo) :=
  match m with
  | O => Some (b, [])
  | S m =>
      '(b, block) ← AllocateBlock available b;
      block ← block;
      '(b, blocks) ← allocate_many m available b;
      Some (b, block :: blocks)
  end.

Lemma in_turn_mod usable a k :
  usable ≠ [] → in_turn usable (a mod zlen usable + k) = in_turn usable (a + k).
Proof.
  intros Hne. pose proof (zlen_pos usable Hne). unfold in_turn. by rewrite Z.add_mod_idemp_l by lia.
Qed.

(** C37: placement is fair: over any number of allocations from the same usable
    nodes, the replicas go to the nodes cyclically, and the identifiers are
    consecutive. *)
Theorem AllocateBlock_round_robin m available b :
  zlen (usable_nodes available) < 2 ^ 31 → usable_nodes available ≠ [] →
  0 <= round_robin_index_ b → 0 <= next_block_id_ b → next_block_id_ b + Z.of_nat m < 2 ^ 64 →
  let n := Z.min (zlen (usable_nodes available)) 3 in
  ∃ b' blocks, allocate_many m available b = Some (b', blocks) ∧
    map block_id blocks = map (λ i, next_block_id_ b + Z.of_nat i) (seq 0 m) ∧
    zlen (mjoin (map block_locations blocks)) = Z.of_nat m * n ∧
    ∀ k : nat, Z.of_nat k < Z.of_nat m * n →
      mjoin (map block_locations blocks) !! k =
        in_turn (usable_nodes available) (round_robin_index_ b + Z.of_nat k).
Proof.
  intros Hlen Hne Hrr Hid Hids n. revert b Hrr Hid Hids.
  induction m as [|m IH]; intros b Hrr Hid Hids.
  { exists b, []. split_and!; [done|done|done|lia]. }
  destruct (AllocateBlock_cases available b Hlen Hrr Hne) as (b1 & locs & Ha & Hn & Hr & Hl & Hlk).
  pose proof (zlen_pos _ Hne) as Hpos. change kReplicationFactor with 3 in *. fold n in Hr, Hl, Hlk.
  rewrite u64_small in Hn by lia.
  destruct (IH b1) as (b' & blocks & Hm & Hi & Hz & Hk); [rewrite Hr; by apply Z.mod_pos_bound|lia|lia|].
  exists b', (mkBlock (next_block_id_ b) 0 locs :: blocks).
  cbn [allocate_many]. rewrite Ha. cbn [mbind option_bind]. rewrite Hm. cbn [mbind option_bind].
  split; [done|]. change (map ?f (?x :: ?l)) with (f x :: map f l). cbn [block_id block_locations].
  change (mjoin (?x :: ?l)) with (x ++ mjoin l). split_and!.
  - rewrite Hi, Hn. cbn [seq map]. f_equal; [lia|]. rewrite <- seq_shift, map_map.
    apply map_ext. intros i. lia.
  - rewrite zlen_app, Hl, Hz. lia.
  - intros k Hkm. destruct (decide (Z.of_nat k < n)) as [Hlt|Hge].
    + rewrite lookup_app_l by (unfold zlen in Hl; lia). by apply Hlk.
    + rewrite lookup_app_r by (unfold zlen in Hl; lia). unfold zlen in Hl. rewrite Hk by lia.
      rewrite Hr, in_turn_mod by done. f_equal. lia.
Qed.

(** * Liveness of the data nodes *)

(** The operations that touch the table, each with the time at which it runs. *)
Inductive DnEvent :=
| EvRegister (info : DataNodeInfo)
| EvHeartbeat (id : bytes) (free_space block_count : Z)
| EvCheck.

Definition dn_step (now : Z) (ev : DnEvent) (nodes : DataNodeManager) : DataNodeManager :=
  match ev with
  | EvRegister info => RegisterDataNode now info nodes
  | EvHeartbeat id f c => fst (HandleHeartbeat now id f c nodes)
  | EvCheck => CheckDataNodeHealth now nodes
  end.

Fixpoint dn_run (evs : list (Z * DnEvent)) (nodes : DataNodeManager) : DataNodeManager :=
  match evs with
  | [] => nodes
  | (now, ev) :: evs => dn_run evs (dn_step now ev nodes)
  end.

(** The clock does not go back from [now] on. *)
Fixpoint clock_from (now : Z) (evs : list (Z * DnEvent)) : Prop :=
  match evs with
  | [] => True
  | (t, _) :: evs => now <= t ∧ clock_from t evs
  end.

Fixpoint last_time (now : Z) (evs : list (Z * DnEvent)) : Z :=
  match evs with [] => now | (t, _) :: evs => last_time t evs end.

(** A node is under its own identifier, and is suspected or dead only after the
    corresponding silence. *)
Definition nodes_ok (now : Z) (nodes : DataNodeManager) : Prop :=
  ∀ id n, nodes !! id = Some n →
    dn_id n = id ∧ dn_last_heartbeat n <= now ∧
    (dn_status n = SUSPECT → 10000 < now - dn_last_heartbeat n) ∧
    (dn_status n = DEAD → 30000 < now - dn_last_heartbeat n).

Lemma check_health_cases now n :
  (dn_id (check_health now n) = dn_id n ∧
   dn_last_heartbeat (check_health now n) = dn_last_heartbeat n) ∧
  (dn_status (check_health now n) = DEAD ↔
    dn_status n = DEAD ∨ 30000 < now - dn_last_heartbeat n) ∧
  (dn_status (check_health now n) = ALIVE ↔
    dn_status n = ALIVE ∧ now - dn_last_heartbeat n <= 10000) ∧
  (dn_status (check_health now n) = SUSPECT → dn_status n = SUSPECT ∨ 10000 < now - dn_last_heartbeat n).
Proof.
  unfold check_health. change (kHeartbeatTimeoutSec * 1000) with 30000.
  change (kHeartbeatTimeoutSec / 3 * 1000) with 10000. case_bool_decide as Hd.
  { rewrite Hd. split_and!; try done; [tauto|split; [done|intros [? _]; congruence]]. }
  destruct (Z.ltb_spec 30000 (now - dn_last_heartbeat n)).
  { cbn [set_status dn_status dn_id dn_last_heartbeat]. split_and!; try done; [tauto|].
    split; [done|lia]. }
  destruct (Z.ltb_spec 10000 (now - dn_last_heartbeat n)); cbn [andb].
  - case_bool_decide as Ha; cbn [set_status dn_status dn_id dn_last_heartbeat].
    + split_and!; try done; [split; [done|intros [?|?]; [done|lia]]|split; [done|lia]|auto].
    + split_and!; try done; [|split; [done|lia]|auto].
      split; [done|intros [?|?]; [done|lia]].
  - split_and!; try done; [|split; [done|by intros [? _]]|auto].
    split; [done|intros [?|?]; [done|lia]].
Qed.

Lemma nodes_ok_later t1 t2 nodes : t1 <= t2 → nodes_ok t1 nodes → nodes_ok t2 nodes.
Proof.
  intros Ht H id n Hn. destruct (H id n Hn) as (?&?&Hs&Hd). split_and!; [done|lia|..].
  - intros E. specialize (Hs E). lia.
  - intros E. specialize (Hd E). lia.
Qed.

Lemma dn_step_ok now ev nodes : nodes_ok now nodes → nodes_ok now (dn_step now ev nodes).
Proof.
  intros Hok. destruct ev as [info|id f c|]; cbn [dn_step].
  - intros id n. unfold RegisterDataNode. rewrite lookup_insert_Some.
    intros [[<- <-]|[_ Hn]]; [cbn; split_and!; [done|lia|done|done]|by apply Hok].
  - unfold HandleHeartbeat. destruct (nodes !! id) as [m|] eqn:Hm; [|exact Hok].
    cbn [fst]. intros id' n. rewrite lookup_insert_Some.
    intros [[<- <-]|[_ Hn]]; [|by apply Hok].
    destruct (Hok id m Hm) as (Hid & _). cbn. split_and!; [done|lia|done|done].
  - intros id n. unfold CheckDataNodeHealth. rewrite lookup_fmap.
    intros (m & Hm & ->)%fmap_Some. destruct (Hok id m Hm) as (Hid & Hle & Hs & Hd).
    destruct (check_health_cases now m) as ([Hi Hl] & Hdead & _ & Hsus). rewrite Hi, Hl.
    split_and!; [done|done| |].
    + intros E. destruct (Hsus E) as [E'|?]; [by apply Hs|done].
    + intros E. apply Hdead in E as [E|?]; [by apply Hd|done].
Qed.

(** The liveness table is right about silence: whatever registrations,
    heartbeats and checks ran, a node is [SUSPECT] only after 10 s and [DEAD] only
    after 30 s without a heartbeat; and right after a check every node that is
    silent for more than 30 s is [DEAD] and no node silent for more than 10 s is
    [ALIVE]. *)
Theorem CheckDataNodeHealth_detects_silence evs t0 now nodes :
  clock_from t0 (evs ++ [(now, EvCheck)]) → nodes_ok t0 nodes →
  ∀ id n, dn_run (evs ++ [(now, EvCheck)]) nodes !! id = Some n →
    dn_id n = id ∧
    (dn_status n = ALIVE → now - dn_last_heartbeat n <= 10000) ∧
    (dn_status n = SUSPECT → 10000 < now - dn_last_heartbeat n <= 30000) ∧
    (dn_status n = DEAD ↔ 30000 < now - dn_last_heartbeat n).
Proof.
  revert t0 nodes. induction evs as [|[t ev] evs IH]; intros t0 nodes Hc Hok id n; simpl.
  - destruct Hc as [Ht _]. apply (nodes_ok_later _ now) in Hok; [|done].
    pose proof (dn_step_ok now EvCheck nodes Hok) as Hok'. cbn [dn_step] in *.
    intros Hn. destruct (Hok' id n Hn) as (Hid & Hle & Hs & Hd).
    unfold CheckDataNodeHealth in Hn. rewrite lookup_fmap in Hn.
    apply fmap_Some in Hn as (m & Hm & ->).
    destruct (check_health_cases now m) as ([Hi Hl] & Hdead & Halive & _). rewrite Hl in *.
    assert (dn_status (check_health now m) = DEAD ↔ 30000 < now - dn_last_heartbeat m) as Hdd.
    { split; [done|]. intros ?. apply Hdead. by right. }
    split_and!; [done|by intros [_ ?]%Halive| |exact Hdd].
    intros E. split; [by apply Hs|]. destruct (Z.le_gt_cases (now - dn_last_heartbeat m) 30000); [done|].
    exfalso. assert (dn_status (check_health now m) = DEAD) by (apply Hdd; lia). congruence.
  - destruct Hc as [Ht Hc]. apply (IH t); [done|]. apply dn_step_ok.
    by apply (nodes_ok_later t0).
Qed.

(** * Concrete tables *)

Definition demo_dn (id : string) (s : DataNodeStatus) : DataNodeInfo :=
  mkDataNode (str id) (str "h") 1 s 0 (2 * kBlockSize) 0.

Definition demo_nodes : list DataNodeInfo :=
  [demo_dn "d1" ALIVE; demo_dn "d2" ALIVE; demo_dn "d3" SUSPECT; demo_dn "d4" ALIVE; demo_dn "d5" ALIVE].

Lemma AllocateBlock_round_robin_witness :
  ∃ b' blocks, allocate_many 5 demo_nodes (mkBlockManager 1 0) = Some (b', blocks) ∧
    map block_id blocks = map (λ i, 1 + Z.of_nat i) (seq 0 5) ∧
    zlen (mjoin (map block_locations blocks)) = Z.of_nat 5 * Z.min (zlen (usable_nodes demo_nodes)) 3 ∧
    ∀ k : nat, Z.of_nat k < Z.of_nat 5 * Z.min (zlen (usable_nodes demo_nodes)) 3 →
      mjoin (map block_locations blocks) !! k = in_turn (usable_nodes demo_nodes) (0 + Z.of_nat k).
Proof.
  apply (AllocateBlock_round_robin 5 demo_nodes (mkBlockManager 1 0));
    [by vm_compute|discriminate|by vm_compute..].
Defined.

Definition demo_history : list (Z * DnEvent) :=
  [(0, EvRegister (demo_dn "d1" ALIVE)); (500, EvRegister (demo_dn "d2" DEAD));
   (9000, EvHeartbeat (str "d1") 5 1); (11000, EvCheck)].

Lemma CheckDataNodeHealth_detects_silence_witness :
  dn_run (demo_history ++ [(31000, EvCheck)]) ∅ !! str "d2" =
    Some (mkDataNode (str "d2") (str "h") 1 DEAD 500 (2 * kBlockSize) 0) ∧
  ∀ id n, dn_run (demo_history ++ [(31000, EvCheck)]) ∅ !! id = Some n →
    dn_id n = id ∧
    (dn_status n = ALIVE → 31000 - dn_last_heartbeat n <= 10000) ∧
    (dn_status n = SUSPECT → 10000 < 31000 - dn_last_heartbeat n <= 30000) ∧
    (dn_status n = DEAD ↔ 30000 < 31000 - dn_last_heartbeat n).
Proof.
  split; [by vm_compute|].
  apply (CheckDataNodeHealth_detects_silence demo_history 0 31000 ∅); [cbn; lia|].
  intros id n H. by rewrite lookup_empty in H.
Defined.
