(* ===== verification/EditLog.v ===== *)
(** The name node's edit log: src/namenode/namenode_edit_log.cc.

    A record is a length in network byte order and that many bytes of a
    serialized request.  The type of requests and its codec are parameters; how
    far a write reaches the file is an argument of [Append]. *)
From S2P Require Import Prelude Coding Wal.

(** [htonl] stored by [memcpy], and [ntohl] of four bytes read. *)
Definition htonl_bytes (v : Z) : bytes := rev (EncodeFixed32 v).
Definition ntohl_bytes (b : bytes) : Z := default 0 (DecodeFixed32 (rev b)).

Section EditLog.
Context {Req : Type}.
Context (SerializeRequest : Req → option bytes) (ParseRequest : bytes → option Req).

(** The file, and whether the output stream is still good. *)
Record EditLog := mkEditLog { el_file : bytes; el_open : bool; el_good : bool }.

(** The constructor opens for appending, and throws when it cannot. *)
Definition EditLog_new (file : bytes) (can_open : bool) : option EditLog :=
  if can_open then Some (mkEditLog file true true) else None.

Definition EditLog_Close (l : EditLog) : EditLog := mkEditLog (el_file l) false (el_good l).

Definition edit_record (data : bytes) : bytes := htonl_bytes (u32 (zlen data)) ++ data.

(** [Append(op)]: a stream that has failed, or was closed, writes nothing more. *)
Definition Append (op : Req) (io : io_result) (l : EditLog) : EditLog * bool :=
  match SerializeRequest op with
  | None => (l, false)
  | Some data =>
      if el_open l && el_good l then
        match io with
        | IoOk => (mkEditLog (el_file l ++ edit_record data) true true, true)
        | IoShort n => (mkEditLog (el_file l ++ take n (edit_record data)) true false, false)
        end
      else (mkEditLog (el_file l) (el_open l) false, false)
  end.

(** [Replay(callback)]: the requests the callback is given, in order. *)
Fixpoint Replay_loop (fuel : nat) (s : ifstream) : option (list Req) :=
  match fuel with
  | O => None
  | S fuel =>
      if s_failed s then Some []
      else
        let '(s1, len) := stream_read s 4 (replicate 4 x00) in
        if gcount s s1 =? 4 then
          let len := ntohl_bytes len in
          let '(s2, data) := stream_read s1 (Z.to_nat len) (replicate (Z.to_nat len) x00) in
          if gcount s1 s2 =? len then
            ops ← Replay_loop fuel s2;
            match ParseRequest data with
            | Some op => Some (op :: ops)
            | None => Some ops
            end
          else Some []
        else Some []
  end.

Definition Replay (content : bytes) : option (list Req) :=
  Replay_loop (S (length content)) (open_stream content).

(** * Properties *)

Lemma htonl_length v : length (htonl_bytes v) = 4%nat.
Proof. unfold htonl_bytes. by rewrite length_rev. Qed.

Lemma ntohl_htonl v : 0 <= v < 2 ^ 32 → ntohl_bytes (htonl_bytes v) = v.
Proof.
  intros Hv. unfold ntohl_bytes, htonl_bytes. rewrite rev_involutive.
  pose proof (DecodeFixed32_Encode v []) as H. rewrite app_nil_r in H. rewrite H.
  cbn [default from_option]. by rewrite u32_small.
Qed.

Lemma read_whole pre a post n buf :
  n = length a → length buf = n →
  stream_read (mkStream (pre ++ a ++ post) (zlen pre) false) n buf =
    (mkStream (pre ++ a ++ post) (zlen (pre ++ a)) false, a).
Proof.
  intros -> Hb. unfold stream_read. cbn [s_failed s_pos s_content].
  rewrite zlen_to_nat, drop_app_length, take_app_length, Nat.ltb_irrefl.
  rewrite (drop_ge buf) by lia. by rewrite app_nil_r, zlen_app.
Qed.

(** A read that asks for more than the file still has. *)
Lemma read_short pre a n buf :
  (length a < n)%nat → 
  ∃ s d, stream_read (mkStream (pre ++ a) (zlen pre) false) n buf = (s, d) ∧
    s_pos s = zlen (pre ++ a).
Proof.
  intros Hn. unfold stream_read. cbn [s_failed s_pos s_content].
  rewrite zlen_to_nat, drop_app_length, take_ge by lia. eexists _, _. split; [done|].
  cbn [s_pos]. by rewrite zlen_app.
Qed.

Definition records (datas : list bytes) : bytes := mjoin (map edit_record datas).

Lemma edit_record_length data : length (edit_record data) = (4 + length data)%nat.
Proof. unfold edit_record. by rewrite length_app, htonl_length. Qed.

Lemma gcount_app c (pre a : bytes) f1 f2 :
  gcount (mkStream c (zlen pre) f1) (mkStream c (zlen (pre ++ a)) f2) = zlen a.
Proof. unfold gcount. cbn [s_pos]. rewrite zlen_app. lia. Qed.

Lemma htonl_zlen v : zlen (htonl_bytes v) = 4.
Proof. unfold zlen. by rewrite htonl_length. Qed.

Lemma Replay_step fuel pre data post :
  zlen data < 2 ^ 32 →
  Replay_loop (S fuel) (mkStream (pre ++ edit_record data ++ post) (zlen pre) false) =
    (ops ← Replay_loop fuel
       (mkStream (pre ++ edit_record data ++ post) (zlen (pre ++ edit_record data)) false);
     match ParseRequest data with Some op => Some (op :: ops) | None => Some ops end).
Proof.
  intros Hd. pose proof (zlen_nonneg data). cbn [Replay_loop s_failed].
  unfold edit_record. rewrite u32_small by lia. set (h := htonl_bytes (zlen data)).
  rewrite <- !app_assoc. rewrite (read_whole pre h (data ++ post)) by done.
  rewrite gcount_app. replace (zlen h =? 4) with true by (subst h; by rewrite htonl_zlen).
  replace (ntohl_bytes h) with (zlen data) by (subst h; by rewrite ntohl_htonl by lia).
  rewrite zlen_to_nat, (app_assoc pre).
  rewrite (read_whole (pre ++ h) data post); [|done|by rewrite length_replicate].
  rewrite gcount_app, Z.eqb_refl. by rewrite <- !app_assoc.
Qed.

(** The requests of a list of serialized bytes that parse. *)
Definition parsed (datas : list bytes) : list Req := omap ParseRequest datas.

(** Reading good records up to a tail that ends the reading. *)
Lemma Replay_records datas pre tail fuel :
  Forall (λ d, zlen d < 2 ^ 32) datas → (length datas < fuel)%nat →
  (∀ f, (0 < f)%nat →
    Replay_loop f (mkStream (pre ++ records datas ++ tail) (zlen (pre ++ records datas)) false) =
      Some []) →
  Replay_loop fuel (mkStream (pre ++ records datas ++ tail) (zlen pre) false) =
    Some (parsed datas).
Proof.
  intros Hd. revert pre fuel. induction Hd as [|d datas Hd Hds IH]; intros pre fuel Hf Htail.
  { cbn [records map mjoin list_join] in *. rewrite app_nil_r in Htail. apply Htail. lia. }
  destruct fuel as [|fuel]; [lia|]. change (records (d :: datas)) with (edit_record d ++ records datas) in *.
  rewrite <- app_assoc in *. rewrite Replay_step by done.
  rewrite !(app_assoc pre) in *. rewrite IH; [|simpl in Hf; lia|exact Htail].
  cbn [mbind option_bind]. unfold parsed. cbn [omap list_omap]. by destruct (ParseRequest d).
Qed.

Lemma Replay_end content f :
  (0 < f)%nat → Replay_loop f (mkStream content (zlen content) false) = Some [].
Proof.
  intros Hf. destruct f as [|f]; [lia|]. cbn [Replay_loop s_failed].
  destruct (read_short content [] 4 (replicate 4 x00)) as (s & d & Hr & Hs); [simpl; lia|].
  rewrite app_nil_r in *. rewrite Hr. unfold gcount. rewrite Hs. cbn [s_pos].
  by rewrite Z.sub_diag.
Qed.

(** A length that promises more than the file has ends the reading. *)
Lemma Replay_incomplete (pre data rest : bytes) f :
  zlen data < 2 ^ 32 → (length rest < length data)%nat → (0 < f)%nat →
  Replay_loop f (mkStream (pre ++ htonl_bytes (zlen data) ++ rest) (zlen pre) false) = Some [].
Proof.
  intros Hd Hr Hf. destruct f as [|f]; [lia|]. cbn [Replay_loop s_failed].
  pose proof (zlen_nonneg data). set (h := htonl_bytes (zlen data)).
  rewrite (read_whole pre h rest) by done.
  rewrite gcount_app. replace (zlen h =? 4) with true by (subst h; by rewrite htonl_zlen).
  replace (ntohl_bytes h) with (zlen data) by (subst h; by rewrite ntohl_htonl by lia).
  rewrite zlen_to_nat, app_assoc.
  destruct (read_short (pre ++ h) rest (length data) (replicate (length data) x00))
    as (s & d & Hs & Hp); [done|].
  rewrite Hs. unfold gcount. rewrite Hp, (zlen_app (pre ++ h)). cbn [s_pos].
  destruct (Z.eqb_spec (zlen (pre ++ h) + zlen rest - zlen (pre ++ h)) (zlen data)) as [E|]; [|done].
  unfold zlen in E. lia.
Qed.

Lemma take_edit_record n (data : bytes) :
  zlen data < 2 ^ 32 → (4 <= n)%nat →
  take n (edit_record data) = htonl_bytes (zlen data) ++ take (n - 4) data.
Proof.
  intros Hd Hn. pose proof (zlen_nonneg data). unfold edit_record. rewrite u32_small by lia.
  rewrite take_app, htonl_length. by rewrite take_ge by (rewrite htonl_length; lia).
Qed.

(** A record cut short ends the reading. *)
Lemma Replay_torn (pre data : bytes) n f :
  zlen data < 2 ^ 32 → (n < length (edit_record data))%nat → (0 < f)%nat →
  Replay_loop f (mkStream (pre ++ take n (edit_record data)) (zlen pre) false) = Some [].
Proof.
  intros Hd Hn Hf. rewrite edit_record_length in Hn. destruct (decide (n < 4)%nat) as [H4|H4].
  - destruct f as [|f]; [lia|]. cbn [Replay_loop s_failed].
    assert (length (take n (edit_record data)) = n) as Hl.
    { rewrite length_take, edit_record_length. lia. }
    destruct (read_short pre (take n (edit_record data)) 4 (replicate 4 x00)) as (s & d & -> & Hs); [lia|].
    unfold gcount. rewrite Hs, zlen_app. cbn [s_pos].
    destruct (Z.eqb_spec (zlen pre + zlen (take n (edit_record data)) - zlen pre) 4) as [E|]; [|done].
    unfold zlen in E. lia.
  - rewrite take_edit_record by (done || lia). apply Replay_incomplete; [done| |done].
    rewrite length_take. lia.
Qed.

(** Appending requests one after the other, each with how far its write reaches the
    file; the requests that are acknowledged. *)
Fixpoint append_all (ops : list (Req * io_result)) (l : EditLog) : EditLog * list Req :=
  match ops with
  | [] => (l, [])
  | (op, io) :: ops =>
      let '(l, ok) := Append op io l in
      let '(l, acked) := append_all ops l in
      (l, if ok then op :: acked else acked)
  end.

(** The processes that open the log one after the other, and what each appends. *)
Fixpoint lives (runs : list (list (Req * io_result))) (file : bytes) : option (bytes * list Req) :=
  match runs with
  | [] => Some (file, [])
  | ops :: runs =>
      l ← EditLog_new file true;
      let '(l, acked) := append_all ops l in
      '(file, acked') ← lives runs (el_file (EditLog_Close l));
      Some (file, acked ++ acked')
  end.

(** The length field can hold the request, if it serializes. *)
Definition op_bounded (op : Req) : Prop := ∀ d, SerializeRequest op = Some d → zlen d < 2 ^ 32.

(** A request that serializes to something the length field can hold. *)
Definition op_fits (op : Req) : Prop := ∃ d, SerializeRequest op = Some d ∧ zlen d < 2 ^ 32.

(** The file holds exactly these requests. *)
Definition log_holds (ops : list Req) (content : bytes) : Prop :=
  ∃ datas, Forall2 (λ op d, SerializeRequest op = Some d ∧ zlen d < 2 ^ 32) ops datas ∧
    content = records datas.

Definition op_size (op : Req) : nat := from_option length 0%nat (SerializeRequest op).

Lemma op_size_serialized op d : SerializeRequest op = Some d → op_size op = length d.
Proof. intros H. unfold op_size. by rewrite H. Qed.

Hypothesis parse_serialize : ∀ op d, SerializeRequest op = Some d → ParseRequest d = Some op.

Lemma records_snoc datas d : records (datas ++ [d]) = records datas ++ edit_record d.
Proof.
  unfold records. induction datas as [|x datas IH].
  - cbn [app map]. unfold mjoin. cbn [list_join]. by rewrite app_nil_r.
  - cbn [app map]. change (mjoin (?x :: ?l)) with (x ++ mjoin l). by rewrite IH, app_assoc.
Qed.

Lemma log_holds_snoc ops content op d :
  log_holds ops content → SerializeRequest op = Some d → zlen d < 2 ^ 32 →
  log_holds (ops ++ [op]) (content ++ edit_record d).
Proof.
  intros (datas & Hf & ->) Hd Hz. exists (datas ++ [d]). split; [|by rewrite records_snoc].
  apply Forall2_app; [done|]. constructor; [done|constructor].
Qed.

(** What one append leaves of a log that is whole. *)
Lemma Append_holds old op io l :
  el_open l = true → el_good l = true → log_holds old (el_file l) → op_bounded op →
  let '(l', ok) := Append op io l in
  (el_open l' = true ∧ el_good l' = true ∧ log_holds (old ++ if ok then [op] else []) (el_file l')) ∨
  ok = false ∧ el_good l' = false ∧ ∃ n d, io = IoShort n ∧ SerializeRequest op = Some d ∧
    el_file l' = el_file l ++ take n (edit_record d).
Proof.
  intros Ho Hg Hh Hb. unfold Append. destruct (SerializeRequest op) as [d|] eqn:Hd.
  - rewrite Ho, Hg. cbn [andb]. destruct io as [|n].
    + left. split_and!; [done..|]. by apply log_holds_snoc; [..|apply Hb].
    + right. split_and!; [done..|]. by exists n, d.
  - left. by rewrite app_nil_r.
Qed.

(** A stream that has failed acknowledges nothing. *)
Lemma append_all_failed ops l : el_good l = false → ∃ l', append_all ops l = (l', []) ∧ el_file l' = el_file l.
Proof.
  revert l. induction ops as [|[op io] ops IH]; intros l Hg; [by exists l|]. cbn [append_all].
  destruct (Append op io l) as [l1 ok] eqn:E. unfold Append in E. rewrite Hg, andb_false_r in E.
  destruct (IH l1) as (l' & -> & Hf); [by destruct (SerializeRequest op); injection E as <- _|].
  exists l'. destruct (SerializeRequest op); injection E as <- <-; by rewrite Hf.
Qed.

(** The appends of one process: the log stays whole, or ends in what one append has
    written of its record. *)
Lemma append_all_holds ops old l :
  el_open l = true → el_good l = true → log_holds old (el_file l) → Forall (λ x, op_bounded x.1) ops →
  let '(l', acked) := append_all ops l in
  log_holds (old ++ acked) (el_file l') ∨
  ∃ base op n d, log_holds (old ++ acked) base ∧ (op, IoShort n) ∈ ops ∧ SerializeRequest op = Some d ∧
    zlen d < 2 ^ 32 ∧ el_file l' = base ++ take n (edit_record d).
Proof.
  intros Ho Hg Hh Hops. revert old l Ho Hg Hh.
  induction Hops as [|[op io] ops Hop _ IH]; intros old l Ho Hg Hh; [left; by rewrite app_nil_r|].
  cbn [append_all]. pose proof (Append_holds old op io l Ho Hg Hh Hop) as Ha.
  destruct (Append op io l) as [l1 ok]. destruct Ha as [(Ho1 & Hg1 & Hh1)|(-> & Hg1 & n & d & -> & Hd & Hf)].
  - specialize (IH _ l1 Ho1 Hg1 Hh1). destruct (append_all ops l1) as [l' acked].
    replace (old ++ (if ok then op :: acked else acked)) with ((old ++ if ok then [op] else []) ++ acked)
      by (destruct ok; by rewrite <- app_assoc).
    destruct IH as [?|(base & op' & n & d & ? & ? & ?)]; [by left|right]. exists base, op', n, d.
    split_and!; [done|by right|tauto..].
  - destruct (append_all_failed ops l1 Hg1) as (l' & -> & Hf'). right. exists (el_file l), op, n, d.
    rewrite app_nil_r. split_and!; [done|by left|done|by apply Hop|by rewrite Hf'].
Qed.

(** A process none of whose writes is cut short. *)
Lemma append_all_good ops old l :
  el_open l = true → el_good l = true → log_holds old (el_file l) →
  Forall (λ x, op_bounded x.1 ∧ x.2 = IoOk) ops →
  let '(l', acked) := append_all ops l in log_holds (old ++ acked) (el_file l').
Proof.
  intros Ho Hg Hh Hops. assert (Forall (λ x, op_bounded x.1) ops) as Hb.
  { apply (Forall_impl _ _ _ Hops). by intros x [? _]. }
  pose proof (append_all_holds ops old l Ho Hg Hh Hb) as Ha. destruct (append_all ops l) as [l' acked].
  destruct Ha as [?|(base & op & n & d & _ & Hin & _)]; [done|].
  rewrite Forall_forall in Hops. destruct (Hops _ Hin) as [_ [=]].
Qed.

Lemma parsed_holds ops datas :
  Forall2 (λ op d, SerializeRequest op = Some d ∧ zlen d < 2 ^ 32) ops datas → parsed datas = ops.
Proof using parse_serialize.
  unfold parsed. induction 1 as [|op d ops datas [Hd _] _ IH]; [done|].
  cbn [omap list_omap]. by rewrite (parse_serialize op d Hd), IH.
Qed.

(** Reading a log that holds some requests and then a tail that ends the reading. *)
Lemma Replay_holds ops content tail :
  log_holds ops content →
  (∀ f, (0 < f)%nat → Replay_loop f (mkStream (content ++ tail) (zlen content) false) = Some []) →
  Replay (content ++ tail) = Some ops.
Proof using parse_serialize.
  intros (datas & Hf & ->) Htail. unfold Replay, open_stream.
  rewrite <- (parsed_holds ops datas Hf).
  assert (Forall (λ d, zlen d < 2 ^ 32) datas) as Hd.
  { clear Htail. induction Hf as [|op d ops datas [_ Hd] _ IH]; by constructor. }
  apply (Replay_records datas [] tail); [done| |exact Htail].
  rewrite length_app. enough (length datas ≤ length (records datas))%nat by lia.
  clear. unfold records. induction datas as [|d datas IH]; [done|]. cbn [map length].
  change (mjoin (?x :: ?l)) with (x ++ mjoin l). rewrite length_app, edit_record_length. lia.
Qed.

(** Appending only extends the file, by the records of the requests. *)
Lemma append_all_extends ops base :
  Forall op_fits ops →
  ∃ later l, append_all (map (λ op, (op, IoOk)) ops) (mkEditLog base true true) = (l, ops) ∧
    el_file l = base ++ later ∧ length later = sum_list_with (λ op, 4 + op_size op)%nat ops.
Proof.
  intros Hops. revert base. induction Hops as [|op ops (d & Hd & Hz) Hops IH]; intros base.
  - exists [], (mkEditLog base true true). by rewrite app_nil_r.
  - cbn [map append_all]. unfold Append. rewrite Hd. cbn [el_open el_good andb el_file].
    destruct (IH (base ++ edit_record d)) as (later & l & -> & Hf & Hl).
    exists (edit_record d ++ later), l. rewrite Hf, <- app_assoc. split_and!; [done|done|].
    rewrite length_app, Hl, edit_record_length. cbn [sum_list_with].
    rewrite (op_size_serialized op d Hd). lia.
Qed.

(** The log after the last process, whose writes may be cut short. *)
Lemma Replay_last_life old ops file :
  log_holds old file → Forall (λ x, op_bounded x.1) ops →
  let '(l, acked) := append_all ops (mkEditLog file true true) in
  ∃ tail, Replay (el_file l) = Some (old ++ acked ++ tail) ∧
    (tail = [] ∨ ∃ op n d, tail = [op] ∧ (op, IoShort n) ∈ ops ∧ SerializeRequest op = Some d ∧ (4 + length d <= n)%nat).
Proof using parse_serialize.
  intros Hh Hb. pose proof (append_all_holds ops old (mkEditLog file true true) eq_refl eq_refl Hh Hb) as Ha.
  destruct (append_all ops _) as [l acked]. assert (∀ all content, log_holds all content → Replay content = Some all) as Hwhole.
  { intros all content Hall. rewrite <- (app_nil_r content). apply Replay_holds; [done|].
    intros f Hf. rewrite app_nil_r. by apply Replay_end. }
  destruct Ha as [Hl|(base & op & n & d & Hl & Hin & Hd & Hz & ->)].
  - exists []. rewrite app_nil_r. split; [by apply Hwhole|by left].
  - destruct (decide (n < length (edit_record d))%nat) as [Hn|Hn].
    + exists []. rewrite app_nil_r. split; [|by left]. apply Replay_holds; [done|]. intros f Hf. by apply Replay_torn.
    + exists [op]. rewrite take_ge by lia. rewrite edit_record_length in Hn. split; [|right; exists op, n, d; split_and!; [done..|lia]].
      rewrite app_assoc. by apply Hwhole, log_holds_snoc.
Qed.

(** C35: what [Append] acknowledged, [Replay] gives back, in order, over any number of
    processes that open the log one after the other, as long as every write before
    the last process was whole; the writes of the last process may be cut short
    anywhere.  At most one request more is given back, one whose record reached the
    file although [Append] did not acknowledge it.  (When the log is opened again
    after a tear, this ends: [edit_log_tear_hides_later_requests].) *)
Theorem edit_log_durable old file earlier last :
  log_holds old file → Forall (Forall (λ x, op_bounded x.1 ∧ x.2 = IoOk)) earlier →
  Forall (λ x, op_bounded x.1) last →
  ∃ file' acked tail, lives (earlier ++ [last]) file = Some (file', acked) ∧
    Replay file' = Some (old ++ acked ++ tail) ∧
    (tail = [] ∨ ∃ op n d, tail = [op] ∧ (op, IoShort n) ∈ last ∧ SerializeRequest op = Some d ∧ (4 + length d <= n)%nat).
Proof using parse_serialize.
  intros Hh He Hb. revert old file Hh. induction He as [|ops earlier Hops _ IH]; intros old file Hh.
  - cbn [app lives]. unfold EditLog_new. cbn [mbind option_bind].
    pose proof (Replay_last_life old last file Hh Hb) as Hl. destruct (append_all last _) as [l acked].
    destruct Hl as (tail & HR & Ht). exists (el_file l), acked, tail. cbn. by rewrite app_nil_r.
  - cbn [app lives]. unfold EditLog_new. cbn [mbind option_bind].
    pose proof (append_all_good ops old (mkEditLog file true true) eq_refl eq_refl Hh Hops) as Hg.
    destruct (append_all ops _) as [l acked]. destruct (IH _ _ Hg) as (file' & acked' & tail & E & HR & Ht).
    exists file', (acked ++ acked'), tail. cbn [EditLog_Close el_file]. rewrite E. cbn [mbind option_bind].
    rewrite <- app_assoc in HR. rewrite <- app_assoc. by split_and!.
Qed.

(** The log is reopened for appending after a crash without cutting off a
    torn record, so requests acknowledged afterwards are read as the missing bytes
    of that record: as long as they do not fill it, [Replay] loses them all. *)
Theorem edit_log_tear_hides_later_requests old torn n l1 l2 ops :
  log_holds old (el_file l1) → el_open l1 = true → el_good l1 = true →
  op_fits torn → (4 <= n)%nat → Forall op_fits ops →
  (n + sum_list_with (λ op, 4 + op_size op)%nat ops < 4 + op_size torn)%nat →
  EditLog_new (el_file (fst (Append torn (IoShort n) l1))) true = Some l2 →
  ∃ l3, append_all (map (λ op, (op, IoOk)) ops) l2 = (l3, ops) ∧ Replay (el_file l3) = Some old.
Proof using parse_serialize.
  intros Hh Ho Hg (d & Hd & Hz) Hn Hops Hsize [= <-]. rewrite (op_size_serialized _ _ Hd) in Hsize.
  unfold Append. rewrite Hd, Ho, Hg. cbn [andb fst el_file].
  set (base := el_file l1 ++ take n (edit_record d)).
  destruct (append_all_extends ops base Hops) as (later & l3 & -> & Hf & Hl).
  exists l3. split; [done|]. rewrite Hf. subst base. rewrite <- app_assoc.
  apply Replay_holds; [done|]. intros f Hf0. rewrite take_edit_record by (done || lia).
  rewrite <- app_assoc. apply Replay_incomplete; [done| |done].
  rewrite length_app, length_take, Hl. lia.
Qed.

End EditLog.

(** * A concrete codec: a request is its own bytes *)

(** Two processes; the last write of the second is torn. *)
Definition demo_earlier : list (list (bytes * io_result)) := [[(str "create /a", IoOk); (str "delete /a", IoOk)]].
Definition demo_last : list (bytes * io_result) := [(str "create /c", IoOk); (str "create /d", IoShort 7)].

Lemma edit_log_durable_witness :
  ∃ file' acked tail, lives Some (demo_earlier ++ [demo_last]) (records [str "create /b"]) = Some (file', acked) ∧
    Replay Some file' = Some ([str "create /b"] ++ acked ++ tail) ∧
    (tail = [] ∨ ∃ op n d, tail = [op] ∧ (op, IoShort n) ∈ demo_last ∧ Some op = Some d ∧ (4 + length d <= n)%nat).
Proof.
  apply (edit_log_durable (Req := bytes) Some Some ltac:(congruence) [str "create /b"]).
  - exists [str "create /b"]. split; [|done]. repeat constructor.
  - repeat (apply Forall_cons; split; [|]); try apply Forall_nil_2; split; try done; by intros d [= <-].
  - repeat (apply Forall_cons; split; [|]); try apply Forall_nil_2; by intros d [= <-].
Defined.

Lemma edit_log_tear_hides_later_requests_witness :
  ∃ l3, append_all (Req := bytes) Some (map (λ op, (op, IoOk)) [str "x"; str "y"])
      (mkEditLog (records [str "create /b"] ++ take 4 (edit_record (str "a long request"))) true true) =
      (l3, [str "x"; str "y"]) ∧
    Replay Some (el_file l3) = Some [str "create /b"].
Proof.
  apply (edit_log_tear_hides_later_requests (Req := bytes) Some Some ltac:(congruence)
    [str "create /b"] (str "a long request") 4 (mkEditLog (records [str "create /b"]) true true));
    [exists [str "create /b"]; split; [repeat constructor|done]|done|done
    |eexists; split; [done|by vm_compute]|lia| |by vm_compute; lia|done].
  repeat (apply Forall_cons; split; [eexists; split; [done|by vm_compute]|]). apply Forall_nil_2.
Defined.
