(* ===== verification/NameNode.v ===== *)
(** The name node: src/namenode/namenode_namenode_server.cc and the messages of
    src/proto/namenode.proto.

    A handler is one function of the tables; [HandleAllocateBlock], whose calls
    lock the metadata store one after the other, is also cut into these calls so
    that two of them can interleave.  The protobuf codec is a parameter of
    [ProcessRequest], and so is the time each handler reads. *)
From S2P Require Import Prelude Wal Metadata EditLog.

(** * Messages *)

(** The enumeration is open in proto3: other numbers can arrive. *)
Inductive OpType :=
| CREATE_FILE | ALLOCATE_BLOCK | GET_FILE_BLOCKS | DELETE_FILE | LIST_FILES
| REGISTER_DN | HEARTBEAT | BLOCK_REPORT | OTHER_OP (v : Z).

Record RegisterDataNodeRequest := mkRegister {
  reg_datanode_id : bytes; reg_host : bytes; reg_port : Z; reg_free_space : Z }.

Record HeartbeatRequest := mkHeartbeat {
  hb_datanode_id : bytes; hb_timestamp : Z; hb_free_space : Z; hb_block_count : Z }.

Record BlockReportItem := mkReportItem { br_block_id : Z; br_size : Z; br_crc32 : Z }.

Record BlockReportRequest := mkReport { br_datanode_id : bytes; br_blocks : list BlockReportItem }.

(** The messages of one string field are that string. *)
Record NameNodeRequest := mkRequest {
  req_op : OpType;
  req_id : Z;
  req_create_file : bytes;
  req_allocate_block : bytes;
  req_get_file_blocks : bytes;
  req_delete_file : bytes;
  req_list_files : bytes;
  req_register_dn : RegisterDataNodeRequest;
  req_heartbeat : HeartbeatRequest;
  req_block_report : BlockReportRequest }.

Record AllocateBlockResponse := mkAllocated { al_block_id : Z; al_datanode_addresses : list bytes }.

Record BlockLocation := mkLocation { bl_block_id : Z; bl_size : Z; bl_datanodes : list bytes }.

Record GetFileBlocksResponse := mkFileBlocks {
  fb_path : bytes; fb_size : Z; fb_blocks : list BlockLocation }.

Record FileSummary := mkSummary {
  fs_path : bytes; fs_size : Z; fs_create_time : Z; fs_block_count : Z }.

(** A sub-message is present when its [mutable_] accessor was called; [success]
    is set in each of them whenever it is. *)
Record NameNodeResponse := mkResponse {
  resp_id : Z;
  resp_success : bool;
  resp_error : bytes;
  resp_allocate_block : option AllocateBlockResponse;
  resp_get_file_blocks : option GetFileBlocksResponse;
  resp_list_files : option (list FileSummary) }.

Definition ok : NameNodeResponse := mkResponse 0 true [] None None None.
Definition error (e : bytes) : NameNodeResponse := mkResponse 0 false e None None None.
Definition allocated (id : Z) (dns : list bytes) : NameNodeResponse :=
  mkResponse 0 true [] (Some (mkAllocated id dns)) None None.
Definition file_blocks_response (r : GetFileBlocksResponse) : NameNodeResponse :=
  mkResponse 0 true [] None (Some r) None.
Definition list_response (l : list FileSummary) : NameNodeResponse :=
  mkResponse 0 true [] None None (Some l).
Definition set_request_id (i : Z) (r : NameNodeResponse) : NameNodeResponse :=
  mkResponse i (resp_success r) (resp_error r) (resp_allocate_block r) (resp_get_file_blocks r)
    (resp_list_files r).

(** ** Decidable equality and countability of the messages *)

#[export] Instance OpType_eq_dec : EqDecision OpType.
Proof. solve_decision. Defined.
#[export] Instance RegisterDataNodeRequest_eq_dec : EqDecision RegisterDataNodeRequest.
Proof. solve_decision. Defined.
#[export] Instance HeartbeatRequest_eq_dec : EqDecision HeartbeatRequest.
Proof. solve_decision. Defined.
#[export] Instance BlockReportItem_eq_dec : EqDecision BlockReportItem.
Proof. solve_decision. Defined.
#[export] Instance BlockReportRequest_eq_dec : EqDecision BlockReportRequest.
Proof. solve_decision. Defined.
#[export] Instance NameNodeRequest_eq_dec : EqDecision NameNodeRequest.
Proof. solve_decision. Defined.
#[export] Instance AllocateBlockResponse_eq_dec : EqDecision AllocateBlockResponse.
Proof. solve_decision. Defined.
#[export] Instance BlockLocation_eq_dec : EqDecision BlockLocation.
Proof. solve_decision. Defined.
#[export] Instance GetFileBlocksResponse_eq_dec : EqDecision GetFileBlocksResponse.
Proof. solve_decision. Defined.
#[export] Instance FileSummary_eq_dec : EqDecision FileSummary.
Proof. solve_decision. Defined.
#[export] Instance NameNodeResponse_eq_dec : EqDecision NameNodeResponse.
Proof. solve_decision. Defined.

Definition op_number (op : OpType) : Z + Z :=
  match op with
  | CREATE_FILE => inl 0 | ALLOCATE_BLOCK => inl 1 | GET_FILE_BLOCKS => inl 2 | DELETE_FILE => inl 3
  | LIST_FILES => inl 4 | REGISTER_DN => inl 5 | HEARTBEAT => inl 6 | BLOCK_REPORT => inl 8
  | OTHER_OP v => inr v
  end.
Definition number_op (n : Z + Z) : OpType :=
  match n with
  | inl 0 => CREATE_FILE | inl 1 => ALLOCATE_BLOCK | inl 2 => GET_FILE_BLOCKS | inl 3 => DELETE_FILE
  | inl 4 => LIST_FILES | inl 5 => REGISTER_DN | inl 6 => HEARTBEAT | inl 8 => BLOCK_REPORT
  | inl v | inr v => OTHER_OP v
  end.
#[export] Instance OpType_countable : Countable OpType.
Proof. apply (inj_countable' op_number number_op). by intros []. Defined.
#[export] Instance RegisterDataNodeRequest_countable : Countable RegisterDataNodeRequest.
Proof.
  apply (inj_countable' (λ r, (reg_datanode_id r, reg_host r, reg_port r, reg_free_space r))
    (λ '(a, b, c, d), mkRegister a b c d)). by intros [].
Defined.
#[export] Instance HeartbeatRequest_countable : Countable HeartbeatRequest.
Proof.
  apply (inj_countable' (λ r, (hb_datanode_id r, hb_timestamp r, hb_free_space r, hb_block_count r))
    (λ '(a, b, c, d), mkHeartbeat a b c d)). by intros [].
Defined.
#[export] Instance BlockReportItem_countable : Countable BlockReportItem.
Proof.
  apply (inj_countable' (λ r, (br_block_id r, br_size r, br_crc32 r)) (λ '(a, b, c), mkReportItem a b c)).
  by intros [].
Defined.
#[export] Instance BlockReportRequest_countable : Countable BlockReportRequest.
Proof.
  apply (inj_countable' (λ r, (br_datanode_id r, br_blocks r)) (λ '(a, b), mkReport a b)). by intros [].
Defined.
#[export] Instance NameNodeRequest_countable : Countable NameNodeRequest.
Proof.
  apply (inj_countable' (λ r, (req_op r, req_id r, req_create_file r, req_allocate_block r,
      req_get_file_blocks r, req_delete_file r, req_list_files r, req_register_dn r, req_heartbeat r,
      req_block_report r))
    (λ '(a, b, c, d, e, f, g, h, i, j), mkRequest a b c d e f g h i j)). by intros [].
Defined.
#[export] Instance AllocateBlockResponse_countable : Countable AllocateBlockResponse.
Proof.
  apply (inj_countable' (λ r, (al_block_id r, al_datanode_addresses r)) (λ '(a, b), mkAllocated a b)).
  by intros [].
Defined.
#[export] Instance BlockLocation_countable : Countable BlockLocation.
Proof.
  apply (inj_countable' (λ r, (bl_block_id r, bl_size r, bl_datanodes r)) (λ '(a, b, c), mkLocation a b c)).
  by intros [].
Defined.
#[export] Instance GetFileBlocksResponse_countable : Countable GetFileBlocksResponse.
Proof.
  apply (inj_countable' (λ r, (fb_path r, fb_size r, fb_blocks r)) (λ '(a, b, c), mkFileBlocks a b c)).
  by intros [].
Defined.
#[export] Instance FileSummary_countable : Countable FileSummary.
Proof.
  apply (inj_countable' (λ r, (fs_path r, fs_size r, fs_create_time r, fs_block_count r))
    (λ '(a, b, c, d), mkSummary a b c d)). by intros [].
Defined.
#[export] Instance NameNodeResponse_countable : Countable NameNodeResponse.
Proof.
  apply (inj_countable' (λ r, (resp_id r, resp_success r, resp_error r, resp_allocate_block r,
      resp_get_file_blocks r, resp_list_files r))
    (λ '(a, b, c, d, e, f), mkResponse a b c d e f)). by intros [].
Defined.

(** * The server *)

Record NameNodeServer := mkServer {
  metadata_ : MetadataStore;
  block_manager_ : BlockManager;
  dn_manager_ : DataNodeManager;
  edit_log_ : EditLog }.

Definition set_metadata (m : MetadataStore) (s : NameNodeServer) : NameNodeServer :=
  mkServer m (block_manager_ s) (dn_manager_ s) (edit_log_ s).
Definition set_block_manager (b : BlockManager) (s : NameNodeServer) : NameNodeServer :=
  mkServer (metadata_ s) b (dn_manager_ s) (edit_log_ s).
Definition set_dn_manager (d : DataNodeManager) (s : NameNodeServer) : NameNodeServer :=
  mkServer (metadata_ s) (block_manager_ s) d (edit_log_ s).
Definition set_edit_log (l : EditLog) (s : NameNodeServer) : NameNodeServer :=
  mkServer (metadata_ s) (block_manager_ s) (dn_manager_ s) l.

Definition HandleCreateFile (now : Z) (path : bytes) (s : NameNodeServer) :
    NameNodeServer * NameNodeResponse :=
  match CreateFile now path (metadata_ s) with
  | (m, None) => (set_metadata m s, error (str "File already exists: " ++ path))
  | (m, Some _) => (set_metadata m s, ok)
  end.

(** The calls of [HandleAllocateBlock], each under its own lock. *)
Definition allocate_check `{Iteration} (path : bytes) (s : NameNodeServer) :
    NameNodeResponse + list DataNodeInfo :=
  match GetFile path (metadata_ s) with
  | None => inl (error (str "File not found: " ++ path))
  | Some _ =>
      match GetAliveDataNodes (dn_manager_ s) with
      | [] => inl (error (str "No available DataNode"))
      | alive => inr alive
      end
  end.

(** [AllocateBlock] and [CommitBlock]; [Some (_, None)] is the exception. *)
Definition allocate_block (alive : list DataNodeInfo) (s : NameNodeServer) :
    option (NameNodeServer * option BlockInfo) :=
  '(b, r) ← AllocateBlock alive (block_manager_ s);
  let s := set_block_manager b s in
  match r with
  | None => Some (s, None)
  | Some info => Some (set_metadata (CommitBlock info (metadata_ s)) s, Some info)
  end.

(** [UpdateFile] with the copy of the entry that [GetFile] returned. *)
Definition allocate_update (now : Z) (path : bytes) (id : Z) (f : option FileInfo)
    (s : NameNodeServer) : NameNodeServer :=
  match f with
  | None => s
  | Some f =>
      let f := mkFile (file_path f) (file_size f) (file_create_time f) (file_modify_time f)
                 (file_blocks f ++ [id]) in
      set_metadata (fst (UpdateFile now path f (metadata_ s))) s
  end.

Definition HandleAllocateBlock `{Iteration} (now : Z) (path : bytes) (s : NameNodeServer) :
    option (NameNodeServer * NameNodeResponse) :=
  match allocate_check path s with
  | inl resp => Some (s, resp)
  | inr alive =>
      '(s, r) ← allocate_block alive s;
      match r with
      | None => Some (s, error (str "No available DataNode to allocate block"))
      | Some info =>
          let s := allocate_update now path (block_id info) (GetFile path (metadata_ s)) s in
          Some (s, allocated (block_id info) (block_locations info))
      end
  end.

(** The location message of one block of a file. *)
Definition block_location (m : MetadataStore) (id : Z) : BlockLocation :=
  match GetBlock id m with
  | Some b => mkLocation id (block_size b) (block_locations b)
  | None => mkLocation id 0 []
  end.

Definition HandleGetFileBlocks (path : bytes) (s : NameNodeServer) : NameNodeResponse :=
  match GetFile path (metadata_ s) with
  | None => error (str "File not found: " ++ path)
  | Some f =>
      file_blocks_response (mkFileBlocks (file_path f) (file_size f)
        (map (block_location (metadata_ s)) (file_blocks f)))
  end.

Definition delete_blocks (ids : list Z) (m : MetadataStore) : MetadataStore :=
  foldl (λ m id, fst (DeleteBlock id m)) m ids.

Definition HandleDeleteFile (path : bytes) (s : NameNodeServer) : NameNodeServer * NameNodeResponse :=
  match GetFile path (metadata_ s) with
  | None => (s, error (str "File not found: " ++ path))
  | Some f =>
      let m := delete_blocks (file_blocks f) (metadata_ s) in
      (set_metadata (fst (DeleteFile path m)) s, ok)
  end.

Definition file_summary (f : FileInfo) : FileSummary :=
  mkSummary (file_path f) (file_size f) (file_create_time f) (int32 (zlen (file_blocks f))).

Definition HandleListFiles `{Iteration} (dir : bytes) (s : NameNodeServer) : NameNodeResponse :=
  list_response (map file_summary (ListFiles dir (metadata_ s))).

Definition HandleRegisterDN (now : Z) (req : RegisterDataNodeRequest) (s : NameNodeServer) :
    NameNodeServer * NameNodeResponse :=
  let info := mkDataNode (reg_datanode_id req) (reg_host req) (reg_port req) ALIVE 0
                (reg_free_space req) 0 in
  (set_dn_manager (RegisterDataNode now info (dn_manager_ s)) s, ok).

Definition HandleHeartbeat (now : Z) (req : HeartbeatRequest) (s : NameNodeServer) :
    NameNodeServer * NameNodeResponse :=
  match Metadata.HandleHeartbeat now (hb_datanode_id req) (hb_free_space req)
          (int32 (hb_block_count req)) (dn_manager_ s) with
  | (d, true) => (set_dn_manager d s, ok)
  | (d, false) =>
      (set_dn_manager d s, error (str "DataNode not registered: " ++ hb_datanode_id req))
  end.

(** The body of the loop of [HandleBlockReport]. *)
Definition report_block (dn : bytes) (m : MetadataStore) (item : BlockReportItem) : MetadataStore :=
  let m := UpdateBlockLocation (br_block_id item) dn m in
  match GetBlock (br_block_id item) m with
  | Some b =>
      if (block_size b =? 0) && (0 <? br_size item)
      then fst (UpdateBlock (mkBlock (block_id b) (br_size item) (block_locations b)) m)
      else m
  | None => m
  end.

Definition HandleBlockReport (req : BlockReportRequest) (s : NameNodeServer) :
    NameNodeServer * NameNodeResponse :=
  (set_metadata (foldl (report_block (br_datanode_id req)) (metadata_ s) (br_blocks req)) s, ok).

(** The [switch] of [ProcessRequest]; a request that changes the name space is
    appended to the edit log, whatever its answer. *)
Section Serve.
Context (SerializeRequest : NameNodeRequest → option bytes).

Definition log_request (req : NameNodeRequest) (io : io_result) (s : NameNodeServer) :
    NameNodeServer :=
  set_edit_log (fst (Append SerializeRequest req io (edit_log_ s))) s.

Definition serve_op `{Iteration} (now : Z) (io : io_result) (req : NameNodeRequest)
    (s : NameNodeServer) : option (NameNodeServer * NameNodeResponse) :=
  match req_op req with
  | CREATE_FILE =>
      let '(s, r) := HandleCreateFile now (req_create_file req) s in Some (log_request req io s, r)
  | ALLOCATE_BLOCK => HandleAllocateBlock now (req_allocate_block req) s
  | GET_FILE_BLOCKS => Some (s, HandleGetFileBlocks (req_get_file_blocks req) s)
  | DELETE_FILE =>
      let '(s, r) := HandleDeleteFile (req_delete_file req) s in Some (log_request req io s, r)
  | LIST_FILES => Some (s, HandleListFiles (req_list_files req) s)
  | REGISTER_DN => Some (HandleRegisterDN now (req_register_dn req) s)
  | HEARTBEAT => Some (HandleHeartbeat now (req_heartbeat req) s)
  | BLOCK_REPORT => Some (HandleBlockReport (req_block_report req) s)
  | OTHER_OP _ => Some (s, error (str "Unknown operation"))
  end.

Context (ParseRequest : bytes → option NameNodeRequest).
Context (SerializeResponse : NameNodeResponse → bytes).

(** [ProcessRequest(conn, data)]: the bytes sent back, if any. *)
Definition ProcessRequest `{Iteration} (now : Z) (io : io_result) (data : bytes)
    (s : NameNodeServer) : option (NameNodeServer * option bytes) :=
  match ParseRequest data with
  | None => Some (s, None)
  | Some req =>
      '(s, resp) ← serve_op now io req s;
      Some (s, Some (SerializeResponse (set_request_id (req_id req) resp)))
  end.

(** The callback the constructor gives to [Replay]. *)
Definition replay_request (now : Z) (m : MetadataStore) (op : NameNodeRequest) : MetadataStore :=
  match req_op op with
  | CREATE_FILE => fst (CreateFile now (req_create_file op) m)
  | _ => m
  end.

(** The constructor, on the bytes of edit.log. *)
Definition NameNodeServer_new (now : Z) (edit_log : bytes) (can_open : bool) : option NameNodeServer :=
  log ← EditLog_new edit_log can_open;
  ops ← Replay ParseRequest edit_log;
  Some (mkServer (foldl (replay_request now) MetadataStore_new ops) BlockManager_new ∅ log).
End Serve.

(** * The name space as an abstract object *)

(** Each file is the list of its blocks, with the data nodes each was given; the
    identifiers handed out so far; the data nodes known. *)
Record Namespace := mkNamespace {
  ns_files : gmap bytes (list (Z * list bytes));
  ns_issued : list Z;
  ns_nodes : DataNodeManager }.

Definition with_files (f : gmap bytes (list (Z * list bytes))) (ns : Namespace) : Namespace :=
  mkNamespace f (ns_issued ns) (ns_nodes ns).
Definition with_nodes (d : DataNodeManager) (ns : Namespace) : Namespace :=
  mkNamespace (ns_files ns) (ns_issued ns) d.
Definition with_block (path : bytes) (l : list (Z * list bytes)) (id : Z) (dns : list bytes)
    (ns : Namespace) : Namespace :=
  mkNamespace (<[path := l ++ [(id, dns)]]> (ns_files ns)) (id :: ns_issued ns) (ns_nodes ns).

(** A data node a block can be placed on. *)
Definition has_room (nodes : DataNodeManager) (id : bytes) : Prop :=
  ∃ n, nodes !! id = Some n ∧ dn_status n = ALIVE ∧ kBlockSize <= dn_free_space n.

(** What a reader is told of a block: its identifier, and at least the data nodes
    its writer was given. *)
Definition tells (b : Z * list bytes) (l : BlockLocation) : Prop :=
  bl_block_id l = fst b ∧ snd b ⊆ bl_datanodes l.

(** The answers the name space promises. *)
Inductive answers (now : Z) (req : NameNodeRequest) (ns : Namespace) : NameNodeResponse → Namespace → Prop :=
| ans_create path :
    req_op req = CREATE_FILE → req_create_file req = path → ns_files ns !! path = None →
    answers now req ns ok (with_files (<[path := []]> (ns_files ns)) ns)
| ans_create_exists path :
    req_op req = CREATE_FILE → req_create_file req = path → is_Some (ns_files ns !! path) →
    answers now req ns (error (str "File already exists: " ++ path)) ns
| ans_allocate path l id dns :
    req_op req = ALLOCATE_BLOCK → req_allocate_block req = path → ns_files ns !! path = Some l →
    (id ∉ ns_issued ns) → dns ≠ [] → NoDup dns →
    zlen dns = kReplicationFactor ∨ (zlen dns < kReplicationFactor ∧ ∀ dn, has_room (ns_nodes ns) dn → dn ∈ dns) →
    Forall (has_room (ns_nodes ns)) dns →
    answers now req ns (allocated id dns) (with_block path l id dns ns)
| ans_allocate_missing path :
    req_op req = ALLOCATE_BLOCK → req_allocate_block req = path → ns_files ns !! path = None →
    answers now req ns (error (str "File not found: " ++ path)) ns
| ans_allocate_full path e :
    req_op req = ALLOCATE_BLOCK → req_allocate_block req = path → is_Some (ns_files ns !! path) →
    (∀ dn, ¬ has_room (ns_nodes ns) dn) →
    answers now req ns (error e) ns
| ans_get path l size locs :
    req_op req = GET_FILE_BLOCKS → req_get_file_blocks req = path → ns_files ns !! path = Some l →
    Forall2 tells l locs →
    answers now req ns (file_blocks_response (mkFileBlocks path size locs)) ns
| ans_get_missing path :
    req_op req = GET_FILE_BLOCKS → req_get_file_blocks req = path → ns_files ns !! path = None →
    answers now req ns (error (str "File not found: " ++ path)) ns
| ans_delete path :
    req_op req = DELETE_FILE → req_delete_file req = path → is_Some (ns_files ns !! path) →
    answers now req ns ok (with_files (delete path (ns_files ns)) ns)
| ans_delete_missing path :
    req_op req = DELETE_FILE → req_delete_file req = path → ns_files ns !! path = None →
    answers now req ns (error (str "File not found: " ++ path)) ns
| ans_list dir l :
    req_op req = LIST_FILES → req_list_files req = dir → NoDup (map fs_path l) →
    (∀ path, path ∈ map fs_path l ↔ is_Some (ns_files ns !! path) ∧ starts_with dir path = true) →
    (∀ f, f ∈ l → ∃ bs, ns_files ns !! fs_path f = Some bs ∧ fs_block_count f = int32 (zlen bs)) →
    answers now req ns (list_response l) ns
| ans_register :
    req_op req = REGISTER_DN →
    answers now req ns ok
      (with_nodes (RegisterDataNode now (mkDataNode (reg_datanode_id (req_register_dn req))
         (reg_host (req_register_dn req)) (reg_port (req_register_dn req)) ALIVE 0
         (reg_free_space (req_register_dn req)) 0) (ns_nodes ns)) ns)
| ans_heartbeat d b r :
    req_op req = HEARTBEAT →
    Metadata.HandleHeartbeat now (hb_datanode_id (req_heartbeat req))
      (hb_free_space (req_heartbeat req)) (int32 (hb_block_count (req_heartbeat req)))
      (ns_nodes ns) = (d, b) →
    resp_success r = b →
    answers now req ns r (with_nodes d ns)
| ans_report :
    req_op req = BLOCK_REPORT → answers now req ns ok ns
| ans_other v r :
    req_op req = OTHER_OP v → resp_success r = false → answers now req ns r ns.

(** What happens to a server: a request, or the health check of its timer. *)
Inductive NnEvent :=
| Serve (now : Z) (io : io_result) (req : NameNodeRequest)
| HealthCheck (now : Z).

Section Run.
Context `{Iteration} (SerializeRequest : NameNodeRequest → option bytes).

(** The answers to the requests, in order. *)
Fixpoint nn_run (evs : list NnEvent) (s : NameNodeServer) :
    option (NameNodeServer * list NameNodeResponse) :=
  match evs with
  | [] => Some (s, [])
  | Serve now io req :: evs =>
      '(s, r) ← serve_op SerializeRequest now io req s;
      '(s, rs) ← nn_run evs s;
      Some (s, r :: rs)
  | HealthCheck now :: evs =>
      nn_run evs (set_dn_manager (CheckDataNodeHealth now (dn_manager_ s)) s)
  end.
End Run.

Inductive ns_run : list NnEvent → Namespace → list NameNodeResponse → Namespace → Prop :=
| ns_run_nil ns : ns_run [] ns [] ns
| ns_run_serve now io req evs ns r ns1 rs ns2 :
    answers now req ns r ns1 → ns_run evs ns1 rs ns2 →
    ns_run (Serve now io req :: evs) ns (r :: rs) ns2
| ns_run_check now evs ns rs ns1 :
    ns_run evs (with_nodes (CheckDataNodeHealth now (ns_nodes ns)) ns) rs ns1 →
    ns_run (HealthCheck now :: evs) ns rs ns1.

(** The tables agree with the abstract name space. *)
Record represents (ns : Namespace) (s : NameNodeServer) : Prop := mkRepresents {
  rep_file : ∀ path, ns_files ns !! path = None ↔ files_ (metadata_ s) !! path = None;
  rep_entry : ∀ path l f, ns_files ns !! path = Some l → files_ (metadata_ s) !! path = Some f →
    file_path f = path ∧ file_blocks f = map fst l;
  rep_block : ∀ path l id dns, ns_files ns !! path = Some l → (id, dns) ∈ l →
    ∃ b, blocks_ (metadata_ s) !! id = Some b ∧ dns ⊆ block_locations b;
  rep_nodup : ∀ path l, ns_files ns !! path = Some l → NoDup (map fst l);
  rep_owner : ∀ p1 p2 l1 l2 id, ns_files ns !! p1 = Some l1 → ns_files ns !! p2 = Some l2 →
    id ∈ map fst l1 → id ∈ map fst l2 → p1 = p2;
  rep_issued : ∀ path l id, ns_files ns !! path = Some l → id ∈ map fst l → id ∈ ns_issued ns;
  rep_next : ∀ id, id ∈ ns_issued ns → id < next_block_id_ (block_manager_ s);
  rep_nodes : ns_nodes ns = dn_manager_ s;
  rep_ids : ∀ id n, dn_manager_ s !! id = Some n → dn_id n = id;
  rep_cursor : 0 <= round_robin_index_ (block_manager_ s);
}.

(** How many identifiers, and how many data nodes, are left. *)
Definition room_for (k : Z) (s : NameNodeServer) : Prop :=
  1 <= next_block_id_ (block_manager_ s) ∧ next_block_id_ (block_manager_ s) + k < 2 ^ 64 ∧
  Z.of_nat (size (dn_manager_ s)) + k < 2 ^ 31.

(** * The tables keep the name space *)

Lemma set_metadata_id s : set_metadata (metadata_ s) s = s.
Proof. by destruct s. Qed.

Lemma rep_some ns s path :
  represents ns s → is_Some (ns_files ns !! path) ↔ is_Some (files_ (metadata_ s) !! path).
Proof.
  intros Hr. rewrite <- !not_eq_None_Some. apply not_iff_compat. by apply rep_file.
Qed.

(** A file and its abstract counterpart. *)
Lemma rep_lookup ns s path f :
  represents ns s → files_ (metadata_ s) !! path = Some f →
  ∃ l, ns_files ns !! path = Some l ∧ file_path f = path ∧ file_blocks f = map fst l.
Proof.
  intros Hr Hf. destruct (proj2 (rep_some ns s path Hr)) as [l Hl]; [by rewrite Hf|].
  exists l. split; [done|]. by apply (rep_entry ns s Hr).
Qed.

(** Changing the edit log or the block table upwards keeps the relation. *)
Lemma represents_grow ns s s' :
  represents ns s →
  files_ (metadata_ s') = files_ (metadata_ s) → block_manager_ s' = block_manager_ s →
  dn_manager_ s' = dn_manager_ s →
  (∀ id b, blocks_ (metadata_ s) !! id = Some b →
    ∃ b', blocks_ (metadata_ s') !! id = Some b' ∧ block_locations b ⊆ block_locations b') →
  represents ns s'.
Proof.
  intros [] Hf Hb Hd Hg. split; rewrite ?Hf, ?Hb, ?Hd; try done.
  intros path l id dns Hl Hin. destruct (rep_block0 path l id dns Hl Hin) as (b & Hbl & Hsub).
  destruct (Hg id b Hbl) as (b' & Hb' & Hsub'). exists b'. split; [done|]. by etrans.
Qed.

Lemma create_represents ns s now path io ser req :
  represents ns s → ns_files ns !! path = None →
  represents (with_files (<[path := []]> (ns_files ns)) ns)
    (log_request ser req io (set_metadata (set_files
       (<[path := mkFile path 0 now now []]> (files_ (metadata_ s))) (metadata_ s)) s)).
Proof.
  intros [] Hn. split; cbn; try done.
  - intros p. rewrite !lookup_insert_None. by rewrite rep_file0.
  - intros p l f. rewrite !lookup_insert_Some.
    intros [[<- <-]|[Hp Hl]] [[E <-]|[? Hf]]; try congruence; [done|]. by apply rep_entry0.
  - intros p l id dns. rewrite lookup_insert_Some.
    intros [[<- <-]|[Hp Hl]] Hin; [by apply elem_of_nil in Hin|]. by apply (rep_block0 p l).
  - intros p l. rewrite lookup_insert_Some. intros [[<- <-]|[Hp Hl]]; [constructor|]. by apply (rep_nodup0 p).
  - intros p1 p2 l1 l2 id. rewrite !lookup_insert_Some.
    intros [[<- <-]|[Hp1 Hl1]] [[<- <-]|[Hp2 Hl2]] H1 H2; try (by apply elem_of_nil in H1);
      try (by apply elem_of_nil in H2). by apply (rep_owner0 p1 p2 l1 l2 id).
  - intros p l id. rewrite lookup_insert_Some. intros [[<- <-]|[Hp Hl]] Hin; [by apply elem_of_nil in Hin|].
    by apply (rep_issued0 p l).
Qed.

Lemma delete_blocks_files ids m : files_ (delete_blocks ids m) = files_ m.
Proof.
  revert m. induction ids as [|id ids IH]; intros m; [done|].
  change (delete_blocks (id :: ids) m) with (delete_blocks ids (fst (DeleteBlock id m))). by rewrite IH.
Qed.

Lemma delete_blocks_other ids m id :
  (id ∉ ids) → blocks_ (delete_blocks ids m) !! id = blocks_ m !! id.
Proof.
  revert m. induction ids as [|x ids IH]; intros m Hn; [done|].
  apply not_elem_of_cons in Hn as [Hx Hn].
  change (delete_blocks (x :: ids) m) with (delete_blocks ids (fst (DeleteBlock x m))).
  rewrite IH by done. cbn.
  by rewrite lookup_delete_ne by congruence.
Qed.

Lemma delete_represents ns s path l f io ser req :
  represents ns s → ns_files ns !! path = Some l → files_ (metadata_ s) !! path = Some f →
  represents (with_files (delete path (ns_files ns)) ns)
    (log_request ser req io
       (set_metadata (fst (DeleteFile path (delete_blocks (file_blocks f) (metadata_ s)))) s)).
Proof.
  intros [] Hl Hf. destruct (rep_entry0 path l f Hl Hf) as [Hp Hb]. rewrite Hb.
  split; cbn; try done; rewrite ?delete_blocks_files.
  - intros p. rewrite !lookup_delete_None. by rewrite rep_file0.
  - intros p l' f'. rewrite !lookup_delete_Some. intros [? Hl'] [? Hf']. by apply rep_entry0.
  - intros p l' id dns. rewrite lookup_delete_Some. intros [Hne Hl'] Hin.
    rewrite delete_blocks_other; [by apply (rep_block0 p l')|]. intros Hid.
    apply Hne, (rep_owner0 path p l l' id); [done|done|done|].
    by apply (list_elem_of_fmap_2 fst _ (id, dns)).
  - intros p l'. rewrite lookup_delete_Some. intros [? Hl']. by apply (rep_nodup0 p).
  - intros p1 p2 l1 l2 id. rewrite !lookup_delete_Some. intros [? ?] [? ?]. by apply rep_owner0.
  - intros p l' id. rewrite lookup_delete_Some. intros [? ?]. by apply (rep_issued0 p).
Qed.

(** The tables after an allocation that succeeds. *)
Lemma allocate_represents ns s path l f b now dns :
  let id := next_block_id_ (block_manager_ s) in
  represents ns s → ns_files ns !! path = Some l → files_ (metadata_ s) !! path = Some f →
  next_block_id_ b = id + 1 → 0 <= round_robin_index_ b →
  represents (with_block path l id dns ns)
    (mkServer (mkStore (<[path := mkFile (file_path f) (file_size f) (file_create_time f) now
        (file_blocks f ++ [id])]> (files_ (metadata_ s)))
        (<[id := mkBlock id 0 dns]> (blocks_ (metadata_ s)))) b (dn_manager_ s) (edit_log_ s)).
Proof.
  intros id [] Hl Hf Hb Hrr. destruct (rep_entry0 path l f Hl Hf) as [Hp Hfb].
  assert (∀ p k, ns_files ns !! p = Some k → id ∉ map fst k) as Hfresh.
  { intros p k Hk Hin. apply (rep_issued0 p) in Hin; [|done]. apply rep_next0 in Hin.
    subst id. lia. }
  split; cbn; try done.
  - intros p. rewrite !lookup_insert_None. by rewrite rep_file0.
  - intros p k g. rewrite !lookup_insert_Some.
    intros [[<- <-]|[Hne Hk]] [[E <-]|[? Hg]]; try congruence.
    + cbn. rewrite map_app, Hfb. done.
    + by apply rep_entry0.
  - intros p k i ds. rewrite lookup_insert_Some. intros Hk Hin.
    destruct (decide (i = id)) as [->|Hi].
    + rewrite lookup_insert_eq. eexists. split; [done|]. cbn.
      destruct Hk as [[<- <-]|[Hne Hk]].
      * apply elem_of_app in Hin as [Hin|Hin%list_elem_of_singleton].
        -- exfalso. apply (Hfresh path l Hl). by apply (list_elem_of_fmap_2 fst _ (id, ds)).
        -- by injection Hin as ->.
      * exfalso. apply (Hfresh p k Hk). by apply (list_elem_of_fmap_2 fst _ (id, ds)).
    + rewrite lookup_insert_ne by done. destruct Hk as [[<- <-]|[Hne Hk]]; [|by apply (rep_block0 p k)].
      apply elem_of_app in Hin as [Hin|Hin%list_elem_of_singleton]; [by apply (rep_block0 path l)|congruence].
  - intros p k. rewrite lookup_insert_Some. intros [[<- <-]|[Hne Hk]]; [|by apply (rep_nodup0 p)].
    rewrite map_app. apply NoDup_app. split_and!; [by apply (rep_nodup0 path)| |apply NoDup_singleton].
    intros x Hx ->%list_elem_of_singleton. by apply (Hfresh path l).
  - intros p1 p2 l1 l2 i. rewrite !lookup_insert_Some.
    assert (∀ p k, path ≠ p → ns_files ns !! p = Some k → i ∈ map fst k →
      i ∈ map fst (l ++ [(id, dns)]) → path = p) as Hown.
    { intros p k Hne Hk Hi. rewrite map_app. intros [Hi'|Hi'%list_elem_of_singleton]%elem_of_app.
      - by apply (rep_owner0 path p l k i).
      - cbn in Hi'. subst i. by apply (Hfresh p k) in Hi. }
    intros [[<- <-]|[Hne1 H1]] [[<- <-]|[Hne2 H2]] Hi1 Hi2; [done| | |by apply (rep_owner0 p1 p2 l1 l2 i)].
    + by apply (Hown p2 l2).
    + symmetry. by apply (Hown p1 l1).
  - intros p k i. rewrite lookup_insert_Some. rewrite elem_of_cons.
    intros [[<- <-]|[Hne Hk]] Hi; [|right; by apply (rep_issued0 p k)].
    rewrite map_app in Hi. apply elem_of_app in Hi as [Hi|Hi%list_elem_of_singleton].
    + right. by apply (rep_issued0 path l).
    + left. done.
  - intros i [->|Hi]%elem_of_cons; [subst id; lia|]. specialize (rep_next0 i Hi). subst id. lia.
Qed.

(** * Each request is answered as the name space promises *)

Section Answers.
Context `{Iteration} (ser : NameNodeRequest → option bytes).

Lemma alive_elem nodes n :
  n ∈ GetAliveDataNodes nodes ↔ dn_status n = ALIVE ∧ ∃ id, nodes !! id = Some n.
Proof.
  unfold GetAliveDataNodes. rewrite list_elem_of_filter. apply and_iff_compat_l. split.
  - intros ([id m] & -> & Hin)%list_elem_of_fmap_1. exists id. by apply elem_of_elements.
  - intros [id Hn%elem_of_elements]. by apply (list_elem_of_fmap_2 snd _ (id, n)).
Qed.

(** The identifiers of the alive nodes are distinct, as the keys are. *)
Lemma alive_NoDup nodes :
  (∀ id n, nodes !! id = Some n → dn_id n = id) → NoDup (map dn_id (GetAliveDataNodes nodes)).
Proof.
  intros Hid. pose proof (NoDup_elements nodes) as Hnd. unfold GetAliveDataNodes.
  assert (∀ id n, (id, n) ∈ elements_of nodes → dn_id n = id) as He.
  { intros id n Hin%elem_of_elements. by apply Hid. }
  induction (elements_of nodes) as [|[id n] l IH]; [constructor|].
  cbn [map fst snd] in *. apply NoDup_cons in Hnd as [Hn Hnd]. rewrite filter_cons.
  assert (NoDup (map dn_id (filter (λ n, dn_status n = ALIVE) (map snd l)))) as IH'.
  { apply IH; [done|]. intros i m Hin. apply He. by apply list_elem_of_further. }
  case_decide; [|done]. cbn [map]. apply NoDup_cons. split; [|done].
  intros (m & Hm & [_ Hin]%list_elem_of_filter)%list_elem_of_fmap_1.
  apply list_elem_of_fmap_1 in Hin as ([i k] & -> & Hin). cbn [snd] in Hm. apply Hn.
  apply (list_elem_of_fmap_2 fst _ (i, k)) in Hin as Hi. cbn in Hi.
  rewrite (He id n) in Hm by apply list_elem_of_here. rewrite (He i k) in Hm by by apply list_elem_of_further.
  by subst.
Qed.

Lemma usable_room nodes n :
  n ∈ usable_nodes (GetAliveDataNodes nodes) → (∀ id n, nodes !! id = Some n → dn_id n = id) →
  has_room nodes (dn_id n).
Proof.
  intros (Hn & Ha & Hf)%usable_elem Hid. apply alive_elem in Hn as (_ & id & Hn).
  exists n. by rewrite (Hid id n Hn).
Qed.

Lemma room_usable nodes id :
  has_room nodes id → ∃ n, nodes !! id = Some n ∧ n ∈ usable_nodes (GetAliveDataNodes nodes).
Proof.
  intros (n & Hn & Ha & Hf). exists n. split; [done|]. apply list_elem_of_filter.
  split; [done|]. apply alive_elem. by eauto.
Qed.

Lemma usable_size nodes : zlen (usable_nodes (GetAliveDataNodes nodes)) <= Z.of_nat (size nodes).
Proof.
  unfold zlen, usable_nodes, GetAliveDataNodes. apply inj_le. etrans; [apply length_filter|].
  etrans; [apply length_filter|]. rewrite length_map, elements_of_perm. by rewrite length_map_to_list.
Qed.

(** Without a usable node nobody has room; a node that is chosen has. *)
Lemma no_usable_no_room ns s :
  represents ns s → usable_nodes (GetAliveDataNodes (dn_manager_ s)) = [] → ∀ dn, ¬ has_room (ns_nodes ns) dn.
Proof.
  intros Hr He dn Hdn. rewrite (rep_nodes ns s Hr) in Hdn. apply room_usable in Hdn as (n & _ & Hn).
  rewrite He in Hn. by apply elem_of_nil in Hn.
Qed.

Lemma chosen_room ns s id :
  represents ns s → id ∈ map dn_id (usable_nodes (GetAliveDataNodes (dn_manager_ s))) → has_room (ns_nodes ns) id.
Proof.
  intros Hr (n & -> & Hn)%list_elem_of_fmap_1. rewrite (rep_nodes ns s Hr). apply usable_room; [done|apply (rep_ids ns s Hr)].
Qed.

(** As many different usable nodes as there are: all that have room. *)
Lemma chosen_all ns s dns dn :
  represents ns s → NoDup dns → dns ⊆ map dn_id (usable_nodes (GetAliveDataNodes (dn_manager_ s))) →
  zlen dns = zlen (usable_nodes (GetAliveDataNodes (dn_manager_ s))) → has_room (ns_nodes ns) dn → dn ∈ dns.
Proof.
  intros Hr Hnd Hin Hlen Hdn. rewrite (rep_nodes ns s Hr) in Hdn. apply room_usable in Hdn as (n & Hn & Hnu).
  pose proof (NoDup_submseteq _ _ Hnd Hin) as Hsub.
  apply submseteq_length_Permutation in Hsub; [|rewrite length_map; unfold zlen in *; lia].
  rewrite Hsub. rewrite <- (rep_ids ns s Hr dn n Hn). by apply list_elem_of_fmap_2.
Qed.

Lemma serve_allocate ns s now path :
  represents ns s → room_for 1 s →
  ∃ s' r ns', HandleAllocateBlock now path s = Some (s', r) ∧ represents ns' s' ∧
    (∀ req, req_op req = ALLOCATE_BLOCK → req_allocate_block req = path → answers now req ns r ns') ∧
    next_block_id_ (block_manager_ s') <= next_block_id_ (block_manager_ s) + 1 ∧
    1 <= next_block_id_ (block_manager_ s') ∧
    dn_manager_ s' = dn_manager_ s.
Proof.
  intros Hr (Hlo & Hid & Hsz). unfold HandleAllocateBlock, allocate_check, GetFile.
  destruct (files_ (metadata_ s) !! path) as [f|] eqn:Hf; cycle 1.
  { eexists _, _, ns. split; [done|]. split_and!; try done; [|lia].
    intros req ? ?. apply ans_allocate_missing; [done|done|]. by apply (rep_file ns s Hr). }
  destruct (rep_lookup ns s path f Hr Hf) as (l & Hl & Hp & Hb).
  destruct (GetAliveDataNodes (dn_manager_ s)) as [|d0 alive0] eqn:Halive.
  { eexists _, _, ns. split; [done|]. split_and!; try done; [|lia].
    intros req ? ?. eapply ans_allocate_full; [done|done|by rewrite Hl|].
    apply (no_usable_no_room ns s Hr). by rewrite Halive. }
  rewrite <- Halive. clear Halive d0 alive0. set (alive := GetAliveDataNodes (dn_manager_ s)).
  pose proof (alive_NoDup (dn_manager_ s) (rep_ids ns s Hr)) as Hnd.
  pose proof (usable_size (dn_manager_ s)) as Hus.
  unfold allocate_block. destruct (decide (usable_nodes alive = [])) as [He|Hne].
  { unfold AllocateBlock. rewrite He. cbn [mbind option_bind].
    eexists _, _, ns. split; [done|]. split_and!; [| |cbn; lia|done|done].
    - apply (represents_grow ns s); [done..|]. intros i b Hib. by exists b.
    - intros req ? ?. eapply ans_allocate_full; [done|done|by rewrite Hl|].
      by apply (no_usable_no_room ns s Hr). }
  destruct (AllocateBlock_places_replicas alive (block_manager_ s)) as
    (b & dns & -> & Hnb & Hrr & Hlen & Hdnd & Hin); [done|subst alive; lia|apply (rep_cursor ns s Hr)|done|].
  rewrite u64_small in Hnb by lia. cbn [mbind option_bind].
  unfold set_metadata, set_block_manager, allocate_update. cbn [metadata_ block_manager_ dn_manager_ edit_log_].
  unfold CommitBlock, AddBlock, set_blocks. cbn [files_ blocks_ block_id block_locations]. rewrite Hf.
  unfold UpdateFile, set_files. cbn [files_ blocks_]. rewrite Hf.
  cbn [fst file_path file_size file_create_time file_blocks].
  eexists _, _, _. split; [done|]. split; [by apply (allocate_represents ns s path l f b now dns)|].
  unfold set_metadata. cbn [block_manager_ dn_manager_]. split_and!; [|lia|lia|done].
  assert (dns ⊆ map dn_id (usable_nodes alive)) as Hsub.
  { intros id Hdn. destruct (Hin id Hdn) as (x & Hx & <- & ?). apply list_elem_of_fmap_2. by apply list_elem_of_filter. }
  assert (Forall (has_room (ns_nodes ns)) dns) as Hroom.
  { apply Forall_forall. intros id Hdn. by apply (chosen_room ns s id Hr), Hsub. }
  intros req Hop Hpath. apply (ans_allocate now req ns path l); try done.
  - intros Hi. apply (rep_next ns s Hr) in Hi. lia.
  - intros ->. pose proof (zlen_pos _ Hne). rewrite zlen_nil in Hlen. lia.
  - change kReplicationFactor with 3. destruct (Z.le_gt_cases 3 (zlen (usable_nodes alive))); [left; lia|].
    right. split; [lia|]. intros dn Hdn. apply (chosen_all ns s dns dn Hr Hdnd Hsub); [fold alive; lia|done].
Qed.

Lemma listed ns s dir f :
  represents ns s →
  f ∈ ListFiles dir (metadata_ s) ↔
    files_ (metadata_ s) !! file_path f = Some f ∧ starts_with dir (file_path f) = true.
Proof.
  intros Hr. unfold ListFiles. split.
  - intros ([p g] & -> & [Hd Hin]%list_elem_of_filter)%list_elem_of_fmap_1. cbn [fst snd] in *.
    apply elem_of_elements in Hin. destruct (rep_lookup ns s p g Hr Hin) as (_ & _ & -> & _). done.
  - intros [Hf Hd]. apply (list_elem_of_fmap_2 snd _ (file_path f, f)). apply list_elem_of_filter.
    split; [done|]. by apply elem_of_elements.
Qed.

Lemma listed_NoDup ns s dir :
  represents ns s → NoDup (map file_path (ListFiles dir (metadata_ s))).
Proof.
  intros Hr. unfold ListFiles. pose proof (NoDup_elements (files_ (metadata_ s))) as Hnd.
  assert (∀ p f, (p, f) ∈ elements_of (files_ (metadata_ s)) → file_path f = p) as He.
  { intros p f Hin%elem_of_elements. by destruct (rep_lookup ns s p f Hr Hin) as (_ & _ & ? & _). }
  induction (elements_of (files_ (metadata_ s))) as [|[p f] l IH]; [constructor|].
  cbn [map fst snd] in *. apply NoDup_cons in Hnd as [Hn Hnd]. rewrite filter_cons.
  assert (NoDup (map file_path (map snd (filter (λ pf, starts_with dir (fst pf) = true) l)))) as IH'.
  { apply IH; [done|]. intros q g Hin. apply He. by apply list_elem_of_further. }
  case_decide; [|done]. cbn [map snd]. apply NoDup_cons. split; [|done].
  intros (g & Hg & ([q h] & -> & [_ Hin]%list_elem_of_filter)%list_elem_of_fmap_1)%list_elem_of_fmap_1.
  cbn [snd] in Hg. apply Hn. rewrite (He p f) in Hg by apply list_elem_of_here.
  rewrite (He q h) in Hg by by apply list_elem_of_further. subst q.
  by apply (list_elem_of_fmap_2 fst _ (p, h)).
Qed.

Lemma serve_list now ns s req :
  represents ns s → req_op req = LIST_FILES →
  answers now req ns (HandleListFiles (req_list_files req) s) ns.
Proof.
  intros Hr Hop. unfold HandleListFiles. set (dir := req_list_files req).
  assert (map fs_path (map file_summary (ListFiles dir (metadata_ s))) =
    map file_path (ListFiles dir (metadata_ s))) as Hmap by by rewrite map_map.
  apply (ans_list now req ns dir); [done|done| | |].
  - rewrite Hmap. by apply (listed_NoDup ns).
  - intros path. rewrite Hmap, (rep_some ns s) by done. split.
    + intros (f & -> & Hf)%list_elem_of_fmap_1. apply (listed ns) in Hf as [-> ?]; [|done]. eauto.
    + intros [[f Hf] Hd]. destruct (rep_lookup ns s path f Hr Hf) as (_ & _ & Hp & _). rewrite <- Hp.
      apply list_elem_of_fmap_2. apply (listed ns); [done|]. by rewrite Hp.
  - intros fs (f & -> & Hf)%list_elem_of_fmap_1. apply (listed ns) in Hf as [Hf _]; [|done].
    destruct (rep_lookup ns s (file_path f) f Hr Hf) as (l & Hl & _ & Hb). exists l.
    split; [done|]. cbn. rewrite Hb. unfold zlen. by rewrite length_map.
Qed.

Lemma serve_get now ns s req :
  represents ns s → req_op req = GET_FILE_BLOCKS →
  answers now req ns (HandleGetFileBlocks (req_get_file_blocks req) s) ns.
Proof.
  intros Hr Hop. unfold HandleGetFileBlocks, GetFile.
  destruct (files_ (metadata_ s) !! req_get_file_blocks req) as [f|] eqn:Hf; cycle 1.
  { apply ans_get_missing; [done|done|]. by apply (rep_file ns s Hr). }
  destruct (rep_lookup ns s _ f Hr Hf) as (l & Hl & -> & ->).
  apply (ans_get now req ns _ l); [done|done|done|]. rewrite map_map.
  pose proof (λ id dns, rep_block ns s Hr _ l id dns Hl) as Hblk. clear Hl Hf.
  induction l as [|[id dns] l IH]; [constructor|]. cbn [map fst]. constructor.
  - destruct (Hblk id dns) as (b & Hb & Hsub); [apply list_elem_of_here|].
    unfold block_location, GetBlock. by rewrite Hb.
  - apply IH. intros i d Hin. apply Hblk. by apply list_elem_of_further.
Qed.

Lemma report_block_grows dn m item :
  files_ (report_block dn m item) = files_ m ∧
  ∀ id b, blocks_ m !! id = Some b →
    ∃ b', blocks_ (report_block dn m item) !! id = Some b' ∧ block_locations b ⊆ block_locations b'.
Proof.
  unfold report_block, UpdateBlockLocation, GetBlock, UpdateBlock. cbn [set_blocks blocks_ files_].
  rewrite lookup_insert_eq. cbn [block_size block_id block_locations].
  set (b0 := default default_block (blocks_ m !! br_block_id item)).
  set (locs := if bool_decide (dn ∈ block_locations b0) then _ else _).
  assert (block_locations b0 ⊆ locs) as Hsub.
  { subst locs. case_bool_decide; [done|]. intros x Hx. apply elem_of_app. by left. }
  assert (∀ z id b, blocks_ m !! id = Some b → ∃ b',
    <[br_block_id item := mkBlock (br_block_id item) z locs]> (blocks_ m) !! id = Some b' ∧
    block_locations b ⊆ block_locations b') as Hgrow.
  { intros z id b Hb. destruct (decide (id = br_block_id item)) as [->|Hne].
    - rewrite lookup_insert_eq. eexists. split; [done|]. cbn. subst b0. by rewrite Hb in Hsub.
    - rewrite lookup_insert_ne by done. by exists b. }
  destruct ((block_size b0 =? 0) && (0 <? br_size item)); cbn [fst blocks_ files_].
  - rewrite lookup_insert_eq. cbn [fst set_blocks blocks_ files_]. split; [done|]. rewrite insert_insert_eq.
    apply Hgrow.
  - split; [done|]. apply Hgrow.
Qed.

Lemma report_grows dn items m :
  files_ (foldl (report_block dn) m items) = files_ m ∧
  ∀ id b, blocks_ m !! id = Some b →
    ∃ b', blocks_ (foldl (report_block dn) m items) !! id = Some b' ∧
      block_locations b ⊆ block_locations b'.
Proof.
  revert m. induction items as [|item items IH]; intros m; cbn [foldl]; [split; [done|eauto]|].
  destruct (IH (report_block dn m item)) as [-> Hg], (report_block_grows dn m item) as [-> Hg'].
  split; [done|]. intros id b Hb. destruct (Hg' id b Hb) as (b1 & Hb1 & ?).
  destruct (Hg id b1 Hb1) as (b2 & ? & ?). exists b2. split; [done|]. by etrans.
Qed.

Lemma set_nodes_represents ns s d :
  represents ns s → (∀ id n, d !! id = Some n → dn_id n = id) →
  represents (with_nodes d ns) (set_dn_manager d s).
Proof. intros [] Hd. by split. Qed.

Lemma heartbeat_ids (now : Z) (id : bytes) (f c : Z) (nodes : DataNodeManager) :
  (∀ i n, nodes !! i = Some n → dn_id n = i) →
  (∀ i n, fst (Metadata.HandleHeartbeat now id f c nodes) !! i = Some n → dn_id n = i) ∧
  (size (fst (Metadata.HandleHeartbeat now id f c nodes)) <= size nodes)%nat.
Proof.
  intros Hid. unfold Metadata.HandleHeartbeat. destruct (nodes !! id) as [m|] eqn:Hm; [|done].
  cbn [fst]. split; [|rewrite map_size_insert_Some; [done|by rewrite Hm]].
  intros i n. rewrite lookup_insert_Some. intros [[<- <-]|[_ Hn]]; [cbn; by apply Hid|by apply Hid].
Qed.

(** At most one identifier and one data node more. *)
Definition spends (s s' : NameNodeServer) : Prop :=
  1 <= next_block_id_ (block_manager_ s') <= next_block_id_ (block_manager_ s) + 1 ∧
  Z.of_nat (size (dn_manager_ s')) <= Z.of_nat (size (dn_manager_ s)) + 1.

Lemma spends_none s s' :
  1 <= next_block_id_ (block_manager_ s) →
  block_manager_ s' = block_manager_ s → dn_manager_ s' = dn_manager_ s → spends s s'.
Proof. intros ? Hb Hd. unfold spends. rewrite Hb, Hd. lia. Qed.

Lemma serve_create ns s now io req :
  represents ns s → 1 <= next_block_id_ (block_manager_ s) → req_op req = CREATE_FILE →
  ∃ s' r ns', (let '(s, r) := HandleCreateFile now (req_create_file req) s in Some (log_request ser req io s, r)) =
      Some (s', r) ∧ answers now req ns r ns' ∧ represents ns' s' ∧ spends s s'.
Proof.
  intros Hr Hlo Hop.
  unfold HandleCreateFile, CreateFile.
  destruct (files_ (metadata_ s) !! req_create_file req) as [f|] eqn:Hf.
  - eexists _, _, ns. split; [done|]. rewrite set_metadata_id.
    split; [|split; [|by apply spends_none]].
    + apply ans_create_exists; [done|done|]. by rewrite (rep_some ns s), Hf.
    + apply (represents_grow ns s); [done..|]. intros i b Hb. by exists b.
  - eexists _, _, _. split; [done|].
    assert (ns_files ns !! req_create_file req = None) as Hn by by apply (rep_file ns s Hr).
    split; [by apply ans_create|]. split; [by apply create_represents|by apply spends_none].
Qed.

Lemma serve_delete ns s now io req :
  represents ns s → 1 <= next_block_id_ (block_manager_ s) → req_op req = DELETE_FILE →
  ∃ s' r ns', (let '(s, r) := HandleDeleteFile (req_delete_file req) s in Some (log_request ser req io s, r)) =
      Some (s', r) ∧ answers now req ns r ns' ∧ represents ns' s' ∧ spends s s'.
Proof.
  intros Hr Hlo Hop.
  unfold HandleDeleteFile, GetFile.
  destruct (files_ (metadata_ s) !! req_delete_file req) as [f|] eqn:Hf.
  - destruct (rep_lookup ns s _ f Hr Hf) as (l & Hl & _ & _).
    eexists _, _, _. split; [done|]. split; [apply ans_delete; [done|done|by rewrite Hl]|].
    split; [by apply (delete_represents ns s _ l)|by apply spends_none].
  - eexists _, _, ns. split; [done|]. split; [|split; [|by apply spends_none]].
    + apply ans_delete_missing; [done|done|]. by apply (rep_file ns s Hr).
    + apply (represents_grow ns s); [done..|]. intros i b Hb. by exists b.
Qed.

Lemma serve_op_answers ns s now io req :
  represents ns s → room_for 1 s →
  ∃ s' r ns', serve_op ser now io req s = Some (s', r) ∧ answers now req ns r ns' ∧
    represents ns' s' ∧ spends s s'.
Proof.
  intros Hr Hroom. pose proof (proj1 Hroom) as Hlo. unfold serve_op.
  destruct (req_op req) eqn:Hop.
  - by apply serve_create.
  - destruct (serve_allocate ns s now (req_allocate_block req) Hr Hroom)
      as (s' & r & ns' & Hs & Hr' & Ha & ? & ? & Hd).
    exists s', r, ns'. split; [done|]. split; [by apply Ha|]. split; [done|]. unfold spends. rewrite Hd. lia.
  - eexists _, _, ns. split; [done|]. split; [by apply serve_get|]. split; [done|by apply spends_none].
  - by apply serve_delete.
  - eexists _, _, ns. split; [done|]. split; [by apply serve_list|]. split; [done|by apply spends_none].
  - eexists _, _, _. split; [done|]. split; [by apply ans_register|]. cbn [dn_manager_ set_dn_manager].
    rewrite (rep_nodes ns s Hr). split.
    + apply set_nodes_represents; [done|]. intros i n. unfold RegisterDataNode.
      rewrite lookup_insert_Some. intros [[<- <-]|[_ Hn]]; [done|by apply (rep_ids ns s Hr)].
    + split; [cbn; lia|]. cbn [dn_manager_ set_dn_manager]. unfold RegisterDataNode.
      rewrite map_size_insert. destruct (dn_manager_ s !! _); simpl; lia.
  - unfold HandleHeartbeat. destruct (heartbeat_ids now (hb_datanode_id (req_heartbeat req))
      (hb_free_space (req_heartbeat req)) (int32 (hb_block_count (req_heartbeat req)))
      (dn_manager_ s) (rep_ids ns s Hr)) as [Hid Hsz].
    destruct (Metadata.HandleHeartbeat _ _ _ _ (dn_manager_ s)) as [d b] eqn:Hhb. cbn [fst] in *.
    assert (spends s (set_dn_manager d s)) as Hsp by (split; cbn; lia).
    destruct b; eexists _, _, _; (split; [done|]); (split; [eapply ans_heartbeat; [done|rewrite (rep_nodes ns s Hr); exact Hhb|done]|]);
      (split; [by apply set_nodes_represents|done]).
  - unfold HandleBlockReport. eexists _, _, ns. split; [done|]. split; [by apply ans_report|].
    split; [|by apply spends_none].
    destruct (report_grows (br_datanode_id (req_block_report req)) (br_blocks (req_block_report req))
      (metadata_ s)) as [Hf Hg]. by apply (represents_grow ns s).
  - eexists _, _, ns. split; [done|]. split; [by apply (ans_other _ _ _ v)|].
    split; [done|by apply spends_none].
Qed.

Lemma check_represents ns s now :
  represents ns s →
  represents (with_nodes (CheckDataNodeHealth now (ns_nodes ns)) ns)
    (set_dn_manager (CheckDataNodeHealth now (dn_manager_ s)) s).
Proof.
  intros Hr. rewrite (rep_nodes ns s Hr). apply set_nodes_represents; [done|].
  intros i n. unfold CheckDataNodeHealth. rewrite lookup_fmap. intros (m & Hm & ->)%fmap_Some.
  destruct (check_health_cases now m) as ([-> _] & _). by apply (rep_ids ns s Hr).
Qed.

Lemma nn_run_answers evs ns s :
  represents ns s → room_for (zlen evs) s →
  ∃ s' rs ns', nn_run ser evs s = Some (s', rs) ∧ ns_run evs ns rs ns' ∧ represents ns' s'.
Proof.
  revert ns s. induction evs as [|ev evs IH]; intros ns s Hr Hroom.
  { exists s, [], ns. split; [done|]. split; [constructor|done]. }
  rewrite zlen_cons in Hroom. pose proof (zlen_nonneg evs). destruct Hroom as (Hlo & Hid & Hsz).
  destruct ev as [now io req|now]; cbn [nn_run].
  - destruct (serve_op_answers ns s now io req Hr) as (s1 & r & ns1 & -> & Ha & Hr1 & Hsp);
      [split_and!; lia|]. cbn [mbind option_bind]. destruct Hsp as [Hn Hd].
    destruct (IH ns1 s1 Hr1) as (s2 & rs & ns2 & -> & Hrun & Hr2); [split_and!; lia|].
    cbn [mbind option_bind]. exists s2, (r :: rs), ns2. split; [done|]. split; [|done].
    by eapply ns_run_serve.
  - destruct (IH _ _ (check_represents ns s now Hr)) as (s2 & rs & ns2 & -> & Hrun & Hr2).
    { cbn [set_dn_manager block_manager_ dn_manager_]. unfold room_for. cbn [set_dn_manager block_manager_ dn_manager_].
      unfold CheckDataNodeHealth. rewrite map_size_fmap. lia. }
    exists s2, rs, ns2. split; [done|]. split; [by constructor|done].
Qed.
End Answers.

(** A server just constructed on an empty edit log. *)
Definition fresh_server : NameNodeServer :=
  mkServer MetadataStore_new BlockManager_new ∅ (mkEditLog [] true true).

Definition empty_namespace : Namespace := mkNamespace ∅ [] ∅.

Lemma fresh_represents : represents empty_namespace fresh_server.
Proof. split; cbn; try done; set_solver. Qed.

(** C7: the name node keeps a name space.  Whatever requests and health checks
    arrive (one at a time), every request is answered as the abstract name space
    answers it: a file exists from its creation to its deletion, its blocks are
    those allocated for it, in order, with identifiers never used before; a block
    is placed on three distinct alive data nodes with room, or on all of them; a
    reader is told at least the data nodes the writer was told; deleting a file
    does not touch another one.  No request makes the server fail. *)
Theorem NameNode_refines_namespace `{Iteration} ser evs :
  zlen evs < 2 ^ 31 →
  ∃ s rs ns, nn_run ser evs fresh_server = Some (s, rs) ∧
    ns_run evs empty_namespace rs ns ∧ represents ns s.
Proof.
  intros Hl. pose proof (zlen_nonneg evs). apply nn_run_answers; [apply fresh_represents|].
  unfold room_for. change (next_block_id_ (block_manager_ fresh_server)) with 1.
  change (size (dn_manager_ fresh_server)) with 0%nat. lia.
Qed.

(** * Restarting on the edit log *)

Definition is_logged (req : NameNodeRequest) : bool :=
  match req_op req with CREATE_FILE | DELETE_FILE => true | _ => false end.

(** The requests of the run that go to the edit log, and the files ever asked for. *)
Definition logged (evs : list NnEvent) : list NameNodeRequest :=
  omap (λ ev, match ev with
    | Serve _ _ req => if is_logged req then Some req else None
    | HealthCheck _ => None end) evs.

Definition created (evs : list NnEvent) : list bytes :=
  omap (λ req, match req_op req with CREATE_FILE => Some (req_create_file req) | _ => None end)
    (logged evs).

(** Every write of the edit log reached the file. *)
Definition all_written (evs : list NnEvent) : Prop :=
  Forall (λ ev, match ev with Serve _ io _ => io = IoOk | _ => True end) evs.

Section Restart.
Context `{Iteration} (ser : NameNodeRequest → option bytes) (par : bytes → option NameNodeRequest).
Context (par_ser : ∀ op d, ser op = Some d → par d = Some op).

Lemma allocate_log now path s s' r :
  HandleAllocateBlock now path s = Some (s', r) → edit_log_ s' = edit_log_ s.
Proof.
  unfold HandleAllocateBlock. destruct (allocate_check path s) as [e|alive]; [by intros [= <- _]|].
  unfold allocate_block. destruct (AllocateBlock alive (block_manager_ s)) as [[b [i|]]|];
    cbn [mbind option_bind]; [|by intros [= <- _]|done].
  intros Hs. injection Hs as <- _. unfold allocate_update. by destruct (GetFile path _).
Qed.

Lemma serve_op_log now io req s s' r :
  serve_op ser now io req s = Some (s', r) →
  edit_log_ s' = if is_logged req then fst (Append ser req io (edit_log_ s)) else edit_log_ s.
Proof.
  unfold serve_op, is_logged. destruct (req_op req).
  - unfold HandleCreateFile, CreateFile. destruct (files_ (metadata_ s) !! _); by intros [= <- _].
  - apply allocate_log.
  - by intros [= <- _].
  - unfold HandleDeleteFile. destruct (GetFile _ (metadata_ s)); by intros [= <- _].
  - by intros [= <- _].
  - by intros [= <- _].
  - unfold HandleHeartbeat. destruct (Metadata.HandleHeartbeat _ _ _ _ _) as [d []]; by intros [= <- _].
  - by intros [= <- _].
  - by intros [= <- _].
Qed.

Lemma nn_run_log evs old s s' rs :
  nn_run ser evs s = Some (s', rs) → all_written evs → Forall (op_fits ser) (logged evs) →
  el_open (edit_log_ s) = true → el_good (edit_log_ s) = true →
  log_holds ser old (el_file (edit_log_ s)) →
  log_holds ser (old ++ logged evs) (el_file (edit_log_ s')).
Proof.
  revert old s rs. induction evs as [|ev evs IH]; intros old s rs Hrun Hw Hfit Ho Hg Hh.
  { cbn [nn_run] in Hrun. injection Hrun as <- _. by rewrite app_nil_r. }
  apply Forall_cons in Hw as [Hw1 Hw]. destruct ev as [now io req|now]; cbn [nn_run] in Hrun.
  - destruct (serve_op ser now io req s) as [[s1 r]|] eqn:Hs; [|done].
    cbn [mbind option_bind] in Hrun. destruct (nn_run ser evs s1) as [[s2 rs']|] eqn:Hr; [|done].
    cbn [mbind option_bind] in Hrun. injection Hrun as -> _.
    pose proof (serve_op_log _ _ _ _ _ _ Hs) as Hl. subst io.
    unfold logged in *. cbn [omap list_omap] in *. destruct (is_logged req).
    + apply Forall_cons in Hfit as [(d & Hd & Hz) Hfit]. unfold Append in Hl. rewrite Hd, Ho, Hg in Hl.
      cbn [andb fst] in Hl. rewrite cons_middle, app_assoc.
      apply (IH _ s1 rs'); [done..| | |]; rewrite Hl; [done|done|]. by apply log_holds_snoc.
    + apply (IH _ s1 rs'); [done..| | |]; by rewrite Hl.
  - by apply (IH _ (set_dn_manager (CheckDataNodeHealth now (dn_manager_ s)) s) rs).
Qed.

Lemma replay_files now ops m path :
  files_ (foldl (replay_request now) m ops) !! path =
    match files_ m !! path with
    | Some f => Some f
    | None => if bool_decide (path ∈ omap (λ req, match req_op req with
                  CREATE_FILE => Some (req_create_file req) | _ => None end) ops)
              then Some (mkFile path 0 now now []) else None
    end.
Proof.
  revert m. induction ops as [|op ops IH]; intros m; cbn [foldl].
  { cbn. by destruct (files_ m !! path). }
  rewrite IH. unfold replay_request at 1. cbn [omap list_omap]. destruct (req_op op); try done.
  unfold CreateFile. destruct (files_ m !! req_create_file op) as [f|] eqn:Hf; cbn [fst set_files files_].
  - destruct (files_ m !! path) eqn:Hp; [done|]. case_bool_decide as H1; case_bool_decide as H2; try done.
    + destruct H2. by apply list_elem_of_further.
    + apply elem_of_cons in H2 as [->|?]; [congruence|done].
  - destruct (decide (path = req_create_file op)) as [->|Hne].
    + rewrite lookup_insert_eq, Hf. rewrite bool_decide_eq_true_2; [done|apply list_elem_of_here].
    + rewrite lookup_insert_ne by done. destruct (files_ m !! path); [done|].
      case_bool_decide as H1; case_bool_decide as H2; try done.
      * destruct H2. by apply list_elem_of_further.
      * by apply elem_of_cons in H2 as [->|?].
Qed.

Lemma replay_blocks now ops m : blocks_ (foldl (replay_request now) m ops) = blocks_ m.
Proof.
  revert m. induction ops as [|op ops IH]; intros m; [done|]. cbn [foldl]. rewrite IH.
  unfold replay_request, CreateFile. destruct (req_op op); try done.
  by destruct (files_ m !! req_create_file op).
Qed.

(** C27: what a restart brings back.  Only creations are replayed, so the name node
    comes up with every file anyone ever asked to create, the deleted ones
    included, and all of them empty; it knows no block and no data node, and its
    first new block will again have identifier 1. *)
Theorem NameNode_restart_forgets evs s rs now :
  nn_run ser evs fresh_server = Some (s, rs) → all_written evs →
  Forall (op_fits ser) (logged evs) →
  ∃ s', NameNodeServer_new par now (el_file (edit_log_ s)) true = Some s' ∧
    (∀ path, GetFile path (metadata_ s') =
      if bool_decide (path ∈ created evs) then Some (mkFile path 0 now now []) else None) ∧
    blocks_ (metadata_ s') = ∅ ∧ dn_manager_ s' = ∅ ∧
    next_block_id_ (block_manager_ s') = 1.
Proof using par_ser.
  intros Hrun Hw Hfit. unfold NameNodeServer_new, EditLog_new. cbn [mbind option_bind].
  pose proof (nn_run_log evs [] fresh_server s rs Hrun Hw Hfit eq_refl eq_refl) as Hh.
  assert (log_holds ser [] (el_file (edit_log_ fresh_server))) as H0.
  { exists []. split; [constructor|done]. }
  specialize (Hh H0).
  assert (Replay par (el_file (edit_log_ s)) = Some (logged evs)) as ->.
  { rewrite <- (app_nil_r (el_file (edit_log_ s))).
    apply (Replay_holds ser par par_ser (logged evs) (el_file (edit_log_ s)) []); [done|].
    intros f Hf. rewrite app_nil_r. by apply Replay_end. }
  cbn [mbind option_bind]. eexists. split; [done|]. cbn [metadata_ dn_manager_ block_manager_].
  split_and!; [|by rewrite replay_blocks|done|done].
  intros path. unfold GetFile. by rewrite replay_files.
Qed.
End Restart.

(** * Two requests at once *)

(** Two worker threads serve [ALLOCATE_BLOCK] for the same file: the second one
    runs between the [GetFile] and the [UpdateFile] of the first. *)
Definition race_allocate `{Iteration} (now1 now2 : Z) (path : bytes) (s : NameNodeServer) :
    option (NameNodeServer * NameNodeResponse * NameNodeResponse) :=
  match allocate_check path s with
  | inl _ => None
  | inr alive =>
      '(s, r) ← allocate_block alive s;
      info1 ← r;
      let f := GetFile path (metadata_ s) in
      '(s, r2) ← HandleAllocateBlock now2 path s;
      let s := allocate_update now1 path (block_id info1) f s in
      Some (s, allocated (block_id info1) (block_locations info1), r2)
  end.

(** The allocation of one block, and what it leaves alone. *)
Lemma allocate_block_some `{Iteration} ns s :
  represents ns s → room_for 1 s → usable_nodes (GetAliveDataNodes (dn_manager_ s)) ≠ [] →
  ∃ b dns, allocate_block (GetAliveDataNodes (dn_manager_ s)) s =
      Some (mkServer (AddBlock (mkBlock (next_block_id_ (block_manager_ s)) 0 dns) (metadata_ s)) b
              (dn_manager_ s) (edit_log_ s),
            Some (mkBlock (next_block_id_ (block_manager_ s)) 0 dns)) ∧
    next_block_id_ b = next_block_id_ (block_manager_ s) + 1 ∧ 0 <= round_robin_index_ b.
Proof.
  intros Hr (Hlo & Hid & Hsz) Hne. pose proof (usable_size (dn_manager_ s)).
  destruct (AllocateBlock_places_replicas (GetAliveDataNodes (dn_manager_ s)) (block_manager_ s)) as
    (b & dns & Ha & Hnb & Hrr & _); [apply alive_NoDup, (rep_ids ns s Hr)|lia
    |apply (rep_cursor ns s Hr)|done|].
  rewrite u64_small in Hnb by lia. exists b, dns. unfold allocate_block. rewrite Ha. done.
Qed.

(** A server whose tables differ by a block no file has represents the same. *)
Lemma represents_add_block ns s b dns :
  represents ns s →
  next_block_id_ b = next_block_id_ (block_manager_ s) + 1 → 0 <= round_robin_index_ b →
  represents ns (mkServer (AddBlock (mkBlock (next_block_id_ (block_manager_ s)) 0 dns) (metadata_ s)) b
    (dn_manager_ s) (edit_log_ s)).
Proof.
  intros [] Hn Hrr. split; cbn; try done.
  - intros path l id ds Hl Hin. assert (id < next_block_id_ (block_manager_ s)) as Hlt.
    { apply rep_next0, (rep_issued0 path l); [done|]. by apply (list_elem_of_fmap_2 fst _ (id, ds)). }
    rewrite lookup_insert_ne by lia. by apply (rep_block0 path l).
  - intros id Hi. specialize (rep_next0 id Hi). lia.
Qed.

Lemma allocate_update_some now path id f g s :
  GetFile path (metadata_ s) = Some g →
  allocate_update now path id (Some f) s =
    set_metadata (set_files (<[path := mkFile (file_path f) (file_size f) (file_create_time f) now
      (file_blocks f ++ [id])]> (files_ (metadata_ s))) (metadata_ s)) s.
Proof. unfold allocate_update, UpdateFile, GetFile. by intros ->. Qed.

(** C28: [HandleAllocateBlock] is not atomic.  When two requests for the same file
    overlap both are told they got a block, the identifiers differ and both blocks
    are in the block table, but only one of them is ever part of a file: the
    [UpdateFile] of the first overwrites the list of the second. *)
Theorem concurrent_allocations_lose_a_block `{Iteration} now1 now2 path ns s f :
  represents ns s → room_for 2 s → usable_nodes (GetAliveDataNodes (dn_manager_ s)) ≠ [] →
  GetFile path (metadata_ s) = Some f →
  ∃ s' id1 id2 dns1 dns2 f',
    race_allocate now1 now2 path s = Some (s', allocated id1 dns1, allocated id2 dns2) ∧
    id1 ≠ id2 ∧
    GetFile path (metadata_ s') = Some f' ∧ file_blocks f' = file_blocks f ++ [id1] ∧
    is_Some (GetBlock id2 (metadata_ s')) ∧
    ∀ p g, GetFile p (metadata_ s') = Some g → id2 ∉ file_blocks g.
Proof.
  intros Hr Hroom Hne Hf. destruct Hroom as (Hlo & Hid & Hsz).
  assert (∀ alive : list DataNodeInfo, alive ≠ [] → ∃ x l, alive = x :: l) as Hcons.
  { intros [|x l]; [done|]. by exists x, l. }
  assert (GetAliveDataNodes (dn_manager_ s) ≠ []) as Halive.
  { intros E. apply Hne. by rewrite E. }
  destruct (Hcons _ Halive) as (d & alive & Hda).
  assert (∀ s0, dn_manager_ s0 = dn_manager_ s → GetFile path (metadata_ s0) = Some f →
    allocate_check path s0 = inr (GetAliveDataNodes (dn_manager_ s))) as Hcheck.
  { intros s0 Hd0 Hf0. unfold allocate_check. rewrite Hf0, Hd0, Hda. done. }
  destruct (allocate_block_some ns s Hr) as (b1 & dns1 & Ha1 & Hn1 & Hr1); [split_and!; lia|done|].
  pose proof (represents_add_block ns s b1 dns1 Hr Hn1 Hr1) as Hrep1.
  set (id1 := next_block_id_ (block_manager_ s)) in *.
  set (s1 := mkServer (AddBlock (mkBlock id1 0 dns1) (metadata_ s)) b1 (dn_manager_ s) (edit_log_ s)) in *.
  destruct (allocate_block_some ns s1 Hrep1) as (b2 & dns2 & Ha2 & Hn2 & Hr2);
    [subst s1; unfold room_for; cbn [block_manager_ dn_manager_]; lia|done|].
  set (id2 := next_block_id_ (block_manager_ s1)) in *.
  assert (id2 = id1 + 1) as Hid2 by (subst id2; by cbn).
  assert (∀ p g, files_ (metadata_ s) !! p = Some g → id2 ∉ file_blocks g) as Hfresh.
  { intros p g Hg. destruct (rep_lookup ns s p g Hr Hg) as (l & Hl & _ & ->). intros Hin.
    apply (rep_issued ns s Hr p l) in Hin; [|done]. apply (rep_next ns s Hr) in Hin. subst id1. lia. }
  unfold race_allocate. rewrite Hcheck by done. rewrite Ha1. cbn [mbind option_bind].
  unfold HandleAllocateBlock. rewrite Hcheck by done.
  change (GetAliveDataNodes (dn_manager_ s)) with (GetAliveDataNodes (dn_manager_ s1)). rewrite Ha2.
  set (s2 := mkServer _ b2 _ _) in *.
  assert (GetFile path (metadata_ s1) = Some f) as Hf1 by done.
  assert (GetFile path (metadata_ s2) = Some f) as Hf2 by done.
  cbn [mbind option_bind]. rewrite Hf1, Hf2. change (block_id (mkBlock ?i _ _)) with i.
  rewrite (allocate_update_some now2 path id2 f f s2 Hf2).
  rewrite (allocate_update_some now1 path id1 f (mkFile (file_path f) (file_size f)
    (file_create_time f) now2 (file_blocks f ++ [id2])));
    [|unfold GetFile, set_metadata, set_files; cbn [metadata_ files_]; by rewrite lookup_insert_eq].
  unfold set_metadata, set_files. cbn [metadata_ files_ blocks_]. rewrite insert_insert_eq.
  eexists _, id1, id2, dns1, dns2, _. split; [done|]. cbn [metadata_ files_ blocks_].
  split; [lia|]. unfold GetFile. cbn [files_]. rewrite lookup_insert_eq. split; [done|]. split; [done|].
  split; [unfold GetBlock; cbn; by rewrite lookup_insert_eq|].
  intros p g. rewrite lookup_insert_Some. intros [[<- <-]|[Hp Hg]]; [|by apply (Hfresh p)].
  cbn [file_blocks]. intros [Hin|Hin%list_elem_of_singleton]%elem_of_app; [by apply (Hfresh path f)|lia].
Qed.

(** * Concrete runs *)

Definition no_register : RegisterDataNodeRequest := mkRegister [] [] 0 0.
Definition no_heartbeat : HeartbeatRequest := mkHeartbeat [] 0 0 0.
Definition no_report : BlockReportRequest := mkReport [] [].

Definition demo_create (p : string) : NameNodeRequest :=
  mkRequest CREATE_FILE 1 (str p) [] [] [] [] no_register no_heartbeat no_report.
Definition demo_delete (p : string) : NameNodeRequest :=
  mkRequest DELETE_FILE 2 [] [] [] (str p) [] no_register no_heartbeat no_report.
Definition demo_allocate (p : string) : NameNodeRequest :=
  mkRequest ALLOCATE_BLOCK 3 [] (str p) [] [] [] no_register no_heartbeat no_report.
Definition demo_get (p : string) : NameNodeRequest :=
  mkRequest GET_FILE_BLOCKS 4 [] [] (str p) [] [] no_register no_heartbeat no_report.
Definition demo_register (d : string) : NameNodeRequest :=
  mkRequest REGISTER_DN 5 [] [] [] [] [] (mkRegister (str d) (str "h") 9000 (2 * kBlockSize))
    no_heartbeat no_report.

Definition demo_requests : list (NameNodeRequest * bytes) :=
  [(demo_create "/a", str "create /a"); (demo_create "/b", str "create /b");
   (demo_delete "/a", str "delete /a")].

Definition demo_run : list NnEvent :=
  [Serve 0 IoOk (demo_create "/a"); Serve 1 IoOk (demo_register "d1"); Serve 2 IoOk (demo_register "d2");
   Serve 3 IoOk (demo_allocate "/a"); Serve 4 IoOk (demo_create "/b"); HealthCheck 5;
   Serve 6 IoOk (demo_delete "/a"); Serve 7 IoOk (demo_get "/a")].

Lemma NameNode_refines_namespace_witness :
  ∃ s rs ns, nn_run (table_ser demo_requests) demo_run fresh_server = Some (s, rs) ∧
    ns_run demo_run empty_namespace rs ns ∧ represents ns s.
Proof. apply NameNode_refines_namespace. by vm_compute. Defined.

Definition demo_server : NameNodeServer :=
  default fresh_server (fst <$> nn_run (table_ser demo_requests) demo_run fresh_server).

Definition demo_answers : list NameNodeResponse :=
  default [] (snd <$> nn_run (table_ser demo_requests) demo_run fresh_server).

(** [/a] was deleted, and comes back. *)
Lemma NameNode_restart_forgets_witness :
  GetFile (str "/a") (metadata_ demo_server) = None ∧
  ∃ s', NameNodeServer_new (table_par demo_requests) 9 (el_file (edit_log_ demo_server)) true = Some s' ∧
    (∀ path, GetFile path (metadata_ s') =
      if bool_decide (path ∈ created demo_run) then Some (mkFile path 0 9 9 []) else None) ∧
    blocks_ (metadata_ s') = ∅ ∧ dn_manager_ s' = ∅ ∧
    next_block_id_ (block_manager_ s') = 1.
Proof.
  split; [by vm_compute|].
  apply (NameNode_restart_forgets (table_ser demo_requests) (table_par demo_requests))
    with (rs := demo_answers).
  - intros op d. apply table_roundtrip. apply (bool_decide_unpack _). by vm_compute.
  - by vm_compute.
  - repeat (apply Forall_cons; split; [done|]). apply Forall_nil_2.
  - repeat (apply Forall_cons; split; [eexists; split; [by vm_compute|by vm_compute]|]). apply Forall_nil_2.
Defined.

(** The server after the first four requests. *)
Definition demo_busy : NameNodeServer :=
  default fresh_server (fst <$> nn_run (table_ser demo_requests) (take 4 demo_run) fresh_server).

Lemma concurrent_allocations_lose_a_block_witness :
  ∃ s' id1 id2 dns1 dns2 f',
    race_allocate 8 9 (str "/a") demo_busy = Some (s', allocated id1 dns1, allocated id2 dns2) ∧
    id1 ≠ id2 ∧
    GetFile (str "/a") (metadata_ s') = Some f' ∧ file_blocks f' = [1] ++ [id1] ∧
    is_Some (GetBlock id2 (metadata_ s')) ∧
    ∀ p g, GetFile p (metadata_ s') = Some g → id2 ∉ file_blocks g.
Proof.
  destruct (nn_run_answers (table_ser demo_requests) (take 4 demo_run) empty_namespace fresh_server
    fresh_represents) as (s & rs & ns & Hrun & _ & Hr); [split_and!; by vm_compute|].
  assert (s = demo_busy) as -> by (unfold demo_busy; by rewrite Hrun).
  apply (concurrent_allocations_lose_a_block 8 9 (str "/a") ns demo_busy
    (mkFile (str "/a") 0 0 3 [1]) Hr);
    [split_and!; by vm_compute|by vm_compute|by vm_compute].
Defined.
