(* ===== verification/Net.v ===== *)
(** Messages over a byte stream: src/net/net_io_helpers.h and
    src/net/net_tcp_connection.cc.

    A message travels as its length in network byte order and its bytes.  What
    the kernel does is an argument: the results of [write], and the pieces in
    which [read] gives the stream. *)
From S2P Require Import Prelude Coding EditLog.

(** * Blocking sockets: net_io_helpers.h *)

(** The result of [write]: it takes at most [n] bytes (of what it is given), it
    would block, or it fails. *)
Inductive wres := Wrote (n : nat) | WAgain | WErr.

(** [WriteAll]: the bytes that reached the wire, the results left, the answer.
    [None]: all results are used and the call has not returned. *)
Fixpoint WriteAll (ws : list wres) (p : bytes) : option (bytes * list wres * bool) :=
  match p with
  | [] => Some ([], ws, true)
  | _ =>
      match ws with
      | [] => None
      | Wrote (S w) :: ws =>
          '(out, ws, b) ← WriteAll ws (drop (S w) p);
          Some (take (S w) p ++ out, ws, b)
      | _ :: ws => Some ([], ws, false)
      end
  end.

Definition SendMsg (ws : list wres) (data : bytes) : option (bytes * list wres * bool) :=
  '(out, ws, b) ← WriteAll ws (htonl_bytes (u32 (zlen data)));
  if negb b then Some (out, ws, false)
  else
    '(out', ws, b) ← WriteAll ws data;
    Some (out ++ out', ws, b).

(** [read(fd, p, n)] for [n > 0] on the pieces that have arrived; an empty piece
    is the end of the stream or an error. *)
Definition read (chunks : list bytes) (n : nat) : option (bytes * list bytes) :=
  match chunks with
  | [] => None
  | c :: chunks =>
      Some (take n c, if (length c <=? n)%nat then chunks else drop n c :: chunks)
  end.

(** [ReadAll(fd, buf, n)]; fuel [S n]: every turn reads a byte or ends. *)
Fixpoint ReadAll_loop (fuel : nat) (chunks : list bytes) (n : nat) :
    option (bytes * list bytes * bool) :=
  match fuel, n with
  | O, _ => None
  | _, O => Some ([], chunks, true)
  | S fuel, n =>
      '(d, chunks) ← read chunks n;
      match d with
      | [] => Some ([], chunks, false)
      | _ =>
          '(rest, chunks, b) ← ReadAll_loop fuel chunks (n - length d);
          Some (d ++ rest, chunks, b)
      end
  end.

Definition ReadAll (chunks : list bytes) (n : nat) : option (bytes * list bytes * bool) :=
  ReadAll_loop (S n) chunks n.

(** [RecvMsg]: the message, or [inr] when it returns [false]. *)
Definition RecvMsg (chunks : list bytes) : option ((bytes + unit) * list bytes) :=
  '(h, chunks, b) ← ReadAll chunks 4;
  if negb b then Some (inr tt, chunks)
  else
    let len := ntohl_bytes h in
    '(d, chunks, b) ← ReadAll chunks (Z.to_nat len);
    Some ((if negb b then inr tt else inl d), chunks).

(** * TcpConnection *)

Definition EPOLLIN : Z := 1.
Definition EPOLLOUT : Z := 4.

Record TcpConnection := mkConn {
  read_buf_ : bytes;
  write_buf_ : bytes;
  events_ : Z;          (* the channel's interest *)
  closed_ : bool;       (* [HandleClose] ran *)
}.

Definition TcpConnection_new : TcpConnection := mkConn [] [] 0 false.

Definition Start (c : TcpConnection) : TcpConnection :=
  mkConn (read_buf_ c) (write_buf_ c) (Z.lor (events_ c) EPOLLIN) (closed_ c).

Definition HandleClose (c : TcpConnection) : TcpConnection :=
  mkConn (read_buf_ c) (write_buf_ c) 0 true.

Definition EnableWriting (c : TcpConnection) : TcpConnection :=
  mkConn (read_buf_ c) (write_buf_ c) (Z.lor (events_ c) EPOLLOUT) (closed_ c).
Definition DisableWriting (c : TcpConnection) : TcpConnection :=
  mkConn (read_buf_ c) (write_buf_ c) (Z.ldiff (events_ c) EPOLLOUT) (closed_ c).

Definition set_read_buf (b : bytes) (c : TcpConnection) : TcpConnection :=
  mkConn b (write_buf_ c) (events_ c) (closed_ c).
Definition set_write_buf (b : bytes) (c : TcpConnection) : TcpConnection :=
  mkConn (read_buf_ c) b (events_ c) (closed_ c).

(** [ProcessMessages]: the messages given to the callback, and what stays in the
    buffer.  The bytes erased are [msg_len + 4] in 32 bits. *)
Fixpoint ProcessMessages_loop (fuel : nat) (buf : bytes) : option (list bytes * bytes) :=
  match fuel with
  | O => None
  | S fuel =>
      if zlen buf <? 4 then Some ([], buf)
      else
        let msg_len := ntohl_bytes (take 4 buf) in
        if zlen buf <? 4 + msg_len then Some ([], buf)
        else
          let message := take (Z.to_nat msg_len) (drop 4 buf) in
          '(ms, rest) ← ProcessMessages_loop fuel (drop (Z.to_nat (u32 (msg_len + 4))) buf);
          Some (message :: ms, rest)
  end.

Definition ProcessMessages (buf : bytes) : option (list bytes * bytes) :=
  ProcessMessages_loop (S (length buf)) buf.

(** The results of [read] on a non-blocking socket: at most 4096 bytes, the end of
    the stream, nothing more for now, an error. *)
Inductive rres := RData (d : bytes) | REof | RAgain | RErr.

(** [HandleRead]: the messages given to the callback. *)
Fixpoint HandleRead (rs : list rres) (c : TcpConnection) : option (TcpConnection * list bytes) :=
  match rs with
  | [] => None
  | RData d :: rs =>
      '(ms, rest) ← ProcessMessages (read_buf_ c ++ d);
      '(c, ms') ← HandleRead rs (set_read_buf rest c);
      Some (c, ms ++ ms')
  | RAgain :: _ => Some (c, [])
  | REof :: _ | RErr :: _ => Some (HandleClose c, [])
  end.

Definition frame (data : bytes) : bytes := htonl_bytes (u32 (zlen data)) ++ data.

(** [Send(data)]: the connection, and the bytes that reached the wire. *)
Definition Send (data : bytes) (w : wres) (c : TcpConnection) : TcpConnection * bytes :=
  let framed := frame data in
  match write_buf_ c with
  | _ :: _ => (set_write_buf (write_buf_ c ++ framed) c, [])
  | [] =>
      match w with
      | WErr => (HandleClose c, [])
      | _ =>
          let n := match w with Wrote n => n | _ => 0%nat end in
          if (n <? length framed)%nat
          then (EnableWriting (set_write_buf (drop n framed) c), take n framed)
          else (c, framed)
      end
  end.

Definition HandleWrite (w : wres) (c : TcpConnection) : TcpConnection * bytes :=
  match write_buf_ c with
  | [] => (DisableWriting c, [])
  | buf =>
      match w with
      | Wrote n =>
          let c := set_write_buf (drop n buf) c in
          (match write_buf_ c with [] => DisableWriting c | _ => c end, take n buf)
      | WAgain => (c, [])
      | WErr => (HandleClose c, [])
      end
  end.

(** * Framing *)

Definition frames (ms : list bytes) : bytes := mjoin (map frame ms).

(** A message the 32-bit arithmetic of the receiver handles. *)
Definition sendable (m : bytes) : Prop := zlen m < 2 ^ 32 - 4.

Lemma frame_length m : length (frame m) = (4 + length m)%nat.
Proof. unfold frame. by rewrite length_app, htonl_length. Qed.

Lemma frame_head m rest : sendable m → ntohl_bytes (take 4 (frame m ++ rest)) = zlen m.
Proof.
  intros Hm. unfold sendable in Hm. pose proof (zlen_nonneg m). unfold frame.
  rewrite u32_small by lia. rewrite <- app_assoc.
  rewrite take_app_le by by rewrite htonl_length. rewrite take_ge by by rewrite htonl_length.
  apply ntohl_htonl. lia.
Qed.

Lemma frame_body m rest : take (length m) (drop 4 (frame m ++ rest)) = m.
Proof.
  unfold frame. rewrite <- app_assoc. rewrite drop_app_length' by by rewrite htonl_length.
  by rewrite take_app_length.
Qed.

Lemma frames_cons m ms : frames (m :: ms) = frame m ++ frames ms.
Proof. done. Qed.

Lemma frames_app l k : frames (l ++ k) = frames l ++ frames k.
Proof.
  induction l as [|m l IH]; [done|]. rewrite <- app_comm_cons, !frames_cons, IH. by rewrite app_assoc.
Qed.

(** * Blocking exchange of one message *)

Lemma WriteAll_spec ws p out ws' b :
  WriteAll ws p = Some (out, ws', b) → if b then out = p else ∃ t, t ≠ [] ∧ p = out ++ t.
Proof.
  revert p out ws' b. induction ws as [|w ws IH]; intros p out ws' b; destruct p as [|x p]; cbn [WriteAll].
  1,3: by intros [= <- _ <-].
  { done. }
  destruct w as [[|n]| |]; try (intros [= <- _ <-]; by exists (x :: p)).
  destruct (WriteAll ws (drop (S n) (x :: p))) as [[[o k] b']|] eqn:Hw; [|done].
  cbn [mbind option_bind]. intros [= <- <- <-]. specialize (IH _ _ _ _ Hw).
  destruct b'.
  - subst o. apply (take_drop (S n) (x :: p)).
  - destruct IH as (t & Ht & Hp). exists t. split; [done|].
    rewrite <- (take_drop (S n) (x :: p)) at 1. by rewrite Hp, app_assoc.
Qed.

(** The pieces that have arrived, none of them empty. *)
Definition arrived (chunks : list bytes) (stream : bytes) : Prop :=
  Forall (λ c, c ≠ []) chunks ∧ mjoin chunks = stream.

Lemma read_arrived chunks stream n tail :
  arrived chunks stream → stream ≠ [] → (0 < n)%nat →
  ∃ d chunks', read (chunks ++ tail) n = Some (d, chunks' ++ tail) ∧ d ≠ [] ∧ (length d <= n)%nat ∧
    ∃ s, stream = d ++ s ∧ arrived chunks' s.
Proof.
  intros [Hne Hj] Hs Hn. destruct chunks as [|c chunks]; [by destruct Hs|].
  apply Forall_cons in Hne as [Hc Hne]. change (mjoin (c :: chunks)) with (c ++ mjoin chunks) in Hj.
  cbn [app read]. assert (0 < length c)%nat by (destruct c; simpl; [done|lia]).
  assert (take n c ≠ []) as Ht.
  { intros E. apply (f_equal length) in E. rewrite length_take in E. simpl in E. lia. }
  exists (take n c). destruct (Nat.leb_spec (length c) n).
  - exists chunks. split; [done|]. split; [done|]. rewrite length_take. split; [lia|].
    exists (mjoin chunks). by rewrite take_ge by lia.
  - exists (drop n c :: chunks). split; [done|]. split; [done|]. rewrite length_take. split; [lia|].
    exists (drop n c ++ mjoin chunks). rewrite app_assoc, take_drop. split; [done|].
    split; [|done]. apply Forall_cons. split; [|done].
    intros E. apply (f_equal length) in E. rewrite length_drop in E. simpl in E. lia.
Qed.

(** Reading what has arrived in full. *)
Lemma ReadAll_full fuel chunks d s n tail :
  arrived chunks (d ++ s) → length d = n → (n < fuel)%nat →
  ∃ chunks', ReadAll_loop fuel (chunks ++ tail) n = Some (d, chunks' ++ tail, true) ∧ arrived chunks' s.
Proof.
  revert chunks d n. induction fuel as [|fuel IH]; intros chunks d n Ha Hd Hf; [lia|].
  destruct n as [|n].
  { destruct d; [|done]. by exists chunks. }
  destruct (read_arrived chunks (d ++ s) (S n) tail Ha) as (e & chunks' & Hr & He & Hl & u & Hu & Ha');
    [by destruct d|lia|].
  cbn [ReadAll_loop]. rewrite Hr. cbn [mbind option_bind]. destruct e as [|x e]; [done|].
  assert (d = (x :: e) ++ drop (length (x :: e)) d) as Hsplit.
  { rewrite <- (take_drop (length (x :: e)) d) at 1. f_equal.
    assert (take (length (x :: e)) (d ++ s) = take (length (x :: e)) ((x :: e) ++ u)) as E by by rewrite Hu.
    rewrite take_app_le in E by lia. by rewrite take_app_length in E. }
  assert (u = drop (length (x :: e)) d ++ s) as ->.
  { rewrite Hsplit, <- app_assoc in Hu. by apply app_inv_head in Hu. }
  destruct (IH chunks' (drop (length (x :: e)) d) (S n - length (x :: e))%nat Ha') as (k & Hk & Hak);
    [rewrite length_drop; lia|simpl; lia|].
  rewrite Hk. cbn [mbind option_bind]. exists k. by rewrite <- Hsplit.
Qed.

(** Reading more than has arrived before the end of the stream. *)
Lemma ReadAll_short fuel chunks s n tail :
  arrived chunks s → (length s < n)%nat → (n < fuel)%nat →
  ∃ d, ReadAll_loop fuel (chunks ++ [] :: tail) n = Some (d, tail, false).
Proof.
  revert chunks s n. induction fuel as [|fuel IH]; intros chunks s n Ha Hs Hf; [lia|].
  destruct n as [|n]; [lia|]. destruct s as [|x s].
  - destruct Ha as [Hne Hj]. destruct chunks as [|c chunks].
    + exists []. done.
    + apply Forall_cons in Hne as [Hc _]. change (mjoin (c :: chunks)) with (c ++ mjoin chunks) in Hj.
      by apply app_nil in Hj as [-> _].
  - destruct (read_arrived chunks (x :: s) (S n) ([] :: tail) Ha) as (e & chunks' & Hr & He & Hl & u & Hu & Ha');
      [done|lia|].
    cbn [ReadAll_loop]. rewrite Hr. cbn [mbind option_bind]. destruct e as [|y e]; [done|].
    assert (length (x :: s) = length ((y :: e) ++ u)) as Hlen by by rewrite Hu.
    rewrite length_app in Hlen. simpl in Hlen, Hl, Hs.
    destruct (IH chunks' u (S n - length (y :: e))%nat Ha') as (d & ->); [simpl; lia|simpl; lia|].
    cbn [mbind option_bind]. eexists. done.
Qed.

(** C36: a message sent over a blocking socket arrives whole or not at all.
    However the kernel cuts the writes and the reads, if [SendMsg] returns [true]
    the other side's [RecvMsg] returns exactly the message and leaves the rest of
    the stream; and if the stream ends before the whole message was written,
    [RecvMsg] returns [false]. *)
Theorem message_whole_or_nothing ws data wire ws' b rest chunks :
  zlen data < 2 ^ 32 → SendMsg ws data = Some (wire, ws', b) →
  arrived chunks (if b then wire ++ rest else wire) →
  (b = true → ∃ chunks', RecvMsg chunks = Some (inl data, chunks') ∧ arrived chunks' rest) ∧
  (b = false → RecvMsg (chunks ++ [[]]) = Some (inr tt, [])).
Proof.
  intros Hz Hs Ha. pose proof (zlen_nonneg data). unfold SendMsg in Hs.
  rewrite u32_small in Hs by lia. set (h := htonl_bytes (zlen data)) in *.
  assert (ntohl_bytes h = zlen data) as Hnt by (apply ntohl_htonl; lia).
  assert (length h = 4%nat) as Hh by apply htonl_length.
  destruct (WriteAll ws h) as [[[o1 ws1] b1]|] eqn:H1; [|done]. cbn [mbind option_bind] in Hs.
  apply WriteAll_spec in H1. unfold RecvMsg, ReadAll. destruct b1; cbn [negb] in Hs.
  - subst o1. destruct (WriteAll ws1 data) as [[[o2 ws2] b2]|] eqn:H2; [|done].
    cbn [mbind option_bind] in Hs. injection Hs as <- _ <-. apply WriteAll_spec in H2. destruct b2.
    + subst o2. split; [intros _|done].
      change (arrived chunks ((h ++ data) ++ rest)) in Ha. rewrite <- app_assoc in Ha.
      destruct (ReadAll_full 5 chunks h (data ++ rest) 4 [] Ha) as (k1 & Hk1 & Ha1); [done|lia|].
      rewrite !app_nil_r in Hk1. rewrite Hk1. cbn [mbind option_bind negb]. rewrite Hnt, zlen_to_nat.
      destruct (ReadAll_full (S (length data)) k1 data rest (length data) [] Ha1) as (k2 & Hk2 & Ha2);
        [done|lia|]. rewrite !app_nil_r in Hk2. rewrite Hk2. cbn [mbind option_bind negb].
      by exists k2.
    + destruct H2 as (t & Ht & Hd). split; [done|intros _].
      destruct (ReadAll_full 5 chunks h o2 4 [[]] Ha) as (k1 & Hk1 & Ha1); [done|lia|].
      rewrite Hk1. cbn [mbind option_bind negb]. rewrite Hnt, zlen_to_nat.
      destruct (ReadAll_short (S (length data)) k1 o2 (length data) [] Ha1) as (d & Hd2); [|lia|].
      { rewrite Hd, length_app. destruct t; [done|simpl; lia]. }
      by rewrite Hd2.
  - injection Hs as <- _ <-. destruct H1 as (t & Ht & Hd). split; [done|intros _].
    destruct (ReadAll_short 5 chunks o1 4 [] Ha) as (d & Hd2); [|lia|].
    { rewrite <- Hh, Hd, length_app. destruct t; [done|simpl; lia]. }
    by rewrite Hd2.
Qed.

(** * The connection of the event loop *)

(** What is in the buffer is the beginning of the first message still to come. *)
Definition waiting (buf : bytes) (ms : list bytes) : Prop :=
  match ms with [] => buf = [] | m :: _ => (length buf < length (frame m))%nat end.

(** A buffer that holds less than a frame gives no message. *)
Lemma ProcessMessages_partial fuel buf m ms t :
  sendable m → frame m ++ frames ms = buf ++ t → (length buf < length (frame m))%nat →
  ProcessMessages_loop (S fuel) buf = Some ([], buf).
Proof.
  intros Hm Hf Hlt. cbn [ProcessMessages_loop]. destruct (Z.ltb_spec (zlen buf) 4) as [|H4]; [done|].
  assert (take 4 buf = take 4 (frame m ++ frames ms)) as Htake.
  { rewrite Hf, take_app_le; [done|]. unfold zlen in H4. lia. }
  rewrite Htake, frame_head by done. destruct (Z.ltb_spec (zlen buf) (4 + zlen m)); [done|].
  exfalso. rewrite frame_length in Hlt. unfold zlen in *. lia.
Qed.

Lemma ProcessMessages_loop_spec ms fuel buf t :
  Forall sendable ms → frames ms = buf ++ t → (length buf < fuel)%nat →
  ∃ k rest, ProcessMessages_loop fuel buf = Some (take k ms, rest) ∧
    frames (drop k ms) = rest ++ t ∧ waiting rest (drop k ms).
Proof.
  intros Hs. revert fuel buf. induction Hs as [|m ms Hm Hs IH]; intros fuel buf Hf Hl.
  { change (frames []) with (@nil byte) in Hf. symmetry in Hf. apply app_nil in Hf as [-> ->].
    exists 0%nat, []. destruct fuel; [simpl in Hl; lia|]. done. }
  rewrite frames_cons in Hf. destruct (decide (length buf < length (frame m))%nat) as [Hlt|Hge].
  - exists 0%nat, buf. destruct fuel as [|fuel]; [lia|].
    rewrite (ProcessMessages_partial fuel buf m ms t) by done. cbn [drop take].
    rewrite frames_cons. by split_and!.
  - assert (buf = frame m ++ drop (length (frame m)) buf) as Hsplit.
    { rewrite <- (take_drop (length (frame m)) buf) at 1. f_equal.
      assert (take (length (frame m)) (frame m ++ frames ms) = take (length (frame m)) (buf ++ t)) as E
        by by rewrite Hf.
      rewrite take_app_length, take_app_le in E by lia. done. }
    set (rest0 := drop (length (frame m)) buf) in *.
    assert (frames ms = rest0 ++ t) as Hf'.
    { rewrite Hsplit, <- app_assoc in Hf. by apply app_inv_head in Hf. }
    pose proof (frame_length m) as Hfl. pose proof Hm as Hsz. unfold sendable in Hsz.
    assert (length rest0 = length buf - length (frame m))%nat as Hlr by (subst rest0; apply length_drop).
    destruct fuel as [|fuel]; [lia|].
    destruct (IH fuel rest0 Hf') as (k & rest & Hp & Hf2 & Hw); [lia|].
    exists (S k), rest. cbn [drop]. split; [|by split]. cbn [ProcessMessages_loop].
    destruct (Z.ltb_spec (zlen buf) 4) as [|H4]; [unfold zlen in *; lia|].
    replace (ntohl_bytes (take 4 buf)) with (zlen m) by (by rewrite Hsplit, frame_head).
    destruct (Z.ltb_spec (zlen buf) (4 + zlen m)); [unfold zlen in *; lia|].
    pose proof (zlen_nonneg m). rewrite u32_small by lia.
    replace (Z.to_nat (zlen m + 4)) with (length (frame m)) by (unfold zlen; lia).
    fold rest0. rewrite Hp. cbn [mbind option_bind]. rewrite zlen_to_nat.
    by replace (take (length m) (drop 4 buf)) with m by (by rewrite Hsplit, frame_body).
Qed.

(** The bytes a turn of [HandleRead] reads. *)
Fixpoint data_of (rs : list rres) : bytes :=
  match rs with RData d :: rs => d ++ data_of rs | _ => [] end.

(** A turn that ends because there is nothing more to read for now. *)
Fixpoint drained (rs : list rres) : Prop :=
  match rs with [RAgain] => True | RData _ :: rs => drained rs | _ => False end.

Lemma HandleRead_spec rs ms t c :
  Forall sendable ms → drained rs → frames ms = read_buf_ c ++ data_of rs ++ t →
  waiting (read_buf_ c) ms →
  ∃ k c', HandleRead rs c = Some (c', take k ms) ∧
    frames (drop k ms) = read_buf_ c' ++ t ∧ waiting (read_buf_ c') (drop k ms).
Proof.
  revert ms c. induction rs as [|r rs IH]; intros ms c Hs Hd Hf Hw; [done|].
  destruct r as [d| | |]; cbn [HandleRead]; try done.
  - cbn [data_of] in Hf. cbn [drained] in Hd.
    destruct (ProcessMessages_loop_spec ms (S (length (read_buf_ c ++ d))) (read_buf_ c ++ d) (data_of rs ++ t))
      as (k & rest & Hp & Hf' & Hw'); [done|by rewrite <- !app_assoc in *|lia|].
    unfold ProcessMessages. rewrite Hp. cbn [mbind option_bind].
    destruct (IH (drop k ms) (set_read_buf rest c)) as (j & c' & -> & Hf2 & Hw2);
      [by apply Forall_drop|by destruct rs|done|done|].
    cbn [mbind option_bind]. exists (k + j)%nat, c'. rewrite <- drop_drop.
    split; [|done]. do 2 f_equal. apply take_take_drop.
  - destruct rs; [|done]. exists 0%nat, c. done.
Qed.

(** Turns of the receiver. *)
Fixpoint receive (turns : list (list rres)) (c : TcpConnection) : option (TcpConnection * list bytes) :=
  match turns with
  | [] => Some (c, [])
  | rs :: turns =>
      '(c, ms) ← HandleRead rs c;
      '(c, ms') ← receive turns c;
      Some (c, ms ++ ms')
  end.

Lemma receive_spec turns ms t c :
  Forall sendable ms → Forall drained turns → frames ms = read_buf_ c ++ mjoin (map data_of turns) ++ t →
  waiting (read_buf_ c) ms →
  ∃ k c', receive turns c = Some (c', take k ms) ∧
    frames (drop k ms) = read_buf_ c' ++ t ∧ waiting (read_buf_ c') (drop k ms).
Proof.
  intros Hs Hd. revert ms c Hs. induction Hd as [|rs turns Hrs Hd IH]; intros ms c Hs Hf Hw.
  { exists 0%nat, c. done. }
  change (mjoin (map data_of (rs :: turns))) with (data_of rs ++ mjoin (map data_of turns)) in Hf.
  destruct (HandleRead_spec rs ms (mjoin (map data_of turns) ++ t) c) as (k & c1 & Hr & Hf1 & Hw1);
    [done|done|by rewrite <- app_assoc in Hf|done|].
  cbn [receive]. rewrite Hr. cbn [mbind option_bind].
  destruct (IH (drop k ms) c1) as (j & c2 & -> & Hf2 & Hw2); [by apply Forall_drop|done|done|].
  cbn [mbind option_bind]. exists (k + j)%nat, c2. rewrite <- drop_drop. split; [|done].
  do 2 f_equal. apply take_take_drop.
Qed.

(** What the sender does: [Send] a message, or handle a writable socket; the
    results are those of [write]. *)
Inductive SendEvent := OpSend (data : bytes) (w : wres) | OpWritable (w : wres).

(** The bytes that reached the wire, and the messages whose [Send] did not fail. *)
Fixpoint transmit (ops : list SendEvent) (c : TcpConnection) : TcpConnection * bytes * list bytes :=
  match ops with
  | [] => (c, [], [])
  | OpSend data w :: ops =>
      let failed := match write_buf_ c, w with [], WErr => true | _, _ => false end in
      let '(c, out) := Send data w c in
      let '(c, out', ms) := transmit ops c in
      (c, out ++ out', if failed then ms else data :: ms)
  | OpWritable w :: ops =>
      let '(c, out) := HandleWrite w c in
      let '(c, out', ms) := transmit ops c in
      (c, out ++ out', ms)
  end.

(** The channel watches for writability exactly while bytes are waiting. *)
Definition write_interest (c : TcpConnection) : Prop :=
  closed_ c = false → Z.testbit (events_ c) 2 = bool_decide (write_buf_ c ≠ []).

Lemma testbit_out e : Z.testbit (Z.lor e EPOLLOUT) 2 = true ∧ Z.testbit (Z.ldiff e EPOLLOUT) 2 = false.
Proof.
  rewrite Z.lor_spec, Z.ldiff_spec. change (Z.testbit EPOLLOUT 2) with true.
  by rewrite orb_true_r, andb_false_r.
Qed.

Lemma Send_spec data w c c' out :
  Send data w c = (c', out) →
  out ++ write_buf_ c' = write_buf_ c ++ (match write_buf_ c, w with [], WErr => [] | _, _ => frame data end) ∧
  (write_interest c → write_interest c').
Proof.
  unfold Send. destruct (write_buf_ c) as [|x buf] eqn:Hb.
  - assert (∀ n, (if (n <? length (frame data))%nat
          then (EnableWriting (set_write_buf (drop n (frame data)) c), take n (frame data))
          else (c, frame data)) = (c', out) →
        out ++ write_buf_ c' = frame data ∧ (write_interest c → write_interest c')) as Hn.
    { intros n. destruct (Nat.ltb_spec n (length (frame data))) as [Hlt|].
      - intros [= <- <-]. cbn [EnableWriting set_write_buf write_buf_]. split; [apply take_drop|].
        intros _ _. cbn [events_ EnableWriting write_buf_]. rewrite (proj1 (testbit_out _)).
        rewrite bool_decide_eq_true_2; [done|]. intros E. apply (f_equal length) in E.
        change (length (drop n (frame data)) = 0%nat) in E. rewrite length_drop in E. lia.
      - intros [= <- <-]. rewrite Hb, app_nil_r. done. }
    destruct w as [n| |]; [apply Hn|apply Hn|]. intros [= <- <-]. cbn. by rewrite Hb.
  - intros [= <- <-]. cbn [set_write_buf write_buf_]. split; [done|].
    intros Hi Hc. specialize (Hi Hc). cbn [events_ set_write_buf write_buf_]. rewrite Hi, Hb.
    by rewrite !bool_decide_eq_true_2.
Qed.

Lemma HandleWrite_spec w c c' out :
  HandleWrite w c = (c', out) →
  out ++ write_buf_ c' = write_buf_ c ∧ (write_interest c → write_interest c').
Proof.
  unfold HandleWrite. destruct (write_buf_ c) as [|x buf] eqn:Hb.
  - intros [= <- <-]. cbn [DisableWriting write_buf_]. rewrite Hb. split; [done|].
    intros _ _. cbn [events_ DisableWriting write_buf_]. rewrite (proj2 (testbit_out _)), Hb. done.
  - destruct w as [n| |].
    + cbn [set_write_buf write_buf_]. intros [= <- <-].
      destruct (drop n (x :: buf)) as [|y rest] eqn:Hd.
      * cbn [DisableWriting write_buf_ set_write_buf]. rewrite <- Hd at 1. split; [by rewrite Hd, <- Hd, take_drop|].
        intros _ _. cbn [events_ DisableWriting write_buf_ set_write_buf]. by rewrite (proj2 (testbit_out _)).
      * cbn [write_buf_ set_write_buf]. rewrite <- Hd. split; [by rewrite take_drop|].
        intros Hi Hc. specialize (Hi Hc). cbn [events_ set_write_buf write_buf_]. rewrite Hi, Hb, Hd. done.
    + intros [= <- <-]. by rewrite Hb.
    + intros [= <- <-]. cbn. by rewrite Hb.
Qed.

Lemma transmit_spec ops c c' wire ms :
  transmit ops c = (c', wire, ms) →
  wire ++ write_buf_ c' = write_buf_ c ++ frames ms ∧ (write_interest c → write_interest c').
Proof.
  revert c wire ms. induction ops as [|op ops IH]; intros c wire ms; cbn [transmit].
  { intros [= <- <- <-]. by rewrite app_nil_r. }
  destruct op as [data w|w].
  - destruct (Send data w c) as [c1 out] eqn:Hs. destruct (transmit ops c1) as [[c2 out'] ms'] eqn:Ht.
    intros [= <- <- <-]. destruct (Send_spec _ _ _ _ _ Hs) as [H1 Hi1].
    destruct (IH c1 out' ms' Ht) as [H2 Hi2]. split; [|auto]. rewrite <- app_assoc, H2, app_assoc, H1.
    destruct (write_buf_ c), w; cbn [app]; by rewrite ?frames_cons, <- ?app_assoc.
  - destruct (HandleWrite w c) as [c1 out] eqn:Hs. destruct (transmit ops c1) as [[c2 out'] ms'] eqn:Ht.
    intros [= <- <- <-]. destruct (HandleWrite_spec _ _ _ _ Hs) as [H1 Hi1].
    destruct (IH c1 out' ms' Ht) as [H2 Hi2]. split; [|auto]. by rewrite <- app_assoc, H2, app_assoc, H1.
Qed.

(** C13: a connection delivers the messages given to [Send] in order, each once and
    unchanged, however the kernel accepts the writes and cuts the reads: what the
    receiver's callback got is always a prefix of what was sent, and all of it as
    soon as the write buffer is empty and everything was read.  The channel watches
    for writability exactly while bytes wait. *)
Theorem tcp_delivers_in_order ops c wire sent turns unread :
  transmit ops (Start TcpConnection_new) = (c, wire, sent) →
  Forall sendable sent → Forall drained turns → wire = mjoin (map data_of turns) ++ unread →
  ∃ c' delivered, receive turns (Start TcpConnection_new) = Some (c', delivered) ∧
    delivered `prefix_of` sent ∧
    (write_buf_ c = [] → unread = [] → delivered = sent ∧ read_buf_ c' = []) ∧
    write_interest c.
Proof.
  intros Ht Hs Hd Hw. apply transmit_spec in Ht as [Hwire Hi].
  cbn [Start TcpConnection_new write_buf_ app] in Hwire.
  destruct (receive_spec turns sent (unread ++ write_buf_ c) (Start TcpConnection_new))
    as (k & c' & Hr & Hf & Hwt); [done|done| | |].
  - cbn [read_buf_ Start TcpConnection_new app]. by rewrite <- Hwire, Hw, <- app_assoc.
  - destruct sent; [done|]. unfold waiting. rewrite frame_length. cbn [length read_buf_ Start TcpConnection_new]. lia.
  - exists c', (take k sent). split; [done|]. split; [apply prefix_take|]. split.
    + intros Hb Hu. rewrite Hb, Hu in Hf. rewrite !app_nil_r in Hf. unfold waiting in Hwt.
      destruct (drop k sent) as [|m ms] eqn:Hdk.
      * split; [|done]. rewrite <- (take_drop k sent) at 2. by rewrite Hdk, app_nil_r.
      * exfalso. rewrite frames_cons in Hf. apply (f_equal length) in Hf. rewrite length_app in Hf. lia.
    + apply Hi. intros _. done.
Qed.

(** * Concrete streams *)

Lemma message_whole_or_nothing_witness :
  let chunks := [[x00]; [x00; x00; x03; x68]; str "i!more"] in
  (true = true → ∃ chunks', RecvMsg chunks = Some (inl (str "hi!"), chunks') ∧ arrived chunks' (str "more")) ∧
  (true = false → RecvMsg (chunks ++ [[]]) = Some (inr tt, [])).
Proof.
  apply (message_whole_or_nothing [Wrote 1; Wrote 3; Wrote 2; Wrote 5] (str "hi!")
    ([x00; x00; x00; x03] ++ str "hi!") [] true (str "more")); [by vm_compute|by vm_compute|].
  split; [repeat (apply Forall_cons; split; [done|]); apply Forall_nil_2|by vm_compute].
Defined.

Definition demo_ops : list SendEvent :=
  [OpSend (str "one") (Wrote 2); OpWritable WAgain; OpSend (str "two") WErr; OpWritable (Wrote 100)].

Lemma tcp_delivers_in_order_witness :
  ∃ c' delivered, receive [[RData [x00; x00]; RAgain]; [RData ([x00; x03] ++ str "one" ++ [x00]); RAgain]]
      (Start TcpConnection_new) = Some (c', delivered) ∧
    delivered `prefix_of` [str "one"; str "two"] ∧
    (write_buf_ (Start TcpConnection_new) = [] → [x00; x00; x03] ++ str "two" = [] →
      delivered = [str "one"; str "two"] ∧ read_buf_ c' = []) ∧
    write_interest (Start TcpConnection_new).
Proof.
  apply (tcp_delivers_in_order demo_ops (Start TcpConnection_new)
    (frame (str "one") ++ frame (str "two")) [str "one"; str "two"]); [by vm_compute| | |by vm_compute].
  - repeat (apply Forall_cons; split; [by vm_compute|]). apply Forall_nil_2.
  - repeat (apply Forall_cons; split; [done|]). apply Forall_nil_2.
Defined.
