(* ===== verification/EventLoop.v ===== *)
(** The event loop: src/net/net_event_loop.cc, net_channel.cpp, net_tcp_server.cc,
    and the life of a connection in net_tcp_connection.cc.

    A [Channel] is an object that the loop knows by a pointer kept under its file
    descriptor, so objects live in a store and a pointer may dangle: an operation
    on a dead object is [None].  The kernel's side is the interest list of epoll,
    which closing a descriptor leaves.  A connection lives as long as the server's
    table or a task (its other references) holds it. *)
From S2P Require Import Prelude Net.

Definition EPOLLERR : Z := 8.
Definition EPOLLHUP : Z := 16.

(** The test [revents & flag]. *)
Definition has (revents flag : Z) : bool := negb (Z.land revents flag =? 0).

(** * Channels and the interest list *)

Record Channel := mkChannel { ch_fd : Z; ch_events : Z }.

#[export] Instance Channel_eq_dec : EqDecision Channel.
Proof. solve_decision. Defined.

(** The loop's [channels_], the kernel's interest list, the live channels, the
    live connections with the number of references tasks hold (a connection and
    its channel share one identity), and the server's [connections_] and
    [accept_channel_]. *)
Record Reactor := mkReactor {
  channels_ : gmap Z nat;
  interest : gmap Z Z;
  chans : gmap nat Channel;
  conns : gmap nat nat;
  connections_ : gmap Z nat;
  accept_channel_ : option nat }.

Definition set_channels (m : gmap Z nat) (w : Reactor) : Reactor :=
  mkReactor m (interest w) (chans w) (conns w) (connections_ w) (accept_channel_ w).
Definition set_interest (m : gmap Z Z) (w : Reactor) : Reactor :=
  mkReactor (channels_ w) m (chans w) (conns w) (connections_ w) (accept_channel_ w).
Definition set_chans (m : gmap nat Channel) (w : Reactor) : Reactor :=
  mkReactor (channels_ w) (interest w) m (conns w) (connections_ w) (accept_channel_ w).
Definition set_conns (m : gmap nat nat) (w : Reactor) : Reactor :=
  mkReactor (channels_ w) (interest w) (chans w) m (connections_ w) (accept_channel_ w).
Definition set_connections (m : gmap Z nat) (w : Reactor) : Reactor :=
  mkReactor (channels_ w) (interest w) (chans w) (conns w) m (accept_channel_ w).
Definition set_accept_channel (p : option nat) (w : Reactor) : Reactor :=
  mkReactor (channels_ w) (interest w) (chans w) (conns w) (connections_ w) p.

(** [epoll_ctl]; its result is never looked at.  [ADD] fails on a descriptor that
    is listed, [MOD] and [DEL] on one that is not. *)
Inductive EpollOp := EPOLL_CTL_ADD | EPOLL_CTL_MOD | EPOLL_CTL_DEL.
Definition epoll_ctl (op : EpollOp) (fd events : Z) (w : Reactor) : Reactor :=
  match op, interest w !! fd with
  | EPOLL_CTL_ADD, None | EPOLL_CTL_MOD, Some _ => set_interest (<[fd := events]> (interest w)) w
  | EPOLL_CTL_DEL, _ => set_interest (delete fd (interest w)) w
  | _, _ => w
  end.

Definition UpdateChannel (p : nat) (w : Reactor) : option Reactor :=
  ch ← chans w !! p;
  let fd := ch_fd ch in
  let events := ch_events ch in
  match channels_ w !! fd with
  | None => Some (epoll_ctl EPOLL_CTL_ADD fd events (set_channels (<[fd := p]> (channels_ w)) w))
  | Some _ =>
      if events =? 0
      then Some (epoll_ctl EPOLL_CTL_DEL fd events (set_channels (delete fd (channels_ w)) w))
      else Some (epoll_ctl EPOLL_CTL_MOD fd events w)
  end.

Definition RemoveChannel (p : nat) (w : Reactor) : option Reactor :=
  ch ← chans w !! p;
  Some (epoll_ctl EPOLL_CTL_DEL (ch_fd ch) 0 (set_channels (delete (ch_fd ch) (channels_ w)) w)).

(** [Channel::Update()] after a change of [events_]. *)
Definition set_events (f : Z → Z) (p : nat) (w : Reactor) : option Reactor :=
  ch ← chans w !! p;
  UpdateChannel p (set_chans (<[p := mkChannel (ch_fd ch) (f (ch_events ch))]> (chans w)) w).

Definition EnableReading (p : nat) : Reactor → option Reactor := set_events (λ e, Z.lor e EPOLLIN) p.
Definition DisableReading (p : nat) : Reactor → option Reactor := set_events (λ e, Z.ldiff e EPOLLIN) p.
Definition EnableWriting (p : nat) : Reactor → option Reactor := set_events (λ e, Z.lor e EPOLLOUT) p.
Definition DisableWriting (p : nat) : Reactor → option Reactor := set_events (λ e, Z.ldiff e EPOLLOUT) p.

Definition DisableAll (p : nat) (w : Reactor) : option Reactor :=
  ch ← chans w !! p;
  if ch_events ch =? 0 then Some w
  else RemoveChannel p (set_chans (<[p := mkChannel (ch_fd ch) 0]> (chans w)) w).

(** [Channel::~Channel()]. *)
Definition Channel_delete (p : nat) (w : Reactor) : option Reactor :=
  w ← DisableAll p w;
  Some (set_chans (delete p (chans w)) w).

(** [close(fd)]: the kernel forgets the descriptor. *)
Definition close_fd (fd : Z) (w : Reactor) : Reactor := set_interest (delete fd (interest w)) w.

(** * Connections *)

(** [TcpConnection::~TcpConnection()], its channel's destructor included. *)
Definition TcpConnection_delete (p : nat) (w : Reactor) : option Reactor :=
  ch ← chans w !! p;
  w ← DisableAll p w;
  w ← Channel_delete p (close_fd (ch_fd ch) w);
  Some (set_conns (delete p (conns w)) w).

(** A [shared_ptr] to the connection goes away. *)
Definition release (p : nat) (w : Reactor) : option Reactor :=
  ch ← chans w !! p;
  refs ← conns w !! p;
  if (refs =? 0)%nat && negb (bool_decide (connections_ w !! ch_fd ch = Some p))
  then TcpConnection_delete p w else Some w.

(** [connections_.erase(client_fd)], the server's close callback. *)
Definition erase_connection (fd : Z) (w : Reactor) : option Reactor :=
  match connections_ w !! fd with
  | None => Some w
  | Some p => release p (set_connections (delete fd (connections_ w)) w)
  end.

(** [TcpConnection::HandleClose()]. *)
Definition HandleClose (p : nat) (w : Reactor) : option Reactor :=
  ch ← chans w !! p;
  w ← DisableAll p w;
  erase_connection (ch_fd ch) w.

(** [TcpServer::HandleNewConnection()] from the point where [accept] has given the
    descriptor [fd]; the new connection is the object [p]. *)
Definition HandleNewConnection (fd : Z) (p : nat) (w : Reactor) : option Reactor :=
  let w := set_conns (<[p := 0%nat]> (conns w)) (set_chans (<[p := mkChannel fd 0]> (chans w)) w) in
  let old := connections_ w !! fd in
  let w := set_connections (<[fd := p]> (connections_ w)) w in
  w ← match old with Some q => release q w | None => Some w end;
  EnableReading p w.

(** [TcpServer::Start()]: what [socket], [bind] and [listen] gave; the listening
    channel is the object [p].  A second call deletes the channel of the first. *)
Definition TcpServer_Start (server_fd : option Z) (bound listening : bool) (p : nat) (w : Reactor) :
    option (Reactor * bool) :=
  match server_fd with
  | None => Some (w, false)
  | Some fd =>
      if negb bound then Some (w, false)
      else if negb listening then Some (w, false)
      else
        let old := accept_channel_ w in
        let w := set_accept_channel (Some p) (set_chans (<[p := mkChannel fd 0]> (chans w)) w) in
        w ← match old with Some q => Channel_delete q w | None => Some w end;
        w ← EnableReading p w;
        Some (w, true)
  end.

(** [TcpServer::~TcpServer()]: the listening descriptor is closed, and the members go
    in the reverse order of their declaration, the table before the channel. *)
Fixpoint drop_connections (fds : list Z) (w : Reactor) : option Reactor :=
  match fds with
  | [] => Some w
  | fd :: fds => w ← erase_connection fd w; drop_connections fds w
  end.
Definition TcpServer_delete (server_fd_ : option Z) (w : Reactor) : option Reactor :=
  let w := match server_fd_ with Some fd => close_fd fd w | None => w end in
  w ← drop_connections (map fst (map_to_list (connections_ w))) w;
  match accept_channel_ w with
  | Some p => Channel_delete p (set_accept_channel None w)
  | None => Some w
  end.

(** A task takes a reference ([shared_from_this] of [ProcessMessages]), and drops
    it when it has run. *)
Definition hold (p : nat) (w : Reactor) : option Reactor :=
  refs ← conns w !! p;
  Some (set_conns (<[p := S refs]> (conns w)) w).
Definition drop_ref (p : nat) (w : Reactor) : option Reactor :=
  refs ← conns w !! p;
  release p (set_conns (<[p := pred refs]> (conns w)) w).

(** * Events *)

(** What a write to the socket comes to: the write buffer is empty, it holds bytes
    still, or the socket failed. *)
Inductive wrote := Drained | More | Failed.

(** [TcpConnection::Send], by what its [write] gave; a [Send] behind a buffer that
    is not empty only appends, like one that is [Drained] as far as this state goes. *)
Definition Send (r : wrote) (p : nat) (w : Reactor) : option Reactor :=
  match r with
  | Drained => Some w
  | More => EnableWriting p w
  | Failed => HandleClose p w
  end.

(** What the message callback does with a message: it leaves its reference with a
    task (the servers that answer from a thread pool or later), or sends the answer
    at once and lets go ([RaftRpc]; a message without an answer is [Drained]). *)
Inductive handled := Kept | Replied (r : wrote).

(** What a callback of a connection finds: what becomes of the messages it read, and
    whether the stream ended or failed; how a write went.  What the callback of the
    listening channel finds: the descriptor [accept] gave, if any, with the object
    made for it. *)
Record io := mkFound {
  io_messages : list handled; io_closed : bool; io_write : wrote; io_accepted : option (Z * nat) }.
Definition mkIo (messages : nat) (closed : bool) (write : wrote) : io :=
  mkFound (replicate messages Kept) closed write None.
Definition accepted (fd : Z) (p : nat) : io := mkFound [] false More (Some (fd, p)).

(** The call [msg_cb_(shared_from_this(), message)]. *)
Definition msg_cb_ (m : handled) (p : nat) (w : Reactor) : option Reactor :=
  w ← hold p w;
  match m with
  | Kept => Some w
  | Replied r => w ← Send r p w; drop_ref p w
  end.

(** [ProcessMessages] goes back to its [read_buf_], a member of the connection, after
    every callback. *)
Fixpoint ProcessMessages (ms : list handled) (p : nat) (w : Reactor) : option Reactor :=
  match ms with
  | [] => Some w
  | m :: ms => w ← msg_cb_ m p w; _ ← conns w !! p; ProcessMessages ms p w
  end.

Definition on_read (i : io) (p : nat) (w : Reactor) : option Reactor :=
  w ← ProcessMessages (io_messages i) p w;
  if io_closed i then HandleClose p w else Some w.
Definition on_write (i : io) (p : nat) (w : Reactor) : option Reactor :=
  match io_write i with
  | Drained => DisableWriting p w
  | More => Some w
  | Failed => HandleClose p w
  end.
Definition on_accept (i : io) (w : Reactor) : option Reactor :=
  match io_accepted i with
  | None => Some w
  | Some (fd, p) => HandleNewConnection fd p w
  end.

(** The callbacks of a channel: the listening channel has the first only. *)
Definition listens (p : nat) (w : Reactor) : bool := bool_decide (accept_channel_ w = Some p).
Definition read_cb_ (i : io) (p : nat) (w : Reactor) : option Reactor :=
  if listens p w then on_accept i w else on_read i p w.
Definition write_cb_ (i : io) (p : nat) (w : Reactor) : option Reactor :=
  if listens p w then Some w else on_write i p w.
Definition close_cb_ (p : nat) (w : Reactor) : option Reactor :=
  if listens p w then Some w else HandleClose p w.

(** [Channel::HandleEvent(revents)]: every callback is a member of the channel,
    which must be alive when it is read; a connection's error callback is its close
    callback. *)
Definition HandleEvent (i : io) (revents : Z) (p : nat) (w : Reactor) : option Reactor :=
  _ ← chans w !! p;
  if has revents EPOLLHUP && negb (has revents EPOLLIN) then close_cb_ p w
  else if has revents EPOLLERR then close_cb_ p w
  else
    w ← (if has revents EPOLLIN then read_cb_ i p w else Some w);
    if has revents EPOLLOUT then _ ← chans w !! p; write_cb_ i p w else Some w.

(** The [for] of [EventLoop::Loop] over what [epoll_wait] reported; each event comes
    with what its callbacks will find. *)
Definition Loop_event (ev : Z * Z * io) (w : Reactor) : option Reactor :=
  let '(fd, revents, i) := ev in
  match channels_ w !! fd with
  | Some p => HandleEvent i revents p w
  | None => Some w
  end.

Fixpoint Loop_events (evs : list (Z * Z * io)) (w : Reactor) : option Reactor :=
  match evs with
  | [] => Some w
  | ev :: evs => w ← Loop_event ev w; Loop_events evs w
  end.

(** * The loop mirrors the interest list *)

(** No two live channels have one descriptor. *)
Definition distinct_fds (m : gmap nat Channel) : Prop :=
  ∀ p q fd e e', m !! p = Some (mkChannel fd e) → m !! q = Some (mkChannel fd e') → p = q.

(** The table, the kernel and the channels agree; every descriptor has one
    channel. *)
Record mirror (w : Reactor) : Prop := {
  mi_table : ∀ fd p, channels_ w !! fd = Some p →
    ∃ e, chans w !! p = Some (mkChannel fd e) ∧ interest w !! fd = Some e ∧ e ≠ 0;
  mi_kernel : ∀ fd, channels_ w !! fd = None → interest w !! fd = None;
  mi_live : ∀ p fd e, chans w !! p = Some (mkChannel fd e) → e ≠ 0 → channels_ w !! fd = Some p;
  mi_fd : distinct_fds (chans w) }.

(** The mask of one channel changes. *)
Lemma distinct_insert m p fd e e' :
  distinct_fds m → m !! p = Some (mkChannel fd e) → distinct_fds (<[p := mkChannel fd e']> m).
Proof.
  intros Hd Hp a b g ea eb. rewrite !lookup_insert_Some.
  intros [[<- [= <- <-]]|[Ha La]] [[<- Eb]|[Hb Lb]].
  - done.
  - by apply (Hd p b fd e eb).
  - injection Eb as -> ->. by apply (Hd a p g ea e).
  - by apply (Hd a b g ea eb).
Qed.

Lemma set_events_mirror f p fd e w :
  mirror w → chans w !! p = Some (mkChannel fd e) → (e = 0 → f e ≠ 0) →
  ∃ w', set_events f p w = Some w' ∧ mirror w' ∧ chans w' = <[p := mkChannel fd (f e)]> (chans w) ∧
    conns w' = conns w ∧ connections_ w' = connections_ w ∧ accept_channel_ w' = accept_channel_ w.
Proof.
  intros [Mt Mk Ml Mf] Hp Hf. unfold set_events, UpdateChannel. rewrite Hp. cbn [mbind option_bind ch_fd ch_events].
  cbn [chans set_chans]. rewrite lookup_insert_eq. cbn [mbind option_bind ch_fd ch_events].
  change (channels_ (set_chans _ w)) with (channels_ w).
  assert (∀ q g e', q ≠ p → chans w !! q = Some (mkChannel g e') → g ≠ fd) as Hne.
  { intros q g e' Hq Hg ->. by apply Hq, (Mf q p fd e' e). }
  destruct (channels_ w !! fd) as [q|] eqn:Hc.
  - destruct (Mt fd q Hc) as (e1 & Hq & Hi & He1). assert (q = p) as -> by by apply (Mf q p fd e1 e).
    rewrite Hp in Hq. injection Hq as <-. destruct (Z.eqb_spec (f e) 0) as [H0|H0].
    + eexists. split; [done|]. split; [|by split_and!]. unfold epoll_ctl. cbn [interest set_channels set_chans].
      split; cbn [channels_ interest chans set_interest set_channels set_chans].
      * intros g q [Hg Hl]%lookup_delete_Some. destruct (Mt g q Hl) as (e2 & Hq & Hi2 & He2).
        exists e2. assert (q ≠ p) by (intros ->; congruence).
        by rewrite lookup_insert_ne, lookup_delete_ne.
      * intros g [<-|Hl]%lookup_delete_None; [by rewrite lookup_delete_eq|].
        apply lookup_delete_None. right. by apply Mk.
      * intros q g e'. rewrite lookup_insert_Some. intros [[<- [= <- <-]]|[Hq Hl]] He'; [done|].
        rewrite lookup_delete_ne; [by apply (Ml q g e')|]. intros E. by apply (Hne q g e').
      * by apply (distinct_insert _ p fd e).
    + eexists. split; [done|]. unfold epoll_ctl. cbn [interest set_chans]. rewrite Hi. split; [|by split_and!].
      split; cbn [channels_ interest chans set_interest set_chans].
      * intros g q Hl. destruct (decide (g = fd)) as [->|Hg].
        -- rewrite Hc in Hl. injection Hl as <-. exists (f e). by rewrite !lookup_insert_eq.
        -- destruct (Mt g q Hl) as (e2 & Hq & Hi2 & He2). exists e2.
           assert (q ≠ p) by (intros ->; congruence). by rewrite !lookup_insert_ne.
      * intros g Hl. rewrite lookup_insert_ne by congruence. by apply Mk.
      * intros q g e'. rewrite lookup_insert_Some. intros [[<- [= <- <-]]|[Hq Hl]] He'; [done|].
        by apply (Ml q g e').
      * by apply (distinct_insert _ p fd e).
  - assert (e = 0) as -> by (destruct (decide (e = 0)); [done|]; by rewrite (Ml p fd e) in Hc).
    specialize (Hf eq_refl). eexists. split; [done|]. unfold epoll_ctl. cbn [interest set_channels set_chans].
    rewrite (Mk fd Hc). split; [|by split_and!]. split; cbn [channels_ interest chans set_interest set_channels set_chans].
    + intros g q. rewrite lookup_insert_Some. intros [[<- <-]|[Hg Hl]].
      * exists (f 0). by rewrite !lookup_insert_eq.
      * destruct (Mt g q Hl) as (e2 & Hq & Hi2 & He2). exists e2.
        assert (q ≠ p) by (intros ->; congruence). by rewrite !lookup_insert_ne.
    + intros g [Hl Hg]%lookup_insert_None. rewrite lookup_insert_ne by done. by apply Mk.
    + intros q g e'. rewrite !lookup_insert_Some. intros [[<- [= <- <-]]|[Hq Hl]] He'; [by left|].
      right. split; [intros E; by apply (Hne q g e')|by apply (Ml q g e')].
    + by apply (distinct_insert _ p fd 0).
Qed.

Lemma DisableAll_mirror p fd e w :
  mirror w → chans w !! p = Some (mkChannel fd e) →
  ∃ w', DisableAll p w = Some w' ∧ mirror w' ∧ chans w' = <[p := mkChannel fd 0]> (chans w) ∧
    conns w' = conns w ∧ connections_ w' = connections_ w ∧ accept_channel_ w' = accept_channel_ w ∧
    channels_ w' !! fd = None.
Proof.
  intros [Mt Mk Ml Mf] Hp. unfold DisableAll. rewrite Hp. cbn [mbind option_bind ch_fd ch_events].
  destruct (Z.eqb_spec e 0) as [->|He].
  - exists w. split; [done|]. split; [done|]. split; [by rewrite insert_id|]. split_and!; [done|done|done|].
    destruct (channels_ w !! fd) as [q|] eqn:Hc; [|done]. destruct (Mt fd q Hc) as (e1 & Hq & _ & He1).
    assert (q = p) as -> by by apply (Mf q p fd e1 0). congruence.
  - unfold RemoveChannel. cbn [chans set_chans]. rewrite lookup_insert_eq. cbn [mbind option_bind ch_fd].
    eexists. split; [done|]. unfold epoll_ctl. cbn [interest channels_ set_channels set_chans].
    split; [|split_and!; [done..|apply lookup_delete_eq]].
    split; cbn [channels_ interest chans set_interest set_channels set_chans].
    + intros g q [Hg Hl]%lookup_delete_Some. destruct (Mt g q Hl) as (e2 & Hq & Hi2 & He2).
      exists e2. assert (q ≠ p) by (intros ->; congruence). by rewrite lookup_insert_ne, lookup_delete_ne.
    + intros g [<-|Hl]%lookup_delete_None; [by rewrite lookup_delete_eq|].
      apply lookup_delete_None. right. by apply Mk.
    + intros q g e'. rewrite lookup_insert_Some. intros [[<- [= <- <-]]|[Hq Hl]] He'; [done|].
      rewrite lookup_delete_ne; [by apply (Ml q g e')|]. intros <-. by apply Hq, (Mf p q fd e e').
    + by apply (distinct_insert _ p fd e).
Qed.

(** An object with no interest goes away. *)
Lemma delete_mirror p fd w :
  mirror w → chans w !! p = Some (mkChannel fd 0) → mirror (set_chans (delete p (chans w)) w).
Proof.
  intros [Mt Mk Ml Mf] Hp. split; cbn [channels_ interest chans set_chans].
  - intros g q Hl. destruct (Mt g q Hl) as (e & Hq & Hi & He). exists e.
    by rewrite lookup_delete_ne by (intros ->; congruence).
  - exact Mk.
  - intros q g e [_ Hq]%lookup_delete_Some. by apply Ml.
  - intros a b g ea eb [_ Ha]%lookup_delete_Some [_ Hb]%lookup_delete_Some. by apply (Mf a b g ea eb).
Qed.

(** * Life of a connection *)

(** The live channels are those of the connections and the listening one, which
    asks for what a listening channel asks for; the server's table has live
    connections under their descriptors; and a connection no task holds is in the
    table. *)
Record reactor_ok (w : Reactor) : Prop := {
  ro_mirror : mirror w;
  ro_conns : ∀ p, is_Some (chans w !! p) ↔ is_Some (conns w !! p) ∨ accept_channel_ w = Some p;
  ro_listener : ∀ p, accept_channel_ w = Some p → conns w !! p = None ∧ ∃ fd, chans w !! p = Some (mkChannel fd EPOLLIN);
  ro_table : ∀ fd p, connections_ w !! fd = Some p → is_Some (conns w !! p) ∧ ∃ e, chans w !! p = Some (mkChannel fd e);
  ro_held : ∀ p fd e, chans w !! p = Some (mkChannel fd e) → conns w !! p = Some 0%nat →
    connections_ w !! fd = Some p }.

Lemma TcpConnection_delete_ok p fd e w :
  mirror w → chans w !! p = Some (mkChannel fd e) →
  ∃ w', TcpConnection_delete p w = Some w' ∧ mirror w' ∧ chans w' = delete p (chans w) ∧
    conns w' = delete p (conns w) ∧ connections_ w' = connections_ w ∧ accept_channel_ w' = accept_channel_ w.
Proof.
  intros Hm Hp. unfold TcpConnection_delete. rewrite Hp. cbn [mbind option_bind ch_fd].
  destruct (DisableAll_mirror p fd e w Hm Hp) as (w1 & -> & M1 & C1 & N1 & T1 & A1 & K1). cbn [mbind option_bind].
  assert (chans w1 !! p = Some (mkChannel fd 0)) as H1 by (rewrite C1; apply lookup_insert_eq).
  assert (close_fd fd w1 = w1) as ->.
  { unfold close_fd, set_interest. rewrite delete_id by by apply (mi_kernel _ M1). by destruct w1. }
  unfold Channel_delete, DisableAll. rewrite H1. cbn [mbind option_bind ch_events]. cbn.
  eexists. split; [done|]. split; [|split_and!; cbn [chans conns connections_ accept_channel_ set_conns set_chans]].
  - destruct (delete_mirror p fd w1 M1 H1). by split.
  - by rewrite C1, delete_insert_eq.
  - by rewrite N1.
  - done.
  - done.
Qed.

(** All but [p] keep what makes them live. *)
Lemma release_ok p fd e w :
  mirror w → (∀ q, is_Some (chans w !! q) ↔ is_Some (conns w !! q) ∨ accept_channel_ w = Some q) →
  (∀ q, accept_channel_ w = Some q → conns w !! q = None ∧ ∃ g, chans w !! q = Some (mkChannel g EPOLLIN)) →
  (∀ g q, connections_ w !! g = Some q → is_Some (conns w !! q) ∧ ∃ e, chans w !! q = Some (mkChannel g e)) →
  (∀ q g e, q ≠ p → chans w !! q = Some (mkChannel g e) → conns w !! q = Some 0%nat →
    connections_ w !! g = Some q) →
  chans w !! p = Some (mkChannel fd e) → is_Some (conns w !! p) →
  ∃ w', release p w = Some w' ∧ reactor_ok w' ∧ accept_channel_ w' = accept_channel_ w ∧
    connections_ w' = connections_ w ∧ chans w' ⊆ chans w.
Proof.
  intros Hm Hcc Ha Ht Hh Hp [refs Hr]. unfold release. rewrite Hp, Hr. cbn [mbind option_bind ch_fd].
  destruct (Nat.eqb_spec refs 0) as [->|Hne]; cbn [andb].
  - destruct (bool_decide_reflect (connections_ w !! fd = Some p)) as [Hin|Hout]; cbn [negb].
    + exists w. split; [done|]. split; [|done]. split; [done..|]. intros q g e' Hq H0.
      destruct (decide (q = p)) as [->|]; [congruence|by apply (Hh q g e')].
    + destruct (TcpConnection_delete_ok p fd e w Hm Hp) as (w' & -> & M' & C' & N' & T' & A').
      exists w'. split; [done|]. split; [|rewrite C'; split_and!; [done|done|apply delete_subseteq]]. split; [done|..]; rewrite ?C', ?N', ?T', ?A'.
      * intros q. destruct (decide (q = p)) as [->|].
        { rewrite !lookup_delete_eq. split; [by intros []|]. intros [[? ?]|Hq]; [done|].
          destruct (Ha p Hq) as [? _]. congruence. }
        by rewrite !lookup_delete_ne.
      * intros q Hq. destruct (Ha q Hq) as [Hn Hg]. assert (q ≠ p) by (intros ->; congruence).
        by rewrite !lookup_delete_ne.
      * intros g q Hq. destruct (Ht g q Hq) as [Hn [e' He']]. assert (q ≠ p) as Hqp.
        { intros ->. rewrite Hp in He'. injection He' as -> _. done. }
        rewrite !lookup_delete_ne by done. split; [done|by exists e'].
      * intros q g e' [Hne Hq]%lookup_delete_Some H0. rewrite lookup_delete_ne in H0 by done.
        by apply (Hh q g e').
  - exists w. split; [done|]. split; [|done]. split; [done..|]. intros q g e' Hq H0.
    destruct (decide (q = p)) as [->|]; [congruence|by apply (Hh q g e')].
Qed.

(** The mask of a connection changes. *)
Lemma masked_ok p fd e e' w w1 :
  reactor_ok w → mirror w1 → chans w !! p = Some (mkChannel fd e) → is_Some (conns w !! p) →
  chans w1 = <[p := mkChannel fd e']> (chans w) → conns w1 = conns w → connections_ w1 = connections_ w →
  accept_channel_ w1 = accept_channel_ w → reactor_ok w1.
Proof.
  intros [Hm Hcc Ha Ht Hh] M1 Hp Hn C1 N1 T1 A1. split; rewrite ?C1, ?N1, ?T1, ?A1; [done|..].
  - intros q. rewrite <- Hcc. destruct (decide (q = p)) as [->|].
    + rewrite lookup_insert_eq, Hp. split; by eexists.
    + by rewrite lookup_insert_ne.
  - intros q Hq. destruct (Ha q Hq) as [Hnq Hg]. assert (q ≠ p) by (intros ->; destruct Hn; congruence).
    by rewrite lookup_insert_ne.
  - intros g q Hq. destruct (Ht g q Hq) as [Hnq [e1 He1]]. split; [done|]. destruct (decide (q = p)) as [->|].
    + rewrite Hp in He1. injection He1 as <- _. eexists. apply lookup_insert_eq.
    + exists e1. by rewrite lookup_insert_ne.
  - intros q g e1. rewrite lookup_insert_Some. intros [[<- [= <- _]]|[_ Hq]] H0; [by apply (Hh p fd e)|].
    by apply (Hh q g e1).
Qed.

(** An entry of the server's table goes. *)
Lemma erase_connection_ok fd w :
  reactor_ok w →
  ∃ w', erase_connection fd w = Some w' ∧ reactor_ok w' ∧ accept_channel_ w' = accept_channel_ w ∧
    connections_ w' = delete fd (connections_ w) ∧ chans w' ⊆ chans w.
Proof.
  intros [Hm Hcc Ha Ht Hh]. unfold erase_connection. destruct (connections_ w !! fd) as [p|] eqn:Hc.
  - destruct (Ht fd p Hc) as [Hn [e Hp]]. set (u := set_connections (delete fd (connections_ w)) w).
    change (accept_channel_ w) with (accept_channel_ u). change (delete fd (connections_ w)) with (connections_ u). change (chans w) with (chans u).
    apply (release_ok p fd e u); unfold u; cbn [chans conns connections_ accept_channel_ set_connections];
      [destruct Hm; by split|done|done| | |done|done].
    + intros g q [_ Hq]%lookup_delete_Some. by apply Ht.
    + intros q g e' Hqp Hq H0. apply lookup_delete_Some. split; [|by apply (Hh q g e')].
      intros <-. by apply Hqp, (mi_fd _ Hm q p fd e' e).
  - exists w. by rewrite delete_id.
Qed.

Lemma HandleClose_ok p fd e w :
  reactor_ok w → chans w !! p = Some (mkChannel fd e) → is_Some (conns w !! p) →
  ∃ w', HandleClose p w = Some w' ∧ reactor_ok w' ∧ accept_channel_ w' = accept_channel_ w.
Proof.
  intros Hok Hp Hn. unfold HandleClose. rewrite Hp. cbn [mbind option_bind ch_fd].
  destruct (DisableAll_mirror p fd e w (ro_mirror _ Hok) Hp) as (w1 & -> & M1 & C1 & N1 & T1 & A1 & _).
  cbn [mbind option_bind]. pose proof (masked_ok p fd e 0 w w1 Hok M1 Hp Hn C1 N1 T1 A1) as Hok1.
  destruct (erase_connection_ok fd w1 Hok1) as (w2 & -> & Hok2 & A2 & _). exists w2. by rewrite A2.
Qed.

Lemma set_events_ok f p fd e w :
  reactor_ok w → chans w !! p = Some (mkChannel fd e) → is_Some (conns w !! p) → (e = 0 → f e ≠ 0) →
  ∃ w', set_events f p w = Some w' ∧ reactor_ok w' ∧ accept_channel_ w' = accept_channel_ w.
Proof.
  intros Hok Hp Hn Hf.
  destruct (set_events_mirror f p fd e w (ro_mirror _ Hok) Hp Hf) as (w1 & -> & M1 & C1 & N1 & T1 & A1).
  exists w1. split; [done|]. split; [by eapply masked_ok|done].
Qed.

(** The kernel never gives out a descriptor in use, and a new object is new. *)
Definition fresh_channel (fd : Z) (p : nat) (w : Reactor) : Prop :=
  chans w !! p = None ∧ ∀ q e, chans w !! q ≠ Some (mkChannel fd e).

(** An event the loop handles without touching a dead object: it does not end a
    stream and report the socket writable at once, and no [Send] of a message
    callback fails. *)
Definition event_ok (ev : Z * Z * io) (w : Reactor) : Prop :=
  let '(_, revents, i) := ev in
  (has revents EPOLLIN = true → has revents EPOLLOUT = true → io_closed i = false) ∧
  Forall (λ m, m ≠ Replied Failed) (io_messages i) ∧
  match io_accepted i with Some (fd, p) => fresh_channel fd p w | None => True end.

Lemma on_write_ok i p fd e w :
  reactor_ok w → chans w !! p = Some (mkChannel fd e) → is_Some (conns w !! p) → e ≠ 0 →
  ∃ w', on_write i p w = Some w' ∧ reactor_ok w' ∧ accept_channel_ w' = accept_channel_ w.
Proof.
  intros Hok Hp Hn He. unfold on_write. destruct (io_write i).
  - by apply (set_events_ok _ p fd e).
  - by exists w.
  - by apply (HandleClose_ok p fd e).
Qed.

Lemma drop_ref_ok p n w :
  reactor_ok w → conns w !! p = Some (S n) →
  ∃ w', drop_ref p w = Some w' ∧ reactor_ok w' ∧ accept_channel_ w' = accept_channel_ w.
Proof.
  intros Hok Hr. pose proof Hok as [Hm Hcc Ha Ht Hh]. unfold drop_ref. rewrite Hr. cbn [mbind option_bind pred].
  destruct (proj2 (Hcc p)) as [[fd e] Hp]; [left; by eexists|].
  enough (∃ w', release p (set_conns (<[p := n]> (conns w)) w) = Some w' ∧ reactor_ok w' ∧
    accept_channel_ w' = accept_channel_ w ∧ connections_ w' = connections_ w ∧
    chans w' ⊆ chans w) as (w' & ? & ? & ? & _) by by exists w'.
  apply (release_ok p fd e (set_conns (<[p := n]> (conns w)) w));
    cbn [chans conns connections_ accept_channel_ set_conns]; [destruct Hm; by split|..|done|eexists; apply lookup_insert_eq].
  - intros q. rewrite Hcc. destruct (decide (q = p)) as [->|].
    + rewrite lookup_insert_eq, Hr. split; (intros [?|?]; [left; by eexists|by right]).
    + by rewrite lookup_insert_ne.
  - intros q Hq. destruct (Ha q Hq) as [Hnq Hg]. by rewrite lookup_insert_ne by (intros ->; congruence).
  - intros g q Hq. destruct (Ht g q Hq) as [Hnq He]. split; [|done]. destruct (decide (q = p)) as [->|].
    + eexists. apply lookup_insert_eq.
    + by rewrite lookup_insert_ne.
  - intros q g e' Hqp Hq. rewrite lookup_insert_ne by done. by apply (Hh q g e').
Qed.

Lemma lor_out_nonzero e : Z.lor e EPOLLOUT ≠ 0.
Proof.
  intros E. apply (f_equal (λ z, Z.testbit z 2)) in E. rewrite Z.lor_spec in E.
  change (Z.testbit EPOLLOUT 2) with true in E. by rewrite orb_true_r in E.
Qed.

(** ** Messages *)

Definition kept (ms : list handled) : nat :=
  length (List.filter (λ m, match m with Kept => true | Replied _ => false end) ms).

Lemma hold_ok p refs w :
  reactor_ok w → conns w !! p = Some refs → reactor_ok (set_conns (<[p := S refs]> (conns w)) w).
Proof.
  intros [Hm Hcc Ha Ht Hh] Hr. split; cbn [chans conns connections_ accept_channel_ set_conns]; [destruct Hm; by split|..].
  - intros q. rewrite Hcc. destruct (decide (q = p)) as [->|].
    + rewrite lookup_insert_eq, Hr. split; (intros [?|?]; [left; by eexists|by right]).
    + by rewrite lookup_insert_ne.
  - intros q Hq. destruct (Ha q Hq) as [Hnq Hg]. by rewrite lookup_insert_ne by (intros ->; congruence).
  - intros g q Hq. destruct (Ht g q Hq) as [Hnq He]. split; [|done]. destruct (decide (q = p)) as [->|].
    + eexists. apply lookup_insert_eq.
    + by rewrite lookup_insert_ne.
  - intros q g e' Hq. rewrite lookup_insert_Some. intros [[_ ?]|[_ H0]]; [done|by apply (Hh q g e')].
Qed.

(** The connection stays where it is: alive, asking for something. *)
Definition stays (p : nat) (fd : Z) (refs : nat) (w w' : Reactor) : Prop :=
  reactor_ok w' ∧ (∃ e, chans w' !! p = Some (mkChannel fd e) ∧ e ≠ 0) ∧ conns w' !! p = Some refs ∧
  accept_channel_ w' = accept_channel_ w.

Lemma Send_ok r p fd e refs w :
  reactor_ok w → chans w !! p = Some (mkChannel fd e) → e ≠ 0 → conns w !! p = Some refs → r ≠ Failed →
  ∃ w', Send r p w = Some w' ∧ stays p fd refs w w' ∧ connections_ w' = connections_ w.
Proof.
  intros Hok Hp He Hr Hne. unfold Send, EnableWriting. destruct r; [|..|done].
  - exists w. split_and!; [done|split_and!; [done|by exists e|done|done]|done].
  - destruct (set_events_mirror (λ e, Z.lor e EPOLLOUT) p fd e w (ro_mirror _ Hok) Hp) as (w1 & E & M1 & C1 & N1 & T1 & A1); [done|].
    exists w1. split_and!; [exact E| |done]. split_and!; [by eapply masked_ok| |by rewrite N1|done].
    exists (Z.lor e EPOLLOUT). split; [rewrite C1; apply lookup_insert_eq|apply lor_out_nonzero].
Qed.

(** The callback's own reference goes. *)
Lemma drop_own_ok p fd e refs w :
  reactor_ok w → chans w !! p = Some (mkChannel fd e) → e ≠ 0 → conns w !! p = Some (S refs) →
  (refs = 0%nat → connections_ w !! fd = Some p) →
  ∃ w', drop_ref p w = Some w' ∧ stays p fd refs w w'.
Proof.
  intros Hok Hp He Hr Ht. destruct (drop_ref_ok p refs w Hok Hr) as (w' & E & Hok' & A'). exists w'.
  split; [done|]. unfold drop_ref, release in E. rewrite Hr in E. cbn [mbind option_bind pred] in E.
  cbn [chans conns connections_ set_conns] in E. rewrite Hp, lookup_insert_eq in E. cbn [mbind option_bind ch_fd] in E.
  assert ((refs =? 0)%nat && negb (bool_decide (connections_ w !! fd = Some p)) = false) as Hk.
  { destruct (Nat.eqb_spec refs 0) as [H0|]; [|done]. by rewrite bool_decide_eq_true_2 by by apply Ht. }
  rewrite Hk in E. apply (inj Some) in E as <-. split_and!; [done|by exists e| |done].
  cbn [conns set_conns]. apply lookup_insert_eq.
Qed.

Lemma msg_cb_ok m p fd e refs w :
  reactor_ok w → chans w !! p = Some (mkChannel fd e) → e ≠ 0 → conns w !! p = Some refs → m ≠ Replied Failed →
  ∃ w', msg_cb_ m p w = Some w' ∧ stays p fd (kept [m] + refs) w w'.
Proof.
  intros Hok Hp He Hr Hm. unfold msg_cb_, hold. rewrite Hr. cbn [mbind option_bind].
  set (w1 := set_conns (<[p := S refs]> (conns w)) w). pose proof (hold_ok p refs w Hok Hr) as Hok1.
  assert (conns w1 !! p = Some (S refs)) as R1 by apply lookup_insert_eq.
  destruct m as [|r]; [by exists w1; split; [|split_and!; [|exists e|..]]|].
  destruct (Send_ok r p fd e (S refs) w1) as (w2 & E2 & (Hok2 & (e2 & Hp2 & He2) & R2 & A2) & T2); [done..|by intros ->|].
  rewrite E2. cbn [mbind option_bind].
  destruct (drop_own_ok p fd e2 refs w2) as (w3 & E3 & Hok3 & Hp3 & R3 & A3); [done..|intros ->|].
  { rewrite T2. by apply (ro_held _ Hok p fd e). }
  exists w3. split; [done|]. split_and!; [done..|by rewrite A3, A2].
Qed.

Lemma ProcessMessages_ok ms p fd e refs w :
  reactor_ok w → chans w !! p = Some (mkChannel fd e) → e ≠ 0 → conns w !! p = Some refs →
  Forall (λ m, m ≠ Replied Failed) ms →
  ∃ w', ProcessMessages ms p w = Some w' ∧ stays p fd (kept ms + refs) w w'.
Proof.
  intros Hok Hp He Hr Hms. revert e refs w Hok Hp He Hr. induction Hms as [|m ms Hm _ IH]; intros e refs w Hok Hp He Hr.
  { exists w. split; [done|]. split_and!; [done|by exists e|done|done]. }
  cbn [ProcessMessages]. destruct (msg_cb_ok m p fd e refs w Hok Hp He Hr Hm) as (w1 & -> & Hok1 & (e1 & Hp1 & He1) & R1 & A1).
  cbn [mbind option_bind]. rewrite R1. cbn [mbind option_bind].
  destruct (IH e1 _ w1 Hok1 Hp1 He1 R1) as (w2 & -> & Hok2 & Hp2 & R2 & A2). exists w2. split; [done|].
  split_and!; [done|done| |by rewrite A2]. rewrite R2. f_equal. unfold kept. destruct m; cbn; lia.
Qed.

(** A channel enters: as the listening one, or as that of a new connection. *)
Lemma mirror_new fd p w :
  mirror w → fresh_channel fd p w → mirror (set_chans (<[p := mkChannel fd 0]> (chans w)) w).
Proof.
  intros [Mt Mk Ml Mf] [Hp Hfd]. split; cbn [channels_ interest chans set_chans].
  - intros g q Hq. destruct (Mt g q Hq) as (e & He & Hi & Hne). exists e.
    by rewrite lookup_insert_ne by (intros ->; congruence).
  - exact Mk.
  - intros q g e. rewrite lookup_insert_Some. intros [[<- [= <- <-]]|[_ Hq]]; [done|by apply Ml].
  - intros a b g ea eb. rewrite !lookup_insert_Some.
    intros [[<- [= <- <-]]|[Ha La]] [[<- Eb]|[Hb Lb]]; [done|by apply Hfd in Lb| |by apply (Mf a b g ea eb)].
    injection Eb as <- <-. by apply Hfd in La.
Qed.

Lemma HandleNewConnection_ok fd p w :
  reactor_ok w → fresh_channel fd p w →
  ∃ w', HandleNewConnection fd p w = Some w' ∧ reactor_ok w' ∧ accept_channel_ w' = accept_channel_ w.
Proof.
  intros [Hm Hcc Ha Ht Hh] Hnew. pose proof Hnew as [Hp Hfd]. unfold HandleNewConnection.
  cbn [connections_ set_conns set_chans]. assert (connections_ w !! fd = None) as ->.
  { destruct (connections_ w !! fd) as [q|] eqn:Hq; [|done]. destruct (Ht fd q Hq) as [_ [e He]].
    by apply Hfd in He. }
  cbn [mbind option_bind]. unfold EnableReading.
  match goal with |- ∃ w', set_events _ _ ?u = _ ∧ _ =>
    change (accept_channel_ w) with (accept_channel_ u); apply (set_events_ok _ p fd 0 u) end;
    [|apply lookup_insert_eq|eexists; apply lookup_insert_eq|done].
  assert (accept_channel_ w ≠ Some p) as Hpl.
  { intros Hpa. destruct (Ha p Hpa) as [_ [g Hg]]. congruence. }
  split; cbn [chans conns connections_ accept_channel_ set_connections set_conns set_chans].
  - pose proof (mirror_new fd p w Hm Hnew) as M. destruct M. by split.
  - intros q. destruct (decide (q = p)) as [->|].
    + rewrite !lookup_insert_eq. split; [intros _; left; by eexists|by eexists].
    + by rewrite !lookup_insert_ne.
  - intros q Hq. destruct (Ha q Hq) as [Hnq Hg]. assert (q ≠ p) by congruence. by rewrite !lookup_insert_ne.
  - intros g q. rewrite lookup_insert_Some. intros [[<- <-]|[_ Hq]].
    + split; [eexists; apply lookup_insert_eq|]. exists 0. apply lookup_insert_eq.
    + destruct (Ht g q Hq) as [Hnq [e He]]. assert (q ≠ p) by (intros ->; congruence).
      rewrite !lookup_insert_ne by done. split; [done|by exists e].
  - intros q g e. rewrite lookup_insert_Some. intros [[<- [= <- <-]]|[Hqp Hq]] H0; [apply lookup_insert_eq|].
    rewrite lookup_insert_ne in H0 by done. rewrite lookup_insert_ne; [by apply (Hh q g e)|].
    intros <-. by apply Hfd in Hq.
Qed.

(** An event on a connection, and one on the listening channel. *)
Lemma conn_event_ok i revents p fd e w :
  reactor_ok w → chans w !! p = Some (mkChannel fd e) → is_Some (conns w !! p) → e ≠ 0 → listens p w = false →
  event_ok (fd, revents, i) w →
  ∃ w', HandleEvent i revents p w = Some w' ∧ reactor_ok w' ∧ accept_channel_ w' = accept_channel_ w.
Proof.
  intros Hok Hp Hn He Hl (Hev & Hms & _). unfold HandleEvent, close_cb_, read_cb_. rewrite Hp, Hl. cbn [mbind option_bind].
  destruct (has revents EPOLLHUP && _); [by apply (HandleClose_ok p fd e)|].
  destruct (has revents EPOLLERR); [by apply (HandleClose_ok p fd e)|].
  destruct (has revents EPOLLIN); cbn [mbind option_bind].
  - unfold on_read. destruct Hn as [refs Hr].
    destruct (ProcessMessages_ok (io_messages i) p fd e refs w Hok Hp He Hr Hms) as (w1 & -> & Hok1 & (e1 & Hp1 & He1) & R1 & A1).
    cbn [mbind option_bind]. pose proof (mk_is_Some _ _ R1) as N1.
    destruct (has revents EPOLLOUT).
    + rewrite (Hev eq_refl eq_refl). cbn [mbind option_bind]. rewrite Hp1. cbn [mbind option_bind].
      unfold write_cb_, listens in *. rewrite A1, Hl, <- A1. by apply (on_write_ok i p fd e1).
    + destruct (io_closed i).
      * destruct (HandleClose_ok p fd e1 w1 Hok1 Hp1 N1) as (w2 & -> & Hok2 & A2). exists w2. by rewrite A2.
      * by exists w1.
  - destruct (has revents EPOLLOUT).
    + rewrite Hp. cbn [mbind option_bind]. unfold write_cb_. rewrite Hl. by apply (on_write_ok i p fd e).
    + by exists w.
Qed.

Lemma accept_event_ok i revents p fd e w :
  reactor_ok w → chans w !! p = Some (mkChannel fd e) → listens p w = true → event_ok (fd, revents, i) w →
  ∃ w', HandleEvent i revents p w = Some w' ∧ reactor_ok w' ∧ accept_channel_ w' = accept_channel_ w.
Proof.
  intros Hok Hp Hl (_ & _ & Hnew). unfold HandleEvent, close_cb_, read_cb_, on_accept. rewrite Hp, Hl. cbn [mbind option_bind].
  destruct (has revents EPOLLHUP && _); [by exists w|]. destruct (has revents EPOLLERR); [by exists w|].
  assert (∀ w1, reactor_ok w1 → accept_channel_ w1 = accept_channel_ w →
    ∃ w', (if has revents EPOLLOUT then _ ← chans w1 !! p; write_cb_ i p w1 else Some w1) = Some w' ∧
      reactor_ok w' ∧ accept_channel_ w' = accept_channel_ w) as Hout.
  { intros w1 Hok1 A1. destruct (has revents EPOLLOUT); [|by exists w1]. unfold write_cb_, listens in *.
    rewrite <- A1 in Hl. destruct (ro_listener _ Hok1 p) as [_ [g Hg]]; [by apply bool_decide_eq_true in Hl|].
    rewrite Hg, Hl. by exists w1. }
  destruct (has revents EPOLLIN); [|by apply Hout].
  destruct (io_accepted i) as [[g q]|]; [|by apply Hout].
  destruct (HandleNewConnection_ok g q w Hok Hnew) as (w1 & -> & Hok1 & A1). by apply Hout.
Qed.

Lemma Loop_event_ok ev w :
  reactor_ok w → event_ok ev w →
  ∃ w', Loop_event ev w = Some w' ∧ reactor_ok w' ∧ accept_channel_ w' = accept_channel_ w.
Proof.
  destruct ev as [[fd revents] i]. intros Hok Hev. unfold Loop_event.
  destruct (channels_ w !! fd) as [p|] eqn:Hc; [|by exists w].
  destruct (mi_table _ (ro_mirror _ Hok) fd p Hc) as (e & Hp & _ & He).
  destruct (listens p w) eqn:Hl; [by eapply accept_event_ok|].
  apply (conn_event_ok i revents p fd e); try done.
  destruct (proj1 (ro_conns _ Hok p)) as [?|Hpa]; [by eexists|done|].
  unfold listens in Hl. by rewrite bool_decide_eq_true_2 in Hl.
Qed.

Fixpoint events_ok (evs : list (Z * Z * io)) (w : Reactor) : Prop :=
  match evs with
  | [] => True
  | ev :: evs => event_ok ev w ∧ match Loop_event ev w with Some w => events_ok evs w | None => True end
  end.

Lemma Loop_events_ok evs w :
  reactor_ok w → events_ok evs w →
  ∃ w', Loop_events evs w = Some w' ∧ reactor_ok w' ∧ accept_channel_ w' = accept_channel_ w.
Proof.
  revert w. induction evs as [|ev evs IH]; intros w Hok; [by exists w|]. intros [Hev Hevs].
  destruct (Loop_event_ok ev w Hok Hev) as (w1 & E & Hok1 & A1). cbn [Loop_events]. rewrite E in *.
  cbn [mbind option_bind]. destruct (IH w1 Hok1 Hevs) as (w2 & -> & Hok2 & A2). exists w2. by rewrite A2.
Qed.

(** A listening channel that is already there is deleted when a new one comes. *)
Lemma delete_old_listener p fd w :
  reactor_ok w → fresh_channel fd p w →
  let u := set_accept_channel (Some p) (set_chans (<[p := mkChannel fd 0]> (chans w)) w) in
  ∃ w', match accept_channel_ w with Some q => Channel_delete q u | None => Some u end = Some w' ∧ mirror w' ∧
    chans w' !! p = Some (mkChannel fd 0) ∧ conns w' = conns w ∧ connections_ w' = connections_ w ∧
    accept_channel_ w' = Some p ∧
    ∀ q, q ≠ p → chans w' !! q = if listens q w then None else chans w !! q.
Proof.
  intros Hok Hnew u. assert (mirror u) as Mu by (destruct (mirror_new fd p w (ro_mirror _ Hok) Hnew); by split).
  unfold listens. destruct (accept_channel_ w) as [q|] eqn:Hq.
  - destruct (ro_listener _ Hok q Hq) as [_ [g Hg]]. destruct Hnew as [Hp _]. assert (q ≠ p) as Hqp by (intros ->; congruence).
    assert (chans u !! q = Some (mkChannel g EPOLLIN)) as Hu by (cbn; by rewrite lookup_insert_ne).
    unfold Channel_delete. destruct (DisableAll_mirror q g EPOLLIN u Mu Hu) as (w1 & -> & M1 & C1 & N1 & T1 & A1 & _).
    cbn [mbind option_bind]. eexists. split; [done|].
    assert (chans w1 !! q = Some (mkChannel g 0)) as H1 by (rewrite C1; apply lookup_insert_eq).
    split; [by apply (delete_mirror q g)|]. cbn [chans conns connections_ accept_channel_ set_chans]. rewrite C1, N1, T1, A1.
    split_and!; [|done..|].
    + rewrite lookup_delete_ne, lookup_insert_ne by done. cbn. apply lookup_insert_eq.
    + intros r Hr. rewrite delete_insert_eq. cbn. case_bool_decide as E.
      * injection E as ->. apply lookup_delete_eq.
      * rewrite lookup_delete_ne, lookup_insert_ne by congruence. done.
  - eexists. split; [done|]. split; [done|]. split_and!; [apply lookup_insert_eq|done..|].
    intros q Hqp. rewrite bool_decide_eq_false_2 by done. cbn. by rewrite lookup_insert_ne.
Qed.

Lemma TcpServer_Start_ok s bound listening p w :
  reactor_ok w → match s with Some fd => fresh_channel fd p w | None => True end →
  ∃ w' started, TcpServer_Start s bound listening p w = Some (w', started) ∧ reactor_ok w' ∧
    (started = true → accept_channel_ w' = Some p) ∧ (started = false → w' = w).
Proof.
  intros Hok Hnew. unfold TcpServer_Start. destruct s as [fd|]; [|by exists w, false].
  destruct bound; cbn [negb]; [|by exists w, false]. destruct listening; cbn [negb]; [|by exists w, false].
  destruct (delete_old_listener p fd w Hok Hnew) as (w1 & -> & M1 & Hp1 & N1 & T1 & A1 & Hother). cbn [mbind option_bind].
  destruct (set_events_mirror (λ e, Z.lor e EPOLLIN) p fd 0 w1 M1 Hp1) as (w2 & E2 & M2 & C2 & N2 & T2 & A2); [done|].
  unfold EnableReading. rewrite E2. cbn [mbind option_bind]. exists w2, true. split; [done|].
  split; [|split; [by rewrite A2|done]]. destruct Hok as [_ Hcc Ha Ht Hh], Hnew as [Hp Hfd].
  assert (conns w !! p = None) as Hnp.
  { destruct (conns w !! p) eqn:E; [|done]. destruct (proj2 (Hcc p)) as [? H]; [left; by eexists|congruence]. }
  assert (∀ q x, conns w !! q = Some x → q ≠ p ∧ chans w2 !! q = chans w !! q) as Hconn.
  { intros q x Hq. assert (q ≠ p) as Hqp by congruence. split; [done|].
    rewrite C2, lookup_insert_ne, Hother by done. unfold listens. case_bool_decide as E; [|done].
    destruct (Ha q E). congruence. }
  split; rewrite ?N2, ?N1, ?T2, ?T1, ?A2, ?A1; [done|..].
  - intros q. rewrite C2. destruct (decide (q = p)) as [->|Hqp].
    + rewrite lookup_insert_eq. split; [by right|by eexists].
    + rewrite lookup_insert_ne, Hother by done. unfold listens. case_bool_decide as E.
      * destruct (Ha q E) as [-> _]. split; [by intros []|]. intros [[]|?]; congruence.
      * rewrite Hcc. split; (intros [?|?]; [by left|congruence]).
  - intros q [= <-]. split; [done|]. exists fd. rewrite C2. apply lookup_insert_eq.
  - intros g q Hq. destruct (Ht g q Hq) as [[x Hx] He]. split; [by eexists|].
    by rewrite (proj2 (Hconn q x Hx)).
  - intros q g e Hq Hx. rewrite (proj2 (Hconn q _ Hx)) in Hq. by apply (Hh q g e).
Qed.

(** ** The end of the server *)

(** Closing a descriptor early changes nothing else. *)
Lemma TcpConnection_delete_close_fd fd p w :
  TcpConnection_delete p (close_fd fd w) = close_fd fd <$> TcpConnection_delete p w.
Proof.
  unfold TcpConnection_delete, Channel_delete, DisableAll, RemoveChannel.
  change (chans (close_fd fd w)) with (chans w). destruct (chans w !! p) as [[g e]|] eqn:Hp; [|done].
  cbn [mbind option_bind ch_fd ch_events]. destruct (Z.eqb_spec e 0) as [->|He].
  - cbn [mbind option_bind chans close_fd set_interest ch_fd]. rewrite Hp. cbn.
    unfold close_fd, set_interest, set_chans, set_conns. cbn. by rewrite delete_delete.
  - cbn [chans set_chans]. rewrite !lookup_insert_eq. cbn. rewrite !lookup_insert_eq. cbn.
    unfold close_fd, set_interest, set_chans, set_conns. cbn. by rewrite !(delete_delete _ g fd).
Qed.

Lemma erase_connection_close_fd fd g w :
  erase_connection g (close_fd fd w) = close_fd fd <$> erase_connection g w.
Proof.
  unfold erase_connection. change (connections_ (close_fd fd w)) with (connections_ w).
  destruct (connections_ w !! g) as [p|]; [|done]. set (u := set_connections (delete g (connections_ w)) w).
  change (set_connections (delete g (connections_ w)) (close_fd fd w)) with (close_fd fd u). unfold release.
  change (chans (close_fd fd u)) with (chans u). change (conns (close_fd fd u)) with (conns u).
  change (connections_ (close_fd fd u)) with (connections_ u).
  destruct (chans u !! p) as [ch|]; [|done]. destruct (conns u !! p) as [refs|]; [|done]. cbn [mbind option_bind].
  destruct (_ && _); [apply TcpConnection_delete_close_fd|done].
Qed.

Lemma drop_connections_close_fd fd fds w :
  drop_connections fds (close_fd fd w) = close_fd fd <$> drop_connections fds w.
Proof.
  revert w. induction fds as [|g fds IH]; intros w; [done|]. cbn [drop_connections].
  rewrite erase_connection_close_fd. destruct (erase_connection g w); [apply IH|done].
Qed.

Lemma drop_connections_ok fds w :
  reactor_ok w →
  ∃ w', drop_connections fds w = Some w' ∧ reactor_ok w' ∧ accept_channel_ w' = accept_channel_ w ∧
    (∀ fd p, connections_ w' !! fd = Some p → connections_ w !! fd = Some p ∧ fd ∉ fds) ∧ chans w' ⊆ chans w.
Proof.
  revert w. induction fds as [|g fds IH]; intros w Hok.
  { exists w. split_and!; try done. intros fd p Hp. split; [done|]. by intros ?%elem_of_nil. }
  cbn [drop_connections]. destruct (erase_connection_ok g w Hok) as (w1 & -> & Hok1 & A1 & T1 & C1).
  cbn [mbind option_bind]. destruct (IH w1 Hok1) as (w2 & -> & Hok2 & A2 & T2 & C2). exists w2.
  split_and!; [done|done|by rewrite A2| |by etransitivity].
  intros fd p [Hp Hfd]%T2. rewrite T1 in Hp. apply lookup_delete_Some in Hp as [Hne Hp]. split; [done|].
  rewrite elem_of_cons. intros [?|?]; congruence.
Qed.

Lemma Channel_delete_close_fd fd p w : Channel_delete p (close_fd fd w) = close_fd fd <$> Channel_delete p w.
Proof.
  unfold Channel_delete, DisableAll, RemoveChannel. change (chans (close_fd fd w)) with (chans w).
  destruct (chans w !! p) as [[g e]|] eqn:Hp; [|done]. cbn [mbind option_bind ch_events ch_fd].
  destruct (Z.eqb_spec e 0) as [->|He]; [done|]. cbn [chans set_chans]. rewrite !lookup_insert_eq. cbn.
  unfold close_fd, set_interest, set_chans. cbn. by rewrite (delete_delete _ g fd).
Qed.

(** The listening channel goes, the table being empty. *)
Definition delete_listener (w : Reactor) : option Reactor :=
  match accept_channel_ w with Some p => Channel_delete p (set_accept_channel None w) | None => Some w end.

Lemma delete_listener_ok w :
  reactor_ok w → connections_ w = ∅ →
  ∃ w', delete_listener w = Some w' ∧ reactor_ok w' ∧ accept_channel_ w' = None ∧ connections_ w' = ∅ ∧
    chans w' ⊆ chans w ∧ ∀ q, accept_channel_ w = Some q → chans w' !! q = None.
Proof.
  intros Hok T0. unfold delete_listener. destruct (accept_channel_ w) as [p|] eqn:Hp; [|by exists w].
  destruct Hok as [Hm Hcc Ha Ht Hh]. destruct (Ha p Hp) as [Hnp [g Hg]]. set (u := set_accept_channel None w).
  assert (mirror u) as Mu by (destruct Hm; by split). unfold Channel_delete.
  destruct (DisableAll_mirror p g EPOLLIN u Mu Hg) as (w1 & -> & M1 & C1 & N1 & T1 & A1 & _). cbn [mbind option_bind].
  assert (chans w1 !! p = Some (mkChannel g 0)) as H1 by (rewrite C1; apply lookup_insert_eq).
  eexists. split; [done|]. split.
  - split; [by apply (delete_mirror p g)|..]; cbn [chans conns connections_ accept_channel_ set_chans];
      rewrite C1, ?N1, ?T1, ?A1; cbn [chans conns connections_ accept_channel_ u set_accept_channel]; rewrite ?T0.
    + intros q. rewrite delete_insert_eq. destruct (decide (q = p)) as [->|Hq].
      * rewrite lookup_delete_eq, Hnp. split; [by intros []|by intros [[]|]].
      * rewrite lookup_delete_ne by done. rewrite Hcc. split; (intros [?|?]; [by left|congruence]).
    + done.
    + intros fd q. by rewrite lookup_empty.
    + intros q fd e. rewrite delete_insert_eq, lookup_empty. intros [_ Hq]%lookup_delete_Some H0.
      specialize (Hh q fd e Hq H0). by rewrite T0, lookup_empty in Hh.
  - cbn [chans conns connections_ accept_channel_ set_chans]. rewrite C1, T1, A1. split_and!; [done|done| |].
    + rewrite delete_insert_eq. apply delete_subseteq.
    + intros q [= <-]. apply lookup_delete_eq.
Qed.

Lemma empty_table w :
  reactor_ok w →
  ∃ w', drop_connections (map fst (map_to_list (connections_ w))) w = Some w' ∧ reactor_ok w' ∧
    accept_channel_ w' = accept_channel_ w ∧ connections_ w' = ∅ ∧ chans w' ⊆ chans w.
Proof.
  intros Hok. destruct (drop_connections_ok (map fst (map_to_list (connections_ w))) w Hok) as (w1 & E1 & Hok1 & A1 & T1 & C1).
  exists w1. split_and!; [done..| |done]. apply map_eq. intros g. rewrite lookup_empty.
  destruct (connections_ w1 !! g) as [p|] eqn:Hg; [|done]. destruct (T1 g p Hg) as [Hg' Hin]. exfalso.
  apply Hin, list_elem_of_In, (in_map fst _ (g, p)), list_elem_of_In. by apply elem_of_map_to_list.
Qed.

(** When the server goes, its descriptor and its channel go, its table is empty, and
    the connections that tasks hold live on; no dead object is touched, although the
    descriptor is closed before the channel that names it. *)
Theorem TcpServer_delete_ok server_fd_ w :
  reactor_ok w →
  (∀ fd q e, server_fd_ = Some fd → chans w !! q = Some (mkChannel fd e) → accept_channel_ w = Some q) →
  ∃ w', TcpServer_delete server_fd_ w = Some w' ∧ reactor_ok w' ∧ accept_channel_ w' = None ∧ connections_ w' = ∅ ∧
    ∀ p, is_Some (chans w' !! p) → ∃ n, conns w' !! p = Some (S n).
Proof.
  intros Hok Hfd. destruct (empty_table w Hok) as (w1 & E1 & Hok1 & A1 & T1 & C1).
  destruct (delete_listener_ok w1 Hok1 T1) as (w2 & E2 & Hok2 & A2 & T2 & C2 & L2).
  assert (∀ fd, server_fd_ = Some fd → close_fd fd w2 = w2) as Hclosed.
  { intros fd Hs. unfold close_fd, set_interest. rewrite delete_id; [by destruct w2|]. apply (mi_kernel _ (ro_mirror _ Hok2)).
    destruct (channels_ w2 !! fd) as [q|] eqn:Hq; [|done]. exfalso.
    destruct (mi_table _ (ro_mirror _ Hok2) fd q Hq) as (e & He & _). pose proof (lookup_weaken _ _ _ _ He C2) as He1.
    pose proof (Hfd fd q e Hs (lookup_weaken _ _ _ _ He1 C1)) as Hl. rewrite <- A1 in Hl. by rewrite (L2 q Hl) in He. }
  exists w2. split; [|split_and!; try done].
  - unfold TcpServer_delete. fold (delete_listener w1) in *. destruct server_fd_ as [fd|]; [|by rewrite E1].
    change (connections_ (close_fd fd w)) with (connections_ w). rewrite drop_connections_close_fd, E1. cbn.
    rewrite <- (Hclosed fd eq_refl). unfold delete_listener in E2. destruct (accept_channel_ w1) as [p|].
    + change (set_accept_channel None (close_fd fd w1)) with (close_fd fd (set_accept_channel None w1)).
      by rewrite Channel_delete_close_fd, E2.
    + by apply (inj Some) in E2 as ->.
  - intros p Hp. destruct (proj1 (ro_conns _ Hok2 p) Hp) as [[[|n] Hn]|Hl]; [|by exists n|congruence].
    destruct Hp as [[fd e] Hp]. pose proof (ro_held _ Hok2 p fd e Hp Hn) as H0. by rewrite T2, lookup_empty in H0.
Qed.

(** * The reactor as a whole *)

(** A turn of the loop, the start of the server, and what a task does with the
    connection it holds: a [Send] that leaves bytes to write or fails, the end. *)
Inductive ReactorEvent :=
| RTurn (evs : list (Z * Z * io))
| RStart (server_fd : option Z) (bound listening : bool) (p : nat)
| RSendMore (p : nat)
| RSendFailed (p : nat)
| RDrop (p : nat).

Definition reactor_step (ev : ReactorEvent) (w : Reactor) : option Reactor :=
  match ev with
  | RTurn evs => Loop_events evs w
  | RStart server_fd bound listening p => fst <$> TcpServer_Start server_fd bound listening p w
  | RSendMore p => EnableWriting p w
  | RSendFailed p => HandleClose p w
  | RDrop p => drop_ref p w
  end.

(** Descriptors and objects are new, and a task uses a connection while it holds
    it. *)
Definition reactor_valid (ev : ReactorEvent) (w : Reactor) : Prop :=
  match ev with
  | RTurn evs => events_ok evs w
  | RStart server_fd _ _ p => match server_fd with Some fd => fresh_channel fd p w | None => True end
  | RSendMore p | RSendFailed p | RDrop p => ∃ n, conns w !! p = Some (S n)
  end.

Fixpoint reactor_run (evs : list ReactorEvent) (w : Reactor) : option Reactor :=
  match evs with
  | [] => Some w
  | ev :: evs => w ← reactor_step ev w; reactor_run evs w
  end.

Fixpoint all_valid (evs : list ReactorEvent) (w : Reactor) : Prop :=
  match evs with
  | [] => True
  | ev :: evs =>
      reactor_valid ev w ∧ match reactor_step ev w with Some w => all_valid evs w | None => True end
  end.

Definition Reactor_new : Reactor := mkReactor ∅ ∅ ∅ ∅ ∅ None.

Lemma new_reactor_ok : reactor_ok Reactor_new.
Proof.
  split; [split|..]; cbn [Reactor_new channels_ interest chans conns connections_ accept_channel_].
  - intros fd p Hp. by rewrite lookup_empty in Hp.
  - intros fd _. apply lookup_empty.
  - intros p fd e Hp. by rewrite lookup_empty in Hp.
  - intros p q fd e e' Hp. by rewrite lookup_empty in Hp.
  - intros p. rewrite !lookup_empty. split; [by intros []|by intros [[]|]].
  - done.
  - intros fd p Hp. by rewrite lookup_empty in Hp.
  - intros p fd e Hp. by rewrite lookup_empty in Hp.
Qed.

Lemma reactor_step_ok ev w :
  reactor_ok w → reactor_valid ev w →
  ∃ w', reactor_step ev w = Some w' ∧ reactor_ok w' ∧ (is_Some (accept_channel_ w) → is_Some (accept_channel_ w')).
Proof.
  intros Hok Hv.
  assert (∀ p n, conns w !! p = Some (S n) → ∃ fd e, chans w !! p = Some (mkChannel fd e) ∧ is_Some (conns w !! p)) as Hlive.
  { intros p n Hn. assert (is_Some (conns w !! p)) as Hs by by eexists.
    destruct (proj2 (ro_conns _ Hok p)) as [[fd e] Hp]; [by left|]. by exists fd, e. }
  destruct ev as [evs|s bound listening p|p|p|p]; cbn [reactor_step reactor_valid] in *.
  - destruct (Loop_events_ok evs w Hok Hv) as (w1 & -> & Hok1 & A1). exists w1. by rewrite A1.
  - destruct (TcpServer_Start_ok s bound listening p w Hok Hv) as (w1 & r & -> & Hok1 & Ht & Hf).
    exists w1. split; [done|]. split; [done|]. intros Ha. destruct r; [by rewrite Ht|by rewrite Hf].
  - destruct Hv as [n Hn]. destruct (Hlive p n Hn) as (fd & e & Hp & Hs).
    destruct (set_events_ok (λ e, Z.lor e EPOLLOUT) p fd e w) as (w1 & E & Hok1 & A1); [done..|intros _; apply lor_out_nonzero|].
    exists w1. split_and!; [exact E|done|by rewrite A1].
  - destruct Hv as [n Hn]. destruct (Hlive p n Hn) as (fd & e & Hp & Hs).
    destruct (HandleClose_ok p fd e w Hok Hp Hs) as (w1 & -> & Hok1 & A1). exists w1. by rewrite A1.
  - destruct Hv as [n Hn]. destruct (drop_ref_ok p n w Hok Hn) as (w1 & -> & Hok1 & A1). exists w1. by rewrite A1.
Qed.

Lemma reactor_run_ok evs w :
  reactor_ok w → all_valid evs w →
  ∃ w', reactor_run evs w = Some w' ∧ reactor_ok w' ∧ (is_Some (accept_channel_ w) → is_Some (accept_channel_ w')).
Proof.
  revert w. induction evs as [|ev evs IH]; intros w Hok Hv; [by exists w|].
  destruct Hv as [Hev Hv]. destruct (reactor_step_ok ev w Hok Hev) as (w1 & E & Hok1 & A1).
  cbn [reactor_run]. rewrite E in *. cbn [mbind option_bind]. destruct (IH w1 Hok1 Hv) as (w2 & -> & Hok2 & A2).
  exists w2. by auto.
Qed.

Lemma all_valid_app evs evs' w :
  all_valid (evs ++ evs') w → all_valid evs w ∧ ∀ w0, reactor_run evs w = Some w0 → all_valid evs' w0.
Proof.
  revert w. induction evs as [|ev evs IH]; intros w; cbn [app all_valid reactor_run]; [by intros H; split; [|intros w0 [= <-]]|].
  intros [Hv H]. destruct (reactor_step ev w) as [w1|]; [|done]. destruct (IH w1 H) as [H1 H2]. by split.
Qed.

(** C14: as long as no event ends a connection's stream and reports its socket
    writable at once, and no [Send] inside a message callback fails, the reactor
    never touches a dead object, whatever arrives in whatever order (each of the two
    does make it touch one: [close_while_writable], [failed_reply_dangles]); the kernel watches exactly the descriptors the loop knows,
    for exactly what their channels ask; a connection is alive exactly while
    the server's table or a task holds it; and a server that has started stays
    listening. *)
Theorem reactor_never_dangles evs evs' :
  all_valid (evs ++ evs') Reactor_new →
  ∃ w0 w, reactor_run evs Reactor_new = Some w0 ∧ reactor_run evs' w0 = Some w ∧ reactor_ok w ∧
    (is_Some (accept_channel_ w0) →
      ∃ p fd, accept_channel_ w = Some p ∧ channels_ w !! fd = Some p ∧ interest w !! fd = Some EPOLLIN).
Proof.
  intros [Hv Hv']%all_valid_app. destruct (reactor_run_ok evs Reactor_new new_reactor_ok Hv) as (w0 & E & Hok & _).
  destruct (reactor_run_ok evs' w0 Hok (Hv' w0 E)) as (w & E' & Hok' & Hl). exists w0, w. split_and!; [done..|].
  intros [p Hp]%Hl. destruct (ro_listener _ Hok' p Hp) as [_ [fd Hfd]].
  pose proof (mi_live _ (ro_mirror _ Hok') p fd EPOLLIN Hfd ltac:(done)) as Hc.
  destruct (mi_table _ (ro_mirror _ Hok') fd p Hc) as (e & He & Hi & _). rewrite Hfd in He. injection He as <-.
  by exists p, fd.
Qed.

(** ** A close in the read callback *)

(** [HandleClose] leaves nothing of the connection but the references of tasks. *)
Lemma HandleClose_leaves p fd e refs w :
  reactor_ok w → chans w !! p = Some (mkChannel fd e) → conns w !! p = Some refs →
  ∃ w', HandleClose p w = Some w' ∧ reactor_ok w' ∧
    (refs = 0%nat → chans w' !! p = None) ∧
    (refs ≠ 0%nat → chans w' !! p = Some (mkChannel fd 0) ∧ conns w' !! p = Some refs ∧
      channels_ w' !! fd = None ∧ connections_ w' !! fd = None).
Proof.
  intros Hok Hp Hr. destruct (HandleClose_ok p fd e w Hok Hp (mk_is_Some _ _ Hr)) as (w' & E & Hok' & _).
  exists w'. split; [done|]. split; [done|]. destruct Hok as [Hm Hcc Ha Ht Hh].
  unfold HandleClose in E. rewrite Hp in E. cbn [mbind option_bind ch_fd] in E.
  destruct (DisableAll_mirror p fd e w Hm Hp) as (w1 & E1 & M1 & C1 & N1 & T1 & _ & K1).
  rewrite E1 in E. cbn [mbind option_bind] in E. unfold erase_connection in E. rewrite T1 in E.
  assert (chans w1 !! p = Some (mkChannel fd 0)) as H1 by (rewrite C1; apply lookup_insert_eq).
  destruct (connections_ w !! fd) as [q|] eqn:Hc.
  - assert (q = p) as -> by (destruct (Ht fd q Hc) as [_ [e' He']]; by apply (mi_fd _ Hm q p fd e' e)).
    unfold release in E. cbn [chans conns connections_ set_connections] in E.
    rewrite H1, N1, Hr in E. cbn [mbind option_bind ch_fd] in E. rewrite lookup_delete_eq in E. cbn in E.
    destruct (Nat.eqb_spec refs 0) as [->|Hne].
    + split; [|done]. intros _. assert (mirror (set_connections (delete fd (connections_ w)) w1)) as M2.
      { destruct M1. by split. }
      destruct (TcpConnection_delete_ok p fd 0 _ M2 H1) as (w2 & E2 & _ & C2 & _).
      cbn in E2, E. rewrite E2 in E. apply (inj Some) in E as <-.
      rewrite C2. apply lookup_delete_eq.
    + apply (inj Some) in E as <-. split; [done|]. intros _.
      cbn [chans conns channels_ connections_ set_connections]. rewrite N1. split_and!; [done..|apply lookup_delete_eq].
  - apply (inj Some) in E as <-. rewrite N1, T1. split; [|done].
    intros ->. by rewrite (Hh p fd e) in Hc.
Qed.

Lemma conn_listens p refs w : reactor_ok w → conns w !! p = Some refs → listens p w = false.
Proof.
  intros Hok Hr. unfold listens. case_bool_decide as E; [|done].
  destruct (ro_listener _ Hok p E). congruence.
Qed.

(** The read callback that ends the stream after its messages. *)
Lemma on_read_close i p fd e refs w :
  reactor_ok w → chans w !! p = Some (mkChannel fd e) → e ≠ 0 → conns w !! p = Some refs → io_closed i = true →
  Forall (λ m, m ≠ Replied Failed) (io_messages i) →
  let n := (kept (io_messages i) + refs)%nat in
  ∃ w', on_read i p w = Some w' ∧ reactor_ok w' ∧ (n = 0%nat → chans w' !! p = None) ∧
    (n ≠ 0%nat → chans w' !! p = Some (mkChannel fd 0) ∧ conns w' !! p = Some n ∧
      channels_ w' !! fd = None ∧ connections_ w' !! fd = None).
Proof.
  intros Hok Hp He Hr Hc Hms n. unfold on_read.
  destruct (ProcessMessages_ok (io_messages i) p fd e refs w Hok Hp He Hr Hms) as (w1 & -> & Hok1 & (e1 & Hp1 & _) & R1 & _).
  cbn [mbind option_bind]. rewrite Hc. by apply (HandleClose_leaves p fd e1).
Qed.

Section deaf.
Context (w : Reactor) (p : nat) (fd : Z).
Hypothesis Hp : chans w !! p = Some (mkChannel fd 0).
Hypothesis Hout : channels_ w !! fd = None.

(** Clearing the write bit of a channel the loop forgot lists it again. *)
Lemma DisableWriting_forgotten :
  ∃ w', DisableWriting p w = Some w' ∧ channels_ w' !! fd = Some p ∧ chans w' = chans w ∧
    conns w' = conns w ∧ connections_ w' = connections_ w.
Proof using All.
  unfold DisableWriting, set_events, UpdateChannel. rewrite Hp. cbn [mbind option_bind ch_fd ch_events].
  change (Z.ldiff 0 EPOLLOUT) with 0. cbn [chans set_chans]. rewrite lookup_insert_eq.
  cbn [mbind option_bind ch_fd ch_events]. cbn [channels_ set_chans]. rewrite Hout.
  eexists. split; [done|]. unfold epoll_ctl. cbn [interest set_channels set_chans].
  destruct (interest w !! fd); (split_and!; [apply lookup_insert_eq|by apply insert_id|done|done]).
Qed.
End deaf.

(** The last reference of a forgotten connection goes: its entry in the loop
    stays. *)
Lemma drop_last_forgotten p fd w :
  chans w !! p = Some (mkChannel fd 0) → conns w !! p = Some 1%nat → connections_ w !! fd = None →
  ∃ w', drop_ref p w = Some w' ∧ channels_ w' = channels_ w ∧ interest w' !! fd = None ∧
    chans w' = delete p (chans w) ∧ connections_ w' = connections_ w.
Proof.
  intros Hp Hr Hc. unfold drop_ref. rewrite Hr. cbn [mbind option_bind pred].
  unfold release. cbn [chans conns connections_ set_conns]. rewrite Hp, lookup_insert_eq.
  cbn [mbind option_bind ch_fd Nat.eqb andb]. rewrite Hc. rewrite bool_decide_eq_false_2 by done. cbn [negb].
  unfold TcpConnection_delete, Channel_delete, DisableAll, close_fd. cbn [chans set_conns]. rewrite Hp.
  cbn [mbind option_bind ch_fd ch_events Z.eqb chans set_interest set_conns]. rewrite Hp.
  cbn [mbind option_bind ch_fd ch_events Z.eqb]. eexists. split; [done|].
  cbn [channels_ interest chans connections_ set_interest set_conns set_chans].
  split_and!; [done|apply lookup_delete_eq|done|done].
Qed.

(** A new connection on a descriptor whose stale entry the loop kept. *)
Lemma accept_on_stale fd p q w :
  channels_ w !! fd = Some p → interest w !! fd = None → connections_ w !! fd = None →
  ∃ w', HandleNewConnection fd q w = Some w' ∧ channels_ w' !! fd = Some p ∧
    interest w' !! fd = None ∧ chans w' = <[q := mkChannel fd EPOLLIN]> (chans w) ∧
    connections_ w' !! fd = Some q.
Proof.
  intros Hc Hi Ht. unfold HandleNewConnection. cbn [connections_ set_conns set_chans]. rewrite Ht.
  cbn [mbind option_bind]. unfold EnableReading, set_events, UpdateChannel.
  cbn [chans set_connections set_conns set_chans]. rewrite lookup_insert_eq.
  cbn [mbind option_bind ch_fd ch_events chans set_chans]. rewrite lookup_insert_eq.
  cbn [mbind option_bind ch_fd ch_events channels_ set_chans set_connections set_conns]. rewrite Hc.
  change (Z.lor 0 EPOLLIN) with EPOLLIN. change (EPOLLIN =? 0) with false. cbn iota.
  unfold epoll_ctl. cbn [interest set_chans set_connections set_conns]. rewrite Hi.
  eexists. split; [done|]. cbn [channels_ interest chans connections_ set_connections set_conns set_chans].
  split_and!; [done|done|apply insert_insert_eq|apply lookup_insert_eq].
Qed.

(** The end of a stream and a writable socket in one event.  The read callback
    closes the connection; if no task holds it the object is gone when
    [HandleEvent] comes to the write callback, and otherwise it is safe. *)
Theorem close_while_writable i revents p fd refs w :
  reactor_ok w → channels_ w !! fd = Some p → conns w !! p = Some refs → io_closed i = true →
  Forall (λ m, m ≠ Replied Failed) (io_messages i) →
  has revents EPOLLIN = true → has revents EPOLLOUT = true → has revents EPOLLERR = false →
  Loop_events [(fd, revents, i)] w = None ↔ (kept (io_messages i) + refs = 0)%nat.
Proof.
  intros Hok Hc Hr Hi Hms Hin Hout Herr. destruct (mi_table _ (ro_mirror _ Hok) fd p Hc) as (e & Hp & _ & He).
  destruct (on_read_close i p fd e refs w Hok Hp He Hr Hi Hms) as (w1 & E1 & Hok1 & Hgone & Hleft).
  cbn [Loop_events Loop_event]. rewrite Hc. unfold HandleEvent, read_cb_.
  rewrite Hp, Hin, Herr, Hout, (conn_listens p refs w Hok Hr), E1, andb_false_r.
  cbn [mbind option_bind]. destruct (decide ((kept (io_messages i) + refs)%nat = 0%nat)) as [H0|H0].
  - by rewrite (Hgone H0).
  - destruct (Hleft H0) as (H1 & R1 & K1 & _). rewrite H1. unfold write_cb_.
    rewrite (conn_listens p _ w1 Hok1 R1). cbn [mbind option_bind].
    split; [|done]. intros E. exfalso. unfold on_write in E. destruct (io_write i).
    + destruct (DisableWriting_forgotten w1 p fd H1 K1) as (w2 & E2 & _). by rewrite E2 in E.
    + done.
    + destruct (HandleClose_ok p fd 0 w1 Hok1 H1 (mk_is_Some _ _ R1)) as (w2 & E2 & _). by rewrite E2 in E.
Qed.

(** ** An answer that fails in the message callback *)

(** The message callback answers at once and its [write] fails: [HandleClose] takes
    the connection out of the server's table, the callback's own reference is the
    last one, and [ProcessMessages] goes back to the read buffer of an object that
    is gone.  No more than an ordinary readable descriptor is needed. *)
Theorem failed_reply_dangles ms closed write revents p fd w :
  reactor_ok w → channels_ w !! fd = Some p → conns w !! p = Some 0%nat →
  has revents EPOLLIN = true → has revents EPOLLERR = false →
  Loop_events [(fd, revents, mkFound (Replied Failed :: ms) closed write None)] w = None.
Proof.
  intros Hok Hc Hr Hin Herr. destruct (mi_table _ (ro_mirror _ Hok) fd p Hc) as (e & Hp & _ & _).
  cbn [Loop_events Loop_event]. rewrite Hc. unfold HandleEvent, read_cb_, on_read.
  rewrite Hp, Hin, Herr, (conn_listens p 0 w Hok Hr), andb_false_r.
  cbn [mbind option_bind io_messages ProcessMessages]. unfold msg_cb_, hold. rewrite Hr. cbn [mbind option_bind Send].
  set (w1 := set_conns (<[p := 1%nat]> (conns w)) w). pose proof (hold_ok p 0 w Hok Hr) as Hok1. fold w1 in Hok1.
  destruct (HandleClose_leaves p fd e 1 w1 Hok1 Hp) as (w2 & E2 & _ & _ & Hleft); [apply lookup_insert_eq|].
  rewrite E2. destruct Hleft as (Hp2 & R2 & _ & T2); [done|]. cbn [mbind option_bind].
  unfold drop_ref, release. rewrite R2. cbn [mbind option_bind pred chans conns connections_ set_conns].
  rewrite Hp2, lookup_insert_eq. cbn [mbind option_bind ch_fd Nat.eqb andb]. rewrite T2.
  rewrite bool_decide_eq_false_2 by done. cbn [negb]. unfold TcpConnection_delete, DisableAll.
  cbn [chans set_conns]. rewrite Hp2. cbn [mbind option_bind ch_fd ch_events Z.eqb].
  unfold Channel_delete, DisableAll, close_fd. cbn [chans set_interest set_conns]. rewrite Hp2.
  cbn [mbind option_bind ch_events Z.eqb conns set_chans set_interest set_conns]. by rewrite lookup_delete_eq.
Qed.

(** A task still holds the connection when its peer ends the stream, and the
    same event drains its write buffer.  [DisableWriting] then enters the closed
    channel in the loop again, nothing takes it out when the task lets go, and
    the next connection the kernel gives the same descriptor is not entered:
    [epoll] never watches it, and the loop's entry points at a dead channel. *)
Theorem stale_channel_deafens revents p q fd w :
  reactor_ok w → channels_ w !! fd = Some p → conns w !! p = Some 0%nat → q ≠ p →
  has revents EPOLLIN = true → has revents EPOLLOUT = true → has revents EPOLLERR = false →
  ∃ w1 w2 w3, Loop_events [(fd, revents, mkIo 1 true Drained)] w = Some w1 ∧ drop_ref p w1 = Some w2 ∧
    HandleNewConnection fd q w2 = Some w3 ∧
    connections_ w3 !! fd = Some q ∧ chans w3 !! q = Some (mkChannel fd EPOLLIN) ∧
    interest w3 !! fd = None ∧ channels_ w3 !! fd = Some p ∧ chans w3 !! p = None.
Proof.
  intros Hok Hc Hr Hq Hin Hout Herr. destruct (mi_table _ (ro_mirror _ Hok) fd p Hc) as (e & Hp & _ & He).
  destruct (on_read_close (mkIo 1 true Drained) p fd e 0 w Hok Hp He Hr eq_refl) as (w1 & E1 & Hok1 & _ & Hleft).
  { by repeat constructor. }
  destruct Hleft as (H1 & R1 & K1 & T1); [done|].
  destruct (DisableWriting_forgotten w1 p fd H1 K1) as (w2 & E2 & K2 & C2 & N2 & T2).
  destruct (drop_last_forgotten p fd w2) as (w3 & E3 & K3 & I3 & C3 & T3); [by rewrite C2|by rewrite N2|by rewrite T2|].
  destruct (accept_on_stale fd p q w3) as (w4 & E4 & K4 & I4 & C4 & T4); [by rewrite K3|done|by rewrite T3, T2|].
  exists w2, w3, w4. split; [|split_and!; try done].
  - cbn [Loop_events Loop_event]. rewrite Hc. unfold HandleEvent, read_cb_.
    rewrite Hp, Hin, Herr, Hout, (conn_listens p _ w Hok Hr), E1, andb_false_r.
    cbn [mbind option_bind]. rewrite H1. unfold write_cb_. rewrite (conn_listens p _ w1 Hok1 R1).
    cbn [mbind option_bind on_write io_write mkIo]. by rewrite E2.
  - rewrite C4. apply lookup_insert_eq.
  - rewrite C4, C3, lookup_insert_ne by done. apply lookup_delete_eq.
Qed.

(** * Tasks handed to the loop *)

(** [RunInLoop] may be called by any thread, a task that runs included; a turn of
    [Loop] swaps the queue out before it runs what was in it.  The wait of
    [epoll_wait] is bounded by 10 ms, so it always ends.  [posts t] are the tasks
    that [t] hands to the loop while it runs. *)
Section tasks.
Context {Task : Type} (posts : Task → list Task).

Inductive LoopPc := Polling | Running (ts : list Task) | Finished.

Record TaskLoop := mkTaskLoop {
  pending_tasks_ : list Task;
  wakeups : nat;
  quit_ : bool;
  tl_pc : LoopPc;
  tl_ran : list Task;
  tl_posted : list Task }.

Definition TaskLoop_new : TaskLoop := mkTaskLoop [] 0 false Polling [] [].

(** [RunInLoop(task)], its [WakeUp] included; [tl_posted] is the history. *)
Definition RunInLoop (t : Task) (l : TaskLoop) : TaskLoop :=
  mkTaskLoop (pending_tasks_ l ++ [t]) (S (wakeups l)) (quit_ l) (tl_pc l) (tl_ran l) (tl_posted l ++ [t]).
Definition Quit (l : TaskLoop) : TaskLoop :=
  mkTaskLoop (pending_tasks_ l) (S (wakeups l)) true (tl_pc l) (tl_ran l) (tl_posted l).
Definition HandleWakeUp (l : TaskLoop) : TaskLoop :=
  mkTaskLoop (pending_tasks_ l) 0 (quit_ l) (tl_pc l) (tl_ran l) (tl_posted l).
(** The swap of [HandlePendingTasks]. *)
Definition take_tasks (l : TaskLoop) : TaskLoop :=
  mkTaskLoop [] (wakeups l) (quit_ l) (Running (pending_tasks_ l)) (tl_ran l) (tl_posted l).
(** One [t()] of its loop, what the task posts included. *)
Definition run_task (t : Task) (ts : list Task) (l : TaskLoop) : TaskLoop :=
  foldl (λ l t, RunInLoop t l)
    (mkTaskLoop (pending_tasks_ l) (wakeups l) (quit_ l) (Running ts) (tl_ran l ++ [t]) (tl_posted l)) (posts t).
(** The test of [while(!quit_)]. *)
Definition next_turn (l : TaskLoop) : TaskLoop :=
  mkTaskLoop (pending_tasks_ l) (wakeups l) (quit_ l) (if quit_ l then Finished else Polling)
    (tl_ran l) (tl_posted l).

(** A step of the loop's own thread; [None] when it has returned.  A turn that
    finds the wakeup descriptor readable reads it. *)
Definition own_step (l : TaskLoop) : option TaskLoop :=
  match tl_pc l with
  | Polling => Some (take_tasks (if (wakeups l =? 0)%nat then l else HandleWakeUp l))
  | Running (t :: ts) => Some (run_task t ts l)
  | Running [] => Some (next_turn l)
  | Finished => None
  end.

Inductive loop_step : TaskLoop → TaskLoop → Prop :=
| step_own l l' : own_step l = Some l' → loop_step l l'
| step_post t l : loop_step l (RunInLoop t l)
| step_quit l : loop_step l (Quit l).

Fixpoint own_steps (n : nat) (l : TaskLoop) : option TaskLoop :=
  match n with O => Some l | S n => l ← own_step l; own_steps n l end.

Definition tl_running (l : TaskLoop) : list Task :=
  match tl_pc l with Running ts => ts | _ => [] end.

(** Every task handed over has run, is about to run in this turn or waits, in
    the order they came; and the loop ends only when told to. *)
Definition in_order (l : TaskLoop) : Prop :=
  tl_posted l = tl_ran l ++ tl_running l ++ pending_tasks_ l ∧ (tl_pc l = Finished → quit_ l = true).

Lemma RunInLoop_in_order t l : in_order l → in_order (RunInLoop t l).
Proof. intros [H Hq]. split; [|done]. cbn. rewrite H. by rewrite <- !app_assoc. Qed.

Lemma RunInLoop_all ts l :
  in_order l → let l' := foldl (λ l t, RunInLoop t l) l ts in
  in_order l' ∧ tl_ran l' = tl_ran l ∧ tl_pc l' = tl_pc l ∧ quit_ l' = quit_ l ∧
  tl_posted l' = tl_posted l ++ ts.
Proof.
  revert l. induction ts as [|t ts IH]; intros l Hl; cbn [foldl]; [by rewrite app_nil_r|].
  destruct (IH (RunInLoop t l) (RunInLoop_in_order t l Hl)) as (H1 & H2 & H3 & H4 & H5).
  rewrite H2, H3, H4, H5. split_and!; try done. cbn. by rewrite <- app_assoc.
Qed.

Lemma run_task_in_order t ts l :
  in_order l → tl_pc l = Running (t :: ts) →
  in_order (run_task t ts l) ∧ tl_ran (run_task t ts l) = tl_ran l ++ [t] ∧
  tl_pc (run_task t ts l) = Running ts ∧ quit_ (run_task t ts l) = quit_ l ∧
  tl_posted (run_task t ts l) = tl_posted l ++ posts t.
Proof.
  intros [H Hq] Hpc. unfold tl_running in H. rewrite Hpc in H.
  set (l1 := mkTaskLoop (pending_tasks_ l) (wakeups l) (quit_ l) (Running ts) (tl_ran l ++ [t]) (tl_posted l)).
  apply (RunInLoop_all (posts t) l1). split; [|done]. cbn. rewrite H. by rewrite <- !app_assoc.
Qed.

Lemma own_step_in_order l l' : in_order l → own_step l = Some l' → in_order l'.
Proof.
  intros Hl E. unfold own_step in E. destruct (tl_pc l) as [|[|t ts]|] eqn:Hpc; [..|done];
    apply (inj Some) in E as <-; [| |by apply run_task_in_order];
    destruct Hl as [H Hq]; unfold in_order, tl_running in *; rewrite Hpc in H.
  - destruct (wakeups l =? 0)%nat; cbn; by rewrite app_nil_r.
  - cbn. by destruct (quit_ l).
Qed.

Lemma loop_step_in_order l l' : in_order l → loop_step l l' → in_order l'.
Proof.
  intros Hl Hs. destruct Hs as [l l' E|t l|l].
  - by apply (own_step_in_order l).
  - by apply RunInLoop_in_order.
  - destruct Hl. by split.
Qed.

Lemma reachable_in_order l : rtc loop_step TaskLoop_new l → in_order l.
Proof.
  assert (in_order TaskLoop_new) as H0 by by split. revert H0. generalize TaskLoop_new.
  induction 2 as [|l1 l2 l3 Hs _ IH]; [done|]. by apply IH, (loop_step_in_order l1).
Qed.

Lemma own_steps_app n m l l' : own_steps n l = Some l' → own_steps (n + m) l = own_steps m l'.
Proof.
  revert l. induction n as [|n IH]; intros l E; cbn in *; [by apply (inj Some) in E as ->|].
  destruct (own_step l) as [l1|]; [|done]. cbn in *. by apply IH.
Qed.

(** The rest of a turn. *)
Lemma finish_turn ts l :
  in_order l → tl_pc l = Running ts →
  ∃ l', own_steps (length ts) l = Some l' ∧ in_order l' ∧ tl_pc l' = Running [] ∧ quit_ l' = quit_ l ∧
    tl_ran l' = tl_ran l ++ ts ∧ tl_posted l `prefix_of` tl_posted l'.
Proof.
  revert l. induction ts as [|t ts IH]; intros l Hl Hpc; [exists l; by rewrite app_nil_r|].
  destruct (run_task_in_order t ts l Hl Hpc) as (H1 & R1 & P1 & Q1 & T1).
  destruct (IH _ H1 P1) as (l' & E & H2 & P2 & Q2 & R2 & T2).
  exists l'. cbn [length own_steps]. unfold own_step at 1. rewrite Hpc. cbn [mbind option_bind].
  split_and!; try done; [by rewrite Q2|by rewrite R2, R1, <- app_assoc|].
  etrans; [|exact T2]. rewrite T1. by apply prefix_app_r.
Qed.

(** A turn that begins now runs all that waits now. *)
Lemma whole_turn l :
  in_order l → tl_pc l = Polling →
  ∃ l', own_steps (S (length (pending_tasks_ l))) l = Some l' ∧ in_order l' ∧ tl_ran l' = tl_posted l.
Proof.
  intros Hl Hpc. cbn [own_steps]. unfold own_step at 1. rewrite Hpc. cbn [mbind option_bind].
  set (l0 := if (wakeups l =? 0)%nat then l else HandleWakeUp l).
  assert (in_order l0 ∧ tl_pc l0 = Polling ∧ tl_ran l0 = tl_ran l ∧ pending_tasks_ l0 = pending_tasks_ l ∧ tl_posted l0 = tl_posted l)
    as (H0 & P0 & R0 & Q0 & T0) by (unfold l0; destruct (wakeups l =? 0)%nat; [done|]; split_and!; try done; by destruct Hl).
  assert (in_order (take_tasks l0)) as H1 by (apply (own_step_in_order l); [done|]; unfold own_step; by rewrite Hpc).
  destruct (finish_turn (pending_tasks_ l0) (take_tasks l0) H1 eq_refl) as (l' & E & H2 & _ & _ & R2 & _).
  exists l'. rewrite <- Q0. split_and!; [done|done|]. rewrite R2. cbn [take_tasks tl_ran].
  destruct H0 as [E0 _]. rewrite <- T0, E0. unfold tl_running. by rewrite P0.
Qed.
End tasks.
Arguments LoopPc : clear implicits.
Arguments TaskLoop : clear implicits.

(** Tasks run in the order in which they were handed to the loop, each once,
    whatever threads hand them over and whatever tasks hand over in turn; and if the
    loop has not been told to quit, some number of its own steps (the rest of this
    turn and one more) runs everything handed over so far. *)
Theorem RunInLoop_runs_in_order {Task} (posts : Task → list Task) l :
  rtc (loop_step posts) TaskLoop_new l →
  tl_posted l = tl_ran l ++ tl_running l ++ pending_tasks_ l ∧
  (quit_ l = false → ∃ n l', own_steps posts n l = Some l' ∧ tl_posted l `prefix_of` tl_ran l').
Proof.
  intros Hl%reachable_in_order. split; [apply Hl|]. intros Hq.
  destruct (tl_pc l) as [|ts|] eqn:Hpc.
  - destruct (whole_turn posts l Hl Hpc) as (l' & E & _ & R). eexists. exists l'. by rewrite R.
  - destruct (finish_turn posts ts l Hl Hpc) as (l1 & E1 & H1 & P1 & Q1 & _ & T1).
    assert (own_steps posts 1 l1 = Some (next_turn l1)) as E2 by (cbn; unfold own_step; by rewrite P1).
    assert (in_order (next_turn l1)) as H2 by (apply (own_step_in_order posts l1); [done|]; unfold own_step; by rewrite P1).
    assert (tl_pc (next_turn l1) = Polling) as P2 by (cbn; by rewrite Q1, Hq).
    destruct (whole_turn posts _ H2 P2) as (l' & E & _ & R). exists (length ts + (1 + S (length (pending_tasks_ l1))))%nat, l'. split.
    + by rewrite (own_steps_app posts _ _ _ _ E1), (own_steps_app posts 1 _ _ _ E2).
    + by rewrite R.
  - destruct Hl as [_ H]. by rewrite (H Hpc) in Hq.
Qed.

(** * Witnesses *)

(** The server listens on descriptor 3.  A connection is accepted, three messages
    arrive, one is answered at once, one of the tasks of the others leaves bytes to write, they are written, the peer
    closes, and the tasks let go; then the descriptor comes again. *)
Definition demo_listening : list ReactorEvent := [RStart (Some 3) true true 0].
Definition demo_reactor_run : list ReactorEvent :=
  [RTurn [(3, 1, accepted 7 1)]; RTurn [(7, 1, mkFound [Kept; Replied More; Kept] false Drained None)]; RSendMore 1; RDrop 1;
   RTurn [(7, 4, mkIo 0 false Drained); (3, 1, mkIo 0 false More)];
   RTurn [(7, 17, mkIo 0 true Drained)]; RDrop 1; RTurn [(3, 1, accepted 7 2); (7, 1, mkIo 1 false Drained)]].

Definition demo_accepted : Reactor := mkReactor {[7 := 1%nat]} {[7 := 1]} {[1%nat := mkChannel 7 1]} {[1%nat := 0%nat]} {[7 := 1%nat]} None.

Lemma demo_accepted_ok : reactor_ok demo_accepted.
Proof.
  split; [split|..]; cbn [demo_accepted channels_ interest chans conns connections_ accept_channel_]; unfold distinct_fds; intros *.
  - rewrite lookup_singleton_Some. intros [<- <-]. exists 1. by rewrite !lookup_singleton_eq.
  - rewrite !lookup_singleton_None. done.
  - rewrite lookup_singleton_Some. intros [<- [= <- <-]] _. apply lookup_singleton_eq.
  - rewrite !lookup_singleton_Some. by intros [<- _] [<- _].
  - destruct (decide (p = 1%nat)) as [->|].
    + rewrite !lookup_singleton_eq. split; [left; by eexists|by eexists].
    + rewrite !lookup_singleton_ne by done. split; [by intros []|by intros [[]|]].
  - done.
  - rewrite lookup_singleton_Some. intros [<- <-]. rewrite !lookup_singleton_eq. split; [by eexists|by exists 1].
  - rewrite lookup_singleton_Some. intros [<- [= <- <-]]. intros. apply lookup_singleton_eq.
Qed.

Definition fresh_channelb (fd : Z) (p : nat) (w : Reactor) : bool :=
  bool_decide (chans w !! p = None) && forallb (λ pc, negb (ch_fd pc.2 =? fd)) (map_to_list (chans w)).
Definition event_okb (ev : Z * Z * io) (w : Reactor) : bool :=
  let '(_, revents, i) := ev in
  negb (has revents EPOLLIN && has revents EPOLLOUT && io_closed i) &&
  forallb (λ m, match m with Replied Failed => false | _ => true end) (io_messages i) &&
  match io_accepted i with Some (fd, p) => fresh_channelb fd p w | None => true end.
Fixpoint events_okb (evs : list (Z * Z * io)) (w : Reactor) : bool :=
  match evs with
  | [] => true
  | ev :: evs => event_okb ev w && match Loop_event ev w with Some w => events_okb evs w | None => true end
  end.
Definition reactor_validb (ev : ReactorEvent) (w : Reactor) : bool :=
  match ev with
  | RTurn evs => events_okb evs w
  | RStart server_fd _ _ p => match server_fd with Some fd => fresh_channelb fd p w | None => true end
  | RSendMore p | RSendFailed p | RDrop p => match conns w !! p with Some (S _) => true | _ => false end
  end.
Fixpoint all_validb (evs : list ReactorEvent) (w : Reactor) : bool :=
  match evs with
  | [] => true
  | ev :: evs =>
      reactor_validb ev w && match reactor_step ev w with Some w => all_validb evs w | None => true end
  end.

Lemma fresh_channelb_ok fd p w : fresh_channelb fd p w = true → fresh_channel fd p w.
Proof.
  unfold fresh_channelb. rewrite andb_true_iff, bool_decide_eq_true, forallb_forall. intros [Hp Hfd]. split; [done|].
  intros q e Hq%elem_of_map_to_list%list_elem_of_In%Hfd. cbn in Hq. by rewrite Z.eqb_refl in Hq.
Qed.

Lemma event_okb_ok ev w : event_okb ev w = true → event_ok ev w.
Proof.
  destruct ev as [[fd revents] i]. unfold event_okb, event_ok. rewrite !andb_true_iff. intros [[H1 Hms] H2]. split_and!.
  - destruct (has _ _), (has _ _), (io_closed i); done.
  - apply Forall_forall. rewrite forallb_forall in Hms. intros m Hm%list_elem_of_In%Hms ->. done.
  - destruct (io_accepted i) as [[g p]|]; [by apply fresh_channelb_ok|done].
Qed.

Lemma events_okb_ok evs w : events_okb evs w = true → events_ok evs w.
Proof.
  revert w. induction evs as [|ev evs IH]; intros w; cbn [events_okb events_ok]; [done|].
  rewrite andb_true_iff. intros [Hv%event_okb_ok H]. split; [done|]. destruct (Loop_event ev w); [by apply IH|done].
Qed.

Lemma reactor_validb_ok ev w : reactor_validb ev w = true → reactor_valid ev w.
Proof.
  assert (∀ p, match conns w !! p with Some (S _) => true | _ => false end = true → ∃ n, conns w !! p = Some (S n)) as Href.
  { intros p. destruct (conns w !! p) as [[|n]|]; [done|by exists n|done]. }
  destruct ev as [evs|s b l p|p|p|p]; cbn [reactor_validb reactor_valid]; try apply Href; [apply events_okb_ok|].
  destruct s; [apply fresh_channelb_ok|done].
Qed.

Lemma all_validb_ok evs w : all_validb evs w = true → all_valid evs w.
Proof.
  revert w. induction evs as [|ev evs IH]; intros w; cbn [all_validb all_valid]; [done|].
  rewrite andb_true_iff. intros [Hv%reactor_validb_ok H]. split; [done|].
  destruct (reactor_step ev w) as [w'|]; [by apply IH|done].
Qed.

Lemma reactor_never_dangles_witness :
  all_valid (demo_listening ++ demo_reactor_run) Reactor_new ∧
  ∃ w0 w, reactor_run demo_listening Reactor_new = Some w0 ∧ reactor_run demo_reactor_run w0 = Some w ∧ reactor_ok w ∧
    (is_Some (accept_channel_ w0) →
      ∃ p fd, accept_channel_ w = Some p ∧ channels_ w !! fd = Some p ∧ interest w !! fd = Some EPOLLIN).
Proof.
  assert (all_valid (demo_listening ++ demo_reactor_run) Reactor_new) as H by (apply all_validb_ok; by vm_compute).
  split; [exact H|]. exact (reactor_never_dangles demo_listening demo_reactor_run H).
Defined.

Lemma close_while_writable_witness :
  Loop_events [(7, 5, mkIo 0 true Drained)] demo_accepted = None.
Proof.
  by apply (close_while_writable (mkIo 0 true Drained) 5 1%nat 7 0 demo_accepted demo_accepted_ok); [..|constructor| | |].
Defined.

Lemma failed_reply_dangles_witness :
  Loop_events [(7, 1, mkFound [Replied Failed] false Drained None)] demo_accepted = None.
Proof. by apply (failed_reply_dangles [] false Drained 1 1%nat 7 demo_accepted demo_accepted_ok). Defined.

Lemma stale_channel_deafens_witness :
  ∃ w1 w2 w3, Loop_events [(7, 5, mkIo 1 true Drained)] demo_accepted = Some w1 ∧ drop_ref 1 w1 = Some w2 ∧
    HandleNewConnection 7 2 w2 = Some w3 ∧
    connections_ w3 !! 7 = Some 2%nat ∧ chans w3 !! 2%nat = Some (mkChannel 7 EPOLLIN) ∧
    interest w3 !! 7 = None ∧ channels_ w3 !! 7 = Some 1%nat ∧ chans w3 !! 1%nat = None.
Proof. by apply (stale_channel_deafens 5 1 2 7 demo_accepted demo_accepted_ok). Defined.

(** Another thread hands over task 3, which hands over 4 when it runs. *)
Lemma RunInLoop_runs_in_order_witness :
  let posts (t : nat) := if (t =? 3)%nat then [4%nat] else [] in
  let l := run_task posts 3%nat [] (take_tasks (HandleWakeUp (RunInLoop 3%nat TaskLoop_new))) in
  tl_posted l = tl_ran l ++ tl_running l ++ pending_tasks_ l ∧
  (quit_ l = false → ∃ n l', own_steps posts n l = Some l' ∧ tl_posted l `prefix_of` tl_ran l').
Proof.
  intros posts l. apply (RunInLoop_runs_in_order posts l).
  apply rtc_l with (RunInLoop 3%nat TaskLoop_new); [apply step_post|].
  apply rtc_l with (take_tasks (HandleWakeUp (RunInLoop 3%nat TaskLoop_new))); [by apply step_own|].
  apply rtc_once. by apply step_own.
Defined.
