(* ===== verification/ThreadPool.v ===== *)
(** The thread pool: src/net/net_thread_pool.cc.

    The threads are the workers, the clients that submit tasks and the one that
    stops the pool.  A step is what a thread does between two points where another
    can run: [queue_mutex_] is held while a worker tests its condition and while a
    task is pushed, but neither [stop_.store] nor the two notifications need it, so
    they can fall between a worker's test and the moment it sleeps. *)
From S2P Require Import Prelude.

Section ThreadPool.
Context {Task : Type}.

(** Where a worker is in [WorkerLoop]: about to take the mutex, holding it after a
    test that found nothing to do, asleep on [cv_], running a task, or returned. *)
Inductive Worker := Ready | Tested | Asleep | Running (t : Task) | Returned.

Record ThreadPool := mkPool {
  workers_ : list Worker;
  task_queue_ : list Task;
  stop_ : bool;
  notify_one_due : nat;      (* tasks pushed whose [notify_one] is still to come *)
  notify_all_due : bool;     (* [stop_] is set, [notify_all] is still to come *)
  submitted : list Task;     (* every task ever pushed, in order *)
  taken : list Task;         (* every task a worker popped, in order *)
  finished : list Task       (* every task that has run *)
}.

Definition ThreadPool_new (num_threads : nat) : ThreadPool :=
  mkPool (replicate num_threads Ready) [] false 0 false [] [] [].

Definition set_workers (l : list Worker) (p : ThreadPool) : ThreadPool :=
  mkPool l (task_queue_ p) (stop_ p) (notify_one_due p) (notify_all_due p) (submitted p) (taken p) (finished p).

(** Some worker is between its test and its sleep, with the mutex. *)
Definition locked (p : ThreadPool) : Prop := Tested ∈ workers_ p.

(** [Submit(task)], up to its notification. *)
Definition Submit (t : Task) (p : ThreadPool) : ThreadPool :=
  mkPool (workers_ p) (task_queue_ p ++ [t]) (stop_ p) (S (notify_one_due p)) (notify_all_due p)
    (submitted p ++ [t]) (taken p) (finished p).

Definition wake (w : Worker) : Worker := match w with Asleep => Ready | _ => w end.

(** [Stop()]: the flag, the notification. *)
Definition Stop_store (p : ThreadPool) : ThreadPool :=
  mkPool (workers_ p) (task_queue_ p) true (notify_one_due p) true (submitted p) (taken p) (finished p).
Definition Stop_notify_all (p : ThreadPool) : ThreadPool :=
  mkPool (map wake (workers_ p)) (task_queue_ p) (stop_ p) (notify_one_due p) false
    (submitted p) (taken p) (finished p).

(** The loops of [Stop] over the workers return when all have returned. *)
Definition joined (p : ThreadPool) : bool :=
  forallb (λ w, match w with Returned => true | _ => false end) (workers_ p).

Definition QueueSize (p : ThreadPool) : Z := zlen (task_queue_ p).

(** What a worker does next: the critical section of [WorkerLoop] (its test of the
    condition, then the return or the pop), the sleep in [cv_.wait], the task. *)
Definition WorkerLoop_step (i : nat) (p : ThreadPool) : option ThreadPool :=
  match workers_ p !! i with
  | Some Ready =>
      match task_queue_ p with
      | t :: q =>
          Some (mkPool (<[i := Running t]> (workers_ p)) q (stop_ p) (notify_one_due p) (notify_all_due p)
            (submitted p) (taken p ++ [t]) (finished p))
      | [] => Some (set_workers (<[i := if stop_ p then Returned else Tested]> (workers_ p)) p)
      end
  | Some Tested => Some (set_workers (<[i := Asleep]> (workers_ p)) p)
  | Some (Running t) =>
      Some (mkPool (<[i := Ready]> (workers_ p)) (task_queue_ p) (stop_ p) (notify_one_due p) (notify_all_due p)
        (submitted p) (taken p) (finished p ++ [t]))
  | Some Asleep | Some Returned | None => None
  end.

(** A worker leaves [cv_.wait] without a notification, as the language allows; it then
    takes the mutex and tests the condition again. *)
Definition spurious_wake_up (i : nat) (p : ThreadPool) : option ThreadPool :=
  match workers_ p !! i with
  | Some Asleep => Some (set_workers (<[i := Ready]> (workers_ p)) p)
  | _ => None
  end.

(** One step of any thread but those that call [Submit] and [Stop]: with the
    wake-ups that the code's notifications cause, and with all of them. *)
Inductive notified_step : ThreadPool → ThreadPool → Prop :=
| ps_worker i p p' :
    (workers_ p !! i = Some Ready → ¬ locked p) → WorkerLoop_step i p = Some p' → notified_step p p'
| ps_notify_one i p n :
    notify_one_due p = S n → workers_ p !! i = Some Asleep →
    notified_step p (mkPool (<[i := Ready]> (workers_ p)) (task_queue_ p) (stop_ p) n (notify_all_due p)
      (submitted p) (taken p) (finished p))
| ps_notify_nobody p n :
    notify_one_due p = S n → (Asleep ∉ workers_ p) →
    notified_step p (mkPool (workers_ p) (task_queue_ p) (stop_ p) n (notify_all_due p)
      (submitted p) (taken p) (finished p))
| ps_notify_all p : notify_all_due p = true → notified_step p (Stop_notify_all p).

Inductive pool_step : ThreadPool → ThreadPool → Prop :=
| ps_notified p p' : notified_step p p' → pool_step p p'
| ps_spurious i p p' : spurious_wake_up i p = Some p' → pool_step p p'.

(** With the calls of the clients. *)
Inductive pool_event : ThreadPool → ThreadPool → Prop :=
| pe_step p p' : pool_step p p' → pool_event p p'
| pe_submit t p : ¬ locked p → pool_event p (Submit t p)
| pe_stop p : pool_event p (Stop_store p).

(** * Every task once, in order *)

Definition running (p : ThreadPool) : list Task :=
  omap (λ w, match w with Running t => Some t | _ => None end) (workers_ p).

Definition pool_ok (p : ThreadPool) : Prop :=
  submitted p = taken p ++ task_queue_ p ∧ finished p ++ running p ≡ₚ taken p ∧
  (Returned ∈ workers_ p → stop_ p = true).

Lemma list_insert_middle {A} (l : list A) i x y :
  l !! i = Some x → ∃ l1 l2, l = l1 ++ x :: l2 ∧ <[i := y]> l = l1 ++ y :: l2.
Proof.
  intros Hi. exists (take i l), (drop (S i) l). split; [symmetry; by apply take_drop_middle|].
  apply insert_take_drop. by apply lookup_lt_Some in Hi.
Qed.

Lemma running_insert i w w' p q :
  workers_ p !! i = Some w → workers_ q = <[i := w']> (workers_ p) →
  running q ++ (match w with Running t => [t] | _ => [] end) ≡ₚ
  running p ++ (match w' with Running t => [t] | _ => [] end).
Proof.
  intros Hi Hq. unfold running. rewrite Hq.
  destruct (list_insert_middle (workers_ p) i w w' Hi) as (l1 & l2 & E1 & ->). rewrite E1.
  rewrite !omap_app. destruct w, w'; cbn [omap list_omap]; solve_Permutation.
Qed.

Lemma running_wake l :
  omap (λ w, match w with Running t => Some t | _ => None end) (map wake l) =
  omap (λ w : Worker, match w with Running t => Some t | _ => None end) l.
Proof. induction l as [|[] l IH]; cbn; by rewrite ?IH. Qed.

Lemma returned_insert i w (l : list Worker) :
  Returned ∈ <[i := w]> l → w = Returned ∨ Returned ∈ l.
Proof.
  intros (j & Hj)%list_elem_of_lookup. destruct (decide (i = j)) as [->|Hne].
  - destruct (decide (j < length l)%nat).
    + rewrite list_lookup_insert_eq in Hj by done. left. congruence.
    + right. rewrite list_insert_ge in Hj by lia. by eapply list_elem_of_lookup_2.
  - right. rewrite list_lookup_insert_ne in Hj by done. by eapply list_elem_of_lookup_2.
Qed.

Lemma returned_wake l : Returned ∈ map wake l → (Returned : Worker) ∈ l.
Proof. intros (w & Hw & Hin)%list_elem_of_fmap_1. by destruct w. Qed.

Lemma worker_step_ok i p p' : pool_ok p → WorkerLoop_step i p = Some p' → pool_ok p'.
Proof.
  intros (Hs & Hf & Hr). unfold WorkerLoop_step.
  destruct (workers_ p !! i) as [w|] eqn:Hi; [|done]. destruct w as [| | |t|]; try done.
  - destruct (task_queue_ p) as [|t q] eqn:Hq.
    + intros [= <-]. split_and!; [cbn [submitted taken task_queue_ set_workers]; by rewrite Hq| |].
      * pose proof (running_insert i Ready (if stop_ p then Returned else Tested) p
          (set_workers (<[i := if stop_ p then Returned else Tested]> (workers_ p)) p) Hi eq_refl) as Hp.
        destruct (stop_ p); rewrite !app_nil_r in Hp; cbn [finished set_workers taken]; by rewrite Hp.
      * cbn [workers_ set_workers stop_]. intros [E|Hin]%returned_insert; [by destruct (stop_ p)|by apply Hr].
    + intros [= <-]. split_and!; cbn [submitted taken task_queue_ finished workers_ stop_].
      * by rewrite Hs, <- app_assoc.
      * match goal with |- _ ++ running ?q ≡ₚ _ => 
          pose proof (running_insert i Ready (Running t) p q Hi eq_refl) as Hp end.
        rewrite app_nil_r in Hp. by rewrite Hp, app_assoc, Hf.
      * intros [E|Hin]%returned_insert; [done|by apply Hr].
  - intros [= <-]. split_and!; [done| |].
    + pose proof (running_insert i Tested Asleep p (set_workers (<[i := Asleep]> (workers_ p)) p) Hi eq_refl) as Hp.
      rewrite !app_nil_r in Hp. cbn [finished set_workers taken]. by rewrite Hp.
    + cbn [workers_ set_workers stop_]. intros [E|Hin]%returned_insert; [done|by apply Hr].
  - intros [= <-]. split_and!; cbn [submitted taken task_queue_ finished workers_ stop_]; [done| |].
    + match goal with |- _ ++ running ?q ≡ₚ _ => 
        pose proof (running_insert i (Running t) Ready p q Hi eq_refl) as Hp; revert Hp; generalize (running q) end.
      intros r Hp. rewrite app_nil_r in Hp. transitivity (finished p ++ running p); [|done].
      rewrite <- Hp. solve_Permutation.
    + intros [E|Hin]%returned_insert; [done|by apply Hr].
Qed.

(** A worker that has nothing to run wakes. *)
Lemma woken_ok i p :
  pool_ok p → workers_ p !! i = Some Asleep → pool_ok (set_workers (<[i := Ready]> (workers_ p)) p).
Proof.
  intros (Hs & Hf & Hr) Hi. split_and!; [done| |].
  - pose proof (running_insert i Asleep Ready p (set_workers (<[i := Ready]> (workers_ p)) p) Hi eq_refl) as Hp.
    rewrite !app_nil_r in Hp. cbn [finished set_workers taken]. by rewrite Hp.
  - cbn [workers_ set_workers stop_]. intros [E|Hin]%returned_insert; [done|by apply Hr].
Qed.

Lemma spurious_wake_up_inv i p p' :
  spurious_wake_up i p = Some p' →
  workers_ p !! i = Some Asleep ∧ p' = set_workers (<[i := Ready]> (workers_ p)) p.
Proof.
  unfold spurious_wake_up. destruct (workers_ p !! i) as [[]|]; try done. by intros E%(inj Some).
Qed.

Lemma notified_step_ok p p' : pool_ok p → notified_step p p' → pool_ok p'.
Proof.
  intros Hok Hs. destruct Hs as [i p p' _ Hw|i p n Hn Hi|p n Hn _|p Hn]; [by eapply worker_step_ok| | |].
  - destruct Hok as (Hs & Hf & Hr). split_and!; [done| |].
    + match goal with |- _ ++ running ?q ≡ₚ _ => 
        pose proof (running_insert i Asleep Ready p q Hi eq_refl) as Hp end.
      rewrite !app_nil_r in Hp. by rewrite Hp.
    + cbn [workers_ stop_]. intros [E|Hin]%returned_insert; [done|by apply Hr].
  - exact Hok.
  - destruct Hok as (Hs & Hf & Hr). split_and!; [done| |].
    + unfold running, Stop_notify_all in *. cbn [finished taken workers_]. by rewrite running_wake.
    + cbn [Stop_notify_all workers_ stop_]. intros Hin%returned_wake. by apply Hr.
Qed.

Lemma pool_step_ok p p' : pool_ok p → pool_step p p' → pool_ok p'.
Proof.
  intros Hok Hs. destruct Hs as [q q' Hs|i q q' [Hi ->]%spurious_wake_up_inv]; [by eapply notified_step_ok|by apply woken_ok].
Qed.

Lemma new_ok n : pool_ok (ThreadPool_new n).
Proof.
  split_and!; [done| |].
  - unfold running, ThreadPool_new. cbn [finished workers_ taken]. induction n as [|n IH]; [done|exact IH].
  - cbn [ThreadPool_new workers_]. by intros [? _]%elem_of_replicate.
Qed.

Lemma pool_events_ok p p' : rtc pool_event p p' → pool_ok p → pool_ok p'.
Proof.
  induction 1 as [p|p1 p2 p3 He _ IH]; intros Hok; [done|]. apply IH.
  destruct He as [p p' Hs|t p _|p]; [by eapply pool_step_ok| |].
  - destruct Hok as (Hs & Hf & Hr). split_and!; [|done|done]. cbn [Submit submitted taken task_queue_].
    by rewrite Hs, app_assoc.
  - destruct Hok as (Hs & Hf & Hr). by split_and!.
Qed.

(** However the threads interleave, tasks are handed to the workers in the
    order they were submitted, each once, and the tasks handed out are those that
    have run and those that are running. *)
Theorem pool_runs_each_once n p :
  rtc pool_event (ThreadPool_new n) p →
  submitted p = taken p ++ task_queue_ p ∧ finished p ++ running p ≡ₚ taken p.
Proof. intros Hs. destruct (pool_events_ok _ _ Hs (new_ok n)) as (? & ? & _). done. Qed.

(** * Stopping *)

(** Since the flag was set, a worker returns only when nothing is queued. *)
Definition drained (p : ThreadPool) : Prop := Returned ∈ workers_ p → task_queue_ p = [].

Lemma notified_step_drained p p' : drained p → notified_step p p' → drained p'.
Proof.
  unfold drained. intros Hd Hs. destruct Hs as [i p p' _ Hw|i p n Hn Hi|p n Hn _|p Hn].
  - unfold WorkerLoop_step in Hw. destruct (workers_ p !! i) as [w|]; [|done].
    destruct w as [| | |t|]; try done.
    + destruct (task_queue_ p) as [|t q] eqn:Hq; injection Hw as <-; cbn [workers_ task_queue_ set_workers]; [done|].
      intros [E|Hin]%returned_insert; [done|]. specialize (Hd Hin). done.
    + injection Hw as <-. cbn [workers_ task_queue_ set_workers]. intros [E|Hin]%returned_insert; [done|by apply Hd].
    + injection Hw as <-. cbn [workers_ task_queue_]. intros [E|Hin]%returned_insert; [done|by apply Hd].
  - cbn [workers_ task_queue_]. intros [E|Hin]%returned_insert; [done|by apply Hd].
  - exact Hd.
  - cbn [Stop_notify_all workers_ task_queue_]. intros Hin%returned_wake. by apply Hd.
Qed.

Lemma pool_step_drained p p' : drained p → pool_step p p' → drained p'.
Proof.
  intros Hd Hs. destruct Hs as [q q' Hs|i q q' [Hi ->]%spurious_wake_up_inv]; [by eapply notified_step_drained|].
  intros [E|Hin]%returned_insert; [done|by apply Hd].
Qed.

Lemma joined_all p : joined p = true → Forall (λ w, w = Returned) (workers_ p).
Proof.
  unfold joined. rewrite forallb_forall. intros Hj. apply Forall_forall. intros w Hw.
  apply list_elem_of_In, Hj in Hw. by destruct w.
Qed.

Lemma notified_step_length p p' : notified_step p p' → length (workers_ p') = length (workers_ p).
Proof.
  intros Hs. destruct Hs as [i p p' _ Hw|i p n Hn Hi|p n Hn _|p Hn]; cbn [workers_ Stop_notify_all].
  - unfold WorkerLoop_step in Hw. repeat case_match; simplify_eq/=; by rewrite length_insert.
  - by rewrite length_insert.
  - done.
  - apply length_map.
Qed.

Lemma step_length p p' : pool_step p p' → length (workers_ p') = length (workers_ p).
Proof.
  intros Hs. destruct Hs as [q q' Hs|i q q' [Hi ->]%spurious_wake_up_inv]; [by apply notified_step_length|].
  cbn [workers_ set_workers]. by rewrite length_insert.
Qed.

Lemma steps_length p p' : rtc pool_step p p' → length (workers_ p') = length (workers_ p).
Proof. induction 1 as [p|p1 p2 p3 Hs _ IH]; [done|]. rewrite IH. by apply step_length. Qed.

Lemma events_length p p' : rtc pool_event p p' → length (workers_ p') = length (workers_ p).
Proof.
  induction 1 as [p|p1 p2 p3 Hs _ IH]; [done|]. rewrite IH. destruct Hs; [by apply step_length|done..].
Qed.

(** C24: when [Stop] returns, every task submitted before it has run. *)
Theorem Stop_drains_the_queue n p p' :
  (0 < n)%nat → rtc pool_event (ThreadPool_new n) p → stop_ p = false →
  rtc pool_step (Stop_store p) p' → joined p' = true →
  finished p' ≡ₚ submitted p'.
Proof.
  intros Hn Hr Hst Hs Hj. pose proof (events_length _ _ Hr) as Hl.
  cbn [ThreadPool_new workers_] in Hl. rewrite length_replicate in Hl.
  pose proof (pool_events_ok _ _ Hr (new_ok n)) as Hok.
  assert (drained p') as Hd.
  { assert (drained (Stop_store p)) as H0.
    { intros Hin. destruct Hok as (_ & _ & Hret). cbn [Stop_store workers_] in Hin.
      rewrite (Hret Hin) in Hst. done. }
    clear -Hs H0. induction Hs as [|p1 p2 p3 H1 _ IH]; [done|]. apply IH. by eapply pool_step_drained. }
  assert (pool_ok p') as (Hsub & Hf & _).
  { assert (pool_ok (Stop_store p)) as H0 by (destruct Hok as (? & ? & _); by split_and!).
    clear -Hs H0. induction Hs as [|p1 p2 p3 H1 _ IH]; [done|]. apply IH. by eapply pool_step_ok. }
  pose proof (joined_all _ Hj) as Hall. apply steps_length in Hs. cbn [Stop_store workers_] in Hs.
  rewrite Hd in Hsub.
  - rewrite Hsub, app_nil_r. rewrite <- Hf.
    enough (running p' = []) as -> by by rewrite app_nil_r.
    clear -Hall. unfold running. revert Hall. generalize (workers_ p'). intros l Hall.
    induction Hall as [|w l -> _ IH]; [done|exact IH].
  - destruct (workers_ p') as [|w l]; [simpl in Hs; lia|]. apply Forall_cons in Hall as [-> _]. left.
Qed.

(** A sleeper that nobody will wake. *)
Definition abandoned (p : ThreadPool) : Prop :=
  workers_ p !! 0%nat = Some Asleep ∧ task_queue_ p = [] ∧ notify_one_due p = 0%nat ∧ notify_all_due p = false.

Lemma notified_step_abandoned p p' : abandoned p → notified_step p p' → abandoned p'.
Proof.
  intros (H0 & Hq & H1 & Ha) Hs. destruct Hs as [i p p' _ Hw|i p n Hn Hi|p n Hn _|p Hn]; [|congruence..].
  unfold WorkerLoop_step in Hw. destruct (decide (i = 0%nat)) as [->|Hi]; [by rewrite H0 in Hw|].
  destruct (workers_ p !! i) as [w|]; [|done]. rewrite Hq in Hw.
  destruct w; try done; injection Hw as <-; unfold abandoned;
    cbn [workers_ set_workers task_queue_ notify_one_due notify_all_due]; by rewrite list_lookup_insert_ne.
Qed.

(** [Stop] may never return.  It sets the flag and notifies without the mutex,
    so both can fall between a worker's test of the condition and its sleep: the
    worker then sleeps through the notification, no notification is to come, and the
    [join] waits for as long as the worker does not wake of its own accord
    ([spurious_wake_up], which nothing promises), whatever the other threads do. *)
Theorem Stop_can_hang n :
  (0 < n)%nat →
  ∃ p, rtc pool_event (ThreadPool_new n) p ∧ stop_ p = true ∧ notify_all_due p = false ∧
    ∀ p', rtc notified_step p p' → joined p' = false.
Proof.
  intros Hn. destruct n as [|n]; [lia|].
  set (p0 := ThreadPool_new (S n)).
  set (p1 := set_workers (Tested :: replicate n Ready) p0).
  set (p2 := Stop_store p1). set (p3 := Stop_notify_all p2).
  set (p4 := set_workers (Asleep :: replicate n Ready) p3).
  assert (map wake (replicate n (Ready : Worker)) = replicate n Ready) as Hw
  by (clear; induction n as [|k IH]; [done|cbn; by rewrite IH]).
  exists p4. split; [|split; [done|split; [done|]]].
  - eapply rtc_l; [apply pe_step, ps_notified, (ps_worker 0 p0 p1); [|done]|].
    { intros _ Hl. unfold locked, p0, ThreadPool_new in Hl. cbn [workers_] in Hl.
      apply elem_of_replicate in Hl as [? _]. done. }
    eapply rtc_l; [apply pe_stop|]. fold p2.
    eapply rtc_l; [apply pe_step, ps_notified, ps_notify_all; done|]. fold p3.
    eapply rtc_l; [apply pe_step, ps_notified, (ps_worker 0 p3 p4); [done|]|apply rtc_refl].
    unfold WorkerLoop_step. cbn [p3 p2 p1 Stop_notify_all Stop_store set_workers workers_ map wake lookup list_lookup].
    cbn. unfold p4, set_workers, p3, Stop_notify_all. cbn. rewrite ?Hw. done.
  - intros p' Hs. assert (abandoned p4) as Ha by done.
    assert (abandoned p') as (H0 & _).
    { clear -Hs Ha. induction Hs as [|q1 q2 q3 H1 _ IH]; [done|]. apply IH. by eapply notified_step_abandoned. }
    unfold joined. destruct (workers_ p') as [|w l]; [done|]. simpl in H0. injection H0 as ->. done.
Qed.
End ThreadPool.
Arguments Worker : clear implicits.
Arguments ThreadPool : clear implicits.

(** * Concrete runs *)

#[export] Instance Worker_eq_dec {Task} `{EqDecision Task} : EqDecision (Worker Task).
Proof. solve_decision. Defined.

(** One worker; a task is submitted, taken and run, and the worker returns. *)
Definition pool_a : ThreadPool nat := Submit 7%nat (ThreadPool_new 1).
Definition pool_b : ThreadPool nat := Stop_store pool_a.
Definition pool_turn (p : ThreadPool nat) : ThreadPool nat := default p (WorkerLoop_step 0 p).

Lemma pool_a_reachable : rtc pool_event (ThreadPool_new 1) pool_a.
Proof.
  eapply rtc_l; [apply (pe_submit 7%nat)|apply rtc_refl].
  intros Hl. unfold locked in Hl. cbn in Hl. apply list_elem_of_singleton in Hl. done.
Qed.

Lemma pool_turn_step p :
  bool_decide (Tested ∈ workers_ p) = false → is_Some (WorkerLoop_step 0 p) → pool_step p (pool_turn p).
Proof.
  intros Ht%bool_decide_eq_false [q Hq]. apply ps_notified, (ps_worker 0); [by intros _|].
  unfold pool_turn. by rewrite Hq.
Qed.

Lemma pool_b_steps : rtc pool_step pool_b (pool_turn (pool_turn (pool_turn pool_b))).
Proof.
  eapply rtc_l; [apply pool_turn_step; [by vm_compute|by eexists]|].
  eapply rtc_l; [apply pool_turn_step; [by vm_compute|by eexists]|].
  eapply rtc_l; [apply pool_turn_step; [by vm_compute|by eexists]|apply rtc_refl].
Qed.

Lemma pool_runs_each_once_witness :
  submitted pool_a = taken pool_a ++ task_queue_ pool_a ∧ finished pool_a ++ running pool_a ≡ₚ taken pool_a.
Proof. apply (pool_runs_each_once 1), pool_a_reachable. Defined.

Lemma Stop_drains_the_queue_witness :
  finished (pool_turn (pool_turn (pool_turn pool_b))) ≡ₚ submitted (pool_turn (pool_turn (pool_turn pool_b))).
Proof.
  apply (Stop_drains_the_queue 1 pool_a); [lia|apply pool_a_reachable|done|apply pool_b_steps|by vm_compute].
Defined.

Lemma Stop_can_hang_witness :
  ∃ p : ThreadPool nat, rtc pool_event (ThreadPool_new 2) p ∧ stop_ p = true ∧ notify_all_due p = false ∧
    ∀ p', rtc notified_step p p' → joined p' = false.
Proof. apply (Stop_can_hang 2). lia. Defined.
