(* ===== verification/Servers.v ===== *)
(** The life of the servers: the threads that namenode_ha_server.cc,
    namenode_namenode_server.cc, namenode_fault_detector.cc, raft_node.cc, raft_rpc.cc
    and datanode_datanode_server.cc start, stop and wait for.

    What a thread does in one turn is modelled with its component.  Here a thread is
    the [std::thread] member that owns it and the flag its loop tests: assigning to a
    member that owns a thread, or destroying it, ends the process
    ([std::terminate]), and joining a thread whose flag is not set never returns.
    Setting the flag need not end the thread: a worker of the pool can sleep through
    the notification ([ThreadPool.Stop_can_hang]), the timer of the Raft node can be
    deadlocked ([RaftLocks.election_timer_deadlock]); so whether each thread ends once
    its flag is set is an argument of every [Stop]. *)
From S2P Require Import Prelude.

(** * Threads *)

Inductive outcome (A : Type) := Done (a : A) | Terminate | Blocked.
Arguments Done {A}.
Arguments Terminate {A}.
Arguments Blocked {A}.

#[export] Instance outcome_bind : MBind outcome := λ A B f m,
  match m with Done a => f a | Terminate => Terminate | Blocked => Blocked end.

Record Thread := mkThread { joinable : bool; stopping : bool }.

(** [thread_ = std::thread(...)], [stop_.store(true)], [stop_.store(false)]. *)
Definition spawn (t : Thread) : outcome Thread :=
  if joinable t then Terminate else Done (mkThread true (stopping t)).
Definition ask_stop (t : Thread) : Thread := mkThread (joinable t) true.
Definition clear_stop (t : Thread) : Thread := mkThread (joinable t) false.

(** [if (thread_.joinable()) thread_.join();]; [ends] is whether the thread returns
    once its flag is set. *)
Definition join (ends : bool) (t : Thread) : outcome Thread :=
  if joinable t then if stopping t && ends then Done (mkThread false true) else Blocked else Done t.

(** [std::thread::~thread()]. *)
Definition destroy (t : Thread) : outcome unit := if joinable t then Terminate else Done tt.

Definition Thread_new : Thread := mkThread false false.

(** The thread runs its loop. *)
Definition works (t : Thread) : bool := joinable t && negb (stopping t).

(** ** The parts with one thread each *)

Definition FaultDetector_Start (t : Thread) : outcome Thread := spawn (clear_stop t).
Definition FaultDetector_Stop (ends : bool) (t : Thread) : outcome Thread := join ends (ask_stop t).

(** The thread of [RaftNode::Start], which [Raft.Start] models up to it. *)
Definition RaftNode_Start (t : Thread) : outcome Thread := spawn (clear_stop t).
Definition RaftNode_Stop (ends : bool) (t : Thread) : outcome Thread := join ends (ask_stop t).

(** The loop of a [RaftRPC] runs until [quit_], which nothing clears; [listens] is
    what the [TcpServer] answered. *)
Definition RaftRPC_Start (listens : bool) (t : Thread) : outcome (Thread * bool) :=
  if listens then t ← spawn t; Done (t, true) else Done (t, false).
Definition RaftRPC_Stop (ends : bool) (t : Thread) : outcome Thread := join ends (ask_stop t).

(** [DataNodeClient]: its [stop_] is never cleared either. *)
Definition DataNodeClient_Start (registered : bool) (t : Thread) : outcome (Thread * bool) :=
  if registered then t ← spawn t; Done (t, true) else Done (t, false).
Definition DataNodeClient_Stop (ends : bool) (t : Thread) : outcome Thread := join ends (ask_stop t).

(** The destructor of each of the four calls [Stop] first. *)
Definition stop_and_destroy (ends : bool) (t : Thread) : outcome unit := t ← join ends (ask_stop t); destroy t.

(** The workers of a [ThreadPool] run from its constructor on; they are taken as one
    thread, which ends when all of them have returned. *)
Definition ThreadPool_new_workers : Thread := mkThread true false.
Definition ThreadPool_Stop (ends : bool) (t : Thread) : outcome Thread := join ends (ask_stop t).

(** * The high-availability name node *)

Record HaThreads := mkHaThreads {
  timer_thread_ : Thread;
  rpc_loop_thread_ : Thread;
  client_loop_thread_ : Thread;
  health_check_thread_ : Thread;
  detect_thread_ : Thread;
  pool_workers_ : Thread }.

Definition HaThreads_new : HaThreads :=
  mkHaThreads Thread_new Thread_new Thread_new Thread_new Thread_new ThreadPool_new_workers.

(** Which of the threads end once they are told to. *)
Record Ends := mkEnds {
  timer_ends : bool; rpc_ends : bool; client_ends : bool; health_ends : bool; detect_ends : bool; pool_ends : bool }.
Definition all_end : Ends := mkEnds true true true true true true.

(** [HANameNodeServer::Start()] on what the two [TcpServer]s answer.  The flag of the
    client loop is the [quit_] of [client_loop_], that of the health check the
    [stop_] of the server. *)
Definition HANameNodeServer_Start (rpc_listens client_listens : bool) (s : HaThreads) : outcome (HaThreads * bool) :=
  timer ← RaftNode_Start (timer_thread_ s);
  let s := mkHaThreads timer (rpc_loop_thread_ s) (client_loop_thread_ s) (health_check_thread_ s) (detect_thread_ s) (pool_workers_ s) in
  '(rpc, started) ← RaftRPC_Start rpc_listens (rpc_loop_thread_ s);
  let s := mkHaThreads (timer_thread_ s) rpc (client_loop_thread_ s) (health_check_thread_ s) (detect_thread_ s) (pool_workers_ s) in
  if negb started then Done (s, false)
  else if negb client_listens then Done (s, false)
  else
    client ← spawn (client_loop_thread_ s);
    health ← spawn (health_check_thread_ s);
    detect ← FaultDetector_Start (detect_thread_ s);
    Done (mkHaThreads (timer_thread_ s) (rpc_loop_thread_ s) client health detect (pool_workers_ s), true).

Definition HANameNodeServer_Stop (e : Ends) (s : HaThreads) : outcome HaThreads :=
  let health := ask_stop (health_check_thread_ s) in
  detect ← FaultDetector_Stop (detect_ends e) (detect_thread_ s);
  health ← join (health_ends e) health;
  timer ← RaftNode_Stop (timer_ends e) (timer_thread_ s);
  rpc ← RaftRPC_Stop (rpc_ends e) (rpc_loop_thread_ s);
  pool ← ThreadPool_Stop (pool_ends e) (pool_workers_ s);
  let client := ask_stop (client_loop_thread_ s) in
  client ← join (client_ends e) client;
  Done (mkHaThreads timer rpc client health detect pool).

(** The destructor: [Stop], then the members in the reverse order of declaration. *)
Definition HANameNodeServer_delete (e : Ends) (s : HaThreads) : outcome unit :=
  s ← HANameNodeServer_Stop e s;
  _ ← destroy (health_check_thread_ s);
  _ ← destroy (client_loop_thread_ s);
  _ ← stop_and_destroy (pool_ends e) (pool_workers_ s);
  _ ← stop_and_destroy (rpc_ends e) (rpc_loop_thread_ s);
  _ ← stop_and_destroy (timer_ends e) (timer_thread_ s);
  stop_and_destroy (detect_ends e) (detect_thread_ s).

(** * The name node *)

(** [loop_] runs in the thread that calls [Run]; its flag is [quit_]. *)
Record NnThreads := mkNnThreads {
  nn_health_thread_ : Thread; nn_detect_thread_ : Thread; nn_pool_workers_ : Thread; loop_quit : bool }.
Definition NnThreads_new : NnThreads := mkNnThreads Thread_new Thread_new ThreadPool_new_workers false.

Definition NameNodeServer_Start (listens : bool) (s : NnThreads) : outcome (NnThreads * bool) :=
  health ← spawn (nn_health_thread_ s);
  detect ← FaultDetector_Start (nn_detect_thread_ s);
  Done (mkNnThreads health detect (nn_pool_workers_ s) (loop_quit s), listens).

Definition NameNodeServer_Stop (health_ends detect_ends pool_ends : bool) (s : NnThreads) : outcome NnThreads :=
  let health := ask_stop (nn_health_thread_ s) in
  detect ← FaultDetector_Stop detect_ends (nn_detect_thread_ s);
  health ← join health_ends health;
  pool ← ThreadPool_Stop pool_ends (nn_pool_workers_ s);
  Done (mkNnThreads health detect pool true).

Definition NameNodeServer_delete (health_ends detect_ends pool_ends : bool) (s : NnThreads) : outcome unit :=
  s ← NameNodeServer_Stop health_ends detect_ends pool_ends s;
  _ ← destroy (nn_health_thread_ s);
  _ ← stop_and_destroy pool_ends (nn_pool_workers_ s);
  stop_and_destroy detect_ends (nn_detect_thread_ s).

(** [Run()] serves until [quit_]. *)
Definition NameNodeServer_Run_serves (s : NnThreads) : bool := negb (loop_quit s).

(** * The listening thread of a data node *)

(** [ListenLoop] runs in a detached thread; the descriptor is a member that [Stop]
    closes from another thread.  [fd_open] says whether the kernel's listening
    socket exists, [server_fd_] what the member holds, [handled] counts the
    connections handed to a thread of their own. *)
Inductive ListenPc := LSocket | LBind | LTest | LAccept | LReturned.
Record Listener := mkListener {
  dn_stop_ : bool; server_fd_ : bool; fd_open : bool; listen_pc : ListenPc; handled : nat }.

(** [DataNodeServer::Start()] has detached the thread. *)
Definition Listener_new : Listener := mkListener false false false LSocket 0.

(** The next thing the thread does; [ok] is whether [socket] or [bind] succeeds.  A
    failing [accept] ends the loop; one on a closed descriptor fails. *)
Definition ListenLoop_step (ok : bool) (s : Listener) : Listener :=
  match listen_pc s with
  | LSocket => mkListener (dn_stop_ s) ok ok LBind (handled s)
  | LBind => mkListener (dn_stop_ s) (server_fd_ s) (fd_open s) (if ok && fd_open s then LTest else LReturned) (handled s)
  | LTest => mkListener (dn_stop_ s) (server_fd_ s) (fd_open s) (if dn_stop_ s then LReturned else LAccept) (handled s)
  | LAccept =>
      if ok && fd_open s
      then mkListener (dn_stop_ s) (server_fd_ s) (fd_open s) LTest (S (handled s))
      else mkListener (dn_stop_ s) (server_fd_ s) (fd_open s) LReturned (handled s)
  | LReturned => s
  end.

(** [DataNodeServer::Stop()] in two parts; between them it waits for the heartbeat
    thread of the client. *)
Definition DnStop_store (s : Listener) : Listener :=
  mkListener true (server_fd_ s) (fd_open s) (listen_pc s) (handled s).
Definition DnStop_close (s : Listener) : Listener :=
  if server_fd_ s then mkListener (dn_stop_ s) false false (listen_pc s) (handled s) else s.

(** * Theorems *)

(** What a caller does with a server. *)
Inductive HaCall := CStart (rpc_listens client_listens : bool) | CStop (e : Ends).

Fixpoint ha_calls (cs : list HaCall) (s : HaThreads) : outcome HaThreads :=
  match cs with
  | [] => Done s
  | CStart r c :: cs => '(s, _) ← HANameNodeServer_Start r c s; ha_calls cs s
  | CStop e :: cs => s ← HANameNodeServer_Stop e s; ha_calls cs s
  end.

(** No [Start] without a [Stop] since the one before, failed or not. *)
Fixpoint alternates (started : bool) (cs : list HaCall) : bool :=
  match cs with
  | [] => true
  | CStart _ _ :: cs => negb started && alternates true cs
  | CStop _ :: cs => alternates false cs
  end.

(** No thread is left; the flags of the loops that nothing clears are set once a
    [Stop] has been, and the workers of the pool are gone. *)
Definition idle (stopped : bool) (s : HaThreads) : Prop :=
  joinable (timer_thread_ s) = false ∧ joinable (detect_thread_ s) = false ∧
  rpc_loop_thread_ s = mkThread false stopped ∧ client_loop_thread_ s = mkThread false stopped ∧
  health_check_thread_ s = mkThread false stopped ∧ pool_workers_ s = mkThread (negb stopped) stopped.

(** Some thread is there that will not end. *)
Definition stuck (e : Ends) (s : HaThreads) : bool :=
  joinable (detect_thread_ s) && negb (detect_ends e) || joinable (health_check_thread_ s) && negb (health_ends e) ||
  joinable (timer_thread_ s) && negb (timer_ends e) || joinable (rpc_loop_thread_ s) && negb (rpc_ends e) ||
  joinable (pool_workers_ s) && negb (pool_ends e) || joinable (client_loop_thread_ s) && negb (client_ends e).

Lemma join_told ends t :
  join ends (ask_stop t) = if joinable t && negb ends then Blocked else Done (mkThread false true).
Proof. destruct t as [[] f], ends; reflexivity. Qed.

(** What [Stop] leaves of a server. *)
Definition stopped_threads : HaThreads :=
  let t := mkThread false true in mkHaThreads t t t t t t.

(** [Stop] ends every thread, from any state, unless it waits for one that does not
    end. *)
Lemma HANameNodeServer_Stop_result e s :
  HANameNodeServer_Stop e s = if stuck e s then Blocked else Done stopped_threads.
Proof.
  unfold HANameNodeServer_Stop, FaultDetector_Stop, RaftNode_Stop, RaftRPC_Stop, ThreadPool_Stop, stuck.
  rewrite !join_told.
  destruct (joinable (detect_thread_ s) && _); [done|]. destruct (joinable (health_check_thread_ s) && _); [done|].
  destruct (joinable (timer_thread_ s) && _); [done|]. destruct (joinable (rpc_loop_thread_ s) && _); [done|].
  destruct (joinable (pool_workers_ s) && _); [done|]. by destruct (joinable (client_loop_thread_ s) && _).
Qed.

Lemma HANameNodeServer_delete_result e s :
  HANameNodeServer_delete e s = if stuck e s then Blocked else Done tt.
Proof. unfold HANameNodeServer_delete. rewrite HANameNodeServer_Stop_result. by destruct (stuck e s). Qed.

Lemma HANameNodeServer_Start_idle stopped r c s :
  idle stopped s →
  ∃ s', HANameNodeServer_Start r c s = Done (s', r && c) ∧ works (timer_thread_ s') = true ∧
    rpc_loop_thread_ s' = mkThread r stopped ∧ client_loop_thread_ s' = mkThread (r && c) stopped ∧
    health_check_thread_ s' = mkThread (r && c) stopped ∧ works (detect_thread_ s') = r && c.
Proof.
  destruct s as [[jt ft] rpc client health [jd fd] pool]. intros (Ht & Hd & Hr & Hc & Hh & _). cbn in *. subst.
  unfold HANameNodeServer_Start, RaftNode_Start, RaftRPC_Start, FaultDetector_Start, spawn. cbn.
  destruct r, c; cbn; eexists; (split; [reflexivity|]); by split_and!.
Qed.

(** [Start] does not touch the pool. *)
Lemma HANameNodeServer_Start_pool r c s s' b :
  HANameNodeServer_Start r c s = Done (s', b) → pool_workers_ s' = pool_workers_ s.
Proof.
  unfold HANameNodeServer_Start. destruct (RaftNode_Start _) as [t| |]; [cbn [mbind outcome_bind]|done|done].
  destruct (RaftRPC_Start _ _) as [[rpc []]| |]; cbn [mbind outcome_bind negb]; [|by intros [= <- _]|done|done].
  destruct c; cbn [negb]; [|by intros [= <- _]].
  destruct (spawn (client_loop_thread_ _)); cbn [mbind outcome_bind]; [|done|done].
  destruct (spawn (health_check_thread_ _)); cbn [mbind outcome_bind]; [|done|done].
  destruct (FaultDetector_Start _); cbn [mbind outcome_bind]; [|done|done]. by intros [= <- _].
Qed.

Lemma HANameNodeServer_Start_again r c s :
  joinable (timer_thread_ s) = true → HANameNodeServer_Start r c s = Terminate.
Proof. destruct s as [[jt ft] ? ? ? ? ?]. cbn. by intros ->. Qed.

(** A call that ends the threads it waits for. *)
Definition call_ends (c : HaCall) : bool :=
  match c with
  | CStart _ _ => true
  | CStop e =>
      timer_ends e && rpc_ends e && client_ends e && health_ends e && detect_ends e && pool_ends e
  end.

Lemma call_ends_not_stuck e s : call_ends (CStop e) = true → stuck e s = false.
Proof.
  cbn. rewrite !andb_true_iff. intros (((((Ht & Hr) & Hc) & Hh) & Hd) & Hp).
  unfold stuck. by rewrite Ht, Hr, Hc, Hh, Hd, Hp, !andb_false_r.
Qed.

(** Either [Start] has been called since the last [Stop], or no thread of it is
    left. *)
Definition between (started : bool) (s : HaThreads) : Prop :=
  if started then joinable (timer_thread_ s) = true else ∃ b, idle b s.

Lemma ha_calls_result cs started s :
  between started s →
  match ha_calls cs s with
  | Done s' => alternates started cs = true ∧ ∃ started', between started' s'
  | Terminate => alternates started cs = false
  | Blocked => forallb call_ends cs = false
  end.
Proof.
  revert started s. induction cs as [|[r c|e] cs IH]; intros started s Hb; cbn [ha_calls alternates].
  - split; [done|by exists started].
  - destruct started; cbn [between negb andb] in *; [by rewrite HANameNodeServer_Start_again|]. destruct Hb as [b Hb].
    destruct (HANameNodeServer_Start_idle b r c s Hb) as (s1 & -> & Hw & _). cbn.
    apply (IH true s1). unfold works in Hw. by apply andb_true_iff in Hw as [? _].
  - rewrite HANameNodeServer_Stop_result. cbn [forallb]. destruct (stuck e s) eqn:Hs; cbn [mbind outcome_bind].
    + destruct (call_ends (CStop e)) eqn:He; [|done]. by rewrite call_ends_not_stuck in Hs.
    + specialize (IH false stopped_threads). destruct (ha_calls cs stopped_threads);
        [| |rewrite IH; [apply andb_false_r|]]; try apply IH; by exists true.
Qed.

Lemma ha_calls_pool cs s s' :
  ha_calls cs s = Done s' → (∀ e, CStop e ∉ cs) → pool_workers_ s' = pool_workers_ s.
Proof.
  revert s. induction cs as [|[r c|e] cs IH]; intros s; cbn [ha_calls]; [by intros [= <-]| |].
  - destruct (HANameNodeServer_Start r c s) as [[s1 b]| |] eqn:E; [|done|done]. cbn. intros Hs Hno.
    rewrite (IH s1 Hs); [by eapply HANameNodeServer_Start_pool|]. intros e He. apply (Hno e). by right.
  - intros _ Hno. destruct (Hno e). by left.
Qed.

(** C25: the life of a server, whatever its two ports answer and in whatever order a
    caller starts and stops it.  As long as the threads that a [Stop] waits for end
    once they are told to, the calls return, except that the process ends exactly
    when [Start] is called a second time without a [Stop] in between, also when the
    first one failed.  In every state they leave, [Stop] and the destructor wait for
    ever exactly when one of the threads that are there does not end, as a worker
    of the pool may not before the first [Stop]; otherwise both return and no thread
    is left. *)
Theorem ha_lifecycle cs :
  (forallb call_ends cs = true →
    if alternates false cs then ∃ s, ha_calls cs HaThreads_new = Done s else ha_calls cs HaThreads_new = Terminate) ∧
  ∀ s e, ha_calls cs HaThreads_new = Done s →
    (HANameNodeServer_Stop e s = Blocked ↔ stuck e s = true) ∧ (HANameNodeServer_delete e s = Blocked ↔ stuck e s = true) ∧
    (stuck e s = false →
      HANameNodeServer_delete e s = Done tt ∧ ∃ s', HANameNodeServer_Stop e s = Done s' ∧ idle true s') ∧
    ((∀ e', CStop e' ∉ cs) → pool_ends e = false → stuck e s = true).
Proof.
  assert (between false HaThreads_new) as Hi by by exists false. pose proof (ha_calls_result cs false HaThreads_new Hi) as H.
  split.
  - intros He. destruct (ha_calls cs HaThreads_new) as [s| |]; [|by rewrite H|congruence].
    destruct H as [-> _]. by exists s.
  - intros s e Hs. rewrite HANameNodeServer_Stop_result, HANameNodeServer_delete_result. split_and!.
    + by destruct (stuck e s).
    + by destruct (stuck e s).
    + intros ->. split; [done|]. by exists stopped_threads.
    + intros Hno Hp. unfold stuck. rewrite (ha_calls_pool cs _ s Hs Hno), Hp. cbn.
      by rewrite orb_true_r.
Qed.

(** The flags that no [Start] clears. *)
Definition marked (s : HaThreads) : Prop :=
  stopping (rpc_loop_thread_ s) = true ∧ stopping (client_loop_thread_ s) = true ∧ stopping (health_check_thread_ s) = true.

Lemma Start_marked r c s s' b : HANameNodeServer_Start r c s = Done (s', b) → marked s → marked s'.
Proof.
  destruct s as [[jt ft] [jr fr] [jc fc] [jh fh] [jd fd] pool].
  unfold HANameNodeServer_Start, RaftNode_Start, RaftRPC_Start, FaultDetector_Start, spawn, clear_stop, marked. cbn.
  destruct jt; [done|]. destruct r, jr; cbn; try done; [|by intros [= <- _]|by intros [= <- _]].
  destruct c; cbn; [|by intros [= <- _]]. destruct jc, jh, jd; cbn; try done. by intros [= <- _].
Qed.

Lemma ha_calls_marked cs s s' : ha_calls cs s = Done s' → (∃ e, CStop e ∈ cs) ∨ marked s → marked s'.
Proof.
  revert s. induction cs as [|[r c|e] cs IH]; intros s; cbn [ha_calls].
  - intros [= <-] [[e ?%elem_of_nil]|?]; done.
  - destruct (HANameNodeServer_Start r c s) as [[s1 b]| |] eqn:E; [|done|done]. intros Hs Hor. apply (IH s1 Hs).
    destruct Hor as [[e [?|?]%elem_of_cons]|Hm]; [done|left; by exists e|right]. by eapply Start_marked.
  - rewrite HANameNodeServer_Stop_result. destruct (stuck e s); [done|]. intros Hs _. apply (IH _ Hs). by right.
Qed.

(** A server that has been stopped starts again and answers that it has started; but
    the loops of its two ports and its health check have been told to stop and
    nothing takes that back: they end at once, the workers of its pool are gone, and
    only the timer of the Raft node and the fault detector run. *)
Theorem ha_restarted_serves_nobody cs e r c s s' :
  CStop e ∈ cs → ha_calls cs HaThreads_new = Done s → HANameNodeServer_Start r c s = Done (s', true) →
  works (timer_thread_ s') = true ∧ works (detect_thread_ s') = true ∧
  works (rpc_loop_thread_ s') = false ∧ works (client_loop_thread_ s') = false ∧
  works (health_check_thread_ s') = false ∧ works (pool_workers_ s') = false.
Proof.
  intros Hin Hs E. assert (between false HaThreads_new) as Hi by by exists false.
  pose proof (ha_calls_result cs false HaThreads_new Hi) as H. rewrite Hs in H.
  destruct H as [_ [[] Hb]]; cbn [between] in Hb; [by rewrite HANameNodeServer_Start_again in E|]. destruct Hb as [b Hb].
  pose proof (ha_calls_marked cs _ s Hs (or_introl (ex_intro _ e Hin))) as Hm. pose proof (Start_marked _ _ _ _ _ E Hm) as (R & C & Hh).
  pose proof (HANameNodeServer_Start_pool _ _ _ _ _ E) as Hp.
  destruct (HANameNodeServer_Start_idle b r c s Hb) as (s1 & E1 & Wt & _ & _ & _ & Wd). rewrite E in E1.
  injection E1 as <- Hrc. destruct Hb as (_ & _ & R0 & _ & _ & P0).
  destruct Hm as [M _]. rewrite R0 in M. cbn in M. subst b. unfold works in *.
  rewrite R, C, Hh, Hp, P0, !andb_false_r. by rewrite Wd, <- Hrc.
Qed.

(** The name node the same: what the caller of [Run] waits in returns at once, and
    nobody is left to work off the queue. *)
Theorem nn_stop_and_restart l h d p s :
  (NameNodeServer_Stop h d p s = Blocked ∧ NameNodeServer_delete h d p s = Blocked ∧
    (joinable (nn_health_thread_ s) && negb h || joinable (nn_detect_thread_ s) && negb d ||
     joinable (nn_pool_workers_ s) && negb p) = true) ∨
  ∃ s1, NameNodeServer_Stop h d p s = Done s1 ∧ NameNodeServer_delete h d p s = Done tt ∧
    ∃ s2, NameNodeServer_Start l s1 = Done (s2, l) ∧ NameNodeServer_Run_serves s2 = false ∧
      works (nn_detect_thread_ s2) = true ∧ works (nn_health_thread_ s2) = false ∧
      works (nn_pool_workers_ s2) = false ∧ NameNodeServer_Start l s2 = Terminate.
Proof.
  destruct s as [[jh fh] [jd fd] [jp fp] q].
  unfold NameNodeServer_delete, NameNodeServer_Stop, FaultDetector_Stop, ThreadPool_Stop. rewrite !join_told. cbn [joinable nn_health_thread_ nn_detect_thread_ nn_pool_workers_].
  destruct (jd && negb d), (jh && negb h), (jp && negb p);
    first [left; by split_and! | right; cbn; eexists; (split; [reflexivity|]); (split; [reflexivity|]); by eexists].
Qed.

(** ** Stopping a data node *)

Inductive listen_step : Listener → Listener → Prop :=
| ls_thread ok s : listen_step s (ListenLoop_step ok s)
| ls_store s : listen_step s (DnStop_store s)
| ls_close s : dn_stop_ s = true → listen_step s (DnStop_close s).

(** A connection can only be waited for while the flag was not yet seen. *)
Definition more (s : Listener) : nat := match listen_pc s with LAccept => 1 | _ => 0 end.

Lemma listen_step_stopped s s' :
  listen_step s s' → dn_stop_ s = true → dn_stop_ s' = true ∧ (handled s' + more s' <= handled s + more s)%nat.
Proof.
  unfold more. intros [ok t|t|t Ht] Hs; [|by destruct t|destruct t as [? []]; cbn in *; by subst].
  destruct t as [st m o [] h]; unfold ListenLoop_step; cbn in *; subst; destruct ok, o; cbn; split; try done; lia.
Qed.

(** Once [stop_] is set, whatever is still to come of [Stop], the data node handles
    at most one more connection, and three more moves of its thread end it.  The
    descriptor is closed, unless [Stop] came before the thread had made it: then it
    stays open, and the kernel goes on accepting connections nobody handles. *)
Theorem data_node_stop s s' :
  dn_stop_ s = true → rtc listen_step s s' →
  (handled s' <= S (handled s))%nat ∧
  (∀ a b c, listen_pc (ListenLoop_step a (ListenLoop_step b (ListenLoop_step c s'))) = LReturned) ∧
  fd_open (ListenLoop_step true (ListenLoop_step true (ListenLoop_step true
    (DnStop_close (DnStop_store Listener_new))))) = true.
Proof.
  intros Hs Hr.
  assert (dn_stop_ s' = true ∧ (handled s' + more s' <= handled s + more s)%nat) as [Hs' Hh].
  { induction Hr as [s|s t u H1 _ IH]; [done|]. destruct (listen_step_stopped s t H1 Hs) as [Ht Hle].
    destruct (IH Ht) as [Hu Hle']. split; [done|lia]. }
  split; [unfold more in *; destruct (listen_pc s), (listen_pc s'); lia|]. split; [|done].
  intros a b c. destruct s' as [st m o pc h]. cbn in Hs'. subst.
  destruct pc, a, b, c, o; reflexivity.
Qed.

(** * Witnesses *)

Lemma ha_lifecycle_witness :
  (∃ s, ha_calls [CStart true false; CStop all_end; CStart true true] HaThreads_new = Done s) ∧
  ha_calls [CStart false true; CStart true true] HaThreads_new = Terminate ∧
  HANameNodeServer_Stop (mkEnds true true true true true false) HaThreads_new = Blocked.
Proof.
  split; [by apply (ha_lifecycle [CStart true false; CStop all_end; CStart true true])|].
  split; [by apply (ha_lifecycle [CStart false true; CStart true true])|].
  by apply (proj2 (ha_lifecycle []) HaThreads_new (mkEnds true true true true true false) eq_refl).
Defined.

Lemma ha_restarted_serves_nobody_witness :
  ∃ s s', ha_calls [CStart true true; CStop all_end] HaThreads_new = Done s ∧ HANameNodeServer_Start true true s = Done (s', true) ∧
    works (timer_thread_ s') = true ∧ works (detect_thread_ s') = true ∧
    works (rpc_loop_thread_ s') = false ∧ works (client_loop_thread_ s') = false ∧
    works (health_check_thread_ s') = false ∧ works (pool_workers_ s') = false.
Proof.
  eexists _, _. split; [reflexivity|]. split; [reflexivity|].
  apply (ha_restarted_serves_nobody [CStart true true; CStop all_end] all_end true true stopped_threads);
    [right; by left|reflexivity|reflexivity].
Defined.

Lemma data_node_stop_witness :
  let s := DnStop_store (ListenLoop_step true (ListenLoop_step true (ListenLoop_step true Listener_new))) in
  let s' := DnStop_close (ListenLoop_step true s) in
  listen_pc s = LAccept ∧ (handled s' <= S (handled s))%nat ∧
  (∀ a b c, listen_pc (ListenLoop_step a (ListenLoop_step b (ListenLoop_step c s'))) = LReturned) ∧
  fd_open (ListenLoop_step true (ListenLoop_step true (ListenLoop_step true
    (DnStop_close (DnStop_store Listener_new))))) = true.
Proof.
  intros s s'. split; [reflexivity|]. apply (data_node_stop s s'); [reflexivity|].
  eapply rtc_l; [apply (ls_thread true)|]. eapply rtc_l; [by apply ls_close|apply rtc_refl].
Defined.
