(* ===== verification/BlockStore.v ===== *)
(** The blocks of a data node on disk: src/datanode/datanode_block_store.cc.

    The two directories are maps from file names to contents.  How far a write
    reaches, and whether a file can be opened or renamed, are arguments.
    Removing a file succeeds.  zlib's [crc32] is a parameter. *)
From S2P Require Import Prelude Wal Metadata.

Record BlockMeta := mkMeta {
  meta_block_id : Z; meta_size : Z; meta_crc32 : Z; meta_create_time : Z }.

Record BlockStore := mkBlockStore {
  blocks_dir_ : gmap bytes bytes;
  tmp_dir_ : gmap bytes bytes }.

(** The names inside the directories. *)
Definition BlockDataPath (id : Z) : bytes := str "block_" ++ format_06llu id ++ str ".dat".
Definition BlockMetaPath (id : Z) : bytes := str "block_" ++ format_06llu id ++ str ".meta".
Definition BlockTmpPath (id : Z) : bytes := str "block_" ++ format_06llu id ++ str ".dat.tmp".

Definition CleanTempFiles (s : BlockStore) : BlockStore := mkBlockStore (blocks_dir_ s) ∅.

(** The constructor, on the directories as a previous process left them. *)
Definition BlockStore_new (s : BlockStore) : BlockStore := CleanTempFiles s.

(** What a stream writes of [data] to a file it has truncated. *)
Definition written (io : io_result) (data : bytes) : bytes :=
  match io with IoOk => data | IoShort n => take n data end.

(** Nothing of [data] is missing. *)
Definition complete (io : io_result) (data : bytes) : bool :=
  match io with IoOk => true | IoShort n => (length data <=? n)%nat end.

Lemma written_complete io data : complete io data = true → written io data = data.
Proof. destruct io as [|n]; [done|]. intros Hn%Nat.leb_le. by apply take_ge. Qed.

Section BlockStore.
Context (crc32 : bytes → Z).

(** The data goes to the temporary file; nobody looks at the state of the stream. *)
Definition write_tmp (opens : bool) (io : io_result) (id : Z) (data : bytes) (s : BlockStore) :
    BlockStore * bool :=
  if opens then
    (mkBlockStore (blocks_dir_ s) (<[BlockTmpPath id := written io data]> (tmp_dir_ s)), true)
  else (s, false).

Definition remove_tmp (id : Z) (s : BlockStore) : BlockStore :=
  mkBlockStore (blocks_dir_ s) (delete (BlockTmpPath id) (tmp_dir_ s)).

Definition meta_text (m : BlockMeta) : bytes :=
  dec (meta_block_id m) ++ str " " ++ dec (meta_size m) ++ str " " ++ dec (meta_crc32 m) ++
  str " " ++ dec (meta_create_time m) ++ [x0a].

Definition WriteMeta (opens : bool) (io : io_result) (id : Z) (m : BlockMeta) (s : BlockStore) :
    BlockStore * bool :=
  if opens then
    (mkBlockStore (<[BlockMetaPath id := written io (meta_text m)]> (blocks_dir_ s)) (tmp_dir_ s), true)
  else (s, false).

(** [rename(tmp, dat)]. *)
Definition rename_tmp (succeeds : bool) (id : Z) (s : BlockStore) : BlockStore * bool :=
  match tmp_dir_ s !! BlockTmpPath id with
  | Some data =>
      if succeeds then
        (mkBlockStore (<[BlockDataPath id := data]> (blocks_dir_ s)) (delete (BlockTmpPath id) (tmp_dir_ s)), true)
      else (s, false)
  | None => (s, false)
  end.

Record WriteIo := mkWriteIo {
  io_tmp_opens : bool; io_tmp : io_result; io_meta_opens : bool; io_meta : io_result;
  io_renames : bool }.

Definition all_good : WriteIo := mkWriteIo true IoOk true IoOk true.

Definition WriteBlock (io : WriteIo) (now : Z) (id : Z) (data : bytes) (s : BlockStore) :
    BlockStore * bool :=
  let '(s, opened) := write_tmp (io_tmp_opens io) (io_tmp io) id data s in
  if negb opened then (s, false)
  else
    let meta := mkMeta id (zlen data) (crc32 data) now in
    let '(s, ok) := WriteMeta (io_meta_opens io) (io_meta io) id meta s in
    if negb ok then (remove_tmp id s, false)
    else
      let '(s, ok) := rename_tmp (io_renames io) id s in
      if negb ok then (remove_tmp id s, false) else (s, true).

(** [f >> id >> size >> crc32 >> create_time]. *)
Definition ReadMeta (id : Z) (s : BlockStore) : option BlockMeta :=
  f ← blocks_dir_ s !! BlockMetaPath id;
  '(i, f) ← extract false 64 f;
  '(z, f) ← extract true 64 f;
  '(c, f) ← extract false 32 f;
  '(t, _) ← extract true 64 f;
  Some (mkMeta i z c t).

(** [ReadBlock]: [None] is the overflow of [offset + length]; [Some None] is
    [false]. *)
Definition ReadBlock (id offset length : Z) (s : BlockStore) : option (option bytes) :=
  match ReadMeta id s, blocks_dir_ s !! BlockDataPath id with
  | Some meta, Some content =>
      let file_size := meta_size meta in
      if (offset <? 0) || (file_size <? offset) then Some None
      else if (0 <? length) && (2 ^ 63 <=? offset + length) then None
      else
        let length := if (length <=? 0) || (file_size <? offset + length) then file_size - offset
                      else length in
        if length =? 0 then Some (Some [])
        else
          let f := seekg (open_stream content) offset in
          let '(f', data) := stream_read f (Z.to_nat length) (replicate (Z.to_nat length) x00) in
          if negb (gcount f f' =? length) then Some None
          else if (offset =? 0) && (length =? file_size) && negb (crc32 data =? meta_crc32 meta)
          then Some None
          else Some (Some data)
  | _, _ => Some None
  end.

(** Removing what exists. *)
Definition DeleteBlock (id : Z) (s : BlockStore) : BlockStore * bool :=
  (mkBlockStore (delete (BlockMetaPath id) (delete (BlockDataPath id) (blocks_dir_ s))) (tmp_dir_ s), true).

Definition HasBlock (id : Z) (s : BlockStore) : bool :=
  bool_decide (is_Some (blocks_dir_ s !! BlockDataPath id)).

Definition GetBlockMeta (id : Z) (s : BlockStore) : option BlockMeta := ReadMeta id s.

(** The identifier in the name of a file of the directory. *)
Definition listed_id (name : bytes) : option Z :=
  if (5 <? length name)%nat && bool_decide (drop (length name - 5) name = str ".meta") then
    if (length name <? 12)%nat then None
    else stoull (take (length name - 11) (drop 6 name))
  else None.

Definition ListAllBlocks `{Iteration} (s : BlockStore) : list BlockMeta :=
  omap (λ name, id ← listed_id name; ReadMeta id s) (map fst (elements_of (blocks_dir_ s))).
End BlockStore.

(** * File names *)

(** An identifier of a block. *)
Definition block_id_ok (id : Z) : Prop := 0 <= id < 2 ^ 64.

Lemma format_06llu_inj a b : 0 <= a → 0 <= b → format_06llu a = format_06llu b → a = b.
Proof.
  intros Ha Hb E. destruct (format_06llu_digits a Ha) as (_ & Va & _).
  destruct (format_06llu_digits b Hb) as (_ & Vb & _). by rewrite <- Va, <- Vb, E.
Qed.

Lemma data_path_inj a b : block_id_ok a → block_id_ok b → BlockDataPath a = BlockDataPath b → a = b.
Proof.
  unfold block_id_ok, BlockDataPath. intros ? ? E. apply app_inv_head in E. apply app_inv_tail in E.
  apply format_06llu_inj; [lia|lia|done].
Qed.

Lemma meta_path_inj a b : block_id_ok a → block_id_ok b → BlockMetaPath a = BlockMetaPath b → a = b.
Proof.
  unfold block_id_ok, BlockMetaPath. intros ? ? E. apply app_inv_head in E. apply app_inv_tail in E.
  apply format_06llu_inj; [lia|lia|done].
Qed.

(** The last five bytes of a name. *)
Lemma data_path_ext id : drop (length (BlockDataPath id) - 5) (BlockDataPath id) ≠ str ".meta".
Proof.
  unfold BlockDataPath. rewrite (app_assoc (str "block_")). set (p := str "block_" ++ format_06llu id).
  assert (6 <= length p)%nat by (subst p; rewrite length_app; simpl; lia).
  rewrite length_app. change (length (str ".dat")) with 4%nat. rewrite drop_app_le by lia.
  intros E. apply (f_equal last) in E. change (str ".dat") with (str ".da" ++ [x74]) in E.
  rewrite app_assoc, last_snoc in E. discriminate.
Qed.

Lemma meta_path_ext id : drop (length (BlockMetaPath id) - 5) (BlockMetaPath id) = str ".meta".
Proof.
  unfold BlockMetaPath. rewrite app_assoc. rewrite length_app.
  replace (length (str "block_" ++ format_06llu id) + length (str ".meta") - 5)%nat
    with (length (str "block_" ++ format_06llu id)) by (simpl; lia).
  by rewrite drop_app_length.
Qed.

Lemma data_meta_ne a b : BlockDataPath a ≠ BlockMetaPath b.
Proof. intros E. apply (data_path_ext a). rewrite E. apply meta_path_ext. Qed.

Lemma listed_data id : listed_id (BlockDataPath id) = None.
Proof.
  unfold listed_id. rewrite (bool_decide_eq_false_2 (_ = str ".meta")) by apply data_path_ext.
  by rewrite andb_false_r.
Qed.

Lemma listed_meta id : block_id_ok id → listed_id (BlockMetaPath id) = Some id.
Proof.
  intros [Hlo Hhi]. destruct (format_06llu_digits id Hlo) as (Hd & Hv & Hl). unfold listed_id.
  assert (length (BlockMetaPath id) = 11 + length (format_06llu id))%nat as Hlen.
  { unfold BlockMetaPath. rewrite !length_app. simpl. lia. }
  rewrite bool_decide_eq_true_2 by apply meta_path_ext.
  destruct (Nat.ltb_spec 5 (length (BlockMetaPath id))); [|lia]. cbn [andb].
  destruct (Nat.ltb_spec (length (BlockMetaPath id)) 12); [lia|]. rewrite Hlen.
  replace (11 + length (format_06llu id) - 11)%nat with (length (format_06llu id)) by lia.
  unfold BlockMetaPath. rewrite drop_app_length' by done. rewrite take_app_length.
  unfold stoull. rewrite <- (app_nil_r (format_06llu id)).
  rewrite (extract_digits false 64); [by rewrite Hv|done| |done|by rewrite Hv].
  intros E. rewrite E in Hl. simpl in Hl. lia.
Qed.

(** * The metadata file *)

Definition meta_ok (m : BlockMeta) : Prop :=
  block_id_ok (meta_block_id m) ∧ 0 <= meta_size m < 2 ^ 63 ∧ 0 <= meta_crc32 m < 2 ^ 32 ∧
  0 <= meta_create_time m < 2 ^ 63.

Lemma dec_digits z :
  0 <= z → Forall (λ c, isdigit c = true) (dec z) ∧ dec z ≠ [] ∧ digits_val 0 (dec z) = z.
Proof.
  intros Hz. unfold dec. destruct (Z.ltb_spec z 0); [lia|].
  by destruct (to_string_digits z Hz) as (? & ? & ? & _).
Qed.

Lemma extract_dec (is_signed : bool) w z c t :
  0 <= z < 2 ^ (if is_signed then w - 1 else w) → isdigit c = false →
  extract is_signed w (dec z ++ c :: t) = Some (z, c :: t).
Proof.
  intros Hz Hc. destruct (dec_digits z) as (Hd & Hne & Hv); [lia|].
  rewrite (extract_digits is_signed w (dec z) (c :: t)); [by rewrite Hv|done|done| |rewrite Hv; lia].
  by intros c' t' [= <- <-].
Qed.

Lemma ReadMeta_text id m s :
  meta_ok m → blocks_dir_ s !! BlockMetaPath id = Some (meta_text m) → ReadMeta id s = Some m.
Proof.
  intros (Hi & Hz & Hc & Ht) Hs. unfold ReadMeta. rewrite Hs. cbn [mbind option_bind]. unfold meta_text.
  unfold block_id_ok in Hi.
  assert (∀ x, str " " ++ x = x20 :: x) as Hsp by done. rewrite !Hsp. rewrite (extract_dec false 64) by first [reflexivity | simpl; lia]. cbn [mbind option_bind].
  change (extract true 64 (x20 :: ?x)) with (extract true 64 x).
  rewrite (extract_dec true 64) by first [reflexivity | simpl; lia]. cbn [mbind option_bind].
  change (extract false 32 (x20 :: ?x)) with (extract false 32 x).
  rewrite (extract_dec false 32) by first [reflexivity | simpl; lia]. cbn [mbind option_bind].
  change (extract true 64 (x20 :: ?x)) with (extract true 64 x).
  rewrite (extract_dec true 64) by first [reflexivity | simpl; lia]. cbn [mbind option_bind]. by destruct m.
Qed.

(** A file cut short: a number that is there is whole, or nothing follows it. *)
Lemma extract_all_digits (is_signed : bool) w ds :
  Forall (λ c, isdigit c = true) ds → extract is_signed w ds = None ∨ ∃ v, extract is_signed w ds = Some (v, []).
Proof.
  intros Hds. destruct ds as [|c ds]; [by left|]. pose proof Hds as [Hc _]%Forall_cons.
  destruct (read_digits_app (c :: ds) [] 0 Hds) as [_ Hd]; [done|]. rewrite app_nil_r in Hd. unfold extract.
  cbn [skip_space]. rewrite isdigit_not_space by done. rewrite !bool_decide_eq_false_2 by (by apply digit_ne).
  rewrite Hc, Hd. destruct is_signed; (case_match; [right; by eexists|by left]).
Qed.

Lemma extract_cut (is_signed : bool) w z c t n :
  0 <= z < 2 ^ (if is_signed then w - 1 else w) → isdigit c = false →
  let r := extract is_signed w (take n (dec z ++ c :: t)) in
  r = None ∨ (∃ v, r = Some (v, [])) ∨ ∃ k, r = Some (z, c :: take k t).
Proof.
  intros Hz Hc r. destruct (dec_digits z) as (Hd & _ & _); [lia|]. unfold r. rewrite take_app.
  destruct (n - length (dec z))%nat as [|k] eqn:E.
  - rewrite app_nil_r. destruct (extract_all_digits is_signed w (take n (dec z))) as [->|[v ->]];
      [by apply Forall_take|by left|right; left; by exists v].
  - rewrite take_ge by lia. cbn [take]. right. right. exists k. by apply extract_dec.
Qed.

Lemma extract_space is_signed w t : extract is_signed w (x20 :: t) = extract is_signed w t.
Proof. done. Qed.

Lemma ReadMeta_cut id m s n :
  meta_ok m → blocks_dir_ s !! BlockMetaPath id = Some (take n (meta_text m)) →
  ReadMeta id s = None ∨ ∃ t, ReadMeta id s = Some (mkMeta (meta_block_id m) (meta_size m) (meta_crc32 m) t).
Proof.
  intros (Hi & Hz & Hc & Ht) Hs. unfold ReadMeta. rewrite Hs. cbn [mbind option_bind]. unfold meta_text.
  unfold block_id_ok in Hi. assert (∀ x, str " " ++ x = x20 :: x) as Hsp by done. rewrite !Hsp.
  destruct (extract_cut false 64 (meta_block_id m) x20 (dec (meta_size m) ++ x20 :: dec (meta_crc32 m) ++
    x20 :: dec (meta_create_time m) ++ [x0a]) n) as [->|[[v ->]|[k ->]]]; [done|done|by left|by left|].
  cbn [mbind option_bind]. rewrite extract_space.
  destruct (extract_cut true 64 (meta_size m) x20 (dec (meta_crc32 m) ++
    x20 :: dec (meta_create_time m) ++ [x0a]) k) as [->|[[v ->]|[k' ->]]]; [done|done|by left|by left|].
  cbn [mbind option_bind]. rewrite extract_space.
  destruct (extract_cut false 32 (meta_crc32 m) x20 (dec (meta_create_time m) ++ [x0a]) k')
    as [->|[[v ->]|[k'' ->]]]; [done|done|by left|by left|].
  cbn [mbind option_bind]. rewrite extract_space.
  destruct (extract true 64 (take k'' (dec (meta_create_time m) ++ [x0a]))) as [[t r]|]; [right; by exists t|by left].
Qed.

(** * A data node's store is a map from identifiers to data *)

(** [set_solver] without the section's hypothesis on the checksum. *)
Ltac elems := match goal with H : ∀ _, _ |- _ => clear H end; set_solver.

Section Refinement.
Context (crc32 : bytes → Z).
Context (crc32_range : ∀ d, 0 <= crc32 d < 2 ^ 32).

(** The files are those of the blocks of [m], each whole, and of blocks of [D], whose
    files are anything. *)
Record holds_but (D : gset Z) (m : gmap Z bytes) (s : BlockStore) : Prop := mkHolds {
  hb_data : ∀ id, block_id_ok id → id ∉ D → blocks_dir_ s !! BlockDataPath id = m !! id;
  hb_meta : ∀ id d, m !! id = Some d → ∃ now, 0 <= now < 2 ^ 63 ∧
    blocks_dir_ s !! BlockMetaPath id = Some (meta_text (mkMeta id (zlen d) (crc32 d) now));
  hb_no_meta : ∀ id, block_id_ok id → id ∉ D → m !! id = None → blocks_dir_ s !! BlockMetaPath id = None;
  hb_names : ∀ name, is_Some (blocks_dir_ s !! name) →
    ∃ id, block_id_ok id ∧ (name = BlockDataPath id ∨ name = BlockMetaPath id);
  hb_valid : ∀ id d, m !! id = Some d → block_id_ok id ∧ zlen d < 2 ^ 63 ∧ id ∉ D;
}.

(** The files are exactly those of the blocks of [m]. *)
Definition holds : gmap Z bytes → BlockStore → Prop := holds_but ∅.

Lemma h_data m s : holds m s → ∀ id, block_id_ok id → blocks_dir_ s !! BlockDataPath id = m !! id.
Proof. intros Hh id Hid. apply (hb_data _ _ _ Hh id Hid), not_elem_of_empty. Qed.

Lemma h_no_meta m s :
  holds m s → ∀ id, block_id_ok id → m !! id = None → blocks_dir_ s !! BlockMetaPath id = None.
Proof. intros Hh id Hid. apply (hb_no_meta _ _ _ Hh id Hid), not_elem_of_empty. Qed.

Lemma h_meta m s : holds m s → ∀ id d, m !! id = Some d → ∃ now, 0 <= now < 2 ^ 63 ∧
  blocks_dir_ s !! BlockMetaPath id = Some (meta_text (mkMeta id (zlen d) (crc32 d) now)).
Proof. apply hb_meta. Qed.

Lemma h_names m s : holds m s → ∀ name, is_Some (blocks_dir_ s !! name) →
  ∃ id, block_id_ok id ∧ (name = BlockDataPath id ∨ name = BlockMetaPath id).
Proof. apply hb_names. Qed.

Lemma h_valid m s : holds m s → ∀ id d, m !! id = Some d → block_id_ok id ∧ zlen d < 2 ^ 63.
Proof. intros Hh id d Hd. by destruct (hb_valid _ _ _ Hh id d Hd) as (? & ? & _). Qed.

Lemma empty_holds : holds ∅ (mkBlockStore ∅ ∅).
Proof.
  split; cbn [blocks_dir_]; [done|by intros id d []%lookup_empty_Some|done| |by intros id d []%lookup_empty_Some].
  by intros name [x []%lookup_empty_Some].
Qed.

(** What a data node does to its store; a write with what the disk answers. *)
Inductive BsOp :=
| OpWrite (io : WriteIo) (now id : Z) (data : bytes)
| OpDelete (id : Z)
| OpRestart.

Definition op_ok (op : BsOp) : Prop :=
  match op with
  | OpWrite _ now id data => block_id_ok id ∧ 0 <= now < 2 ^ 63 ∧ zlen data < 2 ^ 63
  | OpDelete id => block_id_ok id
  | OpRestart => True
  end.

(** An operation, and what it answers. *)
Definition bs_step (op : BsOp) (s : BlockStore) : BlockStore * bool :=
  match op with
  | OpWrite io now id data => WriteBlock crc32 io now id data s
  | OpDelete id => DeleteBlock id s
  | OpRestart => (BlockStore_new s, true)
  end.

Fixpoint bs_run (ops : list BsOp) (s : BlockStore) : BlockStore * list bool :=
  match ops with
  | [] => (s, [])
  | op :: ops =>
      let '(s, b) := bs_step op s in
      let '(s, bs) := bs_run ops s in
      (s, b :: bs)
  end.

(** The specification: the blocks that are whole, and those that are damaged until
    they are written whole or deleted.  A write that cannot open a file changes
    nothing; one that loses bytes on the way, or fails to rename, damages its block,
    and only the latter is answered with [false]. *)
Definition meta_of (now id : Z) (data : bytes) : BlockMeta := mkMeta id (zlen data) (crc32 data) now.

Definition map_step (op : BsOp) (st : gmap Z bytes * gset Z) : (gmap Z bytes * gset Z) * bool :=
  let '(m, D) := st in
  match op with
  | OpWrite io now id data =>
      if negb (io_tmp_opens io && io_meta_opens io) then ((m, D), false)
      else if negb (io_renames io) then ((delete id m, D ∪ {[id]}), false)
      else if complete (io_tmp io) data && complete (io_meta io) (meta_text (meta_of now id data))
      then ((<[id := data]> m, D ∖ {[id]}), true)
      else ((delete id m, D ∪ {[id]}), true)
  | OpDelete id => ((delete id m, D ∖ {[id]}), true)
  | OpRestart => ((m, D), true)
  end.

Fixpoint map_run (ops : list BsOp) (st : gmap Z bytes * gset Z) : (gmap Z bytes * gset Z) * list bool :=
  match ops with
  | [] => (st, [])
  | op :: ops =>
      let '(st, b) := map_step op st in
      let '(st, bs) := map_run ops st in
      (st, b :: bs)
  end.

(** The part of a block a read gives. *)
Definition read_spec (d : bytes) (offset length : Z) : option bytes :=
  if (offset <? 0) || (zlen d <? offset) then None
  else
    let n := if (length <=? 0) || (zlen d <? offset + length) then zlen d - offset else length in
    Some (take (Z.to_nat n) (drop (Z.to_nat offset) d)).

Lemma holds_but_meta D m s id d :
  holds_but D m s → m !! id = Some d →
  ∃ now, ReadMeta id s = Some (mkMeta id (zlen d) (crc32 d) now).
Proof using crc32_range.
  intros Hh Hd. destruct (hb_meta D m s Hh id d Hd) as (now & Hn & Hm).
  destruct (hb_valid D m s Hh id d Hd) as (Hid & Hz & _). exists now. apply ReadMeta_text; [|done].
  pose proof (zlen_nonneg d). split_and!; cbn; try done; apply crc32_range || lia.
Qed.

Lemma holds_meta m s id d :
  holds m s → m !! id = Some d →
  ∃ now, ReadMeta id s = Some (mkMeta id (zlen d) (crc32 d) now).
Proof using crc32_range. apply holds_but_meta. Qed.

(** A whole read of a file that is not what its metadata says. *)
Lemma read_mismatch (id : Z) (meta : BlockMeta) (data old : bytes) :
  meta_size meta = zlen data → meta_crc32 meta = crc32 data →
  zlen old < zlen data ∨ crc32 (take (length data) old) ≠ crc32 data →
  ∀ s, ReadMeta id s = Some meta → blocks_dir_ s !! BlockDataPath id = Some old →
  ReadBlock crc32 id 0 0 s = Some None.
Proof.
  intros Hsize Hcrc Hbad s Hmeta Hdat. unfold ReadBlock. rewrite Hmeta, Hdat, Hsize, Hcrc.
  assert (0 < zlen data) as Hpos.
  { destruct data; [|unfold zlen; cbn [length]; lia]. destruct Hbad as [Hlt|Hne]; [|done]. pose proof (zlen_nonneg old). unfold zlen in *. cbn in *. lia. }
  destruct (Z.ltb_spec (zlen data) 0); [lia|]. change (0 <? 0) with false. cbn [andb orb].
  change (0 <=? 0) with true. cbn [orb]. rewrite Z.sub_0_r.
  destruct (Z.eqb_spec (zlen data) 0); [lia|]. rewrite zlen_to_nat.
  change (seekg (open_stream old) 0) with (mkStream old 0 false). unfold stream_read, gcount.
  cbn [s_failed s_pos s_content Z.to_nat]. rewrite drop_0.
  destruct (Z.eqb_spec (0 + zlen (take (length data) old) - 0) (zlen data)) as [E|]; [|done].
  cbn [negb]. rewrite Z.eqb_refl. cbn [andb Z.eqb].
  assert (length data <= length old)%nat as Hle.
  { unfold zlen in E. rewrite length_take in E. lia. }
  rewrite (drop_ge (replicate _ _)) by (rewrite length_replicate, length_take; lia).
  rewrite app_nil_r. destruct Hbad as [Hlt|Hne]; [unfold zlen in Hlt; lia|].
  destruct (Z.eqb_spec (crc32 (take (length data) old)) (crc32 data)); [done|]. by rewrite Z.eqb_refl.
Qed.

(** A read of a file that is the block itself. *)
Lemma ReadBlock_data s id d now offset length :
  ReadMeta id s = Some (mkMeta id (zlen d) (crc32 d) now) → blocks_dir_ s !! BlockDataPath id = Some d →
  zlen d < 2 ^ 63 → offset + length < 2 ^ 63 →
  ReadBlock crc32 id offset length s = Some (read_spec d offset length).
Proof.
  intros Hm Hd Hz Hov. unfold ReadBlock. rewrite Hm, Hd. cbn [meta_size meta_crc32]. unfold read_spec.
  pose proof (zlen_nonneg d).
  destruct (Z.ltb_spec offset 0) as [|Ho]; [done|]. destruct (Z.ltb_spec (zlen d) offset) as [|Hf]; [done|].
  cbn [orb]. destruct (Z.leb_spec (2 ^ 63) (offset + length)); [lia|]. rewrite andb_false_r.
  set (n := if (length <=? 0) || (zlen d <? offset + length) then zlen d - offset else length).
  assert (0 <= n ∧ offset + n <= zlen d) as [Hn0 Hn].
  { subst n. destruct (Z.leb_spec length 0), (Z.ltb_spec (zlen d) (offset + length)); cbn [orb]; lia. }
  destruct (Z.eqb_spec n 0) as [->|Hne]; [done|].
  unfold seekg, open_stream. cbn [s_failed s_content].
  destruct (Z.ltb_spec offset (2 ^ 63)); [|lia]. unfold stream_read. cbn [s_failed s_pos s_content].
  set (got := take (Z.to_nat n) (drop (Z.to_nat offset) d)).
  assert (Datatypes.length got = Z.to_nat n) as Hg.
  { subst got. rewrite length_take, length_drop. unfold zlen in *. lia. }
  unfold gcount. cbn [s_pos]. replace (offset + zlen got - offset) with n by (unfold zlen; lia).
  rewrite Z.eqb_refl. cbn [negb]. rewrite (drop_ge (replicate _ _)) by (rewrite length_replicate; lia).
  rewrite app_nil_r. destruct (Z.eqb_spec offset 0) as [->|]; [|done].
  destruct (Z.eqb_spec n (zlen d)) as [->|]; [|done]. cbn [andb]. subst got.
  rewrite zlen_to_nat, drop_0, take_ge by lia. by rewrite Z.eqb_refl.
Qed.

Lemma holds_but_read D m s id offset length :
  holds_but D m s → block_id_ok id → id ∉ D → offset + length < 2 ^ 63 →
  ReadBlock crc32 id offset length s = Some (d ← m !! id; read_spec d offset length).
Proof using crc32_range.
  intros Hh Hid HD Hov. destruct (m !! id) as [d|] eqn:Hd; cbn [mbind option_bind].
  - destruct (holds_but_meta D m s id d Hh Hd) as (now & Hm). destruct (hb_valid D m s Hh id d Hd) as (_ & Hz & _).
    apply (ReadBlock_data s id d now); [done|by rewrite (hb_data D m s Hh)|done|done].
  - unfold ReadBlock. rewrite (hb_data D m s Hh id Hid HD), Hd. by destruct (ReadMeta id s).
Qed.

Lemma holds_read m s id offset length :
  holds m s → block_id_ok id → offset + length < 2 ^ 63 →
  ReadBlock crc32 id offset length s = Some (d ← m !! id; read_spec d offset length).
Proof using crc32_range. intros Hh Hid. apply (holds_but_read ∅); [done|done|apply not_elem_of_empty]. Qed.

Lemma write_good now id data s :
  WriteBlock crc32 all_good now id data s =
    (mkBlockStore
       (<[BlockDataPath id := data]>
          (<[BlockMetaPath id := meta_text (mkMeta id (zlen data) (crc32 data) now)]> (blocks_dir_ s)))
       (delete (BlockTmpPath id) (<[BlockTmpPath id := data]> (tmp_dir_ s))), true).
Proof.
  unfold WriteBlock, write_tmp, WriteMeta, rename_tmp. cbn [all_good io_tmp_opens io_tmp io_meta_opens
    io_meta io_renames negb blocks_dir_ tmp_dir_ written]. by rewrite lookup_insert_eq.
Qed.

(** What is not a file of block [id]. *)
Definition other_files (id : Z) (s s' : BlockStore) : Prop :=
  ∀ name, name ≠ BlockDataPath id → name ≠ BlockMetaPath id → blocks_dir_ s' !! name = blocks_dir_ s !! name.

Lemma other_data id i s s' :
  other_files id s s' → block_id_ok id → block_id_ok i → i ≠ id →
  blocks_dir_ s' !! BlockDataPath i = blocks_dir_ s !! BlockDataPath i.
Proof. intros Ho Hid Hi Hne. apply Ho; [by intros E%data_path_inj|apply data_meta_ne]. Qed.

Lemma other_meta id i s s' :
  other_files id s s' → block_id_ok id → block_id_ok i → i ≠ id →
  blocks_dir_ s' !! BlockMetaPath i = blocks_dir_ s !! BlockMetaPath i.
Proof. intros Ho Hid Hi Hne. apply Ho; [by intros E%eq_sym%data_meta_ne|by intros E%meta_path_inj]. Qed.

(** Whatever becomes of the files of one block, the others are as they were. *)
Lemma damaged_holds D m s s' id :
  holds_but D m s → block_id_ok id → other_files id s s' → holds_but (D ∪ {[id]}) (delete id m) s'.
Proof.
  intros Hh Hid Ho. split.
  - intros i Hi Hn. assert (i ≠ id ∧ i ∉ D) as [Hne HD] by elems.
    rewrite (other_data id i s s'), lookup_delete_ne by done. by apply (hb_data D m s).
  - intros i d [Hne Hd]%lookup_delete_Some. destruct (hb_meta D m s Hh i d Hd) as (now & Hn & Hm).
    exists now. split; [done|]. rewrite (other_meta id i s s'); [done..| |done]. by apply (hb_valid D m s Hh i d).
  - intros i Hi Hn. assert (i ≠ id ∧ i ∉ D) as [Hne HD] by elems.
    rewrite lookup_delete_ne by done. intros H0. rewrite (other_meta id i s s') by done. by apply (hb_no_meta D m s Hh).
  - intros name Hn. destruct (decide (name = BlockDataPath id)) as [->|H1]; [by exists id; auto|].
    destruct (decide (name = BlockMetaPath id)) as [->|H2]; [by exists id; auto|].
    rewrite Ho in Hn by done. by apply (hb_names D m s Hh).
  - intros i d [Hne Hd]%lookup_delete_Some. destruct (hb_valid D m s Hh i d Hd) as (? & ? & ?). split_and!; [done..|elems].
Qed.

(** The files of a block are again what they should be. *)
Lemma repaired_holds D m s id data now :
  holds_but (D ∪ {[id]}) (delete id m) s → block_id_ok id → 0 <= now < 2 ^ 63 → zlen data < 2 ^ 63 →
  blocks_dir_ s !! BlockDataPath id = Some data → blocks_dir_ s !! BlockMetaPath id = Some (meta_text (meta_of now id data)) →
  holds_but (D ∖ {[id]}) (<[id := data]> m) s.
Proof.
  intros Hh Hid Hnow Hz Hd Hm. split.
  - intros i Hi Hn. destruct (decide (i = id)) as [->|Hne]; [by rewrite lookup_insert_eq|].
    rewrite lookup_insert_ne by done. rewrite (hb_data _ _ _ Hh i Hi), lookup_delete_ne by elems. done.
  - intros i d. rewrite lookup_insert_Some. intros [[<- <-]|[Hne Hi]]; [by exists now|].
    apply (hb_meta _ _ _ Hh). by apply lookup_delete_Some.
  - intros i Hi Hn. rewrite lookup_insert_None. intros [H0 Hne]. apply (hb_no_meta _ _ _ Hh i Hi); [elems|].
    by rewrite lookup_delete_ne.
  - apply (hb_names _ _ _ Hh).
  - intros i d. rewrite lookup_insert_Some. intros [[<- <-]|[Hne Hi]]; [split_and!; [done..|elems]|].
    destruct (hb_valid _ _ _ Hh i d) as (? & ? & ?); [by apply lookup_delete_Some|]. split_and!; [done..|elems].
Qed.

Lemma gone_holds D m s id :
  holds_but (D ∪ {[id]}) (delete id m) s → block_id_ok id →
  blocks_dir_ s !! BlockDataPath id = None → blocks_dir_ s !! BlockMetaPath id = None →
  holds_but (D ∖ {[id]}) (delete id m) s.
Proof.
  intros Hh Hid Hd Hm. split.
  - intros i Hi Hn. destruct (decide (i = id)) as [->|Hne]; [by rewrite lookup_delete_eq|].
    rewrite (hb_data _ _ _ Hh i Hi); [done|elems].
  - apply (hb_meta _ _ _ Hh).
  - intros i Hi Hn H0. destruct (decide (i = id)) as [->|Hne]; [done|]. apply (hb_no_meta _ _ _ Hh i Hi); [elems|done].
  - apply (hb_names _ _ _ Hh).
  - intros i d Hi. destruct (hb_valid _ _ _ Hh i d Hi) as (? & ? & ?). split_and!; [done..|elems].
Qed.

(** Every way a write can go. *)
Lemma write_result io now id data s :
  let '(s', b) := WriteBlock crc32 io now id data s in
  other_files id s s' ∧ b = io_tmp_opens io && io_meta_opens io && io_renames io ∧
  (io_tmp_opens io && io_meta_opens io = false → blocks_dir_ s' = blocks_dir_ s) ∧
  (b = true → blocks_dir_ s' !! BlockDataPath id = Some (written (io_tmp io) data) ∧
    blocks_dir_ s' !! BlockMetaPath id = Some (written (io_meta io) (meta_text (meta_of now id data)))).
Proof.
  unfold WriteBlock, write_tmp, WriteMeta, rename_tmp. destruct io as [[] it [] im []];
    cbn [io_tmp_opens io_tmp io_meta_opens io_meta io_renames negb andb blocks_dir_ tmp_dir_ remove_tmp];
    rewrite ?lookup_insert_eq; cbn [negb blocks_dir_ tmp_dir_ remove_tmp]; split_and!; try done.
  - intros name Hd Hm. cbn. by rewrite !lookup_insert_ne by done.
  - intros _. rewrite ?lookup_insert_eq, lookup_insert_ne by apply data_meta_ne. by rewrite lookup_insert_eq.
  - intros name Hd Hm. cbn. by rewrite lookup_insert_ne by done.
Qed.

Lemma same_dir_holds D m s s' : holds_but D m s → blocks_dir_ s' = blocks_dir_ s → holds_but D m s'.
Proof. intros [] E. by split; rewrite ?E. Qed.

Lemma bs_step_holds op D m s :
  holds_but D m s → op_ok op →
  let '((m', D'), b) := map_step op (m, D) in
  let '(s', b') := bs_step op s in b' = b ∧ holds_but D' m' s'.
Proof.
  intros Hh Hop. destruct op as [io now id data|id|]; cbn [bs_step map_step op_ok] in *; [| |by split; [|destruct Hh; split]].
  - destruct Hop as (Hid & Hnow & Hz). pose proof (write_result io now id data s) as Hw.
    destruct (WriteBlock crc32 io now id data s) as [s' b]. destruct Hw as (Ho & -> & Hsame & Hgood).
    destruct (io_tmp_opens io && io_meta_opens io); cbn [negb andb]; [|by split; [|by apply (same_dir_holds D m s); [|apply Hsame]]].
    pose proof (damaged_holds D m s s' id Hh Hid Ho) as Hd.
    destruct (io_renames io); cbn [negb]; [|by split]. destruct (Hgood eq_refl) as [Hdat Hmeta].
    destruct (complete (io_tmp io) data) eqn:Ct; cbn [andb]; [|by split].
    destruct (complete (io_meta io) _) eqn:Cm; [|by split]. split; [done|].
    rewrite written_complete in Hdat, Hmeta by done. by apply (repaired_holds D m s' id data now).
  - split; [done|]. cbn [DeleteBlock fst]. apply gone_holds; [|done|..].
    + apply (damaged_holds D m s); [done|done|]. intros name Hd Hm. cbn. by rewrite !lookup_delete_ne.
    + cbn. rewrite lookup_delete_ne by (intros E; by apply eq_sym, data_meta_ne in E). by rewrite lookup_delete_eq.
    + cbn. by rewrite lookup_delete_eq.
Qed.

Lemma bs_run_holds ops D m s :
  holds_but D m s → Forall op_ok ops →
  let '((m', D'), expected) := map_run ops (m, D) in
  let '(s', answers) := bs_run ops s in answers = expected ∧ holds_but D' m' s'.
Proof.
  intros Hh Hops. revert D m s Hh. induction Hops as [|op ops Hop _ IH]; intros D m s Hh; [done|].
  cbn [bs_run map_run]. pose proof (bs_step_holds op D m s Hh Hop) as Hs.
  destruct (map_step op (m, D)) as [[m1 D1] b], (bs_step op s) as [s1 b']. destruct Hs as [-> Hh1].
  specialize (IH D1 m1 s1 Hh1). destruct (map_run ops (m1, D1)) as [[m2 D2] bs], (bs_run ops s1) as [s2 bs'].
  by destruct IH as [-> ?].
Qed.

(** ** Listing *)

Definition summary (b : BlockMeta) : Z * Z * Z := (meta_block_id b, meta_size b, meta_crc32 b).

(** A whole block is listed. *)
Lemma ListAllBlocks_whole `{Iteration} D m s id d :
  holds_but D m s → m !! id = Some d → (id, zlen d, crc32 d) ∈ map summary (ListAllBlocks s).
Proof using crc32_range.
  intros Hh Hd. destruct (holds_but_meta D m s id d Hh Hd) as (now & Hm).
  apply (list_elem_of_fmap_2 summary _ (mkMeta id (zlen d) (crc32 d) now)).
  apply list_elem_of_omap. exists (BlockMetaPath id). destruct (hb_meta D m s Hh id d Hd) as (t & _ & Ht).
  split; [by eapply (list_elem_of_fmap_2 fst _ (_, _)), elem_of_elements|].
  rewrite listed_meta by by apply (hb_valid D m s Hh id d). done.
Qed.

Lemma ListAllBlocks_elem `{Iteration} m s t :
  holds m s →
  t ∈ map summary (ListAllBlocks s) ↔ ∃ id d, m !! id = Some d ∧ t = (id, zlen d, crc32 d).
Proof using crc32_range.
  intros Hh. unfold ListAllBlocks. split.
  - intros (b & -> & Hb)%list_elem_of_fmap_1. apply list_elem_of_omap in Hb as (name & Hn & Hb).
    apply list_elem_of_fmap_1 in Hn as ([k v] & -> & Hn%elem_of_elements). cbn [fst] in Hb.
    destruct (h_names m s Hh k) as (id & Hid & [-> | ->]); [by rewrite Hn|by rewrite listed_data in Hb|].
    rewrite listed_meta in Hb by done. cbn [mbind option_bind] in Hb.
    destruct (m !! id) as [d|] eqn:Hd; [|by rewrite (h_no_meta m s Hh) in Hn].
    destruct (holds_meta m s id d Hh Hd) as (now & Hm). rewrite Hm in Hb. injection Hb as <-.
    exists id, d. done.
  - intros (id & d & Hd & ->). by apply (ListAllBlocks_whole ∅ m).
Qed.

Lemma ListAllBlocks_NoDup `{Iteration} m s : holds m s → NoDup (map summary (ListAllBlocks s)).
Proof using crc32_range.
  intros Hh. unfold ListAllBlocks. pose proof (NoDup_elements (blocks_dir_ s)) as Hnd.
  assert (∀ name, name ∈ map fst (elements_of (blocks_dir_ s)) → ∃ id, block_id_ok id ∧
    (name = BlockDataPath id ∨ name = BlockMetaPath id ∧ is_Some (m !! id))) as Hnames.
  { intros name ([k v] & -> & Hn%elem_of_elements)%list_elem_of_fmap_1. cbn [fst].
    destruct (h_names m s Hh k) as (id & Hid & [-> | ->]); [by rewrite Hn|by exists id; auto|].
    exists id. split; [done|]. right. split; [done|]. destruct (m !! id) eqn:Hd; [done|].
    by rewrite (h_no_meta m s Hh) in Hn. }
  induction (map fst (elements_of (blocks_dir_ s))) as [|name l IH]; [constructor|].
  apply NoDup_cons in Hnd as [Hn Hnd]. cbn [omap list_omap].
  assert (NoDup (map summary (omap (λ name, id ← listed_id name; ReadMeta id s) l))) as IH'.
  { apply IH; [done|]. intros x Hx. apply Hnames. by apply list_elem_of_further. }
  destruct (Hnames name) as (id & Hid & [-> | [-> [d Hd]]]); [apply list_elem_of_here|by rewrite listed_data|].
  rewrite listed_meta by done. cbn [mbind option_bind].
  destruct (holds_meta m s id d Hh Hd) as (now & ->). cbn [map]. apply NoDup_cons. split; [|done].
  intros (b & Hb & Hin)%list_elem_of_fmap_1. apply list_elem_of_omap in Hin as (k & Hk & Hb').
  destruct (Hnames k) as (i & Hi & [-> | [-> [e He]]]); [by apply list_elem_of_further|by rewrite listed_data in Hb'|].
  rewrite listed_meta in Hb' by done. cbn [mbind option_bind] in Hb'.
  destruct (holds_meta m s i e Hh He) as (now' & Hm'). rewrite Hm' in Hb'. injection Hb' as <-.
  injection Hb as -> _. done.
Qed.

Lemma ListAllBlocks_perm `{Iteration} m s :
  holds m s →
  map summary (ListAllBlocks s) ≡ₚ map (λ x, (fst x, zlen (snd x), crc32 (snd x))) (map_to_list m).
Proof using crc32_range.
  intros Hh. apply NoDup_Permutation; [by apply (ListAllBlocks_NoDup m)| |].
  - apply (NoDup_fmap_1 (λ t, fst (fst t))). rewrite <- list_fmap_compose. apply NoDup_fst_map_to_list.
  - intros t. rewrite (ListAllBlocks_elem m s t Hh). split.
    + intros (id & d & Hd & ->).
      apply (list_elem_of_fmap_2 (λ x, (fst x, zlen (snd x), crc32 (snd x))) _ (id, d)).
      by apply elem_of_map_to_list.
    + intros ([id d] & -> & Hin%elem_of_map_to_list)%list_elem_of_fmap_1. by exists id, d.
Qed.


(** The damage of a write cut short: it is acknowledged, and the block cannot be
    read. *)
Theorem short_write_acknowledged now id data n s :
  op_ok (OpWrite all_good now id data) → (n < length data)%nat →
  let '(s', answer) := WriteBlock crc32 (mkWriteIo true (IoShort n) true IoOk true) now id data s in
  answer = true ∧ ReadBlock crc32 id 0 0 s' = Some None.
Proof using crc32_range.
  intros (Hid & Hnow & Hz) Hn. pose proof (write_result (mkWriteIo true (IoShort n) true IoOk true) now id data s) as Hw.
  destruct (WriteBlock _ _ _ _ _ _) as [s' b]. destruct Hw as (_ & -> & _ & Hgood). destruct (Hgood eq_refl) as [Hd Hm].
  split; [done|]. pose proof (zlen_nonneg data).
  apply (read_mismatch id (meta_of now id data) data (take n data)); [done|done| | |done].
  - left. unfold zlen. rewrite length_take. lia.
  - apply ReadMeta_text; [|done]. split_and!; cbn; try done; apply crc32_range || lia.
Qed.

(** ** Crashes inside a write *)

(** The process dies in [WriteBlock] while the temporary file is written, or while the
    metadata file is, which is truncated and written in place ([n] bytes of it are
    there, all of them if the process dies just before the rename), and a new one
    starts. *)
Definition crash_before_meta (id : Z) (data : bytes) (io : io_result) (s : BlockStore) : BlockStore :=
  BlockStore_new (fst (write_tmp true io id data s)).

Definition crash_in_meta (n : nat) (now id : Z) (data : bytes) (s : BlockStore) : BlockStore :=
  let s := fst (write_tmp true IoOk id data s) in
  BlockStore_new (fst (WriteMeta true (IoShort n) id (meta_of now id data) s)).

(** C32: what a crash in the middle of [WriteBlock] costs.  Until the metadata file
    is opened, nothing.  From then to the rename no other block suffers, however much
    of the metadata is there; but a new block cannot be read, and is listed, and so
    reported to the name node, once its metadata is whole; and a block that was being
    overwritten loses its old contents too, at once while the metadata file is empty,
    and in any case unless they begin with data of the new size and checksum. *)
Theorem WriteBlock_crash `{Iteration} m s now id data n :
  holds m s → op_ok (OpWrite all_good now id data) →
  (∀ io, holds m (crash_before_meta id data io s)) ∧
  let s' := crash_in_meta n now id data s in
  (∀ i offset length, block_id_ok i → i ≠ id → offset + length < 2 ^ 63 →
    ReadBlock crc32 i offset length s' = Some (d ← m !! i; read_spec d offset length)) ∧
  (m !! id = None → HasBlock id s' = false ∧ ReadBlock crc32 id 0 0 s' = Some None) ∧
  (n = 0%nat → ∀ offset length, ReadBlock crc32 id offset length s' = Some None) ∧
  (∀ old, m !! id = Some old →
    (zlen old < zlen data ∨ crc32 (take (length data) old) ≠ crc32 data) →
    ReadBlock crc32 id 0 0 s' = Some None) ∧
  ((length (meta_text (meta_of now id data)) <= n)%nat →
    (id, zlen data, crc32 data) ∈ map summary (ListAllBlocks s')).
Proof using crc32_range.
  intros Hh (Hid & Hnow & Hz). split; [intros io; by destruct Hh|]. intros s'.
  assert (blocks_dir_ s' = <[BlockMetaPath id := take n (meta_text (meta_of now id data))]> (blocks_dir_ s)) as Hb by done.
  assert (blocks_dir_ s' !! BlockMetaPath id = Some (take n (meta_text (meta_of now id data)))) as Hm
    by (rewrite Hb; by rewrite lookup_insert_eq).
  assert (meta_ok (meta_of now id data)) as Hmeta.
  { pose proof (zlen_nonneg data). split_and!; cbn; try done; apply crc32_range || lia. }
  assert (blocks_dir_ s' !! BlockDataPath id = m !! id) as Hdat.
  { rewrite Hb, lookup_insert_ne by by intros E%eq_sym%data_meta_ne. by apply (h_data m s Hh). }
  split_and!.
  - intros i offset length Hi Hne' Hov. assert (m !! i = delete id m !! i) as -> by by rewrite lookup_delete_ne.
    apply (holds_but_read (∅ ∪ {[id]})); [apply (damaged_holds ∅ m s); [done..|]|done|elems|done].
    intros name H1 H2. rewrite Hb. by rewrite lookup_insert_ne.
  - intros H0. unfold HasBlock, ReadBlock. rewrite Hdat, H0. by destruct (ReadMeta id s').
  - intros -> offset length. unfold ReadBlock, ReadMeta. by rewrite Hm.
  - intros old Hold Hbad. destruct (ReadMeta_cut id _ s' n Hmeta Hm) as [E|[t E]].
    + unfold ReadBlock. by rewrite E.
    + by eapply (read_mismatch id _ data old); [| |exact Hbad|exact E|rewrite Hdat].
  - intros Hn. rewrite take_ge in Hm by done. pose proof (ReadMeta_text id _ s' Hmeta Hm) as E.
    apply (list_elem_of_fmap_2 summary _ (meta_of now id data)). apply list_elem_of_omap. exists (BlockMetaPath id).
    split; [by eapply (list_elem_of_fmap_2 fst _ (_, _)), elem_of_elements|]. by rewrite listed_meta.
Qed.
End Refinement.

(** * A concrete checksum *)

Definition sum_crc (d : bytes) : Z := foldl (λ a c, (a + byte.unsigned c) mod 2 ^ 32) 0 d.

Lemma sum_crc_range d : 0 <= sum_crc d < 2 ^ 32.
Proof.
  unfold sum_crc. assert (∀ a, 0 <= a < 2 ^ 32 →
    0 <= foldl (λ a c, (a + byte.unsigned c) mod 2 ^ 32) a d < 2 ^ 32) as H; [|by apply H].
  induction d as [|c d IH]; intros a Ha; [done|]. cbn [foldl]. apply IH.
  by apply Z.mod_pos_bound.
Qed.

(** The third write loses its last byte, the fourth cannot open its file. *)
Definition demo_history : list BsOp :=
  [OpWrite all_good 5 1 (str "abc"); OpWrite all_good 6 2 (str "hello"); OpRestart; OpDelete 1;
   OpWrite (mkWriteIo true (IoShort 2) true IoOk true) 7 3 (str "bye");
   OpWrite (mkWriteIo false IoOk true IoOk true) 8 2 (str "gone")].


Lemma short_write_acknowledged_witness :
  let '(s', answer) := WriteBlock sum_crc (mkWriteIo true (IoShort 2) true IoOk true) 7 3 (str "bye") (mkBlockStore ∅ ∅) in
  answer = true ∧ ReadBlock sum_crc 3 0 0 s' = Some None.
Proof. apply (short_write_acknowledged sum_crc sum_crc_range 7 3 (str "bye") 2); [by vm_compute|by apply Nat.ltb_lt]. Defined.

(** Block 2, written once, is being overwritten; the metadata file is cut. *)
Definition demo_once : BlockStore := fst (bs_run sum_crc [OpWrite all_good 6 2 (str "hello")] (mkBlockStore ∅ ∅)).

Lemma demo_once_holds : holds sum_crc {[2 := str "hello"]} demo_once.
Proof.
  destruct (bs_run_holds sum_crc [OpWrite all_good 6 2 (str "hello")] ∅ ∅ _ (empty_holds sum_crc)) as [_ H].
  - apply Forall_cons. split; [by vm_compute|]. apply Forall_nil_2.
  - exact H.
Qed.

Lemma WriteBlock_crash_witness :
  let m : gmap Z bytes := {[2 := str "hello"]} in
  (∀ io, holds sum_crc m (crash_before_meta 2 (str "bye") io demo_once)) ∧
  let s' := crash_in_meta sum_crc 3 7 2 (str "bye") demo_once in
  (∀ i offset length, block_id_ok i → i ≠ 2 → offset + length < 2 ^ 63 →
    ReadBlock sum_crc i offset length s' = Some (d ← m !! i; read_spec d offset length)) ∧
  (m !! 2 = None → HasBlock 2 s' = false ∧ ReadBlock sum_crc 2 0 0 s' = Some None) ∧
  (3%nat = 0%nat → ∀ offset length, ReadBlock sum_crc 2 offset length s' = Some None) ∧
  (∀ old, m !! 2 = Some old →
    (zlen old < zlen (str "bye") ∨ sum_crc (take (length (str "bye")) old) ≠ sum_crc (str "bye")) →
    ReadBlock sum_crc 2 0 0 s' = Some None) ∧
  ((length (meta_text (meta_of sum_crc 7 2 (str "bye"))) <= 3)%nat →
    (2, zlen (str "bye"), sum_crc (str "bye")) ∈ map summary (ListAllBlocks s')).
Proof.
  apply (WriteBlock_crash sum_crc sum_crc_range {[2 := str "hello"]} demo_once 7 2 (str "bye") 3 demo_once_holds).
  by vm_compute.
Defined.
