(* ===== verification/DataNode.v ===== *)
(** The data node: src/datanode/datanode_pipeline_handler.cc,
    datanode_datanode_server.cc and datanode_datanode_client.cc, with the messages
    of src/proto/datanode.proto.

    A connection to another node (connect, [SendMsg], [RecvMsg], close) is one
    call of a parameter on the state of the rest of the system; it answers with
    the bytes of a reply or with nothing.  The protobuf codecs are parameters. *)
From S2P Require Import Prelude Wal Metadata EditLog NameNode BlockStore.

(** * Messages *)

Record WriteBlockRequest := mkWriteReq {
  wb_block_id : Z; wb_data : bytes; wb_pipeline : list bytes }.
Record WriteBlockResponse := mkWriteResp { wr_success : bool; wr_error_message : bytes }.
Record ReadBlockRequest := mkReadReq { rd_block_id : Z; rd_offset : Z; rd_length : Z }.
Record ReadBlockResponse := mkReadResp { rr_success : bool; rr_data : bytes }.

Inductive DnOpType := WRITE_BLOCK | READ_BLOCK | DELETE_BLOCK | OTHER_DN_OP (v : Z).

Record DataNodeRequest := mkDnReq {
  dq_op : DnOpType; dq_request_id : Z;
  dq_write_block : WriteBlockRequest; dq_read_block : ReadBlockRequest; dq_delete_block : Z }.

Record DataNodeResponse := mkDnResp {
  dp_success : bool; dp_error_message : bytes; dp_request_id : Z;
  dp_write_block : option WriteBlockResponse; dp_read_block : option ReadBlockResponse }.

Definition no_write : WriteBlockRequest := mkWriteReq 0 [] [].
Definition no_read : ReadBlockRequest := mkReadReq 0 0 0.

Definition write_request (id : Z) (w : WriteBlockRequest) : DataNodeRequest :=
  mkDnReq WRITE_BLOCK id w no_read 0.
Definition read_request (id : Z) (r : ReadBlockRequest) : DataNodeRequest :=
  mkDnReq READ_BLOCK id no_write r 0.

(** [rfind(':')], [substr] and [stoi] of an address: [None] is the exception,
    [Some None] an address without a colon. *)
Definition split_address (addr : bytes) : option (option (bytes * Z)) :=
  match rfind x3a addr with
  | None => Some None
  | Some colon =>
      port ← stoi (drop (S colon) addr);
      Some (Some (take colon addr, port))
  end.

Section DataNode.
Context {E : Type}.
Context (crc32 : bytes → Z).
Context (ser_req : DataNodeRequest → option bytes) (par_req : bytes → option DataNodeRequest).
Context (ser_resp : DataNodeResponse → option bytes) (par_resp : bytes → option DataNodeResponse).

(** One connection to host and port: the reply, if the exchange succeeds. *)
Context (call : bytes → Z → bytes → E → E * option bytes).

(** * PipelineHandler *)

Definition ForwardToNext (next_node : bytes) (req : WriteBlockRequest) (e : E) : option (E * bool) :=
  addr ← split_address next_node;
  match addr with
  | None => Some (e, false)
  | Some (host, port) =>
      match ser_req (write_request (wb_block_id req) req) with
      | None => Some (e, false)
      | Some data =>
          let '(e, reply) := call host (port mod 2 ^ 16) data e in
          Some (e, match reply ≫= par_resp with Some resp => dp_success resp | None => false end)
      end
  end.

(** [HandlerWrite]: the branch on the result of the local write is taken as the
    code has it. *)
Definition HandlerWrite (io : WriteIo) (now : Z) (req : WriteBlockRequest) (w : BlockStore * E) :
    option ((BlockStore * E) * WriteBlockResponse) :=
  let '(s, e) := w in
  let '(s, ok) := WriteBlock crc32 io now (wb_block_id req) (wb_data req) s in
  if ok then Some ((s, e), mkWriteResp false (str "Failed to write block to disk"))
  else
    match wb_pipeline req with
    | [] => Some ((s, e), mkWriteResp true [])
    | next_node :: rest =>
        '(e, ok) ← ForwardToNext next_node (mkWriteReq (wb_block_id req) (wb_data req) rest) e;
        if negb ok then Some ((s, e), mkWriteResp false (str "Failed to forward to " ++ next_node))
        else Some ((s, e), mkWriteResp true [])
    end.

(** * DataNodeServer *)

Definition HandleWriteBlock (io : WriteIo) (now : Z) (req : WriteBlockRequest) (w : BlockStore * E) :
    option ((BlockStore * E) * DataNodeResponse) :=
  '(w, r) ← HandlerWrite io now req w;
  Some (w, mkDnResp (wr_success r) (wr_error_message r) 0 (Some r) None).

Definition HandleReadBlock (req : ReadBlockRequest) (w : BlockStore * E) : option DataNodeResponse :=
  r ← ReadBlock crc32 (rd_block_id req) (rd_offset req) (rd_length req) (fst w);
  match r with
  | Some data => Some (mkDnResp true [] 0 None (Some (mkReadResp true data)))
  | None => Some (mkDnResp false (str "Block not found or read error") 0 None None)
  end.

Definition HandleDeleteBlock (id : Z) (w : BlockStore * E) : (BlockStore * E) * DataNodeResponse :=
  let '(s, ok) := BlockStore.DeleteBlock id (fst w) in
  ((s, snd w), mkDnResp ok [] 0 None None).

Definition set_dn_request_id (i : Z) (r : DataNodeResponse) : DataNodeResponse :=
  mkDnResp (dp_success r) (dp_error_message r) i (dp_write_block r) (dp_read_block r).

Definition serve_dn (io : WriteIo) (now : Z) (req : DataNodeRequest) (w : BlockStore * E) :
    option ((BlockStore * E) * DataNodeResponse) :=
  match dq_op req with
  | WRITE_BLOCK => HandleWriteBlock io now (dq_write_block req) w
  | READ_BLOCK => r ← HandleReadBlock (dq_read_block req) w; Some (w, r)
  | DELETE_BLOCK => Some (HandleDeleteBlock (dq_delete_block req) w)
  | OTHER_DN_OP _ => Some (w, mkDnResp false (str "Unknown op") 0 None None)
  end.

(** [HandleConnection] on the bytes [RecvMsg] gave: the bytes handed to [SendMsg]. *)
Definition HandleConnection (io : WriteIo) (now : Z) (data : bytes) (w : BlockStore * E) :
    option ((BlockStore * E) * option bytes) :=
  match par_req data with
  | None => Some (w, None)
  | Some req =>
      '(w, resp) ← serve_dn io now req w;
      Some (w, ser_resp (set_dn_request_id (dq_request_id req) resp))
  end.

(** * DataNodeClient *)

Context `{Iteration}.
Context (ser_nn : NameNodeRequest → bytes) (par_nn : bytes → option NameNodeResponse).

(** The connection to the name node. *)
Context (call_nn : bytes → E → E * option bytes).

(** [GetFreeSpace]: what [statvfs] says. *)
Context (free_space : E → Z).

Definition SendToNameNode (req : NameNodeRequest) (e : E) : E * option NameNodeResponse :=
  let '(e, reply) := call_nn (ser_nn req) e in
  (e, reply ≫= par_nn).

(** [SendToNameNode(req, &resp) && resp.success()]. *)
Definition accepted (r : E * option NameNodeResponse) : E * bool :=
  (fst r, match snd r with Some resp => resp_success resp | None => false end).

Definition blank_request : NameNodeRequest :=
  mkRequest CREATE_FILE 0 [] [] [] [] [] (mkRegister [] [] 0 0) (mkHeartbeat [] 0 0 0) (mkReport [] []).

Definition register_request (datanode_id : bytes) (space : Z) : option NameNodeRequest :=
  addr ← split_address datanode_id;
  let '(host, port) := default ([], 0) addr in
  Some (mkRequest REGISTER_DN 1 [] [] [] [] [] (mkRegister datanode_id host port space)
    (req_heartbeat blank_request) (req_block_report blank_request)).

Definition RegisterSelf (datanode_id : bytes) (e : E) : option (E * bool) :=
  req ← register_request datanode_id (free_space e);
  Some (accepted (SendToNameNode req e)).

Definition report_request (datanode_id : bytes) (s : BlockStore) : NameNodeRequest :=
  mkRequest BLOCK_REPORT 2 [] [] [] [] [] (req_register_dn blank_request) (req_heartbeat blank_request)
    (mkReport datanode_id
       (map (λ b, mkReportItem (meta_block_id b) (meta_size b) (meta_crc32 b)) (ListAllBlocks s))).

Definition SendBlockReport (datanode_id : bytes) (s : BlockStore) (e : E) : E * bool :=
  accepted (SendToNameNode (report_request datanode_id s) e).

Definition SendHeartbeat (datanode_id : bytes) (s : BlockStore) (e : E) : E * bool :=
  accepted (SendToNameNode
    (mkRequest HEARTBEAT 3 [] [] [] [] [] (req_register_dn blank_request)
       (mkHeartbeat datanode_id 0 (free_space e) (int32 (zlen (ListAllBlocks s))))
       (req_block_report blank_request)) e).

(** [Start]: a failed block report is not fatal. *)
Definition DataNodeClient_Start (datanode_id : bytes) (s : BlockStore) (e : E) : option (E * bool) :=
  '(e, ok) ← RegisterSelf datanode_id e;
  if negb ok then Some (e, false)
  else Some (fst (SendBlockReport datanode_id s e), true).
End DataNode.

(** * A write that fails leaves the data file alone *)

Lemma WriteBlock_false crc32 io now id data s s' :
  WriteBlock crc32 io now id data s = (s', false) →
  ∀ i, blocks_dir_ s' !! BlockDataPath i = blocks_dir_ s !! BlockDataPath i.
Proof.
  unfold WriteBlock, write_tmp. destruct (io_tmp_opens io); cbn [negb]; [|by intros [= <-]].
  unfold WriteMeta. destruct (io_meta_opens io); cbn [negb]; [|by intros [= <-]].
  unfold rename_tmp. cbn [tmp_dir_ blocks_dir_]. rewrite lookup_insert_eq.
  destruct (io_renames io); cbn [negb]; [done|]. intros [= <-] i. cbn [remove_tmp blocks_dir_].
  by rewrite lookup_insert_ne by by intros E%eq_sym%data_meta_ne.
Qed.

(** * A network of data nodes *)

Abbreviation Network := (gmap (bytes * Z) BlockStore).

Section Network.
Context (crc32 : bytes → Z).
Context (ser_req : DataNodeRequest → option bytes) (par_req : bytes → option DataNodeRequest).
Context (ser_resp : DataNodeResponse → option bytes) (par_resp : bytes → option DataNodeResponse).

(** How the disk of each node behaves, and the time. *)
Context (disk : bytes * Z → WriteIo) (now : Z).

(** A connection to a node of the network, which serves it and may connect to
    others meanwhile; [fuel] bounds the depth of such calls.  A node that dies
    gives no reply. *)
Fixpoint net_call (fuel : nat) (host : bytes) (port : Z) (data : bytes) (e : Network) :
    Network * option bytes :=
  match fuel with
  | O => (e, None)
  | S fuel =>
      match e !! (host, port) with
      | None => (e, None)
      | Some s =>
          match HandleConnection crc32 ser_req par_req ser_resp par_resp (net_call fuel)
                  (disk (host, port)) now data (s, delete (host, port) e) with
          | Some (s', e', reply) => (<[(host, port) := s']> e', reply)
          | None => (e, None)
          end
      end
  end.

(** No node's file of the block changed. *)
Definition same_data (id : Z) (e e' : Network) : Prop :=
  ∀ a s, e !! a = Some s →
    ∃ s', e' !! a = Some s' ∧ blocks_dir_ s' !! BlockDataPath id = blocks_dir_ s !! BlockDataPath id.

Lemma same_data_refl id e : same_data id e e.
Proof. intros a s Hs. by exists s. Qed.

Lemma same_data_insert id a s s' e e' :
  e !! a = Some s → blocks_dir_ s' !! BlockDataPath id = blocks_dir_ s !! BlockDataPath id →
  same_data id (delete a e) e' → same_data id e (<[a := s']> e').
Proof.
  intros Ha Hs He b t Hb. destruct (decide (b = a)) as [->|Hne].
  - exists s'. rewrite lookup_insert_eq. split; [done|]. congruence.
  - destruct (He b t) as (t' & Ht' & Heq); [by rewrite lookup_delete_ne|].
    exists t'. by rewrite lookup_insert_ne.
Qed.

Context (par_ser_req : ∀ r d, ser_req r = Some d → par_req d = Some r).
Context (par_ser_resp : ∀ r d, ser_resp r = Some d → par_resp d = Some r).

(** Every write that is answered with success anywhere. *)
Lemma net_call_success fuel host port data e e' reply req resp :
  net_call fuel host port data e = (e', Some reply) → par_req data = Some req →
  dq_op req = WRITE_BLOCK → par_resp reply = Some resp → dp_success resp = true →
  same_data (wb_block_id (dq_write_block req)) e e'.
Proof using par_ser_req par_ser_resp.
  revert host port data e e' reply req resp.
  induction fuel as [|fuel IH]; intros host port data e e' reply req resp Hc Hreq Hop Hresp Hok; [done|].
  cbn [net_call] in Hc. destruct (e !! (host, port)) as [s|] eqn:Hs; [|done].
  unfold HandleConnection in Hc. rewrite Hreq in Hc. unfold serve_dn in Hc. rewrite Hop in Hc.
  unfold HandleWriteBlock, HandlerWrite in Hc. set (w := dq_write_block req) in *.
  destruct (WriteBlock crc32 (disk (host, port)) now (wb_block_id w) (wb_data w) s) as [s1 ok] eqn:Hw.
  destruct ok; cbn [mbind option_bind] in Hc.
  { injection Hc as <- Hr. apply par_ser_resp in Hr. rewrite Hresp in Hr. injection Hr as ->. done. }
  pose proof (WriteBlock_false _ _ _ _ _ _ _ Hw (wb_block_id w)) as Hs1.
  destruct (wb_pipeline w) as [|next rest] eqn:Hp.
  { cbn [mbind option_bind] in Hc. injection Hc as <- _.
    apply (same_data_insert _ _ s); [done|done|apply same_data_refl]. }
  unfold ForwardToNext in Hc. destruct (split_address next) as [[[h p]|]|]; cbn [mbind option_bind] in Hc; [| |done].
  2:{ cbn [negb] in Hc. injection Hc as <- Hr. apply par_ser_resp in Hr. rewrite Hresp in Hr.
      injection Hr as ->. done. }
  cbn [wb_block_id] in Hc. set (fwd := mkWriteReq (wb_block_id w) (wb_data w) rest) in *.
  destruct (ser_req (write_request (wb_block_id w) fwd)) as [d|] eqn:Hd; cbn [mbind option_bind] in Hc; cycle 1.
  { cbn [negb] in Hc. injection Hc as <- Hr. apply par_ser_resp in Hr. rewrite Hresp in Hr.
    injection Hr as ->. done. }
  destruct (net_call fuel h (p mod 2 ^ 16) d (delete (host, port) e)) as [e1 r1] eqn:Hc1.
  cbn [mbind option_bind] in Hc.
  destruct (r1 ≫= par_resp) as [resp1|] eqn:Hr1; cbn [mbind option_bind] in Hc; cycle 1.
  { cbn [negb] in Hc. injection Hc as <- Hr. apply par_ser_resp in Hr. rewrite Hresp in Hr.
    injection Hr as ->. done. }
  destruct (dp_success resp1) eqn:Hok1; cbn [negb mbind option_bind] in Hc; cycle 1.
  { injection Hc as <- Hr. apply par_ser_resp in Hr. rewrite Hresp in Hr. injection Hr as ->. done. }
  injection Hc as <- _. apply (same_data_insert _ _ s); [done|done|].
  destruct r1 as [r1|]; [|done]. cbn [mbind option_bind] in Hr1.
  by apply (IH h (p mod 2 ^ 16) d (delete (host, port) e) e1 r1 (write_request (wb_block_id w) fwd) resp1);
    [|apply par_ser_req|..].
Qed.

(** A write to a node whose disk is in order. *)
Lemma net_call_good fuel host port data e e' reply req resp :
  disk (host, port) = all_good → par_req data = Some req → dq_op req = WRITE_BLOCK →
  net_call (S fuel) host port data e = (e', Some reply) → par_resp reply = Some resp →
  dp_success resp = false ∧ dp_error_message resp = str "Failed to write block to disk" ∧
  delete (host, port) e' = delete (host, port) e ∧
  ∃ s', e' !! (host, port) = Some s' ∧
    blocks_dir_ s' !! BlockDataPath (wb_block_id (dq_write_block req)) =
      Some (wb_data (dq_write_block req)).
Proof using par_ser_resp.
  intros Hdisk Hreq Hop Hc Hresp. cbn [net_call] in Hc. destruct (e !! (host, port)) as [s|]; [|done].
  unfold HandleConnection in Hc. rewrite Hreq in Hc. unfold serve_dn in Hc. rewrite Hop in Hc.
  unfold HandleWriteBlock, HandlerWrite in Hc. rewrite Hdisk, write_good in Hc.
  cbn [mbind option_bind] in Hc. injection Hc as <- Hr. apply par_ser_resp in Hr.
  rewrite Hresp in Hr. injection Hr as ->. split; [done|]. split; [done|]. split.
  - rewrite delete_insert_eq. by rewrite delete_delete_eq.
  - eexists. rewrite lookup_insert_eq. split; [done|]. cbn [blocks_dir_]. by rewrite lookup_insert_eq.
Qed.

(** C12: the test of the local write in [HandlerWrite] is the wrong way round.  A
    write that some node of the network answers with success left no trace: not
    one node of the pipeline stored the block.  And a node whose disk is in order
    stores the block, answers with failure, and does not pass it on. *)
Theorem acknowledged_write_stores_nothing fuel host port data e e' reply req resp s :
  par_req data = Some req → dq_op req = WRITE_BLOCK → e !! (host, port) = Some s →
  net_call (S fuel) host port data e = (e', Some reply) → par_resp reply = Some resp →
  (dp_success resp = true → same_data (wb_block_id (dq_write_block req)) e e') ∧
  (disk (host, port) = all_good →
    dp_success resp = false ∧ dp_error_message resp = str "Failed to write block to disk" ∧
    delete (host, port) e' = delete (host, port) e ∧
    ∃ s', e' !! (host, port) = Some s' ∧
      blocks_dir_ s' !! BlockDataPath (wb_block_id (dq_write_block req)) =
        Some (wb_data (dq_write_block req))).
Proof using par_ser_req par_ser_resp.
  intros Hreq Hop Hs Hc Hresp. split.
  - intros Hok. by apply (net_call_success (S fuel) host port data e e' reply req resp).
  - intros Hdisk. by apply (net_call_good fuel host port data e e' reply req resp).
Qed.
End Network.

(** * A data node joins the name node *)

Lemma report_block_at dn m item :
  let old := default default_block (blocks_ m !! br_block_id item) in
  ∃ locs, blocks_ (report_block dn m item) !! br_block_id item =
      Some (mkBlock (br_block_id item)
        (if (block_size old =? 0) && (0 <? br_size item) then br_size item else block_size old) locs) ∧
    dn ∈ locs ∧ block_locations old ⊆ locs.
Proof.
  cbn zeta. unfold report_block, UpdateBlockLocation, GetBlock, UpdateBlock. cbn [set_blocks blocks_].
  rewrite lookup_insert_eq. cbn [block_size block_id block_locations].
  set (old := default default_block (blocks_ m !! br_block_id item)).
  set (locs := if bool_decide (dn ∈ block_locations old) then _ else _).
  exists locs. split; [|split].
  - destruct ((block_size old =? 0) && (0 <? br_size item)); cbn [fst blocks_ set_blocks block_id].
    + rewrite lookup_insert_eq. cbn [fst set_blocks blocks_]. by rewrite lookup_insert_eq.
    + by rewrite lookup_insert_eq.
  - subst locs. case_bool_decide; [done|]. apply elem_of_app. right. by apply list_elem_of_singleton.
  - subst locs. case_bool_decide; [done|]. intros x Hx. apply elem_of_app. by left.
Qed.

Lemma report_block_ne dn m item id :
  id ≠ br_block_id item → blocks_ (report_block dn m item) !! id = blocks_ m !! id.
Proof.
  intros Hne. unfold report_block, UpdateBlockLocation, GetBlock, UpdateBlock. cbn [set_blocks blocks_].
  rewrite lookup_insert_eq. destruct (_ && _); cbn [block_id fst blocks_ set_blocks].
  - rewrite lookup_insert_eq. cbn [fst set_blocks blocks_]. by rewrite !lookup_insert_ne.
  - by rewrite lookup_insert_ne.
Qed.

(** The table after a report that names every block once. *)
Lemma report_blocks dn items m item :
  NoDup (map br_block_id items) → item ∈ items →
  let old := default default_block (blocks_ m !! br_block_id item) in
  ∃ locs, blocks_ (foldl (report_block dn) m items) !! br_block_id item =
      Some (mkBlock (br_block_id item)
        (if (block_size old =? 0) && (0 <? br_size item) then br_size item else block_size old) locs) ∧
    dn ∈ locs ∧ block_locations old ⊆ locs.
Proof.
  revert m. induction items as [|x items IH]; intros m Hnd Hin; [by apply elem_of_nil in Hin|].
  cbn [map] in Hnd. apply NoDup_cons in Hnd as [Hx Hnd]. cbn [foldl].
  apply elem_of_cons in Hin as [->|Hin].
  - assert (∀ m', blocks_ (foldl (report_block dn) m' items) !! br_block_id x = blocks_ m' !! br_block_id x) as ->.
    { clear IH Hnd. induction items as [|y items IH]; intros m'; [done|].
      cbn [map] in Hx. apply not_elem_of_cons in Hx as [Hy Hx]. cbn [foldl].
      rewrite IH by done. by apply report_block_ne. }
    apply report_block_at.
  - assert (br_block_id item ≠ br_block_id x) as Hne.
    { intros E. apply Hx. rewrite <- E. by apply list_elem_of_fmap_2. }
    destruct (IH (report_block dn m x) Hnd Hin) as (locs & Hl & ? & ?).
    rewrite report_block_ne in * by done. by exists locs.
Qed.

Section Join.
Context `{Iteration} (crc32 : bytes → Z) (crc32_range : ∀ d, 0 <= crc32 d < 2 ^ 32).
Context (ser_nn : NameNodeRequest → bytes) (par_req : bytes → option NameNodeRequest).
Context (ser_resp : NameNodeResponse → bytes) (par_nn : bytes → option NameNodeResponse).
Context (ser_log : NameNodeRequest → option bytes).
Context (par_ser_req : ∀ r, par_req (ser_nn r) = Some r).
Context (par_ser_resp : ∀ r, par_nn (ser_resp r) = Some r).

(** The connection to a name node that is up. *)
Definition to_name_node (now : Z) (data : bytes) (nn : NameNodeServer) : NameNodeServer * option bytes :=
  match ProcessRequest ser_log par_req ser_resp now IoOk data nn with
  | Some (nn, reply) => (nn, reply)
  | None => (nn, None)
  end.

Lemma nn_exchange now req nn nn' r :
  serve_op ser_log now IoOk req nn = Some (nn', r) →
  SendToNameNode ser_nn par_nn (to_name_node now) req nn = (nn', Some (set_request_id (req_id req) r)).
Proof using par_ser_req par_ser_resp.
  intros Hs. unfold SendToNameNode, to_name_node, ProcessRequest. rewrite par_ser_req, Hs.
  cbn [mbind option_bind]. by rewrite par_ser_resp.
Qed.

(** C31: a data node that starts makes itself and its blocks known.  When
    [DataNodeClient::Start] runs against a name node, it succeeds; the name node
    then has the node as alive with its address and space, and for every block on
    the node's disk it lists the node as a location, keeps the locations it had,
    and knows a size if the block is not empty; the name space is untouched. *)
Theorem data_node_joins m s datanode_id host port space now nn :
  holds crc32 m s → split_address datanode_id = Some (Some (host, port)) →
  ∃ nn', DataNodeClient_Start ser_nn par_nn (to_name_node now) (λ _, space) datanode_id s nn =
      Some (nn', true) ∧
    dn_manager_ nn' !! datanode_id =
      Some (mkDataNode datanode_id host port ALIVE now space 0) ∧
    files_ (metadata_ nn') = files_ (metadata_ nn) ∧
    ∀ id d, m !! id = Some d → 
      let old := default default_block (GetBlock id (metadata_ nn)) in
      ∃ locs, GetBlock id (metadata_ nn') =
          Some (mkBlock id (if block_size old =? 0 then zlen d else block_size old) locs) ∧
        datanode_id ∈ locs ∧ block_locations old ⊆ locs.
Proof using crc32_range par_ser_req par_ser_resp.
  intros Hh Haddr. unfold DataNodeClient_Start, RegisterSelf, register_request. rewrite Haddr.
  cbn [mbind option_bind default from_option id].
  erewrite nn_exchange by reflexivity. cbn [accepted fst snd set_request_id ok resp_success mbind option_bind negb].
  unfold SendBlockReport. erewrite nn_exchange by reflexivity. cbn [accepted fst snd].
  eexists. split; [reflexivity|]. unfold HandleBlockReport, HandleRegisterDN, report_request.
  cbn [req_block_report req_register_dn br_datanode_id br_blocks fst set_metadata set_dn_manager dn_manager_
    metadata_ reg_datanode_id reg_host reg_port reg_free_space].
  set (items := map (λ b, mkReportItem (meta_block_id b) (meta_size b) (meta_crc32 b)) (ListAllBlocks s)).
  split; [unfold RegisterDataNode; cbn [dn_id]; by rewrite lookup_insert_eq|]. split.
  { apply (report_grows datanode_id items (metadata_ nn)). }
  pose proof (ListAllBlocks_perm crc32 crc32_range m s Hh) as Hperm.
  assert (NoDup (map br_block_id items)) as Hnd.
  { subst items. rewrite map_map. cbn [br_block_id].
    change (NoDup (map (λ b, fst (fst (summary b))) (ListAllBlocks s))). rewrite <- (map_map summary (λ t, fst (fst t))).
    rewrite Hperm, map_map. cbn [fst]. apply NoDup_fst_map_to_list. }
  intros id d Hd. set (old := default default_block (GetBlock id (metadata_ nn))).
  assert ((id, zlen d, crc32 d) ∈ map summary (ListAllBlocks s)) as Hin.
  { rewrite Hperm. apply (list_elem_of_fmap_2 (λ x, (fst x, zlen (snd x), crc32 (snd x))) _ (id, d)).
    by apply elem_of_map_to_list. }
  apply list_elem_of_fmap_1 in Hin as (b & Hb & Hin). injection Hb as Hbi Hbz _.
  destruct (report_blocks datanode_id items (metadata_ nn) (mkReportItem id (zlen d) (meta_crc32 b)) Hnd)
    as (locs & Hl & Hdn & Hsub).
  { rewrite Hbi, Hbz. by apply (list_elem_of_fmap_2 (λ b, mkReportItem _ _ _) _ b). }
  cbn [br_block_id br_size] in *. exists locs. split; [|by split].
  unfold GetBlock in *. rewrite Hl. fold old. do 2 f_equal. pose proof (zlen_nonneg d).
  destruct (Z.eqb_spec (block_size old) 0) as [E|]; [|done]. cbn [andb].
  destruct (Z.ltb_spec 0 (zlen d)); [done|lia].
Qed.
End Join.

(** * Concrete networks *)

#[export] Instance WriteBlockRequest_eq_dec : EqDecision WriteBlockRequest.
Proof. solve_decision. Defined.
#[export] Instance ReadBlockRequest_eq_dec : EqDecision ReadBlockRequest.
Proof. solve_decision. Defined.
#[export] Instance DnOpType_eq_dec : EqDecision DnOpType.
Proof. solve_decision. Defined.
#[export] Instance DataNodeRequest_eq_dec : EqDecision DataNodeRequest.
Proof. solve_decision. Defined.
#[export] Instance WriteBlockResponse_eq_dec : EqDecision WriteBlockResponse.
Proof. solve_decision. Defined.
#[export] Instance ReadBlockResponse_eq_dec : EqDecision ReadBlockResponse.
Proof. solve_decision. Defined.
#[export] Instance DataNodeResponse_eq_dec : EqDecision DataNodeResponse.
Proof. solve_decision. Defined.

Definition dn_op_number (op : DnOpType) : Z + Z :=
  match op with WRITE_BLOCK => inl 0 | READ_BLOCK => inl 1 | DELETE_BLOCK => inl 2 | OTHER_DN_OP v => inr v end.
Definition number_dn_op (n : Z + Z) : DnOpType :=
  match n with
  | inl 0 => WRITE_BLOCK | inl 1 => READ_BLOCK | inl 2 => DELETE_BLOCK | inl v | inr v => OTHER_DN_OP v
  end.
#[export] Instance DnOpType_countable : Countable DnOpType.
Proof. apply (inj_countable' dn_op_number number_dn_op). by intros []. Defined.
#[export] Instance WriteBlockRequest_countable : Countable WriteBlockRequest.
Proof.
  apply (inj_countable' (λ r, (wb_block_id r, wb_data r, wb_pipeline r)) (λ '(a, b, c), mkWriteReq a b c)).
  by intros [].
Defined.
#[export] Instance ReadBlockRequest_countable : Countable ReadBlockRequest.
Proof.
  apply (inj_countable' (λ r, (rd_block_id r, rd_offset r, rd_length r)) (λ '(a, b, c), mkReadReq a b c)).
  by intros [].
Defined.
#[export] Instance DataNodeRequest_countable : Countable DataNodeRequest.
Proof.
  apply (inj_countable' (λ r, (dq_op r, dq_request_id r, dq_write_block r, dq_read_block r, dq_delete_block r))
    (λ '(a, b, c, d, e), mkDnReq a b c d e)). by intros [].
Defined.
#[export] Instance WriteBlockResponse_countable : Countable WriteBlockResponse.
Proof.
  apply (inj_countable' (λ r, (wr_success r, wr_error_message r)) (λ '(a, b), mkWriteResp a b)). by intros [].
Defined.
#[export] Instance ReadBlockResponse_countable : Countable ReadBlockResponse.
Proof.
  apply (inj_countable' (λ r, (rr_success r, rr_data r)) (λ '(a, b), mkReadResp a b)). by intros [].
Defined.
#[export] Instance DataNodeResponse_countable : Countable DataNodeResponse.
Proof.
  apply (inj_countable' (λ r, (dp_success r, dp_error_message r, dp_request_id r, dp_write_block r,
      dp_read_block r)) (λ '(a, b, c, d, e), mkDnResp a b c d e)). by intros [].
Defined.

Definition demo_write (pipeline : list bytes) : DataNodeRequest :=
  write_request 7 (mkWriteReq 7 (str "data") pipeline).
Definition demo_answer (success : bool) (e : bytes) : DataNodeResponse :=
  mkDnResp success e 7 (Some (mkWriteResp success e)) None.

Definition demo_dn_requests : list (DataNodeRequest * bytes) :=
  [(demo_write [str "b:2"], str "write and forward"); (demo_write [], str "write")].
Definition demo_dn_answers : list (DataNodeResponse * bytes) :=
  [(demo_answer true [], str "ok"); (demo_answer false (str "Failed to write block to disk"), str "failed")].

(** Two nodes whose disks are full: the rename fails. *)
Definition full_disk : WriteIo := mkWriteIo true (IoShort 0) true (IoShort 0) false.
Definition demo_network : Network :=
  {[ (str "a", 1) := mkBlockStore ∅ ∅; (str "b", 2) := mkBlockStore ∅ ∅ ]}.

Definition demo_call (disk : bytes * Z → WriteIo) : Network * option bytes :=
  net_call sum_crc (table_ser demo_dn_requests) (table_par demo_dn_requests) (table_ser demo_dn_answers)
    (table_par demo_dn_answers) disk 0 3 (str "a") 1 (str "write and forward") demo_network.

(** Both disks are full and the answer is success. *)
Lemma acknowledged_write_stores_nothing_witness :
  snd (demo_call (λ _, full_disk)) = Some (str "ok") ∧
  (true = true → same_data 7 demo_network (fst (demo_call (λ _, full_disk)))) ∧
  (full_disk = all_good →
    true = false ∧ [] = str "Failed to write block to disk" ∧
    delete (str "a", 1) (fst (demo_call (λ _, full_disk))) = delete (str "a", 1) demo_network ∧
    ∃ s', fst (demo_call (λ _, full_disk)) !! (str "a", 1) = Some s' ∧
      blocks_dir_ s' !! BlockDataPath 7 = Some (str "data")).
Proof.
  split; [by vm_compute|].
  apply (acknowledged_write_stores_nothing sum_crc (table_ser demo_dn_requests) (table_par demo_dn_requests)
    (table_ser demo_dn_answers) (table_par demo_dn_answers) (λ _, full_disk) 0)
    with (fuel := 2%nat) (host := str "a") (port := 1) (data := str "write and forward")
      (e := demo_network) (e' := fst (demo_call (λ _, full_disk)))
      (reply := str "ok") (req := demo_write [str "b:2"]) (resp := demo_answer true [])
      (s := mkBlockStore ∅ ∅).
  - intros r d. apply table_roundtrip. apply (bool_decide_unpack _). by vm_compute.
  - intros r d. apply table_roundtrip. apply (bool_decide_unpack _). by vm_compute.
  - vm_compute. reflexivity.
  - reflexivity.
  - vm_compute. reflexivity.
  - vm_compute. reflexivity.
  - vm_compute. reflexivity.
Defined.

Definition demo_store : BlockStore := demo_once.

Lemma data_node_joins_witness :
  ∃ nn', DataNodeClient_Start pack unpack
      (to_name_node unpack pack (λ r, Some (pack r)) 100) (λ _, 4096) (str "10.0.0.1:9000") demo_store fresh_server =
      Some (nn', true) ∧
    dn_manager_ nn' !! str "10.0.0.1:9000" =
      Some (mkDataNode (str "10.0.0.1:9000") (str "10.0.0.1") 9000 ALIVE 100 4096 0) ∧
    files_ (metadata_ nn') = files_ (metadata_ fresh_server) ∧
    ∀ id d, ({[2 := str "hello"]} : gmap Z bytes) !! id = Some d → 
      let old := default default_block (GetBlock id (metadata_ fresh_server)) in
      ∃ locs, GetBlock id (metadata_ nn') =
          Some (mkBlock id (if block_size old =? 0 then zlen d else block_size old) locs) ∧
        str "10.0.0.1:9000" ∈ locs ∧ block_locations old ⊆ locs.
Proof.
  apply (data_node_joins sum_crc sum_crc_range pack unpack pack unpack (λ r, Some (pack r))
    unpack_pack unpack_pack {[2 := str "hello"]} demo_store (str "10.0.0.1:9000") (str "10.0.0.1") 9000 4096 100);
    [exact demo_once_holds|by vm_compute].
Defined.
