(* ===== verification/Repair.v ===== *)
(** Watching and repairing replicas: src/namenode/namenode_replication_monitor.cc,
    namenode_block_replicator.cc, namenode_consistency_checker.cc and
    namenode_fault_detector.cc.

    All four read the tables of the name node; the replicator also adds locations
    to them.  A connection to a data node is one call of a parameter on the state
    of the network, as in [DataNode]. *)
From S2P Require Import Prelude Wal Metadata NameNode BlockStore DataNode.

(** * ReplicationMonitor *)

Record UnderReplicatedBlock := mkUnder {
  ur_block_id : Z; ur_current_replicas : Z; ur_target_replicas : Z;
  ur_existing_locations : list bytes; ur_dead_locations : list bytes }.

Record ClusterHealth := mkHealth {
  total_blocks : Z; healthy_blocks : Z; under_replicated : Z; lost_blocks : Z;
  over_replicated : Z; alive_datanodes : Z; dead_datanodes : Z }.

Section Monitor.
Context `{Iteration}.

Definition alive_set (nodes : DataNodeManager) : gset bytes :=
  list_to_set (map dn_id (GetAliveDataNodes nodes)).

(** The replicas of a block on alive nodes, and the others. *)
Definition classify (nodes : DataNodeManager) (id : Z) (locs : list bytes) : UnderReplicatedBlock :=
  let existing := filter (λ dn, dn ∈ alive_set nodes) locs in
  mkUnder id (int32 (zlen existing)) kReplicationFactor existing
    (filter (λ dn, dn ∉ alive_set nodes) locs).

(** The blocks of all files, in the order of the two loops. *)
Definition file_block_ids (m : MetadataStore) : list Z := mjoin (map file_blocks (ListFiles [] m)).

(** The loop of [ScanUnderReplicated] over them, with the set [visited]. *)
Fixpoint scan_blocks (m : MetadataStore) (nodes : DataNodeManager) (visited : gset Z) (bids : list Z) :
    list UnderReplicatedBlock :=
  match bids with
  | [] => []
  | bid :: bids =>
      if bool_decide (bid ∈ visited) then scan_blocks m nodes visited bids
      else
        let visited := {[bid]} ∪ visited in
        match GetBlock bid m with
        | None => scan_blocks m nodes visited bids
        | Some block =>
            let urb := classify nodes bid (block_locations block) in
            if ur_current_replicas urb <? ur_target_replicas urb
            then urb :: scan_blocks m nodes visited bids
            else scan_blocks m nodes visited bids
        end
  end.

Definition ScanUnderReplicated (m : MetadataStore) (nodes : DataNodeManager) :
    list UnderReplicatedBlock :=
  scan_blocks m nodes ∅ (file_block_ids m).

(** [CheckBlock]: for an unknown block [current_replicas] is never set. *)
Definition CheckBlock (indeterminate : Z) (id : Z) (m : MetadataStore) (nodes : DataNodeManager) :
    UnderReplicatedBlock :=
  match GetBlock id m with
  | None => mkUnder id indeterminate kReplicationFactor [] []
  | Some block => classify nodes id (block_locations block)
  end.

(** One block of the loop of [GetClusterHealth]. *)
Definition count_block (alive_count : Z) (h : ClusterHealth) : ClusterHealth :=
  if alive_count =? 0 then
    mkHealth (total_blocks h) (healthy_blocks h) (under_replicated h) (lost_blocks h + 1)
      (over_replicated h) (alive_datanodes h) (dead_datanodes h)
  else if alive_count <? kReplicationFactor then
    mkHealth (total_blocks h) (healthy_blocks h) (under_replicated h + 1) (lost_blocks h)
      (over_replicated h) (alive_datanodes h) (dead_datanodes h)
  else if alive_count =? kReplicationFactor then
    mkHealth (total_blocks h) (healthy_blocks h + 1) (under_replicated h) (lost_blocks h)
      (over_replicated h) (alive_datanodes h) (dead_datanodes h)
  else
    mkHealth (total_blocks h) (healthy_blocks h) (under_replicated h) (lost_blocks h)
      (over_replicated h + 1) (alive_datanodes h) (dead_datanodes h).

Fixpoint health_blocks (m : MetadataStore) (nodes : DataNodeManager) (visited : gset Z)
    (bids : list Z) (h : ClusterHealth) : ClusterHealth :=
  match bids with
  | [] => h
  | bid :: bids =>
      if bool_decide (bid ∈ visited) then health_blocks m nodes visited bids h
      else
        let visited := {[bid]} ∪ visited in
        let h := mkHealth (total_blocks h + 1) (healthy_blocks h) (under_replicated h) (lost_blocks h)
                   (over_replicated h) (alive_datanodes h) (dead_datanodes h) in
        match GetBlock bid m with
        | None => health_blocks m nodes visited bids h
        | Some block =>
            let alive_count := zlen (filter (λ dn, dn ∈ alive_set nodes) (block_locations block)) in
            health_blocks m nodes visited bids (count_block alive_count h)
        end
  end.

Definition GetClusterHealth (m : MetadataStore) (nodes : DataNodeManager) : ClusterHealth :=
  let alive := zlen (GetAliveDataNodes nodes) in
  health_blocks m nodes ∅ (file_block_ids m)
    (mkHealth 0 0 0 0 0 (int32 alive) (int32 (TotalCount nodes - alive))).
End Monitor.

(** * BlockReplicator *)

Record ReplicationTask := mkTask { task_block_id : Z; task_source_dn : bytes; task_target_dn : bytes }.
Record ReplicationResult := mkResult { res_block_id : Z; res_success : bool; res_error : bytes }.

Record BlockReplicator := mkReplicator { total_replicated_ : Z; total_failed_ : Z }.

Section Replicator.
Context `{Iteration} {E : Type}.
Context (ser_req : DataNodeRequest → option bytes) (par_resp : bytes → option DataNodeResponse).
Context (call : bytes → Z → bytes → E → E * option bytes).

(** [ConnectToDN] and one exchange: [None] is the exception of [stoi]; a request
    that does not serialize is sent as the empty message. *)
Definition exchange (addr : bytes) (req : DataNodeRequest) (e : E) :
    option (E * option DataNodeResponse) :=
  a ← split_address addr;
  match a with
  | None => Some (e, None)
  | Some (host, port) =>
      let '(e, reply) := call host (port mod 2 ^ 16) (default [] (ser_req req)) e in
      Some (e, reply ≫= par_resp)
  end.

Definition FetchBlock (source : bytes) (id : Z) (e : E) : option (E * option bytes) :=
  '(e, resp) ← exchange source (read_request id (mkReadReq id 0 0)) e;
  Some (e, match resp with
    | Some r => if dp_success r
                then Some (match dp_read_block r with Some b => rr_data b | None => [] end) else None
    | None => None end).

Definition PushBlock (target : bytes) (id : Z) (data : bytes) (e : E) : option (E * bool) :=
  '(e, resp) ← exchange target (write_request id (mkWriteReq id data [])) e;
  Some (e, match resp with Some r => dp_success r | None => false end).

(** The tables and counters a repair changes, and the network. *)
Definition World : Type := MetadataStore * BlockReplicator * E.

Definition count_failed (r : BlockReplicator) : BlockReplicator :=
  mkReplicator (total_replicated_ r) (u64 (total_failed_ r + 1)).
Definition count_replicated (r : BlockReplicator) : BlockReplicator :=
  mkReplicator (u64 (total_replicated_ r + 1)) (total_failed_ r).

Definition Replicate (task : ReplicationTask) (w : World) : option (World * ReplicationResult) :=
  let '(m, r, e) := w in
  '(e, data) ← FetchBlock (task_source_dn task) (task_block_id task) e;
  match data with
  | None =>
      Some ((m, count_failed r, e),
        mkResult (task_block_id task) false (str "FetchBlock failed from " ++ task_source_dn task))
  | Some data =>
      '(e, pushed) ← PushBlock (task_target_dn task) (task_block_id task) data e;
      if negb pushed then
        Some ((m, count_failed r, e),
          mkResult (task_block_id task) false (str "PushBlock failed to " ++ task_target_dn task))
      else
        Some ((UpdateBlockLocation (task_block_id task) (task_target_dn task) m, count_replicated r, e),
          mkResult (task_block_id task) true [])
  end.

(** The nodes a block can be copied to. *)
Definition candidates (nodes : DataNodeManager) (urb : UnderReplicatedBlock) : list bytes :=
  map dn_id (filter (λ dn, (dn_id dn ∉ ur_existing_locations urb) ∧ (dn_id dn ∉ ur_dead_locations urb) ∧
    kBlockSize <= dn_free_space dn) (GetAliveDataNodes nodes)).

Definition SelectTargetNodes (nodes : DataNodeManager) (urb : UnderReplicatedBlock) (need_count : Z) :
    list bytes :=
  let cands := candidates nodes urb in
  take (Z.to_nat (Z.min (int32 (zlen cands)) need_count)) cands.

(** The copies to each target, and whether all succeeded. *)
Fixpoint replicate_all (id : Z) (source : bytes) (targets : list bytes) (w : World) :
    option (World * bool) :=
  match targets with
  | [] => Some (w, true)
  | dn :: targets =>
      '(w, result) ← Replicate (mkTask id source dn) w;
      '(w, block_ok) ← replicate_all id source targets w;
      Some (w, res_success result && block_ok)
  end.

(** The body of the loop of [RepairUnderReplicated]: whether the block counts. *)
Definition repair_block (nodes : DataNodeManager) (urb : UnderReplicatedBlock) (w : World) :
    option (World * bool) :=
  match ur_existing_locations urb with
  | [] => Some (w, false)
  | source :: _ =>
      let need_count := ur_target_replicas urb - ur_current_replicas urb in
      if need_count <=? 0 then Some (w, false)
      else
        match SelectTargetNodes nodes urb need_count with
        | [] => Some (w, false)
        | targets => replicate_all (ur_block_id urb) source targets w
        end
  end.

Fixpoint RepairUnderReplicated (nodes : DataNodeManager) (urbs : list UnderReplicatedBlock) (w : World) :
    option (World * Z) :=
  match urbs with
  | [] => Some (w, 0)
  | urb :: urbs =>
      '(w, ok) ← repair_block nodes urb w;
      '(w, repaired) ← RepairUnderReplicated nodes urbs w;
      Some (w, if (ok : bool) then repaired + 1 else repaired)
  end.
End Replicator.

(** * ConsistencyChecker *)

Record BlockCheckResult := mkCheck {
  bc_block_id : Z; bc_datanode_id : bytes; bc_reachable : bool; bc_crc_ok : bool;
  bc_actual_crc : Z; bc_actual_size : Z; bc_error : bytes }.

Section Checker.
Context `{Iteration} {E : Type}.
Context (ser_req : DataNodeRequest → option bytes) (par_resp : bytes → option DataNodeResponse).
Context (call : bytes → Z → bytes → E → E * option bytes).

(** The size of a [std::string] object, and the checksum of the first bytes of the
    object that holds a string. *)
Context (sizeof_string : Z) (object_crc : bytes → Z).

(** [ComputeCRC32] takes the address of the string object for that of its
    characters: it reads past the object when the string is longer. *)
Definition ComputeCRC32 (data : bytes) : option Z :=
  if zlen data <=? sizeof_string then Some (object_crc data) else None.

(** [FetchAndVerify]: data and checksum on [true].  The outer [None] is undefined
    behaviour or an exception. *)
Definition FetchAndVerify (dn_id : bytes) (id : Z) (e : E) : option (E * option (bytes * Z)) :=
  '(e, data) ← FetchBlock ser_req par_resp call dn_id id e;
  match data with
  | None => Some (e, None)
  | Some data => crc ← ComputeCRC32 data; Some (e, Some (data, crc))
  end.

Definition CheckBlockOnDN (m : MetadataStore) (id : Z) (dn : bytes) (e : E) :
    option (E * BlockCheckResult) :=
  '(e, r) ← FetchAndVerify dn id e;
  Some (e,
    match r with
    | None => mkCheck id dn false false 0 0 (str "Cannot fetch block from " ++ dn)
    | Some (data, crc) =>
        let actual := zlen data in
        match GetBlock id m with
        | Some block =>
            if 0 <? block_size block then
              if block_size block =? actual then mkCheck id dn true true crc actual []
              else mkCheck id dn true false crc actual
                     (str "Size mismatch: expected=" ++ dec (block_size block) ++ str " actual=" ++ dec actual)
            else mkCheck id dn true (0 <? actual) crc actual []
        | None => mkCheck id dn true (0 <? actual) crc actual []
        end
    end).

Fixpoint check_replicas (m : MetadataStore) (nodes : DataNodeManager) (id : Z) (locs : list bytes) (e : E) :
    option (E * list BlockCheckResult) :=
  match locs with
  | [] => Some (e, [])
  | dn :: locs =>
      '(e, r) ← (if bool_decide (dn ∈ alive_set nodes) then CheckBlockOnDN m id dn e
                 else Some (e, mkCheck id dn false false 0 0 (str "DataNode is dead")));
      '(e, rs) ← check_replicas m nodes id locs e;
      Some (e, r :: rs)
  end.

Definition CheckBlockAllReplicas (m : MetadataStore) (nodes : DataNodeManager) (id : Z) (e : E) :
    option (E * list BlockCheckResult) :=
  match GetBlock id m with
  | None => Some (e, [])
  | Some block => check_replicas m nodes id (block_locations block) e
  end.

Fixpoint check_blocks (m : MetadataStore) (nodes : DataNodeManager) (visited : gset Z) (bids : list Z)
    (e : E) : option (E * list BlockCheckResult) :=
  match bids with
  | [] => Some (e, [])
  | bid :: bids =>
      if bool_decide (bid ∈ visited) then check_blocks m nodes visited bids e
      else
        '(e, rs) ← CheckBlockAllReplicas m nodes bid e;
        '(e, bad) ← check_blocks m nodes ({[bid]} ∪ visited) bids e;
        Some (e, filter (λ r, bc_crc_ok r = false ∨ bc_reachable r = false) rs ++ bad)
  end.

Definition ScanAllBlocks (m : MetadataStore) (nodes : DataNodeManager) (e : E) :
    option (E * list BlockCheckResult) :=
  check_blocks m nodes ∅ (file_block_ids m) e.

(** * FaultDetector *)

Record FaultDetector := mkDetector {
  fd_replicator : BlockReplicator; repair_rounds_ : Z; blocks_repaired_ : Z }.

(** The tables it shares with the name node, its counters, and the network. *)
Definition Cluster : Type := MetadataStore * DataNodeManager * FaultDetector * E.

Definition HandleDeadNodes (now : Z) (c : Cluster) : Cluster :=
  let '(m, nodes, fd, e) := c in (m, CheckDataNodeHealth now nodes, fd, e).

Definition RepairReplicas (c : Cluster) : option Cluster :=
  let '(m, nodes, fd, e) := c in
  match ScanUnderReplicated m nodes with
  | [] => Some c
  | urbs =>
      '(w, repaired) ← RepairUnderReplicated ser_req par_resp call nodes urbs (m, fd_replicator fd, e);
      let '(m, r, e) := w in
      Some (m, nodes, mkDetector r (repair_rounds_ fd) (u64 (blocks_repaired_ fd + repaired)), e)
  end.

Definition VerifyConsistency (c : Cluster) : option Cluster :=
  let '(m, nodes, fd, e) := c in
  '(e, _) ← ScanAllBlocks m nodes e;
  Some (m, nodes, fd, e).

Definition RunOnce (now : Z) (c : Cluster) : option Cluster :=
  c ← RepairReplicas (HandleDeadNodes now c);
  c ← VerifyConsistency c;
  let '(m, nodes, fd, e) := c in
  Some (m, nodes, mkDetector (fd_replicator fd) (u64 (repair_rounds_ fd + 1)) (blocks_repaired_ fd), e).
End Checker.

(** * What a scan finds *)

Section Scan.
Context `{Iteration}.

(** The replicas of a block on alive nodes. *)
Definition alive_replicas (nodes : DataNodeManager) (locs : list bytes) : list bytes :=
  filter (λ dn, dn ∈ alive_set nodes) locs.

Lemma scan_blocks_spec m nodes visited bids urb :
  urb ∈ scan_blocks m nodes visited bids ↔
  ∃ bid block, bid ∈ bids ∧ (bid ∉ visited) ∧ GetBlock bid m = Some block ∧
    urb = classify nodes bid (block_locations block) ∧ ur_current_replicas urb < kReplicationFactor.
Proof.
  revert visited. induction bids as [|x bids IH]; intros visited; cbn [scan_blocks].
  { split; [by intros ?%elem_of_nil|]. by intros (? & ? & ?%elem_of_nil & _). }
  case_bool_decide as Hx.
  { rewrite IH. split.
    - intros (b & blk & Hb & Hv & ?). exists b, blk. split; [by apply list_elem_of_further|done].
    - intros (b & blk & [->|Hb]%elem_of_cons & Hv & ?); [done|]. by exists b, blk. }
  assert (∀ P : Prop, (P ↔ ∃ b blk, b ∈ bids ∧ (b ∉ ({[x]} ∪ visited)) ∧ GetBlock b m = Some blk ∧
      urb = classify nodes b (block_locations blk) ∧ ur_current_replicas urb < kReplicationFactor) →
    (P ∨ ∃ blk, GetBlock x m = Some blk ∧ urb = classify nodes x (block_locations blk) ∧
        ur_current_replicas urb < kReplicationFactor) ↔
      ∃ b blk, b ∈ x :: bids ∧ (b ∉ visited) ∧ GetBlock b m = Some blk ∧
        urb = classify nodes b (block_locations blk) ∧ ur_current_replicas urb < kReplicationFactor) as Hstep.
  { intros P HP. rewrite HP. split.
    - intros [(b & blk & Hb & Hv & ?)|(blk & ?)].
      + exists b, blk. split; [by apply list_elem_of_further|]. split; [set_solver|done].
      + exists x, blk. split; [apply list_elem_of_here|done].
    - intros (b & blk & Hb & Hv & Hg & ?). destruct (decide (b = x)) as [->|Hne].
      + right. by exists blk.
      + left. exists b, blk. apply elem_of_cons in Hb as [?|Hb]; [done|].
        split; [done|]. split; [set_solver|done]. }
  destruct (GetBlock x m) as [blk|] eqn:Hg.
  - change (ur_target_replicas (classify nodes x (block_locations blk))) with kReplicationFactor.
    destruct (Z.ltb_spec (ur_current_replicas (classify nodes x (block_locations blk))) kReplicationFactor) as [Hlt|Hge].
    + rewrite elem_of_cons, <- (Hstep _ (IH _)). split.
      * intros [->|Hin]; [right; by exists blk|by left].
      * intros [Hin|(blk' & [= <-] & -> & _)]; [by right|by left].
    + rewrite <- (Hstep _ (IH _)). split; [by left|].
      intros [Hin|(blk' & [= <-] & -> & Hlt)]; [done|lia].
  - rewrite <- (Hstep _ (IH _)). split; [by left|]. by intros [Hin|(blk' & [=] & _)].
Qed.

(** A block is reported at most once. *)
Lemma scan_blocks_ids m nodes visited bids :
  NoDup (map ur_block_id (scan_blocks m nodes visited bids)).
Proof.
  revert visited. induction bids as [|x bids IH]; intros visited; cbn [scan_blocks]; [constructor|].
  case_bool_decide; [apply IH|]. destruct (GetBlock x m) as [blk|]; [|apply IH].
  destruct (_ <? _); [|apply IH]. cbn [map]. apply NoDup_cons. split; [|apply IH].
  intros (u & Hu & Hin)%list_elem_of_fmap_1. apply scan_blocks_spec in Hin as (b & blk' & _ & Hv & _ & -> & _).
  cbn in Hu. subst b. set_solver.
Qed.
End Scan.

(** * A repair against data nodes that answer *)

Section Restore.
Context `{Iteration} {E : Type}.
Context (ser_req : DataNodeRequest → option bytes) (par_resp : bytes → option DataNodeResponse).
Context (call : bytes → Z → bytes → E → E * option bytes).
Context (nodes : DataNodeManager).
Context (nodes_ids : ∀ id n, nodes !! id = Some n → dn_id n = id).
Context (nodes_size : Z.of_nat (size nodes) < 2 ^ 31).

(** The alive nodes give every block they are asked for and take every copy. *)
Context (fetch_ok : ∀ dn id e, dn ∈ alive_set nodes →
  ∃ e' data, FetchBlock ser_req par_resp call dn id e = Some (e', Some data)).
Context (push_ok : ∀ dn id data e, dn ∈ alive_set nodes →
  ∃ e', PushBlock ser_req par_resp call dn id data e = Some (e', true)).

Lemma alive_set_elem dn : dn ∈ alive_set nodes ↔ ∃ n, nodes !! dn = Some n ∧ dn_status n = ALIVE.
Proof using nodes_ids.
  unfold alive_set. rewrite elem_of_list_to_set. split.
  - intros (n & -> & (Ha & id & Hn)%alive_elem)%list_elem_of_fmap_1. exists n.
    by rewrite (nodes_ids id n Hn).
  - intros (n & Hn & Ha). rewrite <- (nodes_ids dn n Hn). apply list_elem_of_fmap_2.
    apply alive_elem. by eauto.
Qed.

Lemma alive_zlen l : NoDup l → (∀ x, x ∈ l → x ∈ alive_set nodes) → zlen l < 2 ^ 31.
Proof using nodes_size.
  intros Hnd Hin. assert (length l <= length (GetAliveDataNodes nodes))%nat as Hle.
  { rewrite <- (length_map dn_id). apply submseteq_length, NoDup_submseteq; [done|].
    intros x Hx. specialize (Hin x Hx). unfold alive_set in Hin. by apply elem_of_list_to_set in Hin. }
  assert (length (GetAliveDataNodes nodes) <= size nodes)%nat.
  { unfold GetAliveDataNodes. etrans; [apply length_filter|]. rewrite length_map, elements_of_perm.
    by rewrite length_map_to_list. }
  unfold zlen. lia.
Qed.

Lemma candidates_elem urb dn :
  dn ∈ candidates nodes urb ↔
    has_room nodes dn ∧ (dn ∉ ur_existing_locations urb) ∧ (dn ∉ ur_dead_locations urb).
Proof using nodes_ids.
  unfold candidates, has_room. split.
  - intros (n & -> & [(He & Hd & Hf) (Ha & id & Hn)%alive_elem]%list_elem_of_filter)%list_elem_of_fmap_1.
    split; [|by split]. exists n. by rewrite (nodes_ids id n Hn).
  - intros ((n & Hn & Ha & Hf) & He & Hd). rewrite <- (nodes_ids dn n Hn). apply list_elem_of_fmap_2.
    rewrite <- (nodes_ids dn n Hn) in He, Hd. apply list_elem_of_filter.
    split; [done|]. apply alive_elem. by eauto.
Qed.

Lemma candidates_NoDup urb : NoDup (candidates nodes urb).
Proof using nodes_ids.
  unfold candidates. pose proof (alive_NoDup nodes nodes_ids) as Hnd.
  induction (GetAliveDataNodes nodes) as [|n l IH]; [constructor|].
  cbn [map] in Hnd. apply NoDup_cons in Hnd as [Hn Hnd]. rewrite filter_cons.
  case_decide; [|by apply IH]. cbn [map]. apply NoDup_cons. split; [|by apply IH].
  intros (x & Hx & [_ Hin]%list_elem_of_filter)%list_elem_of_fmap_1. apply Hn. rewrite Hx.
  by apply list_elem_of_fmap_2.
Qed.

(** Adding copies to the table. *)
Definition add_locations (id : Z) (targets : list bytes) (m : MetadataStore) : MetadataStore :=
  foldl (λ m dn, UpdateBlockLocation id dn m) m targets.

Lemma add_locations_files id targets m : files_ (add_locations id targets m) = files_ m.
Proof.
  unfold add_locations. revert m. induction targets as [|t targets IH]; intros m; [done|].
  cbn [foldl]. by rewrite IH.
Qed.

Lemma add_locations_other id targets m i : i ≠ id → GetBlock i (add_locations id targets m) = GetBlock i m.
Proof.
  unfold add_locations. intros Hi. revert m. induction targets as [|t targets IH]; intros m; [done|].
  cbn [foldl]. rewrite IH. unfold GetBlock, UpdateBlockLocation, set_blocks. cbn [blocks_].
  by rewrite lookup_insert_ne.
Qed.

Lemma add_locations_block id targets m b :
  GetBlock id m = Some b → NoDup targets → (∀ x, x ∈ targets → x ∉ block_locations b) → targets ≠ [] →
  GetBlock id (add_locations id targets m) = Some (mkBlock id (block_size b) (block_locations b ++ targets)).
Proof.
  unfold add_locations. revert m b. induction targets as [|t targets IH]; intros m b Hb Hnd Hdis Hne; [done|].
  apply NoDup_cons in Hnd as [Ht Hnd]. cbn [foldl].
  assert (GetBlock id (UpdateBlockLocation id t m) =
    Some (mkBlock id (block_size b) (block_locations b ++ [t]))) as Hb1.
  { unfold GetBlock in *. unfold UpdateBlockLocation, set_blocks. cbn [blocks_]. rewrite lookup_insert_eq, Hb.
    change (default default_block (Some b)) with b. rewrite bool_decide_eq_false_2; [done|]. apply Hdis, list_elem_of_here. }
  destruct targets as [|u targets].
  { cbn [foldl]. done. }
  rewrite (IH _ _ Hb1 Hnd); [|..].
  - cbn [block_size block_locations]. by rewrite <- app_assoc.
  - intros x Hx. cbn [block_locations]. rewrite elem_of_app. intros [Hin|Hin%list_elem_of_singleton].
    + by apply (Hdis x); [apply list_elem_of_further|].
    + subst x. done.
  - done.
Qed.

Lemma replicate_all_ok id source targets m r e :
  source ∈ alive_set nodes → (∀ x, x ∈ targets → x ∈ alive_set nodes) →
  ∃ r' e', replicate_all ser_req par_resp call id source targets (m, r, e) =
    Some ((add_locations id targets m, r', e'), true).
Proof using fetch_ok push_ok.
  intros Hs. revert m r e. induction targets as [|t targets IH]; intros m r e Ht.
  { by exists r, e. }
  cbn [replicate_all]. unfold Replicate. cbn [task_source_dn task_block_id task_target_dn].
  destruct (fetch_ok source id e Hs) as (e1 & data & ->). cbn [mbind option_bind].
  destruct (push_ok t id data e1) as (e2 & ->); [apply Ht, list_elem_of_here|].
  cbn [mbind option_bind negb].
  destruct (IH (UpdateBlockLocation id t m) (count_replicated r) e2) as (r' & e' & ->).
  { intros x Hx. by apply Ht, list_elem_of_further. }
  cbn [mbind option_bind res_success andb]. by exists r', e'.
Qed.

(** A block after its repair. *)
Definition restored (b b' : BlockInfo) : Prop :=
  block_locations b ⊆ block_locations b' ∧ block_size b' = block_size b ∧
  (alive_replicas nodes (block_locations b) ≠ [] →
    kReplicationFactor <= zlen (alive_replicas nodes (block_locations b')) ∨
    ∀ dn, has_room nodes dn → dn ∈ block_locations b').

(** A node with room either has the block or can be given it. *)
Lemma listed_or_candidate id locs dn :
  has_room nodes dn → dn ∈ locs ∨ dn ∈ candidates nodes (classify nodes id locs).
Proof using nodes_ids.
  intros Hdn. destruct (decide (dn ∈ locs)) as [|Hn]; [by left|]. right. apply candidates_elem.
  split; [done|]. split; intros [_ ?]%list_elem_of_filter; done.
Qed.

Lemma candidates_new id locs dn :
  dn ∈ candidates nodes (classify nodes id locs) → (dn ∉ locs) ∧ dn ∈ alive_set nodes.
Proof using nodes_ids.
  intros ((n & Hn & Ha & _) & He & Hd)%candidates_elem. split; [|apply alive_set_elem; by exists n].
  intros Hin. destruct (decide (dn ∈ alive_set nodes)).
  - apply He. by apply list_elem_of_filter.
  - apply Hd. by apply list_elem_of_filter.
Qed.

Lemma SelectTargetNodes_spec id locs need :
  0 < need →
  let urb := classify nodes id locs in
  let targets := SelectTargetNodes nodes urb need in
  NoDup targets ∧ targets ⊆ candidates nodes urb ∧
  (zlen targets = need ∨ targets = candidates nodes urb).
Proof using nodes_ids nodes_size.
  intros Hneed urb. set (cands := candidates nodes urb).
  assert (zlen cands < 2 ^ 31) as Hzc.
  { apply alive_zlen; [apply candidates_NoDup|]. intros x Hx. by apply (candidates_new id locs) in Hx as [_ ?]. }
  unfold SelectTargetNodes. fold cands. rewrite int32_zlen by done. set (k := Z.to_nat _). split_and!.
  - eapply sublist_NoDup; [apply candidates_NoDup|apply sublist_take].
  - intros x Hx. by eapply elem_of_take in Hx as (i & Hi%list_elem_of_lookup_2 & _).
  - destruct (Z.le_gt_cases need (zlen cands)).
    + left. subst k. unfold zlen in *. rewrite length_take. lia.
    + right. apply take_ge. subst k. unfold zlen in *. lia.
Qed.

(** The replicas left out of a block whose repair had no target. *)
Lemma restored_same b :
  alive_replicas nodes (block_locations b) = [] ∨ (∀ dn, has_room nodes dn → dn ∈ block_locations b) →
  restored b b.
Proof. intros Hb. split; [done|]. split; [done|]. intros Hne. right. by destruct Hb. Qed.

Lemma repair_block_ok id b m r e :
  GetBlock id m = Some b → NoDup (block_locations b) →
  let urb := classify nodes id (block_locations b) in
  ur_current_replicas urb < kReplicationFactor →
  ∃ m' r' e' ok, repair_block ser_req par_resp call nodes urb (m, r, e) = Some ((m', r', e'), ok) ∧
    files_ m' = files_ m ∧ (∀ i, i ≠ id → GetBlock i m' = GetBlock i m) ∧
    ∃ b', GetBlock id m' = Some b' ∧ restored b b'.
Proof using fetch_ok push_ok nodes_ids nodes_size.
  intros Hb Hnd urb Hlt. set (locs := block_locations b) in *.
  assert (ur_current_replicas urb = zlen (alive_replicas nodes locs)) as Hcur.
  { apply int32_zlen, alive_zlen; [by apply NoDup_filter|]. by intros x [? _]%list_elem_of_filter. }
  unfold repair_block. change (ur_existing_locations urb) with (alive_replicas nodes locs).
  destruct (alive_replicas nodes locs) as [|source rest] eqn:Hal.
  { exists m, r, e, false. split_and!; [done|done|done|]. exists b. split; [done|]. apply restored_same. by left. }
  change (ur_target_replicas urb) with kReplicationFactor.
  set (need := kReplicationFactor - ur_current_replicas urb).
  destruct (Z.leb_spec need 0); [lia|].
  destruct (SelectTargetNodes_spec id locs need) as (Htn & Htc & Hall); [done|]. fold urb in Htn, Htc, Hall.
  destruct (SelectTargetNodes nodes urb need) as [|t ts] eqn:Ht.
  { exists m, r, e, false. split_and!; [done|done|done|]. exists b. split; [done|]. apply restored_same. right.
    intros dn Hdn. destruct (listed_or_candidate id locs dn Hdn) as [|Hc]; [done|].
    destruct Hall as [Hz|Hz]; [change (zlen []) with 0 in Hz; lia|].
    change (dn ∈ candidates nodes urb) in Hc. rewrite <- Hz in Hc. by apply elem_of_nil in Hc. }
  rewrite <- Ht in *. set (targets := SelectTargetNodes nodes urb need) in *.
  assert (∀ x, x ∈ targets → (x ∉ locs) ∧ x ∈ alive_set nodes) as Hnew.
  { intros x Hx. by apply (candidates_new id locs), Htc. }
  assert (source ∈ alive_set nodes) as Hsrc.
  { assert (source ∈ alive_replicas nodes locs) as [? _]%list_elem_of_filter; [|done].
    rewrite Hal. apply list_elem_of_here. }
  destruct (replicate_all_ok id source targets m r e Hsrc) as (r' & e' & Hrep); [intros x Hx; by apply Hnew|].
  exists (add_locations id targets m), r', e', true. split_and!.
  - exact Hrep.
  - apply add_locations_files.
  - intros i Hi. by apply add_locations_other.
  - exists (mkBlock id (block_size b) (locs ++ targets)). split.
    { apply add_locations_block; [done|done|intros x Hx; by apply Hnew|by rewrite Ht]. }
    split; [intros x Hx; apply elem_of_app; by left|]. split; [done|]. intros _. cbn [block_locations].
    destruct Hall as [Hz|Hz]; [left|right].
    + unfold alive_replicas. rewrite filter_app, zlen_app.
      rewrite (filter_all _ targets) by (intros x Hx; by apply Hnew).
      change (filter _ locs) with (alive_replicas nodes locs). rewrite Hal. subst need. lia.
    + intros dn Hdn. apply elem_of_app. rewrite Hz. by apply listed_or_candidate.
Qed.

Lemma RepairUnderReplicated_ok urbs m r e :
  NoDup (map ur_block_id urbs) →
  (∀ urb, urb ∈ urbs → ∃ b, GetBlock (ur_block_id urb) m = Some b ∧ NoDup (block_locations b) ∧
    urb = classify nodes (ur_block_id urb) (block_locations b) ∧ ur_current_replicas urb < kReplicationFactor) →
  ∃ m' r' e' k, RepairUnderReplicated ser_req par_resp call nodes urbs (m, r, e) = Some ((m', r', e'), k) ∧
    files_ m' = files_ m ∧
    (∀ i, (i ∉ map ur_block_id urbs) → GetBlock i m' = GetBlock i m) ∧
    ∀ i b, i ∈ map ur_block_id urbs → GetBlock i m = Some b →
      ∃ b', GetBlock i m' = Some b' ∧ restored b b'.
Proof using fetch_ok push_ok nodes_ids nodes_size.
  revert m r e. induction urbs as [|urb urbs IH]; intros m r e Hnd Hall.
  { exists m, r, e, 0. split_and!; [done|done|done|]. by intros i b ?%elem_of_nil. }
  cbn [map] in *. apply NoDup_cons in Hnd as [Hn Hnd].
  destruct (Hall urb) as (b & Hb & Hbn & Hu & Hlt); [apply list_elem_of_here|].
  set (id := ur_block_id urb) in *. rewrite Hu in Hlt.
  destruct (repair_block_ok id b m r e Hb Hbn Hlt) as (m1 & r1 & e1 & ok & Hr & Hf1 & Ho1 & b1 & Hb1 & Hres).
  cbn [RepairUnderReplicated]. rewrite Hu, Hr. cbn [mbind option_bind].
  assert (∀ i, i ∈ map ur_block_id urbs → i ≠ id) as Hne by (intros i Hi ->; done).
  destruct (IH m1 r1 e1 Hnd) as (m2 & r2 & e2 & k & -> & Hf2 & Ho2 & Hr2).
  { intros u Hin. destruct (Hall u) as (c & Hc & ?); [by apply list_elem_of_further|]. exists c.
    split; [|done]. rewrite Ho1; [done|]. apply Hne. by apply list_elem_of_fmap_2. }
  cbn [mbind option_bind]. eexists m2, r2, e2, _. split; [done|]. split; [by rewrite Hf2|]. split.
  - intros i [Hi Hi']%not_elem_of_cons. rewrite Ho2 by done. by apply Ho1.
  - intros i c [->|Hi]%elem_of_cons Hc.
    + rewrite Hb in Hc. injection Hc as <-. exists b1. by rewrite Ho2.
    + apply Hr2; [done|]. rewrite Ho1; [done|by apply Hne].
Qed.

(** One round of repair, against data nodes that serve reads and accept copies: what
    the monitor does once the data nodes answer as they should, which those of this
    repository never do ([repair_never_succeeds]).  After [RepairReplicas] every block of a file that had
    a live replica has at least three live replicas, or a replica on every live
    node with room; no location is forgotten, and neither the files nor the sizes
    change. *)
Theorem RepairReplicas_restores m fd e :
  (∀ i b, GetBlock i m = Some b → NoDup (block_locations b)) →
  ∃ m' fd' e', RepairReplicas ser_req par_resp call (m, nodes, fd, e) = Some (m', nodes, fd', e') ∧
    files_ m' = files_ m ∧
    ∀ i b, GetBlock i m = Some b → ∃ b', GetBlock i m' = Some b' ∧
      block_locations b ⊆ block_locations b' ∧ block_size b' = block_size b ∧
      (i ∈ file_block_ids m → alive_replicas nodes (block_locations b) ≠ [] →
        kReplicationFactor <= zlen (alive_replicas nodes (block_locations b')) ∨
        ∀ dn, has_room nodes dn → dn ∈ block_locations b').
Proof using fetch_ok push_ok nodes_ids nodes_size.
  intros Hnd.
  pose proof (λ u, scan_blocks_spec m nodes ∅ (file_block_ids m) u) as Hscan.
  pose proof (scan_blocks_ids m nodes ∅ (file_block_ids m)) as Hids.
  remember (scan_blocks m nodes ∅ (file_block_ids m)) as urbs eqn:Hurbs.
  destruct (RepairUnderReplicated_ok urbs m (fd_replicator fd) e) as (m' & r' & e' & k & Hrep & Hf & Ho & Hr).
  { done. }
  { intros u (bid & b & Hin & _ & Hb & -> & Hlt)%Hscan. exists b. by split_and!; [|eapply Hnd|..]. }
  assert (∃ fd', RepairReplicas ser_req par_resp call (m, nodes, fd, e) = Some (m', nodes, fd', e'))
    as [fd' ->].
  { unfold RepairReplicas, ScanUnderReplicated. rewrite <- Hurbs.
    destruct urbs as [|u us]; [|rewrite Hrep; by eexists].
    cbn [RepairUnderReplicated] in Hrep. injection Hrep as <- _ <- _. by exists fd. }
  exists m', fd', e'. split; [done|]. split; [done|]. intros i b Hb.
  destruct (decide (i ∈ map ur_block_id urbs)) as [Hin|Hout].
  - destruct (Hr i b Hin Hb) as (b' & Hb' & Hs & Hz & Hres). exists b'. by split_and!.
  - exists b. rewrite Ho by done. split; [done|]. split; [done|]. split; [done|]. intros Hi Hal. left.
    destruct (Z.le_gt_cases kReplicationFactor (zlen (alive_replicas nodes (block_locations b)))) as [|Hlt]; [done|].
    exfalso. apply Hout. apply (list_elem_of_fmap_2 ur_block_id _ (classify nodes i (block_locations b))).
    apply Hscan. exists i, b. split; [done|]. split; [set_solver|]. split; [done|]. split; [done|].
    change (int32 (zlen (alive_replicas nodes (block_locations b))) < kReplicationFactor).
    rewrite int32_zlen; [done|]. unfold kReplicationFactor in *. lia.
Qed.
End Restore.

(** * A repair against the data nodes of this repository *)

Section Refused.
Context `{Iteration} (crc32 : bytes → Z).
Context (ser_req : DataNodeRequest → option bytes) (par_req : bytes → option DataNodeRequest).
Context (ser_resp : DataNodeResponse → option bytes) (par_resp : bytes → option DataNodeResponse).
Context (par_empty : ∀ r, par_req [] = Some r → dq_op r = WRITE_BLOCK).
Context (par_ser_req : ∀ r d, ser_req r = Some d → par_req d = Some r).
Context (par_ser_resp : ∀ r d, ser_resp r = Some d → par_resp d = Some r).
Context (now : Z) (fuel : nat) (nodes : DataNodeManager).

(** A network of data nodes whose disks are all in order. *)
Definition dn_call : bytes → Z → bytes → Network → Network * option bytes :=
  net_call crc32 ser_req par_req ser_resp par_resp (λ _, all_good) now fuel.

Lemma PushBlock_refused target id data e e' b :
  PushBlock ser_req par_resp dn_call target id data e = Some (e', b) → b = false.
Proof using par_empty par_ser_req par_ser_resp.
  unfold PushBlock, exchange. destruct (split_address target) as [[[host port]|]|]; cbn [mbind option_bind];
    [|by intros [= _ <-]|done].
  set (req := write_request id (mkWriteReq id data [])). set (d := default [] (ser_req req)).
  assert (∀ r, par_req d = Some r → dq_op r = WRITE_BLOCK) as Hd.
  { subst d. destruct (ser_req req) as [d|] eqn:Hs; [|exact par_empty].
    intros r. change (default [] (Some d)) with d. rewrite (par_ser_req req d Hs). by intros [= <-]. }
  destruct (dn_call host (port mod 2 ^ 16) d e) as [e1 reply] eqn:Hc.
  cbn [mbind option_bind]. intros [= _ <-]. destruct reply as [reply|]; [|done].
  cbn [mbind option_bind]. destruct (par_resp reply) as [resp|] eqn:Hr; [|done].
  unfold dn_call in Hc. destruct fuel as [|k]; [done|].
  destruct (par_req d) as [r|] eqn:Hp; cycle 1.
  { cbn [net_call] in Hc. destruct (e !! _); [|done]. unfold HandleConnection in Hc. by rewrite Hp in Hc. }
  by destruct (net_call_good crc32 ser_req par_req ser_resp par_resp (λ _, all_good) now par_ser_resp k
    host (port mod 2 ^ 16) d e e1 reply r resp eq_refl Hp (Hd r eq_refl) Hc Hr) as [? _].
Qed.

Lemma Replicate_refused task m r e w res :
  Replicate ser_req par_resp dn_call task (m, r, e) = Some (w, res) →
  fst (fst w) = m ∧ res_success res = false.
Proof using par_empty par_ser_req par_ser_resp.
  unfold Replicate. destruct (FetchBlock _ _ _ _ _ e) as [[e1 [data|]]|]; cbn [mbind option_bind];
    [|by intros [= <- <-]|done].
  destruct (PushBlock _ _ _ _ _ data e1) as [[e2 b]|] eqn:Hp; [|done]. cbn [mbind option_bind].
  apply PushBlock_refused in Hp as ->. cbn [negb]. by intros [= <- <-].
Qed.

Lemma replicate_all_refused id source targets m r e w ok :
  replicate_all ser_req par_resp dn_call id source targets (m, r, e) = Some (w, ok) →
  fst (fst w) = m ∧ (targets ≠ [] → ok = false).
Proof using par_empty par_ser_req par_ser_resp.
  revert m r e w ok. induction targets as [|t targets IH]; intros m r e w ok; cbn [replicate_all].
  { by intros [= <- <-]. }
  destruct (Replicate _ _ _ _ (m, r, e)) as [[[[m1 r1] e1] res]|] eqn:Hr; [|done].
  apply Replicate_refused in Hr as [Hm Hres]. cbn [fst] in Hm. subst m1. cbn [mbind option_bind].
  destruct (replicate_all _ _ _ _ _ targets (m, r1, e1)) as [[w2 ok2]|] eqn:Ha; [|done].
  cbn [mbind option_bind]. intros [= <- <-]. rewrite Hres. apply IH in Ha as [? _]. done.
Qed.

Lemma repair_block_refused urb m r e w ok :
  repair_block ser_req par_resp dn_call nodes urb (m, r, e) = Some (w, ok) →
  fst (fst w) = m ∧ ok = false.
Proof using par_empty par_ser_req par_ser_resp.
  unfold repair_block. destruct (ur_existing_locations urb) as [|source rest]; [by intros [= <- <-]|].
  destruct (_ <=? 0); [by intros [= <- <-]|].
  destruct (SelectTargetNodes nodes urb _) as [|t ts]; [by intros [= <- <-]|].
  intros [? Hok]%replicate_all_refused. split; [done|by apply Hok].
Qed.

(** With the data nodes of this repository no repair ever succeeds.  They
    answer every copy with failure although their disks are in order, so whatever
    blocks are handed to [RepairUnderReplicated], none counts as repaired and the
    metadata store stays as it was. *)
Theorem repair_never_succeeds urbs m r e w k :
  RepairUnderReplicated ser_req par_resp dn_call nodes urbs (m, r, e) = Some (w, k) →
  fst (fst w) = m ∧ k = 0.
Proof using par_empty par_ser_req par_ser_resp.
  revert m r e w k. induction urbs as [|urb urbs IH]; intros m r e w k; cbn [RepairUnderReplicated].
  { by intros [= <- <-]. }
  destruct (repair_block _ _ _ nodes urb (m, r, e)) as [[[[m1 r1] e1] ok]|] eqn:Hb; [|done].
  apply repair_block_refused in Hb as [Hm ->]. cbn [fst] in Hm. subst m1. cbn [mbind option_bind].
  destruct (RepairUnderReplicated _ _ _ nodes urbs (m, r1, e1)) as [[w2 k2]|] eqn:Hr; [|done].
  cbn [mbind option_bind]. intros [= <- <-]. by apply IH in Hr.
Qed.
End Refused.

(** * The health report *)

Section Health.
Context `{Iteration} (m : MetadataStore) (nodes : DataNodeManager).
Context (nodes_size : Z.of_nat (size nodes) < 2 ^ 31).
Context (no_duplicates : ∀ i b, GetBlock i m = Some b → NoDup (block_locations b)).

Lemma health_blocks_spec visited bids h :
  let h' := health_blocks m nodes visited bids h in
  under_replicated h' + lost_blocks h' =
    under_replicated h + lost_blocks h + zlen (scan_blocks m nodes visited bids) ∧
  ((∀ i, i ∈ bids → is_Some (GetBlock i m)) →
    total_blocks h' - (healthy_blocks h' + under_replicated h' + lost_blocks h' + over_replicated h') =
    total_blocks h - (healthy_blocks h + under_replicated h + lost_blocks h + over_replicated h)) ∧
  alive_datanodes h' = alive_datanodes h ∧ dead_datanodes h' = dead_datanodes h.
Proof using nodes_size no_duplicates.
  revert visited h. induction bids as [|x bids IH]; intros visited h; cbn [health_blocks scan_blocks].
  { rewrite zlen_nil. split_and!; [lia|done|done|done]. }
  assert (∀ P : Prop, ((∀ i, i ∈ bids → is_Some (GetBlock i m)) → P) →
    (∀ i, i ∈ x :: bids → is_Some (GetBlock i m)) → P) as Hsub.
  { intros P HP Hi. apply HP. intros i Hin. apply Hi. by apply list_elem_of_further. }
  case_bool_decide.
  { destruct (IH visited h) as (F1 & F2 & F3 & F4). split; [exact F1|]. split; [|by split]. refine (Hsub _ _). exact F2. }
  set (h1 := mkHealth (total_blocks h + 1) _ _ _ _ _ _).
  destruct (GetBlock x m) as [b|] eqn:Hb; cycle 1.
  { destruct (IH ({[x]} ∪ visited) h1) as (E1 & E2 & E3). split_and!; [exact E1| |apply E3..].
    intros Hi. destruct (Hi x) as [? Hx]; [apply list_elem_of_here|congruence]. }
  set (k := zlen (filter (λ dn, dn ∈ alive_set nodes) (block_locations b))).
  assert (ur_current_replicas (classify nodes x (block_locations b)) = k) as Hk.
  { apply int32_zlen, (alive_zlen nodes nodes_size); [by eapply NoDup_filter, no_duplicates|].
    by intros y [? _]%list_elem_of_filter. }
  rewrite Hk. change (ur_target_replicas _) with kReplicationFactor.
  destruct (IH ({[x]} ∪ visited) (count_block k h1)) as (E1 & E2 & E3 & E4).
  assert (0 <= k) as Hk0 by apply zlen_nonneg.
  unfold count_block in E1, E2, E3, E4. unfold kReplicationFactor in *. unfold count_block, kReplicationFactor.
  destruct (Z.eqb_spec k 0), (Z.ltb_spec k 3), (Z.eqb_spec k 3); try lia;
    rewrite ?zlen_cons, E1, E3, E4; cbn [total_blocks healthy_blocks under_replicated lost_blocks
      over_replicated alive_datanodes dead_datanodes h1] in *;
    (split; [lia|]; split; [|done]; apply Hsub; intros Hi; specialize (E2 Hi); lia).
Qed.

(** The health report agrees with the scan: the blocks counted as
    under-replicated or lost are exactly those [ScanUnderReplicated] returns; if
    every block of a file is in the block table, the four classes add up to the
    total; and every node that is not alive counts as dead, the suspected ones
    included. *)
Theorem GetClusterHealth_agrees :
  let h := GetClusterHealth m nodes in
  under_replicated h + lost_blocks h = zlen (ScanUnderReplicated m nodes) ∧
  ((∀ i, i ∈ file_block_ids m → is_Some (GetBlock i m)) →
    total_blocks h = healthy_blocks h + under_replicated h + lost_blocks h + over_replicated h) ∧
  dead_datanodes h = Z.of_nat (size (filter (λ x, dn_status (snd x) ≠ ALIVE) nodes)).
Proof using nodes_size no_duplicates.
  intros h. unfold h, GetClusterHealth, ScanUnderReplicated.
  set (h0 := mkHealth 0 0 0 0 0 _ _). 
  destruct (health_blocks_spec ∅ (file_block_ids m) h0) as (E1 & E2 & _ & E4).
  split; [exact E1|]. split.
  { intros Hi. specialize (E2 Hi). cbn [h0 total_blocks healthy_blocks under_replicated lost_blocks over_replicated] in E2. lia. }
  rewrite E4. cbn [h0 dead_datanodes]. unfold TotalCount.
  assert (zlen (GetAliveDataNodes nodes) = Z.of_nat (size (filter (λ x, dn_status (snd x) = ALIVE) nodes))) as ->.
  { unfold zlen, GetAliveDataNodes. f_equal. rewrite elements_of_perm, map_filter_alt.
    rewrite map_size_list_to_map.
    - clear. induction (map_to_list nodes) as [|[i n] l IH]; [done|]. cbn [map snd]. rewrite !filter_cons.
      cbn [snd]. case_decide; cbn [length]; by rewrite IH.
    - pose proof (NoDup_fst_map_to_list nodes) as Hnd.
      eapply sublist_NoDup; [exact Hnd|]. clear. induction (map_to_list nodes) as [|x l IH]; [constructor|].
      rewrite filter_cons. case_decide; by constructor. }
  pose proof (map_filter_union_complement (λ x : bytes * DataNodeInfo, dn_status (snd x) = ALIVE) nodes) as Hu.
  apply (f_equal size) in Hu. rewrite map_size_disj_union in Hu by apply map_disjoint_filter_complement.
  rewrite int32_small by lia. unfold not in *. lia.
Qed.
End Health.

(** * Concrete clusters *)

Definition demo_node (id : string) (s : DataNodeStatus) : bytes * DataNodeInfo :=
  (str id, mkDataNode (str id) (str "h") 1 s 0 (2 * kBlockSize) 0).

Definition demo_members : DataNodeManager :=
  list_to_map [demo_node "h:1" ALIVE; demo_node "h:2" SUSPECT; demo_node "h:3" ALIVE; demo_node "h:4" ALIVE;
    demo_node "h:5" ALIVE].

(** Block 1 has one live replica of two. *)
Definition demo_tables : MetadataStore :=
  mkStore {[ str "/a" := mkFile (str "/a") 5 0 0 [1; 2] ]}
    {[ 1 := mkBlock 1 5 [str "h:1"; str "h:2"]; 2 := mkBlock 2 5 [str "h:1"; str "h:3"; str "h:4"] ]}.

Definition willing (_ : bytes) (_ : Z) (_ : bytes) (e : unit) : unit * option bytes := (e, Some []).
Definition yes (_ : bytes) : option DataNodeResponse :=
  Some (mkDnResp true [] 0 None (Some (mkReadResp true (str "data")))).

Lemma demo_ids id n : demo_members !! id = Some n → dn_id n = id.
Proof.
  intros Hn. apply elem_of_list_to_map_2 in Hn.
  repeat (apply elem_of_cons in Hn as [[= -> ->]|Hn]; [done|]). by apply elem_of_nil in Hn.
Qed.

Lemma demo_locations i b : GetBlock i demo_tables = Some b → NoDup (block_locations b).
Proof.
  unfold GetBlock. cbn [demo_tables blocks_]. intros [[_ <-]|[_ [_ <-]%lookup_singleton_Some]]%lookup_insert_Some;
    apply (bool_decide_unpack _); by vm_compute.
Qed.

(** The addresses of the members can be dialled. *)
Lemma demo_exchange dn req :
  dn ∈ alive_set demo_members →
  exchange (λ _, Some []) yes willing dn req tt = Some (tt, yes []).
Proof.
  intros Hdn. apply (alive_set_elem demo_members demo_ids) in Hdn as (n & Hn & _).
  apply elem_of_list_to_map_2 in Hn.
  repeat (apply elem_of_cons in Hn as [[= -> ->]|Hn]; [by vm_compute|]). by apply elem_of_nil in Hn.
Qed.

Lemma RepairReplicas_restores_witness :
  ∃ m' fd' e', RepairReplicas (λ _, Some []) yes willing
      (demo_tables, demo_members, mkDetector (mkReplicator 0 0) 0 0, tt) = Some (m', demo_members, fd', e') ∧
    files_ m' = files_ demo_tables ∧
    ∀ i b, GetBlock i demo_tables = Some b → ∃ b', GetBlock i m' = Some b' ∧
      block_locations b ⊆ block_locations b' ∧ block_size b' = block_size b ∧
      (i ∈ file_block_ids demo_tables → alive_replicas demo_members (block_locations b) ≠ [] →
        kReplicationFactor <= zlen (alive_replicas demo_members (block_locations b')) ∨
        ∀ dn, has_room demo_members dn → dn ∈ block_locations b').
Proof.
  apply (RepairReplicas_restores (λ _, Some []) yes willing demo_members demo_ids); [by vm_compute| | |].
  - intros dn id [] Hdn. exists tt, (str "data"). unfold FetchBlock. by rewrite demo_exchange.
  - intros dn id data [] Hdn. exists tt. unfold PushBlock. by rewrite demo_exchange.
  - apply demo_locations.
Defined.

Lemma GetClusterHealth_agrees_witness :
  let h := GetClusterHealth demo_tables demo_members in
  under_replicated h + lost_blocks h = zlen (ScanUnderReplicated demo_tables demo_members) ∧
  ((∀ i, i ∈ file_block_ids demo_tables → is_Some (GetBlock i demo_tables)) →
    total_blocks h = healthy_blocks h + under_replicated h + lost_blocks h + over_replicated h) ∧
  dead_datanodes h = Z.of_nat (size (filter (λ x, dn_status (snd x) ≠ ALIVE) demo_members)).
Proof.
  apply (GetClusterHealth_agrees demo_tables demo_members); [by vm_compute|apply demo_locations].
Defined.

(** The repair of block 1 in a network of this repository's data nodes. *)
Definition disks : Network :=
  {[ (str "h", 1) := fst (bs_run sum_crc [OpWrite all_good 6 1 (str "hello")] (mkBlockStore ∅ ∅));
     (str "h", 3) := mkBlockStore ∅ ∅; (str "h", 4) := mkBlockStore ∅ ∅; (str "h", 5) := mkBlockStore ∅ ∅ ]}.

Definition repair_requests : list (DataNodeRequest * bytes) :=
  [(read_request 1 (mkReadReq 1 0 0), str "read"); (write_request 1 (mkWriteReq 1 (str "hello") []), str "write")].
Definition repair_answers : list (DataNodeResponse * bytes) :=
  [(mkDnResp true [] 1 None (Some (mkReadResp true (str "hello"))), str "hello");
   (mkDnResp false (str "Failed to write block to disk") 1
      (Some (mkWriteResp false (str "Failed to write block to disk"))) None, str "failed")].

Definition demo_repair : option (World (E := Network) * Z) :=
  RepairUnderReplicated (table_ser repair_requests) (table_par repair_answers)
    (dn_call sum_crc (table_ser repair_requests) (table_par repair_requests) (table_ser repair_answers)
       (table_par repair_answers) 0 3)
    demo_members (ScanUnderReplicated demo_tables demo_members) (demo_tables, mkReplicator 0 0, disks).

Definition demo_outcome : World (E := Network) * Z := default (demo_tables, mkReplicator 0 0, disks, 0) demo_repair.

(** The copies were made, and nobody knows. *)
Lemma repair_never_succeeds_witness :
  HasBlock 1 (default (mkBlockStore ∅ ∅) (snd (fst demo_outcome) !! (str "h", 4))) = true ∧
  fst (fst (fst demo_outcome)) = demo_tables ∧ snd demo_outcome = 0.
Proof.
  split; [by vm_compute|].
  assert (is_Some demo_repair) as [[w k] Hw] by (apply (bool_decide_unpack _); vm_compute; reflexivity).
  assert (demo_outcome = (w, k)) as -> by (unfold demo_outcome; by rewrite Hw).
  apply (repair_never_succeeds sum_crc (table_ser repair_requests) (table_par repair_requests)
    (table_ser repair_answers) (table_par repair_answers))
    with (now := 0) (fuel := 3%nat) (nodes := demo_members)
      (urbs := ScanUnderReplicated demo_tables demo_members) (r := mkReplicator 0 0) (e := disks).
  - done.
  - intros r d. apply table_roundtrip. apply (bool_decide_unpack _). by vm_compute.
  - intros r d. apply table_roundtrip. apply (bool_decide_unpack _). by vm_compute.
  - exact Hw.
Defined.
