(* ===== verification/HaServer.v ===== *)
(** The high-availability name node: src/namenode/namenode_ha_server.cc.

    The server is the state machine of a Raft node: its tables are the state the
    [apply_cb_], [snapshot_cb_] and [restore_cb_] callbacks of Raft.v work on, and
    a client's write goes through [Propose].  The clocks and the random engine are
    read from an environment.  The members [next_block_id_], [propose_results_]
    and its mutex are never used by the code and have no counterpart. *)
From S2P Require Import Prelude Raft RaftRpc RaftDurable RaftReplication Metadata NameNode.

(** * Snapshot messages *)

(** [MetadataStoreSnapshot] of raft.proto, and its two entries. *)
Record FileEntry := mkFileEntry {
  fe_path : bytes; fe_size : Z; fe_create_time : Z; fe_modify_time : Z; fe_blocks : list Z }.
Record BlockEntry := mkBlockEntry { be_block_id : Z; be_size : Z; be_locations : list bytes }.
Record MetadataStoreSnapshot := mkStoreSnapshot {
  snap_files : list FileEntry; snap_blocks : list BlockEntry }.

#[export] Instance FileEntry_eq_dec : EqDecision FileEntry.
Proof. solve_decision. Defined.
#[export] Instance BlockEntry_eq_dec : EqDecision BlockEntry.
Proof. solve_decision. Defined.
#[export] Instance MetadataStoreSnapshot_eq_dec : EqDecision MetadataStoreSnapshot.
Proof. solve_decision. Defined.

(** * The state machine *)

Record HaState (Env : Type) := mkHa {
  ha_metadata_ : MetadataStore;
  ha_block_manager_ : BlockManager;
  ha_dn_manager_ : DataNodeManager;
  ha_env : Env }.
Arguments mkHa {Env}.
Arguments ha_metadata_ {Env}.
Arguments ha_block_manager_ {Env}.
Arguments ha_dn_manager_ {Env}.
Arguments ha_env {Env}.

Definition set_ha_metadata {Env : Type} (m : MetadataStore) (s : HaState Env) : HaState Env :=
  mkHa m (ha_block_manager_ s) (ha_dn_manager_ s) (ha_env s).
Definition set_ha_block_manager {Env : Type} (b : BlockManager) (s : HaState Env) : HaState Env :=
  mkHa (ha_metadata_ s) b (ha_dn_manager_ s) (ha_env s).
Definition set_ha_dn_manager {Env : Type} (d : DataNodeManager) (s : HaState Env) : HaState Env :=
  mkHa (ha_metadata_ s) (ha_block_manager_ s) d (ha_env s).
Definition set_ha_env {Env : Type} (e : Env) (s : HaState Env) : HaState Env :=
  mkHa (ha_metadata_ s) (ha_block_manager_ s) (ha_dn_manager_ s) e.

Section HaServer.
Context `{Iteration} {Env : Type}.
(** The wall clock of the tables. *)
Context (clock : Env → Z).

Abbreviation Ha := (HaState Env).

(** ** Apply handlers *)

Definition ApplyCreateFile (path : bytes) (s : Ha) : Ha :=
  set_ha_metadata (fst (CreateFile (clock (ha_env s)) path (ha_metadata_ s))) s.

Definition ApplyDeleteFile (path : bytes) (s : Ha) : Ha :=
  match GetFile path (ha_metadata_ s) with
  | None => s
  | Some f =>
      let m := delete_blocks (file_blocks f) (ha_metadata_ s) in
      set_ha_metadata (fst (DeleteFile path m)) s
  end.

(** [None] is the undefined behaviour of [AllocateBlock]; its exception is
    caught and leaves the tables as they are. *)
Definition ApplyAllocateBlock (path : bytes) (s : Ha) : option Ha :=
  match GetFile path (ha_metadata_ s) with
  | None => Some s
  | Some f =>
      match GetAliveDataNodes (ha_dn_manager_ s) with
      | [] => Some s
      | alive_nodes =>
          '(b, r) ← AllocateBlock alive_nodes (ha_block_manager_ s);
          let s := set_ha_block_manager b s in
          match r with
          | None => Some s
          | Some block =>
              let m := CommitBlock block (ha_metadata_ s) in
              let f := mkFile (file_path f) (file_size f) (file_create_time f) (file_modify_time f)
                         (file_blocks f ++ [block_id block]) in
              Some (set_ha_metadata (fst (UpdateFile (clock (ha_env s)) path f m)) s)
          end
      end
  end.

Context (ParseRequest : bytes → option NameNodeRequest).

(** The [switch] of [OnApplyCommitted], on the parsed request. *)
Definition apply_request (req : NameNodeRequest) (s : Ha) : option Ha :=
  match req_op req with
  | CREATE_FILE => Some (ApplyCreateFile (req_create_file req) s)
  | DELETE_FILE => Some (ApplyDeleteFile (req_delete_file req) s)
  | ALLOCATE_BLOCK => ApplyAllocateBlock (req_allocate_block req) s
  | _ => Some s
  end.

Definition OnApplyCommitted (index : Z) (command : bytes) (s : Ha) : option Ha :=
  match ParseRequest command with
  | None => Some s
  | Some req => apply_request req s
  end.

(** The callback given to the Raft node; [OnApplyCommitted] returns unless the
    data nodes number 2^31 or more. *)
Definition apply_cb (index : Z) (command : bytes) (s : Ha) : Ha :=
  default s (OnApplyCommitted index command s).

(** ** Snapshots *)

Context (SerializeStore : MetadataStoreSnapshot → bytes).
Context (ParseStore : bytes → option MetadataStoreSnapshot).

Definition file_entry (f : FileInfo) : FileEntry :=
  mkFileEntry (file_path f) (file_size f) (file_create_time f) (file_modify_time f) (file_blocks f).

Definition block_entry (b : BlockInfo) : BlockEntry :=
  mkBlockEntry (block_id b) (block_size b) (block_locations b).

Definition block_entries (m : MetadataStore) (f : FileInfo) : list BlockEntry :=
  omap (λ bid, block_entry <$> GetBlock bid m) (file_blocks f).

Definition store_snapshot (m : MetadataStore) : MetadataStoreSnapshot :=
  let files := ListFiles [] m in
  mkStoreSnapshot (map file_entry files) (mjoin (map (block_entries m) files)).

Definition TakeMetadataSnapshot (s : Ha) : bytes := SerializeStore (store_snapshot (ha_metadata_ s)).

Definition restore_block (m : MetadataStore) (be : BlockEntry) : MetadataStore :=
  AddBlock (mkBlock (be_block_id be) (be_size be) (be_locations be)) m.

(** [DeleteFile], [CreateFile] and [UpdateFile], which stamps the time anew. *)
Definition restore_file (now : Z) (m : MetadataStore) (fe : FileEntry) : MetadataStore :=
  let fi := mkFile (fe_path fe) (fe_size fe) (fe_create_time fe) (fe_modify_time fe) (fe_blocks fe) in
  let m := fst (DeleteFile (fe_path fe) m) in
  let m := fst (CreateFile now (fe_path fe) m) in
  fst (UpdateFile now (fe_path fe) fi m).

Definition RestoreMetadataSnapshot (data : bytes) (s : Ha) : Ha * bool :=
  match ParseStore data with
  | None => (s, false)
  | Some snap =>
      let m := foldl restore_block (ha_metadata_ s) (snap_blocks snap) in
      let m := foldl (restore_file (clock (ha_env s))) m (snap_files snap) in
      (set_ha_metadata m s, true)
  end.

(** The callback given to the Raft node, which does not look at the result. *)
Definition restore_cb (data : bytes) (s : Ha) : Ha := fst (RestoreMetadataSnapshot data s).

(** ** Direct handlers *)

Definition HandleGetFileBlocks (path : bytes) (s : Ha) : NameNodeResponse :=
  match GetFile path (ha_metadata_ s) with
  | None => error (str "File not found: " ++ path)
  | Some f =>
      file_blocks_response (mkFileBlocks (file_path f) (file_size f)
        (map (block_location (ha_metadata_ s)) (file_blocks f)))
  end.

Definition HandleListFiles (dir : bytes) (s : Ha) : NameNodeResponse :=
  list_response (map file_summary (ListFiles dir (ha_metadata_ s))).

Definition HandleRegisterDN (req : RegisterDataNodeRequest) (s : Ha) : Ha * NameNodeResponse :=
  let dn := mkDataNode (reg_datanode_id req) (reg_host req) (reg_port req) ALIVE 0
              (reg_free_space req) 0 in
  (set_ha_dn_manager (RegisterDataNode (clock (ha_env s)) dn (ha_dn_manager_ s)) s, ok).

Definition HandleHeartbeat (req : HeartbeatRequest) (s : Ha) : Ha * NameNodeResponse :=
  match Metadata.HandleHeartbeat (clock (ha_env s)) (hb_datanode_id req) (hb_free_space req)
          (int32 (hb_block_count req)) (ha_dn_manager_ s) with
  | (d, true) => (set_ha_dn_manager d s, ok)
  | (d, false) =>
      (set_ha_dn_manager d s, error (str "DataNode not registered: " ++ hb_datanode_id req))
  end.

Definition HandleBlockReport (req : BlockReportRequest) (s : Ha) : Ha * NameNodeResponse :=
  (set_ha_metadata (foldl (report_block (br_datanode_id req)) (ha_metadata_ s) (br_blocks req)) s, ok).

(** ** Writes *)

Context (steady : Env → Z) (random : Z → Z → Env → Z * Env).
Context (SerializeRequest : NameNodeRequest → option bytes).
Context (SerializeResponse : NameNodeResponse → bytes).
Context (SerializeMessage : RaftMessage → bytes) (ParseMessage : bytes → option RaftMessage).
Context (exchange : bytes → Z → bytes → Env → Env * option (option bytes)).
Context (SerializeSnapshot : SnapshotMetadata → bytes).
Context (ParseSnapshot : bytes → option SnapshotMetadata).

Abbreviation World := (RaftNode * Ha)%type.

(** What the Raft node asks of the environment, on the whole state. *)
Definition ha_now (s : Ha) : Z := steady (ha_env s).
Definition ha_uniform_int (a b : Z) (s : Ha) : Z * Ha :=
  let '(d, e) := random a b (ha_env s) in (d, set_ha_env e s).
Definition ha_exchange (host : bytes) (port : Z) (data : bytes) (s : Ha) : Ha * option (option bytes) :=
  let '(e, r) := exchange host port data (ha_env s) in (set_ha_env e s, r).

(** [OnSendRaftRPC(peer_id, msg)]. *)
Definition OnSendRaftRPC (peer_id : bytes) (msg : RaftMessage) (w : World) : option World :=
  send_rpc ha_now ha_uniform_int (Some apply_cb) SerializeMessage ParseMessage ha_exchange
    peer_id msg w.

(** The [switch] at the end of [ProposeWrite]: the answer is read off the
    tables. *)
Definition write_answer (req : NameNodeRequest) (s : Ha) : NameNodeResponse :=
  match req_op req with
  | CREATE_FILE =>
      match GetFile (req_create_file req) (ha_metadata_ s) with
      | Some _ => ok
      | None => error (str "Failed to create file: " ++ req_create_file req)
      end
  | DELETE_FILE =>
      match GetFile (req_delete_file req) (ha_metadata_ s) with
      | Some _ => error (str "Failed to delete file: " ++ req_delete_file req)
      | None => ok
      end
  | ALLOCATE_BLOCK =>
      match GetFile (req_allocate_block req) (ha_metadata_ s) ≫= λ f, last (file_blocks f) with
      | Some last_bid =>
          allocated last_bid
            (match GetBlock last_bid (ha_metadata_ s) with Some b => block_locations b | None => [] end)
      | None => error (str "Block allocation failed")
      end
  | _ => error (str "Unknown write operation")
  end.

(** [ProposeWrite(req, timeout_ms)]; [wakeups] is what happens while [Propose]
    waits. *)
Definition ProposeWrite (req : NameNodeRequest) (wakeups : list (World → option World)) (w : World) :
    option (World * NameNodeResponse) :=
  let answer r := set_request_id (req_id req) r in
  if negb (IsLeader (fst w)) then
    Some (w, answer (error (str "Not leader. Leader: " ++ GetLeaderId (fst w))))
  else
    match SerializeRequest req with
    | None => Some (w, answer (error (str "Failed to serialize command")))
    | Some command =>
        '(w, result) ← Propose (Some apply_cb) OnSendRaftRPC command wakeups w;
        if negb (pr_is_leader result) then
          Some (w, answer (error (str "Not leader anymore. Leader: " ++ pr_leader_id result)))
        else if negb (pr_committed result) then
          Some (w, answer (error (str "Request timed out (not committed)")))
        else Some (w, answer (write_answer req (snd w)))
    end.

(** The [switch] of [ProcessClientRequest]. *)
Definition on_state {A} (f : Ha → Ha * A) (w : World) : World * A :=
  let '(s, a) := f (snd w) in ((fst w, s), a).

Definition serve_client (req : NameNodeRequest) (wakeups : list (World → option World)) (w : World) :
    option (World * NameNodeResponse) :=
  match req_op req with
  | CREATE_FILE | DELETE_FILE | ALLOCATE_BLOCK => ProposeWrite req wakeups w
  | GET_FILE_BLOCKS => Some (w, HandleGetFileBlocks (req_get_file_blocks req) (snd w))
  | LIST_FILES => Some (w, HandleListFiles (req_list_files req) (snd w))
  | REGISTER_DN => Some (on_state (HandleRegisterDN (req_register_dn req)) w)
  | HEARTBEAT => Some (on_state (HandleHeartbeat (req_heartbeat req)) w)
  | BLOCK_REPORT => Some (on_state (HandleBlockReport (req_block_report req)) w)
  | OTHER_OP _ => Some (w, error (str "Unknown operation"))
  end.

(** [ProcessClientRequest(conn, data)]: the bytes sent back, if any. *)
Definition ProcessClientRequest (data : bytes) (wakeups : list (World → option World)) (w : World) :
    option (World * option bytes) :=
  match ParseRequest data with
  | None => Some (w, None)
  | Some req =>
      '(w, resp) ← serve_client req wakeups w;
      Some (w, Some (SerializeResponse (set_request_id (req_id req) resp)))
  end.

(** ** Construction and the timer *)

Definition ha_raft_config (data_dir raft_host : bytes) (raft_port : Z) (cluster_peers : list bytes) :
    RaftConfig :=
  mkConfig (raft_host ++ str ":" ++ dec raft_port) cluster_peers (data_dir ++ str "/raft")
    2000 500 10000.

(** The constructor, on what the disk holds of the Raft node. *)
Definition HANameNodeServer_new (data_dir raft_host : bytes) (raft_port : Z)
    (cluster_peers : list bytes) (w : Disk) (sf pf : option bytes) (env : Env) : World :=
  (RaftNode_new (ha_raft_config data_dir raft_host raft_port cluster_peers) w sf pf,
   mkHa MetadataStore_new BlockManager_new ∅ env).

(** [Start()], without the servers and threads it starts. *)
Definition HANameNodeServer_Start (w : World) : option World :=
  Start ha_now ha_uniform_int (Some restore_cb) ParseSnapshot w.

(** One turn of the thread of [StartHealthCheckTimer]. *)
Definition health_check_turn (w : World) : option World :=
  let s := set_ha_dn_manager (CheckDataNodeHealth (clock (ha_env (snd w))) (ha_dn_manager_ (snd w)))
             (snd w) in
  let w := (fst w, s) in
  if IsLeader (fst w) && (50 <? GetLogSize (fst w))
  then fst <$> TakeSnapshot (Some TakeMetadataSnapshot) SerializeSnapshot w
  else Some w.
End HaServer.

(** * The replicated name space *)

(** What the commands determine: the blocks of each file, in order, and the next
    identifier. *)
Record View := mkView { v_files : gmap bytes (list Z); v_next : Z }.

Definition view {Env : Type} (s : HaState Env) : View :=
  mkView (file_blocks <$> files_ (ha_metadata_ s)) (next_block_id_ (ha_block_manager_ s)).

(** The effect of one command on it. *)
Definition view_step (v : View) (req : NameNodeRequest) : View :=
  match req_op req with
  | CREATE_FILE =>
      match v_files v !! req_create_file req with
      | None => mkView (<[req_create_file req := []]> (v_files v)) (v_next v)
      | Some _ => v
      end
  | DELETE_FILE => mkView (delete (req_delete_file req) (v_files v)) (v_next v)
  | ALLOCATE_BLOCK =>
      match v_files v !! req_allocate_block req with
      | Some l =>
          mkView (<[req_allocate_block req := l ++ [v_next v]]> (v_files v)) (u64 (v_next v + 1))
      | None => v
      end
  | _ => v
  end.

(** What happens to the tables of one server: committed commands, what its data
    nodes send it, its health check, and the passing of time. *)
Inductive HaEvent (Env : Type) :=
| HaApply (req : NameNodeRequest)
| HaRegister (req : RegisterDataNodeRequest)
| HaHeartbeat (req : HeartbeatRequest)
| HaReport (req : BlockReportRequest)
| HaHealth
| HaTick (env : Env).
Arguments HaApply {Env}.
Arguments HaRegister {Env}.
Arguments HaHeartbeat {Env}.
Arguments HaReport {Env}.
Arguments HaHealth {Env}.
Arguments HaTick {Env}.

Definition commands {Env : Type} (evs : list (HaEvent Env)) : list NameNodeRequest :=
  omap (λ ev, match ev with HaApply req => Some req | _ => None end) evs.

Section Replicas.
Context `{Iteration} {Env : Type} (clock : Env → Z).
Abbreviation Ha := (HaState Env).

Definition ha_step (ev : HaEvent Env) (s : Ha) : option Ha :=
  match ev with
  | HaApply req => apply_request clock req s
  | HaRegister req => Some (fst (HandleRegisterDN clock req s))
  | HaHeartbeat req => Some (fst (HandleHeartbeat clock req s))
  | HaReport req => Some (fst (HandleBlockReport req s))
  | HaHealth =>
      Some (set_ha_dn_manager (CheckDataNodeHealth (clock (ha_env s)) (ha_dn_manager_ s)) s)
  | HaTick env => Some (set_ha_env env s)
  end.

Fixpoint ha_run (evs : list (HaEvent Env)) (s : Ha) : option Ha :=
  match evs with
  | [] => Some s
  | ev :: evs => s ← ha_step ev s; ha_run evs s
  end.

(** The data nodes this server can place a block on. *)
Definition ha_usable (s : Ha) : list DataNodeInfo :=
  usable_nodes (GetAliveDataNodes (ha_dn_manager_ s)).

Definition can_place (s : Ha) : Prop := ha_usable s ≠ [] ∧ zlen (ha_usable s) < 2 ^ 31.

(** Whenever an allocation is applied, the server has a node for it. *)
Fixpoint always_places (evs : list (HaEvent Env)) (s : Ha) : Prop :=
  match evs with
  | [] => True
  | ev :: evs =>
      match ev with HaApply req => req_op req = ALLOCATE_BLOCK → can_place s | _ => True end ∧
      match ha_step ev s with Some s => always_places evs s | None => True end
  end.

Definition cursor_ok (s : Ha) : Prop := 0 <= round_robin_index_ (ha_block_manager_ s).

Lemma alive_usable s : ha_usable s ≠ [] → GetAliveDataNodes (ha_dn_manager_ s) ≠ [].
Proof. intros Hu E. apply Hu. unfold ha_usable. by rewrite E. Qed.

(** An allocation for an existing file, with and without a node for it. *)
Lemma ApplyAllocateBlock_placed path f s :
  GetFile path (ha_metadata_ s) = Some f → can_place s → cursor_ok s →
  ∃ s' locs, ApplyAllocateBlock clock path s = Some s' ∧ locs ≠ [] ∧
    ha_metadata_ s' = mkStore
      (<[path := mkFile (file_path f) (file_size f) (file_create_time f) (clock (ha_env s))
         (file_blocks f ++ [next_block_id_ (ha_block_manager_ s)])]> (files_ (ha_metadata_ s)))
      (<[next_block_id_ (ha_block_manager_ s) :=
         mkBlock (next_block_id_ (ha_block_manager_ s)) 0 locs]> (blocks_ (ha_metadata_ s))) ∧
    next_block_id_ (ha_block_manager_ s') = u64 (next_block_id_ (ha_block_manager_ s) + 1) ∧
    cursor_ok s' ∧ ha_dn_manager_ s' = ha_dn_manager_ s ∧ ha_env s' = ha_env s.
Proof.
  intros Hf [Hu Hz] Hc. unfold ApplyAllocateBlock. rewrite Hf.
  destruct (AllocateBlock_cases _ _ Hz Hc Hu) as (b' & locs & Ha & Hn & Hr & Hl & _).
  pose proof (alive_usable s Hu) as Hal. pose proof (zlen_pos _ Hu) as Hp. unfold ha_usable in *.
  destruct (GetAliveDataNodes (ha_dn_manager_ s)) as [|x l] eqn:E; [done|]. rewrite <- E in *.
  rewrite Ha. cbn [mbind option_bind]. eexists _, locs. split; [reflexivity|]. split.
  { intros ->. rewrite zlen_nil in Hl. unfold kReplicationFactor in Hl. lia. }
  unfold UpdateFile, CommitBlock, AddBlock, set_blocks, cursor_ok.
  cbn [ha_metadata_ ha_block_manager_ ha_dn_manager_ ha_env set_ha_metadata set_ha_block_manager
       files_ block_id file_path file_size file_create_time file_blocks blocks_].
  unfold GetFile in Hf. rewrite Hf. split_and!; try done.
  rewrite Hr. by apply Z.mod_pos_bound.
Qed.

Lemma ApplyAllocateBlock_full path s :
  ha_usable s = [] → ApplyAllocateBlock clock path s = Some s.
Proof.
  unfold ha_usable, ApplyAllocateBlock. intros Hu. destruct (GetFile _ _); [|done].
  destruct (GetAliveDataNodes (ha_dn_manager_ s)) as [|x l] eqn:E; [done|]. rewrite <- E in *.
  unfold AllocateBlock. rewrite Hu. cbn [mbind option_bind]. by destruct s.
Qed.

Lemma report_files dn items m : files_ (foldl (report_block dn) m items) = files_ m.
Proof. apply report_grows. Qed.

(** Every command does to the view what [view_step] says, and nothing else
    touches it. *)
Lemma ha_step_view ev s :
  cursor_ok s →
  match ev with HaApply req => req_op req = ALLOCATE_BLOCK → can_place s | _ => True end →
  ∃ s', ha_step ev s = Some s' ∧ cursor_ok s' ∧
    view s' = foldl view_step (view s) (commands [ev]).
Proof.
  intros Hc Hp. destruct ev as [req|req|req|req| |env]; cbn [ha_step commands omap list_omap foldl].
  - unfold apply_request, view_step. destruct (req_op req) eqn:Hop; try by eexists.
    + eexists. split; [done|]. split; [done|]. unfold ApplyCreateFile, CreateFile, view.
      cbn [v_files v_next]. rewrite lookup_fmap.
      destruct (files_ (ha_metadata_ s) !! req_create_file req) eqn:Hf; cbn [fmap option_fmap option_map].
      * by destruct s.
      * cbn [fst ha_metadata_ set_ha_metadata ha_block_manager_ files_ set_files].
        by rewrite fmap_insert.
    + unfold view at 2 3. cbn [v_files v_next]. rewrite lookup_fmap.
      destruct (files_ (ha_metadata_ s) !! req_allocate_block req) as [f|] eqn:Hf.
      * destruct (ApplyAllocateBlock_placed _ f s Hf (Hp eq_refl) Hc) as (s' & locs & -> & _ & Hm & Hn & Hc' & _).
        exists s'. split_and!; [done|done|]. unfold view. rewrite Hm, Hn. cbn [files_].
        by rewrite fmap_insert.
      * exists s. split_and!; [|done|done]. unfold ApplyAllocateBlock, GetFile. by rewrite Hf.
    + eexists. split; [done|]. unfold ApplyDeleteFile, GetFile, view. cbn [v_files v_next].
      destruct (files_ (ha_metadata_ s) !! req_delete_file req) eqn:Hf.
      * split; [done|]. unfold DeleteFile. cbn [fst ha_metadata_ set_ha_metadata ha_block_manager_ files_ set_files].
        by rewrite delete_blocks_files, fmap_delete.
      * split; [done|]. rewrite delete_id; [done|]. by rewrite lookup_fmap, Hf.
  - by eexists.
  - eexists. split; [done|]. unfold HandleHeartbeat. by destruct (Metadata.HandleHeartbeat _ _ _ _ _) as [? []].
  - eexists. split; [done|]. split; [done|]. unfold HandleBlockReport, view.
    cbn [fst ha_metadata_ set_ha_metadata ha_block_manager_]. by rewrite report_files.
  - by eexists.
  - by eexists.
Qed.

Lemma ha_run_view evs s :
  cursor_ok s → always_places evs s →
  ∃ s', ha_run evs s = Some s' ∧ cursor_ok s' ∧ view s' = foldl view_step (view s) (commands evs).
Proof.
  revert s. induction evs as [|ev evs IH]; intros s Hc Hp; cbn [ha_run always_places] in *.
  { by exists s. }
  destruct Hp as [Hev Hp]. destruct (ha_step_view ev s Hc Hev) as (s1 & E & Hc1 & Hv).
  rewrite E in *. cbn [mbind option_bind]. destruct (IH s1 Hc1 Hp) as (s' & -> & Hc' & Hv').
  exists s'. split_and!; [done..|]. rewrite Hv', Hv, <- foldl_app. f_equal.
  change (ev :: evs) with ([ev] ++ evs). unfold commands. by rewrite omap_app.
Qed.

(** C9: replicas agree.  Two servers with the same name space that apply the same
    commands in the same order end with the same name space, block by block, and
    it is the one the commands define, whatever each has heard of the data nodes
    in between and whatever its clock says, as long as each has a usable data node to
    place a block on whenever an allocation is applied (otherwise
    [ha_missed_allocation_diverges]). *)
Theorem ha_replicas_agree evs1 evs2 s1 s2 :
  view s1 = view s2 → cursor_ok s1 → cursor_ok s2 →
  commands evs1 = commands evs2 → always_places evs1 s1 → always_places evs2 s2 →
  ∃ s1' s2', ha_run evs1 s1 = Some s1' ∧ ha_run evs2 s2 = Some s2' ∧
    view s1' = view s2' ∧ view s1' = foldl view_step (view s1) (commands evs1).
Proof.
  intros Hv Hc1 Hc2 Hcmd Hp1 Hp2.
  destruct (ha_run_view evs1 s1 Hc1 Hp1) as (s1' & -> & _ & Hv1).
  destruct (ha_run_view evs2 s2 Hc2 Hp2) as (s2' & -> & _ & Hv2).
  exists s1', s2'. split_and!; [done|done| |done]. by rewrite Hv1, Hv2, Hv, Hcmd.
Qed.

(** ** A replica that cannot place a block *)

(** The same files, and an identifier counter one behind. *)
Definition one_behind (v1 v2 : View) : Prop :=
  dom (v_files v1) = dom (v_files v2) ∧ v_next v1 = u64 (v_next v2 + 1).

Lemma u64_succ_ne n : u64 (n + 1) ≠ n.
Proof.
  unfold u64. intros E. assert (0 <= n < 2 ^ 64) as Hr by (rewrite <- E; apply Z.mod_pos_bound; done).
  destruct (decide (n + 1 = 2 ^ 64)) as [Hx|Hx].
  - rewrite Hx, Z.mod_same in E by done. lia.
  - rewrite Z.mod_small in E by lia. lia.
Qed.

Lemma view_step_behind v1 v2 req :
  one_behind v1 v2 → one_behind (view_step v1 req) (view_step v2 req).
Proof.
  intros [Hd Hn].
  assert (∀ p, is_Some (v_files v1 !! p) ↔ is_Some (v_files v2 !! p)) as Hp.
  { intros p. rewrite <- !elem_of_dom. by rewrite Hd. }
  unfold view_step. destruct (req_op req); try done.
  - destruct (v_files v1 !! _) eqn:E1; destruct (v_files v2 !! _) eqn:E2; try done.
    + pose proof (proj1 (Hp (req_create_file req)) (mk_is_Some _ _ E1)) as [? ?]. congruence.
    + pose proof (proj2 (Hp (req_create_file req)) (mk_is_Some _ _ E2)) as [? ?]. congruence.
    + split; [|done]. cbn [v_files]. by rewrite !dom_insert_L, Hd.
  - destruct (v_files v1 !! _) eqn:E1; destruct (v_files v2 !! _) eqn:E2; try done.
    + split; cbn [v_files v_next]; [by rewrite !dom_insert_L, Hd|]. by rewrite Hn.
    + pose proof (proj1 (Hp (req_allocate_block req)) (mk_is_Some _ _ E1)) as [? ?]. congruence.
    + pose proof (proj2 (Hp (req_allocate_block req)) (mk_is_Some _ _ E2)) as [? ?]. congruence.
  - split; cbn [v_files v_next]; [by rewrite !dom_delete_L, Hd|done].
Qed.

Lemma view_steps_behind reqs v1 v2 :
  one_behind v1 v2 → one_behind (foldl view_step v1 reqs) (foldl view_step v2 reqs).
Proof.
  revert v1 v2. induction reqs as [|req reqs IH]; intros v1 v2 Hb; [done|].
  cbn [foldl]. by apply IH, view_step_behind.
Qed.

(** A replica that has no data node to place a block on when an allocation is
    applied skips it, and is out of step for good: after any further commands,
    even ones both replicas can serve, its counter is one behind, and the next
    allocation for a file gives it one block on one replica and another on the
    other. *)
Theorem ha_missed_allocation_diverges req path l evs1 evs2 s1 s2 :
  view s1 = view s2 → cursor_ok s1 → cursor_ok s2 →
  req_op req = ALLOCATE_BLOCK → v_files (view s1) !! req_allocate_block req = Some l →
  can_place s1 → ha_usable s2 = [] →
  commands evs1 = commands evs2 →
  (∀ s, apply_request clock req s1 = Some s → always_places evs1 s) → always_places evs2 s2 →
  is_Some (v_files (foldl view_step (view s1) (req :: commands evs1)) !! path) →
  ∃ s1' s2', ha_run (HaApply req :: evs1) s1 = Some s1' ∧ ha_run (HaApply req :: evs2) s2 = Some s2' ∧
    v_next (view s1') = u64 (v_next (view s2') + 1) ∧
    ∀ next, req_op next = ALLOCATE_BLOCK → req_allocate_block next = path →
      v_files (view_step (view s1') next) !! path ≠ v_files (view_step (view s2') next) !! path.
Proof.
  intros Hv Hc1 Hc2 Hop Hl Hp1 Hp2 Hcmd Ha1 Ha2 Hpath.
  destruct (ha_step_view (HaApply req) s1 Hc1 (λ _, Hp1)) as (t1 & E1 & Ht1 & V1).
  cbn [ha_step commands omap list_omap foldl] in E1, V1.
  assert (apply_request clock req s2 = Some s2) as E2.
  { unfold apply_request. rewrite Hop. by apply ApplyAllocateBlock_full. }
  destruct (ha_run_view evs1 t1 Ht1 (Ha1 t1 E1)) as (s1' & R1 & _ & V1').
  destruct (ha_run_view evs2 s2 Hc2 Ha2) as (s2' & R2 & _ & V2').
  cbn [ha_run ha_step]. rewrite E1, E2. cbn [mbind option_bind]. rewrite R1, R2.
  assert (one_behind (view t1) (view s2)) as Hb.
  { rewrite V1, <- Hv. unfold view_step. rewrite Hop, Hl. split; cbn [v_files v_next]; [|done].
    rewrite dom_insert_L. apply set_eq. intros p. rewrite elem_of_union, elem_of_singleton.
    split; [intros [->|?]; [by apply elem_of_dom; eexists|done]|by right]. }
  apply (view_steps_behind (commands evs1)) in Hb. rewrite <- V1', Hcmd, <- V2' in Hb.
  exists s1', s2'. destruct Hb as [Hd Hn]. split_and!; [done|done|done|]. intros next Hnop Hnp.
  assert (is_Some (v_files (view s1') !! path)) as Hp1' by (rewrite V1', V1; exact Hpath).
  pose proof Hp1' as Hp2'. rewrite <- elem_of_dom, Hd, elem_of_dom in Hp2'.
  destruct Hp1' as [l1 Hl1], Hp2' as [l2 Hl2]. unfold view_step. rewrite Hnop, Hnp, Hl1, Hl2.
  cbn [v_files]. rewrite !lookup_insert_eq. intros [= [_ E]%app_inj_tail].
  change (v_next (view s1') = v_next (view s2')) in E. rewrite Hn in E. by apply u64_succ_ne in E.
Qed.
End Replicas.

(** * Snapshots *)

(** The tables are keyed by the path and the identifier in their entries. *)
Definition keyed (m : MetadataStore) : Prop :=
  (∀ path f, files_ m !! path = Some f → file_path f = path) ∧
  (∀ id b, blocks_ m !! id = Some b → block_id b = id).

Definition ha_fresh {Env : Type} (env : Env) : HaState Env :=
  mkHa MetadataStore_new BlockManager_new ∅ env.

Section Snapshot.
Context `{Iteration} {Env : Type} (clock : Env → Z).
Abbreviation Ha := (HaState Env).

Lemma keyed_insert_file path f m : keyed m → file_path f = path → keyed (set_files (<[path := f]> (files_ m)) m).
Proof.
  intros [Hf Hb] Hp. split; [|exact Hb]. intros p g. cbn [files_ set_files].
  rewrite lookup_insert_Some. intros [[<- <-]|[_ Hg]]; [done|by apply Hf].
Qed.

Lemma keyed_insert_block b m : keyed m → keyed (set_blocks (<[block_id b := b]> (blocks_ m)) m).
Proof.
  intros [Hf Hb]. split; [exact Hf|]. intros i c. cbn [blocks_ set_blocks].
  rewrite lookup_insert_Some. intros [[<- <-]|[_ Hg]]; [done|by apply Hb].
Qed.

Lemma keyed_delete_blocks ids m : keyed m → keyed (delete_blocks ids m).
Proof.
  unfold delete_blocks. revert m. induction ids as [|id ids IH]; intros m Hk; [done|].
  cbn [foldl]. apply IH. destruct Hk as [Hf Hb]. split; [exact Hf|]. intros i c.
  unfold DeleteBlock. cbn [fst blocks_ set_blocks]. rewrite lookup_delete_Some. intros [_ ?]. by apply Hb.
Qed.

Lemma keyed_UpdateFile now path f m :
  keyed m → file_path f = path → keyed (fst (UpdateFile now path f m)).
Proof.
  intros Hk Hp. unfold UpdateFile. destruct (files_ m !! path); [|done].
  cbn [fst]. by apply keyed_insert_file.
Qed.

Lemma keyed_report_block dn m item : keyed m → keyed (report_block dn m item).
Proof.
  intros Hk. unfold report_block. set (m1 := UpdateBlockLocation _ _ _).
  assert (keyed m1) as Hk1.
  { unfold m1, UpdateBlockLocation.
    match goal with |- keyed (set_blocks (<[_ := ?b]> _) _) => apply (keyed_insert_block b _ Hk) end. }
  destruct (GetBlock _ _) as [b|]; [|done]. destruct (_ && _); [|done].
  unfold UpdateBlock. cbn [block_id]. destruct (blocks_ m1 !! block_id b); [|done].
  cbn [fst]. apply (keyed_insert_block (mkBlock (block_id b) _ _) _ Hk1).
Qed.

Lemma keyed_report dn items m : keyed m → keyed (foldl (report_block dn) m items).
Proof.
  revert m. induction items as [|item items IH]; intros m Hk; [done|].
  cbn [foldl]. by apply IH, keyed_report_block.
Qed.

Lemma ha_step_keyed ev (s s' : Ha) :
  keyed (ha_metadata_ s) → ha_step clock ev s = Some s' → keyed (ha_metadata_ s').
Proof.
  intros Hk. destruct ev as [req|req|req|req| |env]; cbn [ha_step].
  - unfold apply_request. destruct (req_op req); try (by intros [= <-]).
    + unfold ApplyCreateFile, CreateFile. intros Hs. apply (inj Some) in Hs as <-.
      destruct (files_ _ !! _); [done|]. by apply keyed_insert_file.
    + unfold ApplyAllocateBlock. destruct (GetFile _ _) as [f|] eqn:Hf; [|by intros [= <-]].
      destruct (GetAliveDataNodes _); [by intros [= <-]|].
      destruct (AllocateBlock _ _) as [[b [block|]]|]; cbn [mbind option_bind]; [|by intros [= <-]|done].
      intros Hs. apply (inj Some) in Hs as <-. apply keyed_UpdateFile.
      * by apply (keyed_insert_block block).
      * cbn [file_path]. by apply Hk.
    + intros Hs. apply (inj Some) in Hs as <-. unfold ApplyDeleteFile.
      destruct (GetFile _ _) as [f|]; [|done].
      pose proof (keyed_delete_blocks (file_blocks f) _ Hk) as [Hf Hb]. split; [|exact Hb].
      intros p g. unfold DeleteFile. cbn [fst ha_metadata_ set_ha_metadata files_ set_files].
      rewrite lookup_delete_Some. intros [_ ?]. by apply Hf.
  - by intros [= <-].
  - unfold HandleHeartbeat. destruct (Metadata.HandleHeartbeat _ _ _ _ _) as [? []]; by intros [= <-].
  - intros Hs. apply (inj Some) in Hs as <-. by apply keyed_report.
  - by intros [= <-].
  - by intros [= <-].
Qed.

Lemma ha_run_keyed evs (s s' : Ha) :
  keyed (ha_metadata_ s) → ha_run clock evs s = Some s' → keyed (ha_metadata_ s').
Proof.
  revert s. induction evs as [|ev evs IH]; intros s Hk; cbn [ha_run]; [by intros [= <-]|].
  destruct (ha_step clock ev s) as [s1|] eqn:E; cbn [mbind option_bind]; [|done].
  apply IH. by apply (ha_step_keyed ev s).
Qed.

Lemma fresh_keyed (env : Env) : keyed (ha_metadata_ (ha_fresh env)).
Proof.
  split; intros k x E; unfold ha_fresh, MetadataStore_new in E;
    cbn [ha_metadata_ files_ blocks_] in E; by rewrite lookup_empty in E.
Qed.

(** ** What a snapshot holds *)

Lemma ListFiles_all m f : f ∈ ListFiles [] m ↔ ∃ p, files_ m !! p = Some f.
Proof.
  unfold ListFiles. split.
  - intros ([p g] & -> & [_ Hg]%list_elem_of_filter)%list_elem_of_fmap_1.
    exists p. by apply elem_of_elements.
  - intros [p Hp]. apply (list_elem_of_fmap_2 snd _ (p, f)). apply list_elem_of_filter.
    split; [done|]. by apply elem_of_elements.
Qed.

Lemma ListFiles_NoDup m : keyed m → NoDup (map file_path (ListFiles [] m)).
Proof.
  intros [Hf _]. unfold ListFiles. rewrite map_map.
  set (l := filter _ _). assert (l ⊆ elements_of (files_ m)) as Hsub.
  { intros x [_ Hx]%list_elem_of_filter. done. }
  assert (map (λ x, file_path (snd x)) l = map fst l) as ->.
  { apply map_ext_in. intros [p g] Hx%list_elem_of_In. apply Hsub in Hx.
    apply elem_of_elements in Hx. by apply Hf. }
  eapply sublist_NoDup; [apply (NoDup_elements (files_ m))|].
  subst l. apply (fmap_sublist fst), sublist_filter.
Qed.

(** The entries of the blocks that some file has and the table knows. *)
Lemma block_entries_elem m be :
  be ∈ snap_blocks (store_snapshot m) ↔
  ∃ p f id b, files_ m !! p = Some f ∧ id ∈ file_blocks f ∧ GetBlock id m = Some b ∧ be = block_entry b.
Proof.
  unfold store_snapshot. cbn [snap_blocks]. rewrite list_elem_of_join. split.
  - intros (l & Hbe & (f & -> & Hf)%list_elem_of_fmap_1).
    apply ListFiles_all in Hf as [p Hp].
    apply list_elem_of_omap in Hbe as (id & Hid & (b & Hb & ->)%fmap_Some).
    by exists p, f, id, b.
  - intros (p & f & id & b & Hp & Hid & Hb & ->). exists (block_entries m f). split.
    + apply list_elem_of_omap. exists id. split; [done|]. by rewrite Hb.
    + apply list_elem_of_fmap_2, ListFiles_all. by exists p.
Qed.

(** ** Reading it back *)

Lemma restore_blocks_files bes m : files_ (foldl restore_block m bes) = files_ m.
Proof. revert m. induction bes as [|be bes IH]; intros m; [done|]. cbn [foldl]. by rewrite IH. Qed.

Lemma restore_blocks_old bes m id :
  (id ∉ map be_block_id bes) → GetBlock id (foldl restore_block m bes) = GetBlock id m.
Proof.
  revert m. induction bes as [|be bes IH]; intros m; [done|]. cbn [map foldl].
  intros [Hne Hni]%not_elem_of_cons. rewrite IH by done. unfold restore_block, AddBlock, GetBlock.
  cbn [blocks_ set_blocks block_id]. by rewrite lookup_insert_ne.
Qed.

Lemma restore_blocks_new bes m id b :
  id ∈ map be_block_id bes →
  (∀ be, be ∈ bes → be_block_id be = id → mkBlock (be_block_id be) (be_size be) (be_locations be) = b) →
  GetBlock id (foldl restore_block m bes) = Some b.
Proof.
  revert m. induction bes as [|be bes IH]; intros m Hin Hb; cbn [map foldl] in *.
  { by apply not_elem_of_nil in Hin. }
  destruct (decide (id ∈ map be_block_id bes)) as [Hi|Hni].
  { apply IH; [done|]. intros be' Hbe'. apply Hb. by right. }
  rewrite restore_blocks_old by done. apply elem_of_cons in Hin as [->|?]; [|done].
  unfold restore_block, AddBlock, GetBlock. cbn [blocks_ set_blocks block_id].
  rewrite lookup_insert_eq. f_equal. apply Hb; [left|done].
Qed.

Lemma restore_file_files now m fe :
  files_ (restore_file now m fe) =
    <[fe_path fe := mkFile (fe_path fe) (fe_size fe) (fe_create_time fe) now (fe_blocks fe)]> (files_ m).
Proof.
  unfold restore_file, DeleteFile, CreateFile, UpdateFile. cbn [fst files_ set_files].
  rewrite lookup_delete_eq. cbn [fst files_ set_files]. rewrite lookup_insert_eq.
  cbn [fst files_ set_files file_path file_size file_create_time file_blocks].
  by rewrite insert_insert_eq, insert_delete_eq.
Qed.

Lemma restore_file_blocks now m fe : blocks_ (restore_file now m fe) = blocks_ m.
Proof.
  unfold restore_file, DeleteFile, CreateFile, UpdateFile. cbn [fst files_ set_files].
  rewrite lookup_delete_eq. cbn [fst files_ set_files]. by rewrite lookup_insert_eq.
Qed.

Lemma restore_files_blocks now fes m : blocks_ (foldl (restore_file now) m fes) = blocks_ m.
Proof.
  revert m. induction fes as [|fe fes IH]; intros m; [done|]. cbn [foldl].
  by rewrite IH, restore_file_blocks.
Qed.

Lemma restore_files_old now fes m p :
  (p ∉ map fe_path fes) → files_ (foldl (restore_file now) m fes) !! p = files_ m !! p.
Proof.
  revert m. induction fes as [|fe fes IH]; intros m; [done|]. cbn [map foldl].
  intros [Hne Hni]%not_elem_of_cons. rewrite IH by done.
  by rewrite restore_file_files, lookup_insert_ne.
Qed.

Lemma restore_files_new now fes m fe :
  NoDup (map fe_path fes) → fe ∈ fes →
  files_ (foldl (restore_file now) m fes) !! fe_path fe =
    Some (mkFile (fe_path fe) (fe_size fe) (fe_create_time fe) now (fe_blocks fe)).
Proof.
  revert m. induction fes as [|x fes IH]; intros m; [by intros _ ?%not_elem_of_nil|].
  cbn [map foldl]. intros [Hx Hnd]%NoDup_cons [->|Hfe]%elem_of_cons; [|by apply IH].
  rewrite restore_files_old by done. by rewrite restore_file_files, lookup_insert_eq.
Qed.

Lemma delete_blocks_gone ids m id : id ∈ ids → blocks_ (delete_blocks ids m) !! id = None.
Proof.
  unfold delete_blocks. revert m. induction ids as [|i ids IH]; intros m Hin; [by apply not_elem_of_nil in Hin|].
  cbn [foldl]. destruct (decide (id ∈ ids)); [by apply IH|].
  apply elem_of_cons in Hin as [->|?]; [|done].
  pose proof (delete_blocks_other ids (fst (DeleteBlock i m)) i ltac:(done)) as Ho.
  unfold delete_blocks in Ho. rewrite Ho. apply lookup_delete_eq.
Qed.

(** The file a restored entry becomes. *)
Definition touched (now : Z) (f : FileInfo) : FileInfo :=
  mkFile (file_path f) (file_size f) (file_create_time f) now (file_blocks f).

(** The blocks of the files of a store. *)
Definition owned (m : MetadataStore) (id : Z) : Prop :=
  ∃ p f, files_ m !! p = Some f ∧ id ∈ file_blocks f.

Section Codec.
Context (SerializeStore : MetadataStoreSnapshot → bytes).
Context (ParseStore : bytes → option MetadataStoreSnapshot).

(** Restoring the snapshot of a keyed store. *)
Lemma restore_snapshot (s s0 : Ha) :
  keyed (ha_metadata_ s) →
  ParseStore (SerializeStore (store_snapshot (ha_metadata_ s))) = Some (store_snapshot (ha_metadata_ s)) →
  ∃ m, RestoreMetadataSnapshot clock ParseStore (TakeMetadataSnapshot SerializeStore s) s0 =
      (set_ha_metadata m s0, true) ∧
    (∀ p, files_ m !! p =
      match files_ (ha_metadata_ s) !! p with
      | Some f => Some (touched (clock (ha_env s0)) f)
      | None => files_ (ha_metadata_ s0) !! p
      end) ∧
    (∀ id b, owned (ha_metadata_ s) id → GetBlock id (ha_metadata_ s) = Some b → GetBlock id m = Some b) ∧
    (∀ id, ¬ (owned (ha_metadata_ s) id ∧ is_Some (GetBlock id (ha_metadata_ s))) →
      GetBlock id m = GetBlock id (ha_metadata_ s0)).
Proof.
  intros Hk Hp. unfold RestoreMetadataSnapshot, TakeMetadataSnapshot. rewrite Hp.
  set (snap := store_snapshot (ha_metadata_ s)).
  eexists. split; [reflexivity|]. split; [|split].
  - intros p. destruct (files_ (ha_metadata_ s) !! p) as [f|] eqn:Hf.
    + pose proof (proj1 Hk _ _ Hf) as Hfp.
      pose proof (restore_files_new (clock (ha_env s0)) (snap_files snap)
        (foldl restore_block (ha_metadata_ s0) (snap_blocks snap)) (file_entry f)) as Hr.
      cbn [file_entry fe_path fe_size fe_create_time fe_blocks] in Hr. rewrite Hfp in Hr.
      unfold touched. rewrite Hfp. apply Hr.
      * unfold snap, store_snapshot. cbn [snap_files]. rewrite map_map. by apply ListFiles_NoDup.
      * apply list_elem_of_fmap_2, ListFiles_all. by exists p.
    + rewrite restore_files_old, restore_blocks_files; [done|].
      unfold snap, store_snapshot. cbn [snap_files]. rewrite map_map.
      intros (g & -> & [q Hg]%ListFiles_all)%list_elem_of_fmap_1.
      cbn [fe_path file_entry] in Hf. pose proof (proj1 Hk _ _ Hg) as Hgq. congruence.
  - intros id b (p & f & Hf & Hid) Hb. unfold GetBlock at 1. rewrite restore_files_blocks.
    apply restore_blocks_new.
    + pose proof (proj2 Hk _ _ Hb) as <-. apply (list_elem_of_fmap_2 be_block_id _ (block_entry b)).
      apply block_entries_elem. by exists p, f, (block_id b), b.
    + intros be Hbe Hid'. apply block_entries_elem in Hbe as (p' & f' & id' & b' & _ & _ & Hb' & ->).
      cbn [block_entry be_block_id be_size be_locations] in *.
      pose proof (proj2 Hk _ _ Hb') as Hk'. rewrite <- Hk', Hid', Hb in Hb'. injection Hb' as <-.
      by destruct b.
  - intros id Hno. unfold GetBlock at 1. rewrite restore_files_blocks. apply restore_blocks_old.
    intros (be & -> & Hbe)%list_elem_of_fmap_1.
    apply block_entries_elem in Hbe as (p & f & id & b & Hf & Hid & Hb & ->).
    pose proof (proj2 Hk _ _ Hb) as Hbid. apply Hno. cbn [be_block_id block_entry]. rewrite Hbid.
    split; [by exists p, f|by eexists].
Qed.

Context (codec : ∀ x, ParseStore (SerializeStore x) = Some x).

(** C30: a snapshot keeps the files and the blocks they refer to.  Restoring the
    snapshot of a server that was ever run gives back every file with its size,
    creation time and blocks (the modification time becomes the current one) and
    every block of a file with its size and locations.  Everything else stays as
    the restoring server had it: files the snapshot does not have are not removed,
    and neither the block identifiers nor the data nodes are restored. *)
Theorem ha_snapshot_roundtrip evs env (s s0 : Ha) :
  ha_run clock evs (ha_fresh env) = Some s →
  ∃ s', RestoreMetadataSnapshot clock ParseStore (TakeMetadataSnapshot SerializeStore s) s0 = (s', true) ∧
    (∀ p f, GetFile p (ha_metadata_ s) = Some f →
      GetFile p (ha_metadata_ s') = Some (touched (clock (ha_env s0)) f)) ∧
    (∀ id b, owned (ha_metadata_ s) id → GetBlock id (ha_metadata_ s) = Some b →
      GetBlock id (ha_metadata_ s') = Some b) ∧
    (∀ p, GetFile p (ha_metadata_ s) = None →
      GetFile p (ha_metadata_ s') = GetFile p (ha_metadata_ s0)) ∧
    (∀ id, ¬ (owned (ha_metadata_ s) id ∧ is_Some (GetBlock id (ha_metadata_ s))) →
      GetBlock id (ha_metadata_ s') = GetBlock id (ha_metadata_ s0)) ∧
    ha_block_manager_ s' = ha_block_manager_ s0 ∧ ha_dn_manager_ s' = ha_dn_manager_ s0.
Proof using codec.
  intros Hr. pose proof (ha_run_keyed evs _ _ (fresh_keyed env) Hr) as Hk.
  destruct (restore_snapshot s s0 Hk (codec _)) as (m & -> & Hf & Hb & Ho).
  exists (set_ha_metadata m s0). unfold GetFile. cbn [ha_metadata_ set_ha_metadata].
  split_and!; try done; intros p.
  - intros f Hp. by rewrite Hf, Hp.
  - intros Hp. by rewrite Hf, Hp.
Qed.

(** A server that starts from a snapshot hands out identifiers that are in
    use.  The snapshot has no identifier counter, so the first allocation of a
    restarted server, for any file, is block 1 again: it overwrites the entry of
    the block 1 another file has, the two files share it, and deleting the one
    takes the block from the other. *)
Theorem ha_restored_server_reuses_ids evs env (s s0 : Ha) p1 p2 f1 f2 alloc del :
  ha_run clock evs (ha_fresh env) = Some s →
  GetFile p1 (ha_metadata_ s) = Some f1 → 1 ∈ file_blocks f1 →
  GetFile p2 (ha_metadata_ s) = Some f2 → p1 ≠ p2 →
  ha_block_manager_ s0 = BlockManager_new → can_place s0 →
  req_op alloc = ALLOCATE_BLOCK → req_allocate_block alloc = p2 →
  req_op del = DELETE_FILE → req_delete_file del = p2 →
  let r := restore_cb clock ParseStore (TakeMetadataSnapshot SerializeStore s) s0 in
  ∃ t u locs, apply_request clock alloc r = Some t ∧ apply_request clock del t = Some u ∧
    (∃ g1 g2, GetFile p1 (ha_metadata_ t) = Some g1 ∧ GetFile p2 (ha_metadata_ t) = Some g2 ∧
      1 ∈ file_blocks g1 ∧ last (file_blocks g2) = Some 1) ∧
    GetBlock 1 (ha_metadata_ t) = Some (mkBlock 1 0 locs) ∧
    (∃ g1, GetFile p1 (ha_metadata_ u) = Some g1 ∧ 1 ∈ file_blocks g1) ∧
    GetBlock 1 (ha_metadata_ u) = None.
Proof using codec.
  intros Hr Hf1 H1 Hf2 Hne Hbm Hp Ha Hap Hd Hdp r.
  pose proof (ha_run_keyed evs _ _ (fresh_keyed env) Hr) as Hk.
  destruct (restore_snapshot s s0 Hk (codec _)) as (m & E & Hf & _ & _).
  unfold r, restore_cb. rewrite E. cbn [fst]. clear r E.
  unfold GetFile in Hf1, Hf2. pose proof (Hf p1) as G1. pose proof (Hf p2) as G2.
  rewrite Hf1 in G1. rewrite Hf2 in G2.
  set (f1' := touched _ f1) in *. set (f2' := touched _ f2) in *.
  destruct (ApplyAllocateBlock_placed clock p2 f2' (set_ha_metadata m s0)) as (t & locs & Et & _ & Hm & _);
    [exact G2|exact Hp|unfold cursor_ok; cbn [set_ha_metadata ha_block_manager_]; by rewrite Hbm|].
  cbn [set_ha_metadata ha_block_manager_ ha_metadata_ ha_env] in Hm. rewrite Hbm in Hm.
  cbn [BlockManager_new next_block_id_] in Hm.
  set (g2 := mkFile _ _ _ _ (file_blocks f2' ++ [1])) in Hm.
  exists t, (ApplyDeleteFile p2 t), locs. unfold apply_request. rewrite Ha, Hap, Hd, Hdp.
  assert (GetFile p2 (ha_metadata_ t) = Some g2) as T2.
  { unfold GetFile. rewrite Hm. apply lookup_insert_eq. }
  assert (GetFile p1 (ha_metadata_ t) = Some f1') as T1.
  { unfold GetFile. rewrite Hm. cbn [files_]. by rewrite lookup_insert_ne. }
  split; [exact Et|]. split; [done|]. split.
  { exists f1', g2. split_and!; [done|done|exact H1|]. apply last_snoc. }
  split. { unfold GetBlock. rewrite Hm. apply lookup_insert_eq. }
  unfold ApplyDeleteFile. rewrite T2. split.
  - exists f1'. split; [|exact H1]. unfold GetFile, DeleteFile.
    cbn [fst ha_metadata_ set_ha_metadata files_ set_files].
    rewrite delete_blocks_files, lookup_delete_ne by done. exact T1.
  - unfold DeleteFile, GetBlock. cbn [fst ha_metadata_ set_ha_metadata blocks_ set_files].
    apply delete_blocks_gone. unfold g2. cbn [file_blocks]. apply elem_of_app. right. left.
Qed.
End Codec.
End Snapshot.

(** * A client's write *)

(** The leader of a cluster of one, with everything committed and applied. *)
Record sole_leader (st : RaftNode) : Prop := {
  sole_wf : wf_node st;
  sole_state : state_ st = LEADER;
  sole_peers : peers (config_ st) = [my_id_ st];
  sole_commit : commit_index_ st = last_index (log_ st);
  sole_room : last_index (log_ st) + 1 < 2 ^ 64 }.

(** The node after it took, committed and applied one command. *)
Definition took (cmd : bytes) (st st' : RaftNode) : Prop :=
  let i := last_index (log_ st) + 1 in
  log_ st' = log_ st ++ [mkEntry (current_term_ st) i cmd] ∧
  commit_index_ st' = i ∧ last_applied_ st' = i ∧ current_term_ st' = current_term_ st ∧
  state_ st' = LEADER ∧ config_ st' = config_ st ∧ my_id_ st' = my_id_ st.

Lemma entries_in_last log x :
  wf_log (log ++ [x]) → log ≠ [] → last_index log < le_index x → le_command x ≠ [] →
  entries_in (log ++ [x]) (last_index log) (le_index x) = [x].
Proof.
  intros Hw Hne Hlt Hc. unfold entries_in. rewrite filter_app, filter_cons, filter_nil.
  rewrite decide_True by (unfold applies; split_and!; [done|lia|done]).
  replace (filter _ log) with (@nil LogEntry); [done|]. symmetry.
  apply (entries_in_none log (last_index log) (le_index x)), Forall_forall. intros y Hy.
  pose proof (StronglySorted_app_1_l _ _ _ (wf_sorted _ Hw)) as Hs.
  pose proof (sorted_last_ge _ _ Hs Hy). unfold applies. lia.
Qed.

Section Write.
Context {E : Type} (apply : Z → bytes → E → E).
Context (send_rpc_cb_ : bytes → RaftMessage → RaftNode * E → option (RaftNode * E)).

(** [Propose] on such a node returns at once. *)
Lemma Propose_sole cmd wakeups st e :
  sole_leader st → cmd ≠ [] →
  ∃ st', took cmd st st' ∧
    Propose (Some apply) send_rpc_cb_ cmd wakeups (st, e) =
      Some ((st', apply (last_index (log_ st) + 1) cmd e),
            mkResult (Some (last_index (log_ st) + 1)) true true []).
Proof.
  intros [[Hl Hc Ha] Hs Hp Hci Hroom] Hcmd.
  pose proof (wf_log_nonempty _ Hl) as Hne. pose proof (wf_log_last_range _ Hl) as Hr.
  set (i := last_index (log_ st) + 1). set (x := mkEntry (current_term_ st) i cmd).
  assert (wf_log (log_ st ++ [x])) as Hl1 by (apply wf_log_snoc; [done|cbn [le_index x]; lia]).
  unfold Propose, Propose_append, log_back. cbn [fst snd].
  rewrite bool_decide_eq_true_2 by done. rewrite log_back_last by done. cbn [mbind option_bind].
  fold (last_index (log_ st)). rewrite u64_small by lia. fold i x.
  destruct (PersistState_file (set_log_ (log_ st ++ [x]) st)) as [f ->]. raft_simpl.
  set (st1 := set_match_index_ _ _). unfold AdvanceCommitIndex, log_back. cbn [fst].
  assert (log_ st1 = log_ st ++ [x]) as L1 by done.
  assert (commit_index_ st1 = commit_index_ st) as C1 by done.
  rewrite L1, log_back_last by (by apply wf_log_nonempty). cbn [mbind option_bind].
  fold (last_index (log_ st ++ [x])).
  rewrite last_index_snoc. change (le_index x) with i. cbn [pr_is_leader].
  assert (committable st1 i) as Hcm.
  { exists x. unfold GetLogEntry. rewrite L1. split_and!; [|done|].
    - apply (find_index_sorted (log_ st ++ [x]) x); [apply Hl1|]. apply elem_of_app. right. left.
    - change (peers (config_ st1)) with (peers (config_ st)). rewrite Hp, zlen_cons, zlen_nil.
      pose proof (zlen_nonneg (holders st1 i)). lia. }
  destruct (AdvanceCommitIndex_loop_spec (Some apply) (S (Z.to_nat (i - commit_index_ st1))) i st1 e)
    as [(m & Hm & _ & _ & ->)|[Hno _]]; [lia|lia| |exfalso; by apply (Hno i); [lia|]].
  assert (m = i) as -> by lia.
  rewrite ApplyCommitted_spec; raft_simpl; [|rewrite L1; apply Hl1|change (last_applied_ st1) with (last_applied_ st); lia|lia].
  change (last_applied_ st1) with (last_applied_ st). rewrite Ha, Hci, L1.
  pose proof (entries_in_last (log_ st) x Hl1 Hne) as He.
  change (le_index x) with i in He. rewrite He by (done || lia). cbn [apply_all foldl].
  rewrite Z.max_r by lia. cbn [mbind option_bind]. unfold SendHeartbeats. cbn [fst].
  set (st2 := set_last_applied_ i _).
  assert (state_ st2 = LEADER) as S2 by done. rewrite S2, bool_decide_eq_true_2 by done.
  change (peers (config_ st2)) with (peers (config_ st)). rewrite Hp.
  cbn [SendHeartbeats_loop fst]. change (my_id_ st2) with (my_id_ st).
  rewrite bool_decide_eq_true_2 by done. cbn [mbind option_bind].
  exists st2. split; [by unfold took|].
  destruct wakeups; cbn [Propose_wait]; unfold Propose_poll; cbn [fst pr_index default from_option];
    change (commit_index_ st2) with i; rewrite Z.leb_refl; done.
Qed.
End Write.

(** What a client that writes gets, and what becomes of the tables. *)
Inductive write_outcome `{Iteration} {Env : Type} (clock : Env → Z) (req : NameNodeRequest)
    (s : HaState Env) : HaState Env → NameNodeResponse → Prop :=
| wo_created path s' :
    req_op req = CREATE_FILE → req_create_file req = path → GetFile path (ha_metadata_ s) = None →
    s' = set_ha_metadata (set_files (<[path := mkFile path 0 (clock (ha_env s)) (clock (ha_env s)) []]>
           (files_ (ha_metadata_ s))) (ha_metadata_ s)) s →
    write_outcome clock req s s' ok
| wo_exists path f :
    req_op req = CREATE_FILE → req_create_file req = path → GetFile path (ha_metadata_ s) = Some f →
    write_outcome clock req s s ok
| wo_deleted path f s' :
    req_op req = DELETE_FILE → req_delete_file req = path → GetFile path (ha_metadata_ s) = Some f →
    files_ (ha_metadata_ s') = delete path (files_ (ha_metadata_ s)) →
    (∀ id, GetBlock id (ha_metadata_ s') =
      if bool_decide (id ∈ file_blocks f) then None else GetBlock id (ha_metadata_ s)) →
    write_outcome clock req s s' ok
| wo_delete_missing path :
    req_op req = DELETE_FILE → req_delete_file req = path → GetFile path (ha_metadata_ s) = None →
    write_outcome clock req s s ok
| wo_allocated path f id locs s' :
    req_op req = ALLOCATE_BLOCK → req_allocate_block req = path →
    GetFile path (ha_metadata_ s) = Some f → ha_usable s ≠ [] →
    id = next_block_id_ (ha_block_manager_ s) → locs ≠ [] →
    GetBlock id (ha_metadata_ s') = Some (mkBlock id 0 locs) →
    file_blocks <$> GetFile path (ha_metadata_ s') = Some (file_blocks f ++ [id]) →
    write_outcome clock req s s' (allocated id locs)
| wo_old_block path f id :
    req_op req = ALLOCATE_BLOCK → req_allocate_block req = path →
    GetFile path (ha_metadata_ s) = Some f → ha_usable s = [] → last (file_blocks f) = Some id →
    write_outcome clock req s s (allocated id (GetBlockLocations id (ha_metadata_ s)))
| wo_refused path :
    req_op req = ALLOCATE_BLOCK → req_allocate_block req = path →
    GetFile path (ha_metadata_ s) = None ∨
      (ha_usable s = [] ∧ file_blocks <$> GetFile path (ha_metadata_ s) = Some []) →
    write_outcome clock req s s (error (str "Block allocation failed")).

Definition is_write (req : NameNodeRequest) : Prop :=
  req_op req ∈ [CREATE_FILE; DELETE_FILE; ALLOCATE_BLOCK].

Section Client.
Context `{Iteration} {Env : Type} (clock : Env → Z).
Context (ParseRequest : bytes → option NameNodeRequest) (SerializeRequest : NameNodeRequest → option bytes).
Context (steady : Env → Z) (random : Z → Z → Env → Z * Env) (SerializeResponse : NameNodeResponse → bytes).
Context (SerializeMessage : RaftMessage → bytes) (ParseMessage : bytes → option RaftMessage).
Context (exchange : bytes → Z → bytes → Env → Env * option (option bytes)).

Lemma apply_write req (s : HaState Env) :
  is_write req → cursor_ok s → zlen (ha_usable s) < 2 ^ 31 →
  ∃ s', apply_request clock req s = Some s' ∧ write_outcome clock req s s' (write_answer req s').
Proof.
  unfold is_write. intros Hw Hc Hz. unfold apply_request, write_answer.
  destruct (req_op req) eqn:Hop; try by (exfalso; clear -Hw; set_solver).
  - eexists. split; [done|]. unfold ApplyCreateFile, CreateFile.
    destruct (files_ (ha_metadata_ s) !! req_create_file req) as [f|] eqn:Hf; cbn [fst].
    + assert (set_ha_metadata (ha_metadata_ s) s = s) as -> by (by destruct s).
      unfold GetFile. rewrite Hf. by eapply wo_exists.
    + unfold GetFile at 1. cbn [ha_metadata_ set_ha_metadata files_ set_files].
      rewrite lookup_insert_eq. by eapply wo_created.
  - destruct (GetFile (req_allocate_block req) (ha_metadata_ s)) as [f|] eqn:Hf.
    + destruct (decide (ha_usable s = [])) as [Hu|Hu].
      * rewrite ApplyAllocateBlock_full by done. exists s. split; [done|].
        rewrite Hf. cbn [mbind option_bind]. destruct (last (file_blocks f)) as [id|] eqn:Hl.
        -- by eapply wo_old_block.
        -- eapply wo_refused; [done..|]. right. split; [done|]. rewrite Hf.
           apply last_None in Hl. cbn. by rewrite Hl.
      * destruct (ApplyAllocateBlock_placed clock _ f s Hf (conj Hu Hz) Hc)
          as (s' & locs & -> & Hlocs & Hm & _).
        exists s'. split; [done|]. rewrite Hm. unfold GetFile, GetBlock. cbn [files_ blocks_].
        rewrite lookup_insert_eq. cbn [mbind option_bind file_blocks]. rewrite last_snoc, lookup_insert_eq.
        cbn [block_locations]. eapply wo_allocated; [done..| |].
        -- unfold GetBlock. rewrite Hm. apply lookup_insert_eq.
        -- unfold GetFile. rewrite Hm. cbn [files_]. by rewrite lookup_insert_eq.
    + exists s. unfold ApplyAllocateBlock. rewrite Hf. split; [done|].
      eapply wo_refused; [done..|]. by left.
  - eexists. split; [done|]. unfold ApplyDeleteFile.
    destruct (GetFile (req_delete_file req) (ha_metadata_ s)) as [f|] eqn:Hf.
    + unfold DeleteFile, GetFile at 1. cbn [fst ha_metadata_ set_ha_metadata files_ set_files].
      rewrite lookup_delete_eq. eapply wo_deleted; [done..| |].
      * cbn [ha_metadata_ set_ha_metadata files_ set_files]. by rewrite delete_blocks_files.
      * intros id. unfold GetBlock. cbn [ha_metadata_ set_ha_metadata blocks_ set_files].
        case_bool_decide; [by apply delete_blocks_gone|by apply delete_blocks_other].
    + rewrite Hf. by eapply wo_delete_missing.
Qed.

(** C11: a write to a leader without followers is committed, applied and answered
    at once.  The node takes exactly one entry, holding the request, and the
    tables change as the request says.  But the answer, which the code reads off
    the tables afterwards, does not tell success from failure: creating a file
    that exists and deleting one that does not are answered with success, and an
    allocation that found no data node is answered with the file's previous last
    block, as if it were new. *)
Theorem ha_write_answers data cmd req wakeups st (s : HaState Env) :
  sole_leader st → cursor_ok s → zlen (ha_usable s) < 2 ^ 31 → is_write req →
  ParseRequest data = Some req →
  SerializeRequest req = Some cmd → ParseRequest cmd = Some req → cmd ≠ [] →
  ∃ st' s' r, ProcessClientRequest clock ParseRequest steady random SerializeRequest
      SerializeResponse SerializeMessage ParseMessage exchange data wakeups (st, s) =
      Some ((st', s'), Some (SerializeResponse (set_request_id (req_id req) r))) ∧
    took cmd st st' ∧ write_outcome clock req s s' r.
Proof.
  intros Hst Hc Hz Hw Hd Hser Hpar Hne. destruct (apply_write req s Hw Hc Hz) as (s' & Ha & Ho).
  destruct (Propose_sole (apply_cb clock ParseRequest)
    (OnSendRaftRPC clock ParseRequest steady random SerializeMessage ParseMessage exchange)
    cmd wakeups st s Hst Hne) as (st' & Ht & Hp).
  assert (ProposeWrite clock ParseRequest steady random SerializeRequest SerializeMessage ParseMessage
    exchange req wakeups (st, s) = Some ((st', s'), set_request_id (req_id req) (write_answer req s'))) as Hpw.
  { unfold ProposeWrite, IsLeader. cbn [fst]. rewrite bool_decide_eq_true_2 by apply Hst. cbn [negb].
    rewrite Hser, Hp. cbn [mbind option_bind pr_is_leader pr_committed negb snd].
    unfold apply_cb, OnApplyCommitted. rewrite Hpar, Ha. done. }
  exists st', s', (write_answer req s'). split; [|done]. unfold ProcessClientRequest. rewrite Hd.
  unfold serve_client, is_write in *.
  destruct (req_op req) eqn:Hop; try by (exfalso; clear -Hw; set_solver).
  all: rewrite Hpw; done.
Qed.
End Client.

(** * Concrete runs *)

#[export] Instance FileEntry_countable : Countable FileEntry.
Proof.
  apply (inj_countable' (λ f, (fe_path f, fe_size f, fe_create_time f, fe_modify_time f, fe_blocks f))
    (λ '(a, b, c, d, e), mkFileEntry a b c d e)). by intros [].
Defined.
#[export] Instance BlockEntry_countable : Countable BlockEntry.
Proof.
  apply (inj_countable' (λ b, (be_block_id b, be_size b, be_locations b))
    (λ '(a, b, c), mkBlockEntry a b c)). by intros [].
Defined.
#[export] Instance MetadataStoreSnapshot_countable : Countable MetadataStoreSnapshot.
Proof.
  apply (inj_countable' (λ s, (snap_files s, snap_blocks s)) (λ '(a, b), mkStoreSnapshot a b)).
  by intros [].
Defined.

(** The environment of the runs is the clock. *)
Definition wall (e : Z) : Z := e.

Definition demo_node (d : string) : RegisterDataNodeRequest :=
  mkRegister (str d) (str "h") 9000 (2 * kBlockSize).

(** Two replicas that hear of different data nodes, at different times. *)
Definition replica_1 : list (HaEvent Z) :=
  [HaRegister (demo_node "d1"); HaApply (demo_create "/a"); HaTick 7; HaApply (demo_allocate "/a");
   HaApply (demo_create "/b"); HaApply (demo_allocate "/b")].
Definition replica_2 : list (HaEvent Z) :=
  [HaApply (demo_create "/a"); HaRegister (demo_node "d2"); HaRegister (demo_node "d3");
   HaApply (demo_allocate "/a"); HaTick 50; HaHealth; HaApply (demo_create "/b");
   HaReport (mkReport (str "d3") [mkReportItem 1 5 0]); HaApply (demo_allocate "/b")].

(** [always_places], computed. *)
Definition can_placeb (s : HaState Z) : bool :=
  bool_decide (ha_usable s ≠ []) && (zlen (ha_usable s) <? 2 ^ 31).
Fixpoint always_placesb (evs : list (HaEvent Z)) (s : HaState Z) : bool :=
  match evs with
  | [] => true
  | ev :: evs =>
      match ev with
      | HaApply req => if bool_decide (req_op req = ALLOCATE_BLOCK) then can_placeb s else true
      | _ => true
      end &&
      match ha_step wall ev s with Some s => always_placesb evs s | None => true end
  end.

Lemma can_placeb_ok s : can_placeb s = true → can_place s.
Proof. unfold can_placeb. intros [H1%bool_decide_eq_true H2%Z.ltb_lt]%andb_true_iff. by split. Qed.

Lemma always_placesb_ok evs s : always_placesb evs s = true → always_places wall evs s.
Proof.
  revert s. induction evs as [|ev evs IH]; intros s; cbn [always_placesb always_places]; [done|].
  intros [Hev Hr]%andb_true_iff. split.
  - destruct ev; try done. intros Hop. rewrite bool_decide_eq_true_2 in Hev by done.
    by apply can_placeb_ok.
  - destruct (ha_step wall ev s); [by apply IH|done].
Qed.

Lemma ha_replicas_agree_witness :
  ∃ s1' s2', ha_run wall replica_1 (ha_fresh 0) = Some s1' ∧ ha_run wall replica_2 (ha_fresh 3) = Some s2' ∧
    view s1' = view s2' ∧ view s1' = foldl view_step (view (ha_fresh 0)) (commands replica_1).
Proof.
  apply ha_replicas_agree; [done|done|done|by vm_compute|
    apply always_placesb_ok; by vm_compute|apply always_placesb_ok; by vm_compute].
Defined.

(** A server with a file, one with a data node and one without. *)
Definition demo_with_node : HaState Z :=
  default (ha_fresh 0) (ha_run wall [HaApply (demo_create "/a"); HaRegister (demo_node "d1")] (ha_fresh 0)).
Definition demo_without_node : HaState Z :=
  default (ha_fresh 0) (ha_run wall [HaApply (demo_create "/a")] (ha_fresh 0)).

(** The second server hears of the data node right after. *)
Lemma ha_missed_allocation_diverges_witness :
  ∃ s1' s2', ha_run wall [HaApply (demo_allocate "/a"); HaApply (demo_create "/b")] demo_with_node = Some s1' ∧
    ha_run wall [HaApply (demo_allocate "/a"); HaRegister (demo_node "d1"); HaApply (demo_create "/b")]
      demo_without_node = Some s2' ∧
    v_next (view s1') = u64 (v_next (view s2') + 1) ∧
    ∀ next, req_op next = ALLOCATE_BLOCK → req_allocate_block next = str "/a" →
      v_files (view_step (view s1') next) !! str "/a" ≠ v_files (view_step (view s2') next) !! str "/a".
Proof.
  apply (ha_missed_allocation_diverges wall (demo_allocate "/a") (str "/a") []
    [HaApply (demo_create "/b")] [HaRegister (demo_node "d1"); HaApply (demo_create "/b")]);
    [by vm_compute|by vm_compute|by vm_compute|done|by vm_compute|apply can_placeb_ok; by vm_compute|
     by vm_compute|by vm_compute| | |].
  - intros s _. cbn [always_places]. split; [done|]. by destruct (ha_step _ _ _).
  - apply always_placesb_ok. by vm_compute.
  - apply (bool_decide_unpack _). by vm_compute.
Defined.

(** A run that leaves two files with a block each. *)
Definition demo_cluster : HaState Z := default (ha_fresh 0) (ha_run wall replica_1 (ha_fresh 0)).

Lemma demo_cluster_run : ha_run wall replica_1 (ha_fresh 0) = Some demo_cluster.
Proof.
  unfold demo_cluster.
  assert (is_Some (ha_run wall replica_1 (ha_fresh 0))) as [s ->] by (apply (bool_decide_unpack _); by vm_compute).
  done.
Qed.

Lemma ha_snapshot_roundtrip_witness :
  ∃ s', RestoreMetadataSnapshot wall unpack (TakeMetadataSnapshot pack demo_cluster) demo_with_node = (s', true) ∧
    (∀ p f, GetFile p (ha_metadata_ demo_cluster) = Some f →
      GetFile p (ha_metadata_ s') = Some (touched (wall (ha_env demo_with_node)) f)) ∧
    (∀ id b, owned (ha_metadata_ demo_cluster) id → GetBlock id (ha_metadata_ demo_cluster) = Some b →
      GetBlock id (ha_metadata_ s') = Some b) ∧
    (∀ p, GetFile p (ha_metadata_ demo_cluster) = None →
      GetFile p (ha_metadata_ s') = GetFile p (ha_metadata_ demo_with_node)) ∧
    (∀ id, ¬ (owned (ha_metadata_ demo_cluster) id ∧ is_Some (GetBlock id (ha_metadata_ demo_cluster))) →
      GetBlock id (ha_metadata_ s') = GetBlock id (ha_metadata_ demo_with_node)) ∧
    ha_block_manager_ s' = ha_block_manager_ demo_with_node ∧
    ha_dn_manager_ s' = ha_dn_manager_ demo_with_node.
Proof. apply (ha_snapshot_roundtrip wall pack unpack unpack_pack replica_1 0), demo_cluster_run. Defined.

(** A restarted server whose first news is a data node. *)
Definition demo_restarted : HaState Z :=
  default (ha_fresh 9) (ha_run wall [HaRegister (demo_node "d1")] (ha_fresh 9)).

Lemma ha_restored_server_reuses_ids_witness :
  let r := restore_cb wall unpack (TakeMetadataSnapshot pack demo_cluster) demo_restarted in
  ∃ t u locs, apply_request wall (demo_allocate "/b") r = Some t ∧
    apply_request wall (demo_delete "/b") t = Some u ∧
    (∃ g1 g2, GetFile (str "/a") (ha_metadata_ t) = Some g1 ∧ GetFile (str "/b") (ha_metadata_ t) = Some g2 ∧
      1 ∈ file_blocks g1 ∧ last (file_blocks g2) = Some 1) ∧
    GetBlock 1 (ha_metadata_ t) = Some (mkBlock 1 0 locs) ∧
    (∃ g1, GetFile (str "/a") (ha_metadata_ u) = Some g1 ∧ 1 ∈ file_blocks g1) ∧
    GetBlock 1 (ha_metadata_ u) = None.
Proof.
  apply (ha_restored_server_reuses_ids wall pack unpack unpack_pack replica_1 0 demo_cluster demo_restarted
    (str "/a") (str "/b") (mkFile (str "/a") 0 0 7 [1]) (mkFile (str "/b") 0 7 7 [2]));
    [apply demo_cluster_run|by vm_compute|by left|by vm_compute|done|by vm_compute|
     apply can_placeb_ok; by vm_compute|done|done|done|done].
Defined.

(** A leader alone in its cluster. *)
Definition demo_sole : RaftNode :=
  set_state_ LEADER (RaftNode_new (ha_raft_config (str "/data") (str "h") 1 [str "h:1"]) Whole None None).

Lemma demo_sole_leader : sole_leader demo_sole.
Proof.
  split; [split; [solve_log|by vm_compute|done]|done|by vm_compute|by vm_compute|by vm_compute].
Qed.

(** Creating [/a] again. *)
Lemma ha_write_answers_witness :
  is_Some (GetFile (str "/a") (ha_metadata_ demo_with_node)) ∧
  ∃ st' s' r, ProcessClientRequest wall (table_par demo_requests) wall (λ a _ e, (a, e))
      (table_ser demo_requests) pack (λ _, []) (λ _, None) (λ _ _ _ e, (e, None)) (str "create /a") []
      (demo_sole, demo_with_node) = Some ((st', s'), Some (pack (set_request_id 1 r))) ∧
    took (str "create /a") demo_sole st' ∧ write_outcome wall (demo_create "/a") demo_with_node s' r.
Proof.
  split; [apply (bool_decide_unpack _); by vm_compute|].
  apply (ha_write_answers wall (table_par demo_requests) (table_ser demo_requests) wall (λ a _ e, (a, e)) pack
    (λ _, []) (λ _, None) (λ _ _ _ e, (e, None)) (str "create /a") (str "create /a") (demo_create "/a"));
    [apply demo_sole_leader|by vm_compute|by vm_compute|left|by vm_compute|by vm_compute|by vm_compute|done].
Defined.
