(* ===== verification/HaCluster.v ===== *)
(** The high-availability name node as a cluster: src/namenode/namenode_ha_server.cc over
    src/raft/raft_node.cc.

    [HaServer] says what the tables do with the commands they are given, [RaftReign]
    which commands a node gives to its callback.  Here the second is instantiated
    with the first: the servers of a cluster go through the same name spaces. *)
From S2P Require Import Prelude Coding Raft RaftRpc RaftDurable RaftElection RaftReplication RaftLog RaftReign Metadata NameNode HaServer.

(** * The tables as the state machine of the log *)

Section Cluster.
Context `{Iteration} {Env : Type} (clock steady : Env → Z) (random : Z → Z → Env → Z * Env).
Context (ParseRequest : bytes → option NameNodeRequest).
Abbreviation Ha := (HaState Env).
Abbreviation World := (RaftNode * Ha)%type.
Abbreviation Members := (gmap bytes World).
Abbreviation apply := (apply_cb clock ParseRequest).
Abbreviation draw := (ha_uniform_int random).

(** A command that is not a request changes nothing. *)
Definition run_command (v : View) (command : bytes) : View :=
  match ParseRequest command with Some req => view_step v req | None => v end.

(** The server can do what the command asks. *)
Definition can_run (command : bytes) (s : Ha) : Prop :=
  ∀ req, ParseRequest command = Some req → req_op req = ALLOCATE_BLOCK → can_place s.

Lemma ApplyAllocateBlock_nodes path s s' :
  ApplyAllocateBlock clock path s = Some s' → ha_dn_manager_ s' = ha_dn_manager_ s.
Proof using Type.
  unfold ApplyAllocateBlock. destruct (GetFile _ _); [|by intros [= <-]].
  destruct (GetAliveDataNodes _); [by intros [= <-]|]. intros Hs. apply bind_Some in Hs as ([b r] & _ & Hs).
  destruct r; by injection Hs as <-.
Qed.

Lemma apply_request_nodes req s s' : apply_request clock req s = Some s' → ha_dn_manager_ s' = ha_dn_manager_ s.
Proof using Type.
  unfold apply_request. destruct (req_op req); try by intros [= <-].
  - apply ApplyAllocateBlock_nodes.
  - intros [= <-]. unfold ApplyDeleteFile. by destruct (GetFile _ _).
Qed.

Lemma apply_cb_nodes i c s : ha_dn_manager_ (apply i c s) = ha_dn_manager_ s.
Proof using Type.
  unfold apply_cb, OnApplyCommitted. destruct (ParseRequest c) as [req|]; [|done].
  destruct (apply_request clock req s) eqn:E; [|done]. by eapply apply_request_nodes.
Qed.

Lemma apply_cb_runs i c s :
  cursor_ok s → can_run c s → view (apply i c s) = run_command (view s) c ∧ cursor_ok (apply i c s).
Proof using Type.
  intros Hc Hr. unfold apply_cb, OnApplyCommitted, run_command. unfold can_run in Hr.
  destruct (ParseRequest c) as [req|]; [|done].
  destruct (ha_step_view clock (HaApply req) s Hc (Hr req eq_refl)) as (s' & E & Hc' & Hv).
  cbn [ha_step] in E. by rewrite E.
Qed.

#[export] Instance ha_machine : StateMachine (S := View) draw apply.
Proof using Type.
  refine {| sm := view; exec := λ _ c v, run_command v c; sm_valid := cursor_ok; sm_ready := can_run |}.
  - intros i c s. apply apply_cb_runs.
  - intros i c s c' _ _ Hr req Hp Ho. specialize (Hr req Hp Ho). unfold can_place, ha_usable in *. by rewrite apply_cb_nodes.
  - intros a b s. unfold ha_uniform_int. by destruct (random a b (ha_env s)).
  - intros a b s. unfold ha_uniform_int. by destruct (random a b (ha_env s)).
  - intros a b s c. unfold ha_uniform_int. by destruct (random a b (ha_env s)).
Defined.

(** ** A cluster under one leader *)

Abbreviation cluster_step := (reign_step (ha_now steady) draw apply).
Abbreviation cluster_quiet := (quiet_step (ha_now steady) draw apply).

(** The state of the tables of every server before the first command. *)
Definition opening : View := mkView ∅ 1.

(** The steps of a cluster leave room for what a server's data nodes and its own
    timer do to its tables. *)
Lemma table_event_step (l : bytes) (c : Members) (sent : list AppendEntriesRequest) (id : bytes) (st : RaftNode) (s s' : Ha) (ev : HaEvent Env) :
  c !! id = Some (st, s) → cursor_ok s → (∀ req, ev ≠ HaApply req) → ha_step clock ev s = Some s' →
  cluster_quiet l (c, sent) (<[id := (st, s')]> c, sent).
Proof using Type.
  intros Hw Hc Hev Hs.
  destruct (ha_step_view clock ev s Hc) as (s1 & E & Hc1 & Hv); [by destruct ev; try destruct (Hev req)|].
  rewrite E in Hs. injection Hs as <-. apply (qs_env _ _ _ _ _ _ id st s); [done| |done].
  change (view s1 = view s). rewrite Hv. destruct ev as [req| | | | |]; [by destruct (Hev req)|done..].
Qed.

(** The requests among the commands of some entries. *)
Definition requests (es : list LogEntry) : list NameNodeRequest := omap (λ e, ParseRequest (le_command e)) es.

Lemma run_requests es v :
  apply_all (exec (StateMachine := ha_machine)) es v = foldl view_step v (requests es).
Proof using Type.
  unfold apply_all. revert v. induction es as [|x es IH]; intros v; [done|]. cbn [foldl exec ha_machine]. rewrite IH.
  unfold requests, run_command. cbn [omap list_omap]. by destruct (ParseRequest (le_command x)).
Qed.

Lemma cluster_view (l : bytes) (c0 c : Members) (sent : list AppendEntriesRequest) (wl : World) (id : bytes) (w : World) :
  enthroned draw apply opening l c0 → rtc (cluster_step l) (c0, []) (c, sent) →
  c !! l = Some wl → c !! id = Some w →
  dense (log_ (fst wl)) ∧ 0 <= commit_index_ (fst w) <= commit_index_ (fst wl) ∧
  view (snd w) = foldl view_step opening (requests (entries_in (log_ (fst wl)) 0 (commit_index_ (fst w)))).
Proof using Type.
  intros H0 Hs Hwl Hw. pose proof (reign_run_ok _ _ _ opening _ _ _ (enthroned_ok _ _ _ _ _ H0) Hs) as Hok.
  destruct (reign_ok_replicas _ _ _ _ _ _ _ _ _ Hok Hwl Hw) as [Hd [Hwf _ _ Hl Hb Hc _ Hst]].
  split; [done|]. split; [split; [apply (wf_commit _ Hwf)|done]|]. rewrite <- run_requests.
  change (view (snd w)) with (sm (StateMachine := ha_machine) (snd w)). rewrite Hst. f_equal.
  apply entries_in_prefix; [apply Hd|done|apply wf_log_nonempty, Hwf|done].
Qed.

(** C2: the servers of a cluster show one history.  While one server takes the writes
    and sends the append messages, and none restarts or takes a snapshot, whatever is
    lost or reordered and whatever each server hears of its data nodes, as long as
    every server has a usable data node whenever it applies an allocation (otherwise
    [HaServer.ha_missed_allocation_diverges]): the name space of every server is the one the leader's
    committed requests define, up to the server's own position.  A server that lags
    shows an earlier state of the same history, and servers at one position agree. *)
Theorem ha_cluster_one_history (l : bytes) (c0 c : Members) (sent : list AppendEntriesRequest) (wl : World) (id1 id2 : bytes) (w1 w2 : World) :
  enthroned draw apply opening l c0 → rtc (cluster_step l) (c0, []) (c, sent) →
  c !! l = Some wl → c !! id1 = Some w1 → c !! id2 = Some w2 →
  commit_index_ (fst w1) <= commit_index_ (fst w2) →
  commit_index_ (fst w2) <= commit_index_ (fst wl) ∧
  view (snd w1) = foldl view_step opening (requests (entries_in (log_ (fst wl)) 0 (commit_index_ (fst w1)))) ∧
  view (snd w2) = foldl view_step (view (snd w1))
    (requests (entries_in (log_ (fst wl)) (commit_index_ (fst w1)) (commit_index_ (fst w2)))) ∧
  (commit_index_ (fst w1) = commit_index_ (fst w2) → view (snd w1) = view (snd w2)).
Proof using Type.
  intros H0 Hs Hwl Hw1 Hw2 Hle.
  destruct (cluster_view _ _ _ _ _ _ _ H0 Hs Hwl Hw1) as (Hd & Hb1 & Hv1).
  destruct (cluster_view _ _ _ _ _ _ _ H0 Hs Hwl Hw2) as (_ & Hb2 & Hv2).
  split_and!; [apply Hb2|done| |intros E; by rewrite Hv1, Hv2, E]. rewrite Hv2, Hv1, <- foldl_app. f_equal.
  rewrite (entries_in_split _ 0 (commit_index_ (fst w1))) by (apply Hd || lia).
  unfold requests. by rewrite omap_app.
Qed.
End Cluster.

(** * A concrete cluster *)

(** Two servers; the first leads and has a data node.  It takes two writes and sends
    them, the second server appends them, and its answer commits them; the second
    server has not heard of that yet. *)
Definition cluster_requests : list (NameNodeRequest * bytes) :=
  [(demo_create "/a", str "create /a"); (demo_allocate "/a", str "allocate /a")].
Definition still (a _ : Z) (e : Z) : Z * Z := (a, e).
Abbreviation server := (RaftNode * HaState Z)%type.
Abbreviation demo_apply := (apply_cb wall (table_par cluster_requests)).
Abbreviation demo_tables := (ha_machine wall still (table_par cluster_requests)).
Abbreviation demo_cluster_step :=
  (reign_step (ha_now wall) (ha_uniform_int still) demo_apply (SM := demo_tables) (str "h:1")).

Definition ha_peers : list bytes := [str "h:1"; str "g:1"].
Definition new_server (host : string) : server :=
  HANameNodeServer_new (str "/data") (str host) 1 ha_peers Whole None None 0.
Definition head_0 : RaftNode :=
  set_match_index_ {[ str "h:1" := 0; str "g:1" := 0 ]} (set_state_ LEADER (set_current_term_ 1 (fst (new_server "h")))).
Definition tables_1 : HaState Z :=
  default (ha_fresh 0) (ha_step wall (HaRegister (demo_node "d1")) (snd (new_server "h"))).
Definition head_1 : RaftNode := default head_0 (fst <$> Propose_append (str "create /a") head_0).
Definition head_2 : RaftNode := default head_1 (fst <$> Propose_append (str "allocate /a") head_1).
Definition writes : AppendEntriesRequest := heartbeat_request head_2 1.
Definition second_1 : server :=
  default (new_server "g")
    (HandleAppendEntries (ha_now wall) (ha_uniform_int still) (Some demo_apply) (str "h:1") writes (new_server "g")).
Definition first_3 : server :=
  default (head_2, tables_1)
    (HandleAppendEntriesResponse (Some demo_apply) (str "g:1") (ae_resp_ (fst second_1)) (head_2, tables_1)).

Definition servers_0 : gmap bytes server := {[ str "h:1" := (head_0, snd (new_server "h")); str "g:1" := new_server "g" ]}.
Definition servers_1 : gmap bytes server := <[str "h:1" := (head_0, tables_1)]> servers_0.
Definition servers_2 : gmap bytes server := <[str "h:1" := (head_1, tables_1)]> servers_1.
Definition servers_3 : gmap bytes server := <[str "h:1" := (head_2, tables_1)]> servers_2.
Definition servers_4 : gmap bytes server := <[str "g:1" := second_1]> servers_3.
Definition servers_5 : gmap bytes server := <[str "h:1" := first_3]> servers_4.

Lemma servers_enthroned :
  enthroned (ha_uniform_int still) demo_apply (SM := demo_tables) opening (str "h:1") servers_0.
Proof.
  split; [by eexists; vm_compute|].
  assert (map_Forall (λ (_ : bytes) (w : server), log_ (fst w) = [dummy_entry] ∧ commit_index_ (fst w) = 0 ∧
    last_applied_ (fst w) = 0 ∧ snapshot_last_index_ (fst w) = 0 ∧ snapshot_last_term_ (fst w) = 0 ∧
    round_robin_index_ (ha_block_manager_ (snd w)) = 0 ∧ files_ (ha_metadata_ (snd w)) = ∅ ∧
    next_block_id_ (ha_block_manager_ (snd w)) = 1) servers_0) as HF
    by (apply (bool_decide_unpack _); by vm_compute).
  intros id w Hw. destruct (HF id w Hw) as (? & ? & ? & ? & ? & Hr & Hf & Hn). split_and!; try done.
  - change (view (snd w) = opening). unfold view, opening. by rewrite Hf, Hn, fmap_empty.
  - change (cursor_ok (snd w)). unfold cursor_ok. lia.
Qed.

Lemma servers_register : demo_cluster_step (servers_0, []) (servers_1, []).
Proof.
  apply rs_quiet, (table_event_step wall wall still (table_par cluster_requests) _ _ _ (str "h:1") head_0
    (snd (new_server "h")) tables_1 (HaRegister (demo_node "d1"))); [by vm_compute|by vm_compute|done|by vm_compute].
Qed.

Lemma proposed (command : string) (st : RaftNode) :
  is_Some (Propose_append (str command) st) →
  ∃ r, Propose_append (str command) st = Some (default st (fst <$> Propose_append (str command) st), r).
Proof. intros [[st' r] E]. exists r. by rewrite E. Qed.

Lemma servers_create : demo_cluster_step (servers_1, []) (servers_2, []).
Proof.
  destruct (proposed "create /a" head_0) as [r Hr]; [apply (bool_decide_unpack _); by vm_compute|].
  apply rs_quiet, (qs_propose _ _ _ _ _ _ head_0 tables_1 (str "create /a") head_1 r);
    [apply lookup_insert_eq|by vm_compute|exact Hr].
Qed.

Lemma servers_allocate : demo_cluster_step (servers_2, []) (servers_3, []).
Proof.
  destruct (proposed "allocate /a" head_1) as [r Hr]; [apply (bool_decide_unpack _); by vm_compute|].
  apply rs_quiet, (qs_propose _ _ _ _ _ _ head_1 tables_1 (str "allocate /a") head_2 r);
    [apply lookup_insert_eq|by vm_compute|exact Hr].
Qed.

Lemma servers_send : demo_cluster_step (servers_3, []) (servers_3, [writes]).
Proof. apply rs_quiet, (qs_send _ _ _ _ _ _ (head_2, tables_1) 1); [apply lookup_insert_eq|by vm_compute]. Qed.

Lemma servers_append : demo_cluster_step (servers_3, [writes]) (servers_4, [writes]).
Proof.
  apply (rs_append _ _ _ _ _ _ (str "g:1") (new_server "g") (str "h:1") writes);
    [by apply (bool_decide_unpack _); vm_compute|by vm_compute|by left|computed|].
  assert (entries_in (log_ (fst second_1)) (commit_index_ (fst (new_server "g"))) (commit_index_ (fst second_1)) = []) as E
    by by vm_compute.
  unfold ready_for. rewrite E. by intros x ?%elem_of_nil.
Qed.

Lemma servers_commit : demo_cluster_step (servers_4, [writes]) (servers_5, [writes]).
Proof.
  apply (rs_response _ _ _ _ _ _ (head_2, tables_1) (str "g:1") (ae_resp_ (fst second_1))); [by vm_compute|computed|].
  intros x _ req _ _. apply can_placeb_ok. by vm_compute.
Qed.

Lemma servers_run : rtc demo_cluster_step (servers_0, []) (servers_5, [writes]).
Proof.
  eapply rtc_l; [exact servers_register|]. eapply rtc_l; [exact servers_create|].
  eapply rtc_l; [exact servers_allocate|]. eapply rtc_l; [exact servers_send|].
  eapply rtc_l; [exact servers_append|]. eapply rtc_l; [exact servers_commit|apply rtc_refl].
Qed.

Lemma servers_first : servers_5 !! str "h:1" = Some first_3.
Proof. apply lookup_insert_eq. Qed.

Lemma servers_second : servers_5 !! str "g:1" = Some second_1.
Proof. unfold servers_5, servers_4. rewrite lookup_insert_ne by done. apply lookup_insert_eq. Qed.

(** The second server is two commands behind the first. *)
Lemma ha_cluster_one_history_witness :
  commit_index_ (fst second_1) = 0 ∧ view (snd first_3) = mkView {[ str "/a" := [1] ]} 2 ∧
  commit_index_ (fst first_3) <= commit_index_ (fst first_3) ∧
  view (snd second_1) = foldl view_step opening
    (requests (table_par cluster_requests) (entries_in (log_ (fst first_3)) 0 (commit_index_ (fst second_1)))) ∧
  view (snd first_3) = foldl view_step (view (snd second_1))
    (requests (table_par cluster_requests)
      (entries_in (log_ (fst first_3)) (commit_index_ (fst second_1)) (commit_index_ (fst first_3)))) ∧
  (commit_index_ (fst second_1) = commit_index_ (fst first_3) → view (snd second_1) = view (snd first_3)).
Proof.
  split; [by vm_compute|]. split; [by vm_compute|].
  assert (commit_index_ (fst second_1) <= commit_index_ (fst first_3)) as Hle by by vm_compute.
  exact (ha_cluster_one_history wall wall still (table_par cluster_requests) (str "h:1") servers_0 servers_5 [writes]
    first_3 (str "g:1") (str "h:1") second_1 first_3 servers_enthroned servers_run servers_first servers_second
    servers_first Hle).
Defined.
